(* ===== verification/_CoqProject ===== *)
-Q . S2P
Prelude.v
Wire.v
WireSpec.v
Framing.v
WireProps.v
Types.v
Messages.v
MessagesSpec.v
MessagesProps.v
KeyCodes.v
Effects.v
OpenSSL.v
World.v
Certificate.v
CertificateInv.v
CertificateFiles.v
CertificateHex.v
ExampleSSL.v
CertificateNames.v
CertificateProps.v
Pairing.v
RemoteState.v
Remote.v
RemoteInv.v
RemoteSteps.v
RemoteQuiet.v
RemoteSpec.v
RemoteProps.v
RemoteMirror.v
RemoteBehaviour.v
RemoteRaces.v
RemoteAtoms.v
RemotePace.v
RemoteCalls.v
RemoteClock.v
RemoteWatch.v
RemoteReconnect.v
PairingThreads.v
RemoteCommands.v
PairingClient.v
PairingRuns.v
PairingDialogue.v
PairingInv.v
Interface.v
PairingProps.v
Cli.v
CliProps.v
Conformance.v
