(* ===== verification/Prelude.v ===== *)
(** * A verification development for libandroidtvremote

    The library controls an Android TV over the network.  It has a hand-written
    protobuf codec, the messages of two protocols (pairing and remote control), an
    asynchronous TLS connection that reads and writes framed messages, reconnects and
    carries voice, and a synchronous pairing client with certificate handling.

    ** The parts, and the files that model them

    - [Prelude.v] (this file): machine integers as [Z] with explicit wrap-around,
      bytes and strings, exceptions as a [result], record update, tactics, hints.
    - [Wire.v]: [src/proto_wire.cpp] and its header.  [Module Writer] and
      [Module Reader] are the two classes (a reader is its span, offset and [ok_]);
      [findVarint], [findBytes], [hasField], [frame], [decodeVarintPrefix] are the
      free functions.  [WireSpec.v] gives the grammar of base-128 numbers and fields,
      the encoding of a list of fields and what the reader makes of it, and the class
      [SelfDelimiting] of encodings that can be read off a stream; [Framing.v] the
      reference splitting of a byte stream into frames ([unframe]); [WireProps.v] the
      properties.
    - [Types.v]: [include/androidtvremote/types.hpp].
    - [Messages.v]: [src/protocol_messages.cpp]: every builder, and [parseRemote].
      [MessagesSpec.v] states what a television sends ([tv_message], its fields and
      the [RemoteIncoming] it means) and the builders as lists of fields;
      [MessagesProps.v] the properties.
    - [KeyCodes.v]: [keyCodeFromName] of [src/android_tv_remote.cpp].
    - [RemoteState.v] and [Remote.v]: [AndroidTvRemote::Impl] of
      [src/android_tv_remote.cpp].  Its members are the record [Impl]; each method,
      completion handler and posted function object is one function on that record
      ([on_x] is the handler of an asynchronous operation, [x_task] the function
      object that [x] posts).  [exec] is one turn: a call of the public interface, the
      oldest posted function object, or the completion of any operation in flight;
      [run] is a sequence of turns.  [trace_] records what was done, in order.
    - [RemoteInv.v], [RemoteSteps.v]: the invariant and its preservation by every turn.
      [RemoteQuiet.v]: what is not started after a disconnection or destruction.
      [RemoteSpec.v]: the abstract session ([view], [tv_step]) and the refinement step.
    - [RemoteProps.v], [RemoteBehaviour.v], [RemoteCommands.v]: the properties of the
      remote connection.  [RemoteMirror.v]: what an application knows from its callbacks
      ([mirror]) against what the object would answer.  [RemoteRaces.v]: commands and
      expired waits that come at the wrong moment.  [RemoteAtoms.v]: the small steps
      every turn is made of; [RemotePace.v]: what they do to the operations in flight and to
      the promises; [RemoteCalls.v]: a call commutes with the turns of the thread of [io_].  [RemoteClock.v] puts the turns on a clock; [RemoteWatch.v] and
      [RemoteReconnect.v] show what the timers promise on it.
    - [Effects.v]: the monad of the synchronous half (a call returns, throws, blocks or
      is undefined) and its weakest preconditions.  [OpenSSL.v] is the interface of
      OpenSSL, an argument, with its documented promises as classes; [World.v] what
      surrounds a call: the state of OpenSSL, the heap of big numbers, the files, the
      network.
    - [Certificate.v]: [src/certificate.cpp] on OpenSSL 3.  [CertificateInv.v]: the heap
      invariant and the pairing secret; [CertificateFiles.v]: the identity on disk;
      [CertificateHex.v], [CertificateNames.v]: hexadecimal numbers and subject names;
      [CertificateProps.v]: the properties.  [ExampleSSL.v] is a small implementation of
      the interface that keeps every promise, for concrete runs.
    - [Pairing.v]: [src/pairing.cpp]; [Module SyncTls] is [SyncTlsConnection] and
      [Module PairingSession] the class of that name.  [PairingClient.v]: the operations
      of [AndroidTvRemote::Impl] that use certificates and pairing.  [PairingInv.v]: what
      they keep; [PairingRuns.v], [PairingDialogue.v]: their runs with a television that
      answers; [PairingProps.v]: the properties.  [PairingThreads.v]: [startPairing] and
      [finishPairing] from any number of threads, as a step relation with the mutex, the
      promise and the thread of [io_].
    - [Interface.v]: the class of [include/androidtvremote/android_tv_remote.hpp] as a
      typeclass ([Api.AndroidTvRemote]) with its promises ([Api.SafeApi]), and the
      implementation that forwards to [Impl].  [Cli.v]: [examples/remote_cli.cpp], written
      and proved safe against that interface; [CliProps.v]: the tool with the library
      behind it.
    - [Conformance.v]: the assertions of [tests/], evaluated on the definitions.

    ** What the theorems show

    - The codec: what the writer wrote the reader finds; every input is read within
      its bounds and malformed input makes [ok()] false for good; the loops terminate;
      numbers are canonical; concatenated frames are split back.
    - The messages: everything a television sends is parsed to its arguments, after
      unknown fields and before any bytes; every command carries its arguments.
    - The connection, for every interleaving of calls and completions: the public
      state is truthful and an empty [stream_] is never used
      ([reachable_state_truthful]); messages are handled in order, each exactly once,
      and the byte-at-a-time reader agrees with the batch decoder
      ([messages_in_order], [reader_refines_unframe]); frames are written whole and in
      order until the object is destroyed ([writes_in_order]); a late completion is inert; a disconnection and a
      destruction are final; a loss, a refused handshake and the backoff do exactly
      what is stated; a session, a voice session, a key press and a text reach the
      other side as the abstract session says; an application that listens knows the
      public state ([callbacks_mirror]); the moment of a call does not matter
      ([calls_commute]).  On a clock, the idle timer closes a connection after 16 seconds
      of silence and no sooner, where messages of length zero do not count as the timer is
      not reset for them ([idle_after_silence], [silence_noticed]), and an object
      that is reconnecting begins its next attempt within half a minute ([next_attempt]).
    - Certificates and pairing: for every behaviour of OpenSSL, disk, network and
      television no pointer dangles and no big number leaks ([synchronous_calls_safe]);
      the secret is the digest of both keys and the code ([pairingSecret_spec]), of bytes
      that are those of the Python implementation ([bnBytes_reference]); a generated
      identity is generated once and is loaded by every TLS context that accepts it
      ([generate_identity], [identity_roundtrip]); names are read back ([device_identity]); the blocking
      reader is the batch decoder ([receive_decodes]); a pairing with mistyped codes,
      with an identity that TLS takes ([usable]),
      sends exactly the frames it should ([pairing_succeeds]).  From several threads, one
      call at a time is inside the lock and every session has one owner
      ([pairing_exclusive]), and every call can return ([pairing_calls_return]).
    - The command-line tool does nothing undefined and lets no exception out, with any
      implementation that keeps the promises of the interface ([cli_safe]); with this
      one, [cli_pairs] and [cli_key] follow a pairing and a key press from the arguments
      to the frames.
    - [identity_error_forgotten], [connection_lost], [unconfirmed_secret],
      [availability_lags], [command_while_connecting], [late_waits] and
      [callback_deadlock] document defects: an identity that cannot be loaded is not
      loaded by the next [connect] either; a voice session that is lost is not reported; a
      session whose secret is not confirmed is kept though it cannot be used; [connect] on
      a connected object does not say that the television is gone; a command sent while
      connecting ends the attempt; an expired wait of the past is taken for one of the
      present; and a callback that calls [startPairing] never returns.

    ** Modelling decisions

    - The operations of Boost.Asio (resolve, connect, handshake, read, write, timers)
      are entries of [pending_]; the environment chooses which completes next, and
      how.  A read gives as many bytes as were asked for, or fails; a cancelled wait
      may still succeed if it had expired.  Error codes are their messages.  In
      [Remote.v] a timer may fire at any turn, so that what is proved holds whatever
      the clock does; [RemoteClock.v] adds the time of each turn, in milliseconds, and
      allows a wait to succeed only when it was up before it was cancelled.
    - What making the TLS context and [crypto::loadClientIdentity] come to is an argument
      ([setup]) of the handlers of the remote connection that need them; what the latter is
      is in [Certificate.v].  Whether a TLS context takes a certificate and a key is up to
      its configuration: a property that needs it says so ([accepts], [usable]).
    - A callback is an event of the trace when it is set; what it does is not
      modelled (it may call the asynchronous operations, which only post, so that a run
      with those calls just after the handler covers it: [RemoteCalls.v], where every
      handler commutes with what is posted meanwhile; [PairingThreads.v] has the calls
      of [startPairing] on the thread of [io_], as if the callback were the last thing the
      handler does).  Callbacks do not throw.
    - In [PairingThreads.v] what a session says to the television is one step, which
      returns, throws or is never taken; in [PairingClient.v] and [Cli.v] it is spelt out,
      each call is made by one thread, and [disconnectAndWait], [sleep_for] are given the
      turns that the thread of [io_] makes meanwhile.
    - Handlers run one at a time on the thread of [io_]; a public operation is a turn
      of its own.  The mutexes protect members that are read and written whole.
    - Fuel: the encoder's loops get 10 rounds, enough for 64 bits; [Reader.scan] one
      per unread byte and one more; [sendVoiceData_loop] one per sample and one more;
      [unframe] one per byte; [splitSlash] one per character and one more;
      [receive_length] 10, the rounds after which the shift exceeds 63.  Each is proved
      enough where it is used.
    - [generation_] is a [std::uint64_t]; [reachable] bounds a run by 2^64 turns, each
      of which closes at most one connection, so it does not wrap around.
    - [upperKeyName] uses [std::toupper] of the C locale.

    ** Not modelled

    - The branch of [rsaNumbers] for OpenSSL before version 3.
    - The defaulted move operations of the class, and the creation and end of the thread
      of [io_] (that [std::thread] can throw, and that the destructor must not run on it).
    - Paths are compared as they are written, without links or [..].  Objects owned by a
      [unique_ptr] for one scope are values; only the big numbers, which outlive their
      scope, have addresses.
    - Exceptions for want of memory ([std::bad_alloc]), in the library and in what it calls,
      and that of [make_unique<Stream>] in [beginConnect]: thrown on the thread of [io_], where
      nothing catches it, it ends the process, so that no state comes after it.  (What
      OpenSSL refuses is modelled: the contexts, the stream of [SyncTlsConnection] and
      every operation of [OpenSSL.v] that may fail.)
    - The certificate verification mode (verification is off) and the decision of the
      other side about the client's certificate, which is part of what the peer does.
    - The build files and the export macros.  Of the tests, only what they assert
      ([Conformance.v]). *)

From Stdlib Require Export ZArith Lia Ascii String.
From stdpp Require Export base list strings gmap numbers.

#[global] Set Default Goal Selector "!".

Declare Scope cxx_scope.
Delimit Scope cxx_scope with cxx.

Local Open Scope Z_scope.

(** ** Machine integers

    An unsigned integer of width [w] is the [Z] it denotes; [wrap w] is the
    conversion [static_cast] performs.  [swrap w] is the conversion to the
    signed type of the same width (two's complement, as C++20 requires). *)
Definition wrap (w z : Z) : Z := z mod 2 ^ w.
Definition swrap (w z : Z) : Z := (z + 2 ^ (w - 1)) mod 2 ^ w - 2 ^ (w - 1).

Abbreviation u8 := (wrap 8).
Abbreviation u32 := (wrap 32).
Abbreviation u64 := (wrap 64).
Abbreviation i32 := (swrap 32).

Definition byte_ok (b : Z) : Prop := 0 <= b < 256.
Abbreviation bytes_ok := (Forall byte_ok).

Definition in_u32 (z : Z) : Prop := 0 <= z < 2 ^ 32.
Definition in_u64 (z : Z) : Prop := 0 <= z < 2 ^ 64.
Definition in_i32 (z : Z) : Prop := - 2 ^ 31 <= z < 2 ^ 31.

(** [size l] is the [size()] of a vector or span, as a [size_t]. *)
Definition size {A} (l : list A) : Z := Z.of_nat (length l).

#[export] Instance byte_ok_dec b : Decision (byte_ok b).
Proof. unfold byte_ok. apply _. Defined.

(** ** Strings and bytes

    [std::string] is [string]; [reinterpret_cast] between its characters and
    [std::uint8_t] is [bytes_of_string] and [string_of_bytes]. *)
Fixpoint bytes_of_string (s : string) : list Z :=
  match s with
  | EmptyString => []
  | String a s' => Z.of_N (N_of_ascii a) :: bytes_of_string s'
  end.

Fixpoint string_of_bytes (l : list Z) : string :=
  match l with
  | [] => EmptyString
  | b :: l' => String (ascii_of_N (Z.to_N b)) (string_of_bytes l')
  end.

(** ** Exceptions *)
Inductive exn :=
  | runtime_error (message : string)
  | invalid_argument (message : string)
  | system_error (message : string).

Inductive result (A : Type) :=
  | Ok (a : A)
  | Throw (e : exn).
Arguments Ok {A} a.
Arguments Throw {A} e.

Definition rbind {A B} (m : result A) (k : A -> result B) : result B :=
  match m with
  | Ok a => k a
  | Throw e => Throw e
  end.

Notation "x '<-?' m ';;' k" := (rbind m (fun x => k))
  (at level 100, m at next level, k at level 200, right associativity) : cxx_scope.

(** [e.what()] *)
Definition what (e : exn) : string :=
  match e with runtime_error w | invalid_argument w | system_error w => w end.

#[export] Instance exn_eq_dec : EqDecision exn.
Proof. solve_decision. Defined.

(** ** Record update

    [s <| f := v |>] is the record [s] with the field [f] set to [v].  A record
    declares the identity that rebuilds it field by field ([Settable]); the update
    of one field abstracts its projection there. *)
Class Settable (R : Type) := rebuild : R -> R.
Class Setter {R T : Type} (f : R -> T) := update : (T -> T) -> R -> R.

Ltac solve_setter :=
  lazymatch goal with
  | |- @Setter ?R ?T ?f =>
      let inst := constr:(_ : Settable R) in
      let body := eval hnf in (@rebuild R inst) in
      let abstracted := eval pattern f in body in
      lazymatch abstracted with
      | (fun _ => ?unchanged) _ => fail "no field" f
      | ?g _ =>
          let setter := eval cbv beta in (fun (up : T -> T) (r : R) => g (fun x => up (f x)) r) in
          exact setter
      end
  end.

#[export] Hint Extern 0 (Setter _) => solve_setter : typeclass_instances.

Notation "s '<|' f ':=' v '|>'" := (update (f := f) (fun _ => v) s)
  (at level 1, f at next level, v at level 200, left associativity) : cxx_scope.

(** ** The tactics of the development *)

(** Split every conjunction of the context and every [prod] equality. *)
Ltac destruct_pairs :=
  repeat match goal with
  | H : _ /\ _ |- _ => destruct H
  | H : exists _, _ |- _ => destruct H
  | H : (_, _) = (_, _) |- _ => injection H; clear H; intros; subst
  end.

(** Case analysis on the integer and boolean tests of the code. *)
Ltac case_test :=
  match goal with
  | |- context [ Z.ltb ?a ?b ] => destruct (Z.ltb_spec a b)
  | |- context [ Z.leb ?a ?b ] => destruct (Z.leb_spec a b)
  | |- context [ Z.eqb ?a ?b ] => destruct (Z.eqb_spec a b)
  | |- context [ Nat.ltb ?a ?b ] => destruct (Nat.ltb_spec a b)
  | |- context [ Nat.leb ?a ?b ] => destruct (Nat.leb_spec a b)
  | |- context [ Nat.eqb ?a ?b ] => destruct (Nat.eqb_spec a b)
  end.

Ltac case_test_in H :=
  match type of H with
  | context [ Z.ltb ?a ?b ] => destruct (Z.ltb_spec a b)
  | context [ Z.leb ?a ?b ] => destruct (Z.leb_spec a b)
  | context [ Z.eqb ?a ?b ] => destruct (Z.eqb_spec a b)
  | context [ Nat.ltb ?a ?b ] => destruct (Nat.ltb_spec a b)
  | context [ Nat.leb ?a ?b ] => destruct (Nat.leb_spec a b)
  | context [ Nat.eqb ?a ?b ] => destruct (Nat.eqb_spec a b)
  end.

(** Linear arithmetic under the range predicates and [size]. *)
Ltac zlia := unfold byte_ok, in_u32, in_u64, in_i32, size in *; cbn [length] in *; lia.

(** ** Integer lemmas *)
Section integers.

Lemma wrap_small w z : 0 <= z < 2 ^ w -> wrap w z = z.
Proof. intros ?. unfold wrap. by apply Z.mod_small. Qed.

Lemma wrap_range w z : 0 <= w -> 0 <= wrap w z < 2 ^ w.
Proof. intros ?. unfold wrap. apply Z.mod_pos_bound. lia. Qed.

Lemma wrap_wrap w z : wrap w (wrap w z) = wrap w z.
Proof. unfold wrap. apply Zmod_mod. Qed.

Lemma swrap_small z : in_i32 z -> i32 z = z.
Proof. intros [??]. unfold swrap. rewrite Z.mod_small; lia. Qed.

Lemma swrap_range z : in_i32 (i32 z).
Proof.
  unfold swrap, in_i32.
  pose proof (Z.mod_pos_bound (z + 2 ^ (32 - 1)) (2 ^ 32)). lia.
Qed.

(** Widening to 64 bits, or to 32, and narrowing back is the identity. *)
Lemma i32_u64 z : in_i32 z -> i32 (u64 z) = z.
Proof.
  intros [??]. unfold swrap, wrap.
  destruct (Z.le_gt_cases 0 z).
  - rewrite (Z.mod_small z), Z.mod_small; lia.
  - replace (z mod 2 ^ 64) with (z + 2 ^ 64)
      by (apply (Z.mod_unique z (2 ^ 64) (-1)); lia).
    replace (z + 2 ^ 64 + 2 ^ (32 - 1))
      with (z + 2 ^ (32 - 1) + 2 ^ 32 * 2 ^ 32) by lia.
    rewrite Z.mod_add, Z.mod_small; lia.
Qed.

Lemma i32_u32 z : in_i32 z -> i32 (u32 z) = z.
Proof.
  intros [??]. unfold swrap, wrap.
  destruct (Z.le_gt_cases 0 z).
  - rewrite (Z.mod_small z), Z.mod_small; lia.
  - replace (z mod 2 ^ 32) with (z + 2 ^ 32)
      by (apply (Z.mod_unique z (2 ^ 32) (-1)); lia).
    replace (z + 2 ^ 32 + 2 ^ (32 - 1))
      with (z + 2 ^ (32 - 1) + 1 * 2 ^ 32) by lia.
    rewrite Z.mod_add, Z.mod_small; lia.
Qed.

Lemma land_127 z : Z.land z 0x7f = z mod 128.
Proof. change 0x7f with (Z.ones 7). rewrite Z.land_ones by lia. done. Qed.

Lemma shiftr_7 z : Z.shiftr z 7 = z / 128.
Proof. rewrite Z.shiftr_div_pow2 by lia. done. Qed.

Lemma lor_shiftl_add a b n :
  0 <= n -> 0 <= a < 2 ^ n -> 0 <= b -> Z.lor a (Z.shiftl b n) = a + b * 2 ^ n.
Proof.
  intros Hn Ha Hb. rewrite <- Z.shiftl_mul_pow2 by done.
  symmetry. apply Z.add_nocarry_lor.
  apply Z.bits_inj_iff'. intros i Hi.
  rewrite Z.land_spec, Z.shiftl_spec, Z.bits_0 by lia.
  destruct (Z.lt_ge_cases i n).
  - rewrite (Z.testbit_neg_r b) by lia. apply andb_false_r.
  - rewrite <- (Z.mod_small a (2 ^ n)) by done.
    by rewrite Z.mod_pow2_bits_high by lia.
Qed.

(** A boolean property of bytes is decided by evaluating it on the 256 of them. *)
Lemma byte_forall (P : Z -> bool) :
  forallb (fun n => P (Z.of_nat n)) (seq 0 256) = true ->
  forall b, byte_ok b -> P b = true.
Proof.
  intros H b Hb. rewrite forallb_forall in H.
  replace b with (Z.of_nat (Z.to_nat b)) by zlia.
  apply H, in_seq. zlia.
Qed.

(** The high bit of a byte. *)
Lemma land_128 b : byte_ok b -> Z.land b 0x80 = if b <? 128 then 0 else 128.
Proof.
  intros Hb.
  apply Z.eqb_eq.
  apply (byte_forall (fun b => Z.land b 0x80 =? if b <? 128 then 0 else 128)); [|done].
  vm_compute. reflexivity.
Qed.

(** The last step of the encoder sets the high bit of a 7-bit value. *)
Lemma lor_128 z : 0 <= z < 128 -> Z.lor z 0x80 = z + 128.
Proof.
  intros ?. change (Z.lor z (Z.shiftl 1 7) = z + 1 * 2 ^ 7).
  apply lor_shiftl_add; lia.
Qed.

End integers.

(** ** Strings and bytes *)
Section bytes.

Lemma byte_of_ascii_ok a : byte_ok (Z.of_N (N_of_ascii a)).
Proof. pose proof (N_ascii_bounded a). zlia. Qed.

Lemma bytes_of_string_ok s : bytes_ok (bytes_of_string s).
Proof. induction s; simpl; constructor; [apply byte_of_ascii_ok|done]. Qed.

Lemma bytes_of_string_length s : length (bytes_of_string s) = String.length s.
Proof. induction s; simpl; congruence. Qed.

Lemma string_of_bytes_of_string s : string_of_bytes (bytes_of_string s) = s.
Proof.
  induction s; simpl; [done|].
  by rewrite N2Z.id, ascii_N_embedding, IHs.
Qed.

Lemma bytes_of_string_of_bytes l :
  bytes_ok l -> bytes_of_string (string_of_bytes l) = l.
Proof.
  induction 1 as [|b l Hb Hl IH]; simpl; [done|].
  rewrite IH, N_ascii_embedding by zlia. f_equal. zlia.
Qed.

Lemma bytes_of_string_inj s1 s2 :
  bytes_of_string s1 = bytes_of_string s2 -> s1 = s2.
Proof. intros H%(f_equal string_of_bytes). by rewrite !string_of_bytes_of_string in H. Qed.

Lemma size_app {A} (l1 l2 : list A) : size (l1 ++ l2) = size l1 + size l2.
Proof. unfold size. rewrite length_app. lia. Qed.

Lemma size_nonneg {A} (l : list A) : 0 <= size l.
Proof. unfold size. lia. Qed.

Lemma drop_length_app {A} (l1 l2 : list A) n :
  n = length l1 -> drop n (l1 ++ l2) = l2.
Proof. intros ->. apply drop_app_length. Qed.

Lemma take_length_app {A} (l1 l2 : list A) n :
  n = length l1 -> take n (l1 ++ l2) = l1.
Proof. intros ->. apply take_app_length. Qed.

End bytes.

Create HintDb cxx.
Create Rewrite HintDb cxx.
#[export] Hint Resolve wrap_range swrap_range byte_of_ascii_ok bytes_of_string_ok
  size_nonneg : cxx.
#[export] Hint Rewrite bytes_of_string_length string_of_bytes_of_string
  @size_app : cxx.
