(* ===== verification/Wire.v ===== *)
(** * The Protocol Buffers wire codec ([src/proto_wire.hpp], [src/proto_wire.cpp])

    [Module Writer] is the class [Writer], [Module Reader] the class [Reader];
    the free functions follow.  A span is the list of the bytes it views. *)

From S2P Require Import Prelude.

Local Open Scope Z_scope.

(** [enum class WireType : std::uint8_t].  A [static_cast] of [key & 7] also
    produces the values that have no enumerator; they are [UnnamedWireType]. *)
Inductive WireType :=
  | Varint
  | Fixed64
  | LengthDelimited
  | Fixed32
  | UnnamedWireType (value : Z).

#[export] Instance WireType_eq_dec : EqDecision WireType.
Proof. solve_decision. Defined.

Definition WireType_of (value : Z) : WireType :=
  if value =? 0 then Varint
  else if value =? 1 then Fixed64
  else if value =? 2 then LengthDelimited
  else if value =? 5 then Fixed32
  else UnnamedWireType value.

Definition WireType_value (type : WireType) : Z :=
  match type with
  | Varint => 0
  | Fixed64 => 1
  | LengthDelimited => 2
  | Fixed32 => 5
  | UnnamedWireType value => value
  end.

(** [struct Field], with its default member initialisers. *)
Record Field := mkField {
  number : Z;
  type : WireType;
  varint_value : Z;
  bytes_value : list Z
}.

Definition Field_init : Field :=
  {| number := 0; type := Varint; varint_value := 0; bytes_value := [] |}.

Module Writer.

(** The writer's only state is the vector [data_]. *)
Record Writer := mkWriter { data_ : list Z }.

Definition init : Writer := mkWriter [].

(** The [while] loop of [Writer::varint]: the bytes pushed so far and the value
    left.  Ten rounds exhaust a [std::uint64_t]. *)
Fixpoint varint_loop (fuel : nat) (value : Z) (out : list Z) : list Z * Z :=
  match fuel with
  | O => (out, value)
  | S fuel =>
      if 0x80 <=? value
      then varint_loop fuel (Z.shiftr value 7)
             (out ++ [u8 (Z.lor (Z.land value 0x7f) 0x80)])
      else (out, value)
  end.

Definition varint (w : Writer) (value : Z) : Writer :=
  let '(out, value) := varint_loop 10 value (data_ w) in
  mkWriter (out ++ [u8 value]).

Definition key (w : Writer) (fieldNumber : Z) (type : WireType) : Writer :=
  varint w (Z.lor (u64 (Z.shiftl fieldNumber 3)) (WireType_value type)).

Definition varintField (w : Writer) (fieldNumber value : Z) : Writer :=
  varint (key w fieldNumber Varint) value.

Definition bytesField (w : Writer) (fieldNumber : Z) (value : list Z) : Writer :=
  let w := key w fieldNumber LengthDelimited in
  let w := varint w (size value) in
  mkWriter (data_ w ++ value).

Definition stringField (w : Writer) (fieldNumber : Z) (value : string) : Writer :=
  bytesField w fieldNumber (bytes_of_string value).

Definition messageField (w : Writer) (fieldNumber : Z) (nested : Writer) : Writer :=
  bytesField w fieldNumber (data_ nested).

End Writer.

Module Reader.

Record Reader := mkReader {
  bytes_ : list Z;
  offset_ : nat;
  ok_ : bool
}.

Definition init (bytes : list Z) : Reader := mkReader bytes 0 true.

(** The [while] loop of [Reader::readVarint].  [rest] is the part of [bytes_]
    from [offset] on, so the test [offset_ < bytes_.size()] is its emptiness.
    The result is the function's return value, [value] and [offset_]. *)
Fixpoint readVarint_loop (rest : list Z) (offset : nat) (value shift : Z)
    : bool * Z * nat :=
  match rest with
  | [] => (false, value, offset)
  | byte :: rest =>
      if shift <=? 63 then
        let value := Z.lor value (u64 (Z.shiftl (Z.land byte 0x7f) shift)) in
        if Z.land byte 0x80 =? 0 then (true, value, S offset)
        else readVarint_loop rest (S offset) value (shift + 7)
      else (false, value, offset)
  end.

Definition readVarint (r : Reader) : bool * Z * Reader :=
  let '(done, value, offset) :=
    readVarint_loop (drop (offset_ r) (bytes_ r)) (offset_ r) 0 0 in
  (done, value, mkReader (bytes_ r) offset (if done then ok_ r else false)).

Definition fail (r : Reader) : Reader := mkReader (bytes_ r) (offset_ r) false.

(** [bytes_.size() - offset_] *)
Definition remaining (r : Reader) : Z := size (bytes_ r) - Z.of_nat (offset_ r).

(** [bytes_.subspan(offset_, n)], and the reader after [offset_ += n]. *)
Definition subspan (r : Reader) (n : nat) : list Z := take n (drop (offset_ r) (bytes_ r)).
Definition advance (r : Reader) (n : nat) : Reader :=
  mkReader (bytes_ r) (offset_ r + n) (ok_ r).

(** The two fixed-width cases of [Reader::next]. *)
Definition next_fixed (r : Reader) (field : Field) (n : nat) : bool * Field * Reader :=
  if remaining r <? Z.of_nat n then (false, field, fail r)
  else (true, {| number := number field; type := type field; varint_value := 0;
                 bytes_value := subspan r n |}, advance r n).

Definition next (r : Reader) (field : Field) : bool * Field * Reader :=
  if negb (ok_ r) || (size (bytes_ r) <=? Z.of_nat (offset_ r)) then (false, field, r)
  else
    let '(done, keyValue, r) := readVarint r in
    if negb done then (false, field, r) else
    let field := {| number := u32 (Z.shiftr keyValue 3);
                    type := WireType_of (Z.land keyValue 0x07);
                    varint_value := 0; bytes_value := [] |} in
    if number field =? 0 then (false, field, fail r) else
    match type field with
    | Varint =>
        let '(done, value, r) := readVarint r in
        (done, {| number := number field; type := type field;
                  varint_value := value; bytes_value := [] |}, r)
    | Fixed64 => next_fixed r field 8
    | LengthDelimited =>
        let '(done, size, r) := readVarint r in
        if negb done || (remaining r <? size) then (false, field, fail r)
        else (true, {| number := number field; type := type field; varint_value := 0;
                       bytes_value := subspan r (Z.to_nat size) |},
              advance r (Z.to_nat size))
    | Fixed32 => next_fixed r field 4
    | UnnamedWireType _ => (false, field, fail r)
    end.

(** [while (reader.next(field)) { ... }] where the body either returns from the
    enclosing function or goes on to the next field.  Every successful [next]
    moves [offset_] forward, so one round per remaining byte is enough
    ([scan_unfold]). *)
Fixpoint scan_loop {A} (fuel : nat) (body : Field -> option A) (r : Reader)
    (field : Field) : option A :=
  match fuel with
  | O => None
  | S fuel =>
      match next r field with
      | (true, field, r) =>
          match body field with
          | Some a => Some a
          | None => scan_loop fuel body r field
          end
      | (false, _, _) => None
      end
  end.

Definition scan {A} (body : Field -> option A) (r : Reader) (field : Field) : option A :=
  scan_loop (S (length (bytes_ r) - offset_ r)) body r field.

End Reader.

Definition findVarint (message : list Z) (fieldNumber : Z) : option Z :=
  Reader.scan
    (fun field =>
       if (number field =? fieldNumber) && bool_decide (type field = Varint)
       then Some (varint_value field) else None)
    (Reader.init message) Field_init.

Definition findBytes (message : list Z) (fieldNumber : Z) : option (list Z) :=
  Reader.scan
    (fun field =>
       if (number field =? fieldNumber) && bool_decide (type field = LengthDelimited)
       then Some (bytes_value field) else None)
    (Reader.init message) Field_init.

Definition hasField (message : list Z) (fieldNumber : Z) : bool :=
  match Reader.scan
          (fun field => if number field =? fieldNumber then Some true else None)
          (Reader.init message) Field_init with
  | Some found => found
  | None => false
  end.

(** [frame] has its own copy of the encoder's loop. *)
Fixpoint frame_loop (fuel : nat) (value : Z) (out : list Z) : list Z * Z :=
  match fuel with
  | O => (out, value)
  | S fuel =>
      if 0x80 <=? value
      then frame_loop fuel (Z.shiftr value 7)
             (out ++ [u8 (Z.lor (Z.land value 0x7f) 0x80)])
      else (out, value)
  end.

Definition frame (payload : list Z) : list Z :=
  let '(out, value) := frame_loop 10 (size payload) [] in
  (out ++ [u8 value]) ++ payload.

(** The range-based [for] of [decodeVarintPrefix]: the return value, [value]
    and [prefixLength]. *)
Fixpoint decodeVarintPrefix_loop (data : list Z) (value : Z) (prefixLength : nat)
    (shift : Z) : bool * Z * nat :=
  match data with
  | [] => (false, value, 0%nat)
  | byte :: data =>
      if 63 <? shift then (false, value, prefixLength)
      else
        let value := Z.lor value (u64 (Z.shiftl (Z.land byte 0x7f) shift)) in
        let prefixLength := S prefixLength in
        if Z.land byte 0x80 =? 0 then (true, value, prefixLength)
        else decodeVarintPrefix_loop data value prefixLength (shift + 7)
  end.

Definition decodeVarintPrefix (data : list Z) : bool * Z * nat :=
  decodeVarintPrefix_loop data 0 0 0.

Example frame_200 :
  decodeVarintPrefix (frame (replicate 200 0x55)) = (true, 200, 2%nat).
Proof. vm_compute. reflexivity. Qed.
