(* ===== verification/WireSpec.v ===== *)
(** * What the wire codec promises

    The grammar of varints ([varint_of]) and of messages ([wfield], [encode]),
    and the lemmas that relate the codec of [Wire.v] to it.  The clients use
    [encodes] and the [..._encodes] lemmas, and do not look inside the codec. *)

From S2P Require Import Prelude Wire.

Local Open Scope Z_scope.

(** ** Varints *)

(** [varint_of bs n]: the bytes [bs] are one base-128 number, least significant
    group first, and [n] is its value (of any size). *)
Inductive varint_of : list Z -> Z -> Prop :=
  | varint_last b : 0 <= b < 128 -> varint_of [b] b
  | varint_more b bs n :
      128 <= b < 256 -> varint_of bs n -> varint_of (b :: bs) (b - 128 + 128 * n).

(** The reference encoder. *)
Fixpoint varint_enc (fuel : nat) (n : Z) : list Z :=
  match fuel with
  | O => []
  | S fuel => if n <? 128 then [n] else (n mod 128 + 128) :: varint_enc fuel (n / 128)
  end.

Definition varint_bytes (n : Z) : list Z := varint_enc 10 n.

(** ** Messages *)

Inductive wvalue :=
  | WVarint (n : Z)
  | WFixed64 (bs : list Z)
  | WBytes (bs : list Z)
  | WFixed32 (bs : list Z).

Record wfield := W { wnum : Z; wval : wvalue }.

Definition wtype (v : wvalue) : WireType :=
  match v with
  | WVarint _ => Varint
  | WFixed64 _ => Fixed64
  | WBytes _ => LengthDelimited
  | WFixed32 _ => Fixed32
  end.

Definition to_field (f : wfield) : Field :=
  {| number := wnum f; type := wtype (wval f);
     varint_value := match wval f with WVarint n => n | _ => 0 end;
     bytes_value := match wval f with
                    | WVarint _ => []
                    | WFixed64 bs | WBytes bs | WFixed32 bs => bs
                    end |}.

Definition value_ok (v : wvalue) : Prop :=
  match v with
  | WVarint n => in_u64 n
  | WFixed64 bs => length bs = 8%nat
  | WBytes bs => size bs < 2 ^ 64
  | WFixed32 bs => length bs = 4%nat
  end.

Definition field_ok (f : wfield) : Prop := 1 <= wnum f < 2 ^ 32 /\ value_ok (wval f).

Definition encode_value (v : wvalue) : list Z :=
  match v with
  | WVarint n => varint_bytes n
  | WBytes bs => varint_bytes (size bs) ++ bs
  | WFixed64 bs | WFixed32 bs => bs
  end.

Definition encode_field (f : wfield) : list Z :=
  varint_bytes (wnum f * 8 + WireType_value (wtype (wval f))) ++ encode_value (wval f).

Definition encode (fs : list wfield) : list Z := concat (map encode_field fs).

(** The first answer of [body] over a list: what a scan computes. *)
Fixpoint first_some {A B} (body : A -> option B) (l : list A) : option B :=
  match l with
  | [] => None
  | x :: l => match body x with Some b => Some b | None => first_some body l end
  end.

Fixpoint lookup_varint (fs : list wfield) (n : Z) : option Z :=
  match fs with
  | [] => None
  | W m (WVarint v) :: fs => if m =? n then Some v else lookup_varint fs n
  | _ :: fs => lookup_varint fs n
  end.

Fixpoint lookup_bytes (fs : list wfield) (n : Z) : option (list Z) :=
  match fs with
  | [] => None
  | W m (WBytes bs) :: fs => if m =? n then Some bs else lookup_bytes fs n
  | _ :: fs => lookup_bytes fs n
  end.

Fixpoint has_number (fs : list wfield) (n : Z) : bool :=
  match fs with
  | [] => false
  | W m _ :: fs => if m =? n then true else has_number fs n
  end.

(** A writer holds the encoding of a list of fields. *)
Definition encodes (w : Writer.Writer) (fs : list wfield) : Prop :=
  Writer.data_ w = encode fs /\ Forall field_ok fs.

(** ** Self-delimiting encodings

    What a framing promises to its clients: a valid value is read back from the
    front of any stream, and nothing past it is consumed. *)
Class SelfDelimiting {A} (valid : A -> Prop) (enc : A -> list Z)
    (dec : list Z -> option (A * list Z)) : Prop :=
  dec_enc a rest : valid a -> dec (enc a ++ rest) = Some (a, rest).

Fixpoint decode_many {A} (dec : list Z -> option (A * list Z)) (n : nat)
    (stream : list Z) : option (list A * list Z) :=
  match n with
  | O => Some ([], stream)
  | S n =>
      match dec stream with
      | Some (a, stream) =>
          match decode_many dec n stream with
          | Some (l, stream) => Some (a :: l, stream)
          | None => None
          end
      | None => None
      end
  end.

(** ** The reader's safety *)
Definition reader_wf (r : Reader.Reader) : Prop :=
  (Reader.offset_ r <= length (Reader.bytes_ r))%nat.

(** [span] is a part of [message] that ends at or before [limit]. *)
Definition span_inside (message span : list Z) (limit : nat) : Prop :=
  exists before after, message = before ++ span ++ after /\
    (length before + length span <= limit)%nat.

Definition rest_of (r : Reader.Reader) : list Z :=
  drop (Reader.offset_ r) (Reader.bytes_ r).

(** ** Lemmas: varints *)
Section varints.

(** Dropping a group of seven bits. *)
Lemma group_bound n k :
  0 <= n < 2 ^ (7 * Z.of_nat (S k)) -> 0 <= n / 128 < 2 ^ (7 * Z.of_nat k).
Proof.
  intros Hn.
  replace (7 * Z.of_nat (S k)) with (7 * Z.of_nat k + 7) in Hn by lia.
  rewrite Z.pow_add_r in Hn by lia. change (2 ^ 7) with 128 in Hn.
  split; [apply Z.div_pos; lia|]. apply Z.div_lt_upper_bound; lia.
Qed.

Lemma varint_of_bound bs n : varint_of bs n -> 0 <= n < 2 ^ (7 * size bs).
Proof.
  induction 1 as [b Hb|b bs n Hb Hbs IH]; unfold size in *; simpl length in *.
  - lia.
  - replace (7 * Z.of_nat (S (length bs))) with (7 + 7 * Z.of_nat (length bs)) by lia.
    rewrite Z.pow_add_r by lia. change (2 ^ 7) with 128. nia.
Qed.

Lemma varint_of_length bs n : varint_of bs n -> (1 <= length bs)%nat.
Proof. destruct 1; simpl; lia. Qed.

Lemma varint_of_bytes_ok bs n : varint_of bs n -> bytes_ok bs.
Proof. induction 1; constructor; zlia || done || constructor. Qed.

Lemma varint_enc_of fuel n :
  (1 <= fuel)%nat -> 0 <= n < 2 ^ (7 * Z.of_nat fuel) -> varint_of (varint_enc fuel n) n.
Proof.
  revert n. induction fuel as [|fuel IH]; intros n Hf Hn; [lia|]. simpl.
  destruct (Z.ltb_spec n 128); [by constructor; lia|].
  rewrite (Z.div_mod n 128) at 3 by lia.
  replace (128 * (n / 128) + n mod 128)
    with (n mod 128 + 128 - 128 + 128 * (n / 128)) by lia.
  pose proof (Z.mod_pos_bound n 128).
  constructor; [lia|].
  destruct fuel as [|fuel]; [simpl in Hn; lia|].
  apply IH; [lia|]. by apply group_bound.
Qed.

Lemma varint_bytes_of n : in_u64 n -> varint_of (varint_bytes n) n.
Proof. intros Hn. apply varint_enc_of; [lia|]. unfold in_u64 in Hn. simpl. lia. Qed.

(** The reference encoding is the shortest one. *)
Lemma varint_enc_length fuel n k :
  (1 <= k)%nat -> 0 <= n < 2 ^ (7 * Z.of_nat k) -> (length (varint_enc fuel n) <= k)%nat.
Proof.
  revert n k. induction fuel as [|fuel IH]; intros n k Hk Hn; simpl; [lia|].
  destruct (Z.ltb_spec n 128); simpl; [lia|].
  destruct k as [|[|k]]; [lia|simpl in Hn; lia|].
  apply le_n_S, IH; [lia|]. by apply group_bound.
Qed.

Lemma varint_bytes_length n : in_u64 n -> (1 <= length (varint_bytes n) <= 10)%nat.
Proof.
  intros Hn. split.
  - by eapply varint_of_length, varint_bytes_of.
  - apply varint_enc_length; [lia|]. unfold in_u64 in Hn. simpl. lia.
Qed.

Lemma varint_bytes_ok n : in_u64 n -> bytes_ok (varint_bytes n).
Proof. intros Hn. by eapply varint_of_bytes_ok, varint_bytes_of. Qed.

(** One round of the writer's loop and of [frame]'s. *)
Lemma encoder_byte n : 0 <= n -> u8 (Z.lor (Z.land n 0x7f) 0x80) = n mod 128 + 128.
Proof.
  intros Hn. pose proof (Z.mod_pos_bound n 128).
  rewrite land_127, lor_128 by lia. apply wrap_small. lia.
Qed.

Lemma varint_loop_enc fuel n out :
  0 <= n < 2 ^ (7 * Z.of_nat (S fuel)) ->
  let '(out', n') := Writer.varint_loop fuel n out in
  out' ++ [u8 n'] = out ++ varint_enc (S fuel) n.
Proof.
  revert n out. induction fuel as [|fuel IH]; intros n out Hn.
  - simpl. simpl in Hn. destruct (Z.ltb_spec n 128); [|lia].
    by rewrite wrap_small by lia.
  - cbn [Writer.varint_loop].
    change (varint_enc (S (S fuel)) n) with
      (if n <? 128 then [n] else (n mod 128 + 128) :: varint_enc (S fuel) (n / 128)).
    rewrite shiftr_7, encoder_byte by lia.
    destruct (Z.leb_spec 128 n), (Z.ltb_spec n 128); try lia.
    + specialize (IH (n / 128) (out ++ [n mod 128 + 128])).
      destruct (Writer.varint_loop _ _ _) as [out' n']. rewrite IH, <- app_assoc; [done|].
      by apply group_bound.
    + by rewrite wrap_small by lia.
Qed.

Lemma varint_enc_fuel fuel n :
  (1 <= fuel)%nat -> 0 <= n < 2 ^ (7 * Z.of_nat fuel) ->
  varint_enc (S fuel) n = varint_enc fuel n.
Proof.
  revert n. induction fuel as [|fuel IH]; intros n Hf Hn; [lia|].
  change (varint_enc (S (S fuel)) n) with
    (if n <? 128 then [n] else (n mod 128 + 128) :: varint_enc (S fuel) (n / 128)).
  change (varint_enc (S fuel) n) with
    (if n <? 128 then [n] else (n mod 128 + 128) :: varint_enc fuel (n / 128)).
  destruct (Z.ltb_spec n 128); [done|].
  destruct fuel as [|fuel]; [simpl in Hn; lia|].
  rewrite IH; [done|lia|].
  by apply group_bound.
Qed.

(** The writer computes the reference encoding. *)
Lemma writer_varint w n :
  in_u64 n -> Writer.data_ (Writer.varint w n) = Writer.data_ w ++ varint_bytes n.
Proof.
  intros Hn. unfold in_u64 in Hn. unfold Writer.varint, varint_bytes.
  pose proof (varint_loop_enc 10 n (Writer.data_ w)) as H.
  destruct (Writer.varint_loop _ _ _) as [out' n']. simpl.
  rewrite H, varint_enc_fuel by (simpl; lia). done.
Qed.

(** [frame]'s copy of the loop is the writer's. *)
Lemma frame_loop_eq fuel n out : frame_loop fuel n out = Writer.varint_loop fuel n out.
Proof. revert n out. induction fuel as [|fuel IH]; intros; simpl; [|rewrite IH]; done. Qed.

Lemma frame_eq payload :
  size payload < 2 ^ 64 -> frame payload = varint_bytes (size payload) ++ payload.
Proof.
  intros Hp. unfold frame. rewrite frame_loop_eq.
  pose proof (writer_varint Writer.init (size payload)) as H.
  unfold Writer.varint in H. cbn [Writer.data_ Writer.init app] in H.
  destruct (Writer.varint_loop _ _ _) as [out' n']. cbn [Writer.data_] in H.
  rewrite H; [done|]. pose proof (size_nonneg payload). zlia.
Qed.

End varints.

(** ** Lemmas: reading a varint *)
Section read_varint.

(** One round of the decoders' loops: the new bits do not meet the old ones, and
    the bits past the 64th are lost. *)
Lemma decoder_round value c shift :
  0 <= c -> 0 <= shift <= 63 -> 0 <= value < 2 ^ shift ->
  Z.lor value (u64 (Z.shiftl c shift)) = u64 (value + c * 2 ^ shift).
Proof.
  intros Hc Hs Hv. rewrite Z.shiftl_mul_pow2 by lia. unfold wrap.
  assert (E : 2 ^ 64 = 2 ^ (64 - shift) * 2 ^ shift)
    by (rewrite <- Z.pow_add_r by lia; f_equal; lia).
  assert (0 < 2 ^ shift) by (apply Z.pow_pos_nonneg; lia).
  assert (0 < 2 ^ (64 - shift)) by (apply Z.pow_pos_nonneg; lia).
  pose proof (Z.mod_pos_bound c (2 ^ (64 - shift))).
  rewrite E, Z.mul_mod_distr_r by lia.
  rewrite <- Z.shiftl_mul_pow2, lor_shiftl_add by lia.
  apply (Z.mod_unique _ _ (c / 2 ^ (64 - shift))); [left; nia|].
  pose proof (Z.div_mod c (2 ^ (64 - shift))). nia.
Qed.

Lemma u64_add_mul value a b c : u64 (u64 (value + a) + b * c) = u64 (value + a + b * c).
Proof. unfold wrap. by rewrite Z.add_mod_idemp_l by lia. Qed.

Lemma readVarint_loop_of bs n :
  varint_of bs n ->
  forall rest offset value k,
    0 <= value < 2 ^ (7 * Z.of_nat k) -> (k + length bs <= 10)%nat ->
    Reader.readVarint_loop (bs ++ rest) offset value (7 * Z.of_nat k) =
      (true, u64 (value + n * 2 ^ (7 * Z.of_nat k)), (offset + length bs)%nat).
Proof.
  induction 1 as [b Hb|b bs n Hb Hbs IH]; intros rest offset value k Hv Hk;
    simpl length in *; cbn [app Reader.readVarint_loop];
    (destruct (Z.leb_spec (7 * Z.of_nat k) 63); [|lia]);
    rewrite land_127, land_128, decoder_round by (zlia || apply Z.mod_pos_bound; lia).
  - destruct (Z.ltb_spec b 128); [|lia]. rewrite Z.mod_small by lia. simpl.
    repeat f_equal. lia.
  - destruct (Z.ltb_spec b 128); [lia|]. cbn [Z.eqb].
    pose proof (varint_of_length _ _ Hbs).
    replace (b mod 128) with (b - 128)
      by (apply (Z.mod_unique b 128 1); [left|]; lia).
    assert (Hp : 2 ^ (7 * Z.of_nat (S k)) = 2 ^ (7 * Z.of_nat k) * 128)
      by (rewrite Nat2Z.inj_succ, Z.mul_succ_r, Z.pow_add_r by lia; done).
    replace (7 * Z.of_nat k + 7) with (7 * Z.of_nat (S k)) by lia.
    rewrite (wrap_small 64) by
      (pose proof (Z.pow_le_mono_r 2 (7 * Z.of_nat (S k)) 63); nia).
    rewrite IH by (nia || lia).
    rewrite Hp. f_equal; [|lia]. do 2 f_equal. ring.
Qed.

(** Whatever a decoder accepts is a varint of at most ten bytes. *)
Lemma readVarint_loop_inv rest :
  bytes_ok rest ->
  forall offset value k v offset',
    Reader.readVarint_loop rest offset value (7 * Z.of_nat k) = (true, v, offset') ->
    exists bs n rest', rest = bs ++ rest' /\ varint_of bs n /\
      (k + length bs <= 10)%nat /\ offset' = (offset + length bs)%nat.
Proof.
  induction 1 as [|b rest Hb Hrest IH]; intros offset value k v offset' H;
    cbn [Reader.readVarint_loop] in H; [done|].
  destruct (Z.leb_spec (7 * Z.of_nat k) 63); [|done].
  rewrite land_128 in H by done. destruct (Z.ltb_spec b 128).
  - injection H as <- <-. exists [b], b, rest. simpl. repeat split; try lia.
    constructor. zlia.
  - cbn [Z.eqb] in H. replace (7 * Z.of_nat k + 7) with (7 * Z.of_nat (S k)) in H by lia.
    apply IH in H as (bs & n & rest' & -> & Hbs & Hk & ->).
    exists (b :: bs), (b - 128 + 128 * n), rest'. simpl. repeat split; try lia.
    constructor; [zlia|done].
Qed.

Lemma readVarint_loop_range rest offset value shift :
  let '(done, _, offset') := Reader.readVarint_loop rest offset value shift in
  (offset <= offset' <= offset + length rest)%nat /\
  (done = true -> (offset < offset')%nat).
Proof.
  revert offset value shift.
  induction rest as [|b rest IH]; intros offset value shift;
    cbn [Reader.readVarint_loop length]; [lia|].
  destruct (shift <=? 63); [|lia].
  destruct (Z.land b 0x80 =? 0); [lia|].
  specialize (IH (S offset) (Z.lor value (u64 (Z.shiftl (Z.land b 0x7f) shift))) (shift + 7)).
  destruct (Reader.readVarint_loop _ _ _ _) as [[??]?]. lia.
Qed.

(** The reading of a varint at the reader's position. *)
Lemma readVarint_of r bs n rest :
  rest_of r = bs ++ rest -> varint_of bs n -> (length bs <= 10)%nat ->
  Reader.readVarint r = (true, u64 n, Reader.advance r (length bs)).
Proof.
  intros Hr Hbs Hlen. unfold Reader.readVarint. fold (rest_of r). rewrite Hr.
  pose proof (readVarint_loop_of bs n Hbs rest (Reader.offset_ r) 0 0) as H.
  change (7 * Z.of_nat 0) with 0 in H. rewrite H by (simpl; lia).
  rewrite Z.pow_0_r, Z.mul_1_r. done.
Qed.

Lemma readVarint_bytes r n rest :
  rest_of r = varint_bytes n ++ rest -> in_u64 n ->
  Reader.readVarint r = (true, n, Reader.advance r (length (varint_bytes n))).
Proof.
  intros Hr Hn. rewrite (readVarint_of r (varint_bytes n) n rest).
  - by rewrite wrap_small.
  - done.
  - by apply varint_bytes_of.
  - by apply varint_bytes_length.
Qed.

Lemma rest_of_advance r bs rest :
  rest_of r = bs ++ rest -> rest_of (Reader.advance r (length bs)) = rest.
Proof.
  unfold rest_of. simpl. intros H. rewrite <- drop_drop, H.
  by apply drop_app_length.
Qed.

Lemma rest_of_length r : reader_wf r -> size (rest_of r) = Reader.remaining r.
Proof. unfold rest_of, Reader.remaining, size, reader_wf. rewrite length_drop. lia. Qed.

Lemma readVarint_range r :
  reader_wf r ->
  let '(done, _, r') := Reader.readVarint r in
  Reader.bytes_ r' = Reader.bytes_ r /\ reader_wf r' /\
  (Reader.offset_ r <= Reader.offset_ r')%nat /\
  Reader.ok_ r' = (if done then Reader.ok_ r else false) /\
  (done = true -> (Reader.offset_ r < Reader.offset_ r')%nat).
Proof.
  unfold reader_wf, Reader.readVarint. intros Hr.
  pose proof (readVarint_loop_range (drop (Reader.offset_ r) (Reader.bytes_ r))
                (Reader.offset_ r) 0 0) as H.
  rewrite length_drop in H.
  destruct (Reader.readVarint_loop _ _ _ _) as [[done v] offset']. simpl.
  destruct H. split_and!; [done|lia|lia|done|done].
Qed.

(** [decodeVarintPrefix] and [Reader::readVarint] are the same decoder. *)
Lemma decode_loop_eq data value prefix shift offset :
  let '(done, v, n) := decodeVarintPrefix_loop data value prefix shift in
  let '(done', v', offset') := Reader.readVarint_loop data offset value shift in
  done' = done /\ v' = v /\ (done = true -> (offset' + prefix = offset + n)%nat).
Proof.
  revert value prefix shift offset.
  induction data as [|b data IH]; intros value prefix shift offset; simpl; [done|].
  destruct (Z.ltb_spec 63 shift), (Z.leb_spec shift 63); try (lia || done).
  destruct (Z.land b 0x80 =? 0); [split_and!; (done || lia)|].
  specialize (IH (Z.lor value (u64 (Z.shiftl (Z.land b 0x7f) shift)))
                (S prefix) (shift + 7) (S offset)).
  destruct (decodeVarintPrefix_loop _ _ _ _) as [[d v] n].
  destruct (Reader.readVarint_loop _ _ _ _) as [[d' v'] o'].
  destruct IH as (-> & -> & Hn). split_and!; [done..|]. intros Hd. specialize (Hn Hd). lia.
Qed.

Lemma decodeVarintPrefix_of bs n rest :
  varint_of bs n -> (length bs <= 10)%nat ->
  decodeVarintPrefix (bs ++ rest) = (true, u64 n, length bs).
Proof.
  intros Hbs Hlen. unfold decodeVarintPrefix.
  pose proof (decode_loop_eq (bs ++ rest) 0 0 0 0) as H.
  pose proof (readVarint_loop_of bs n Hbs rest 0 0 0) as H'.
  change (7 * Z.of_nat 0) with 0 in H'. rewrite H' in H by (simpl; lia).
  rewrite Z.pow_0_r, Z.mul_1_r in H.
  destruct (decodeVarintPrefix_loop _ _ _ _) as [[d v] m].
  destruct H as (<- & <- & Hm). specialize (Hm eq_refl). repeat f_equal. simpl in *. lia.
Qed.

End read_varint.

(** ** Lemmas: [Reader::next] *)
Section next.

Lemma subspan_eq r n : Reader.subspan r n = take n (rest_of r).
Proof. done. Qed.

Lemma subspan_inside r n :
  (Reader.offset_ r + n <= length (Reader.bytes_ r))%nat ->
  span_inside (Reader.bytes_ r) (Reader.subspan r n) (Reader.offset_ r + n).
Proof.
  intros Hn. exists (take (Reader.offset_ r) (Reader.bytes_ r)), (drop n (rest_of r)).
  rewrite subspan_eq, take_drop. unfold rest_of. rewrite take_drop.
  split; [done|]. rewrite !length_take. lia.
Qed.

Lemma empty_inside message limit : span_inside message [] limit.
Proof. exists [], message. split; [done|]. cbn. lia. Qed.

(** What [next] guarantees on any input: it stays inside the buffer, moves
    forward when it succeeds, and hands out a span of the buffer. *)
Definition next_ok (r : Reader.Reader) (result : bool * Field * Reader.Reader) : Prop :=
  let '(found, fd, r') := result in
  Reader.bytes_ r' = Reader.bytes_ r /\ reader_wf r' /\
  (Reader.offset_ r <= Reader.offset_ r')%nat /\
  (found = true -> (Reader.offset_ r < Reader.offset_ r')%nat /\
     span_inside (Reader.bytes_ r) (bytes_value fd) (Reader.offset_ r')).

Lemma next_fixed_ok r0 r fd n :
  reader_wf r -> Reader.bytes_ r = Reader.bytes_ r0 ->
  (Reader.offset_ r0 < Reader.offset_ r)%nat ->
  next_ok r0 (Reader.next_fixed r fd n).
Proof.
  unfold reader_wf, Reader.next_fixed, Reader.remaining. intros Hr Hb Ho.
  case_test; cbn; split_and!; try (done || unfold reader_wf; cbn; zlia).
  intros _. split; [lia|]. rewrite <- Hb. apply subspan_inside. zlia.
Qed.

Lemma next_range r fd : reader_wf r -> next_ok r (Reader.next r fd).
Proof.
  intros Hr. unfold Reader.next.
  destruct (negb (Reader.ok_ r) || _); [split_and!; done|].
  pose proof (readVarint_range r Hr) as Hk.
  destruct (Reader.readVarint r) as [[done key] r1].
  destruct Hk as (Hb1 & Hr1 & Ho1 & _ & Hd1).
  destruct done; cbn [negb]; [specialize (Hd1 eq_refl)|split_and!; done].
  cbn [number type]. destruct (u32 _ =? 0); [split_and!; done|].
  pose proof (readVarint_range r1 Hr1) as Hv.
  destruct (WireType_of _);
    [|by apply next_fixed_ok| |by apply next_fixed_ok|split_and!; done];
    destruct (Reader.readVarint r1) as [[done v] r2];
    destruct Hv as (Hb2 & Hr2 & Ho2 & _ & Hd2).
  - split_and!; [congruence|done|lia|].
    intros _. split; [lia|]. apply empty_inside.
  - unfold Reader.remaining. destruct (negb done || _) eqn:E; [split_and!; unfold reader_wf in *; cbn; congruence || lia|].
    apply orb_false_elim in E as [_ Es%Z.ltb_ge].
    unfold reader_wf in *. cbn. rewrite <- Hb1, <- Hb2.
    split_and!; [done|unfold reader_wf; cbn; zlia|lia|].
    intros _. split; [lia|]. apply subspan_inside. zlia.
Qed.

Lemma next_end r fd :
  rest_of r = [] -> reader_wf r -> Reader.next r fd = (false, fd, r).
Proof.
  intros Hr Hwf. unfold Reader.next.
  apply rest_of_length in Hwf. rewrite Hr in Hwf. unfold Reader.remaining in Hwf.
  replace (size (Reader.bytes_ r) <=? Z.of_nat (Reader.offset_ r)) with true
    by (symmetry; apply Z.leb_le; zlia).
  by rewrite orb_true_r.
Qed.

Lemma WireType_of_value v : WireType_of (WireType_value (wtype v)) = wtype v.
Proof. by destruct v. Qed.

Lemma key_number n v :
  1 <= n < 2 ^ 32 -> u32 (Z.shiftr (n * 8 + WireType_value (wtype v)) 3) = n.
Proof.
  intros Hn. rewrite Z.shiftr_div_pow2 by lia. change (2 ^ 3) with 8.
  assert (0 <= WireType_value (wtype v) < 8) by (destruct v; cbn; lia).
  rewrite Z.div_add_l, Z.div_small, Z.add_0_r by lia. apply wrap_small. lia.
Qed.

Lemma key_type n v :
  0 <= n -> Z.land (n * 8 + WireType_value (wtype v)) 0x07 = WireType_value (wtype v).
Proof.
  intros Hn. change 0x07 with (Z.ones 3). rewrite Z.land_ones by lia. change (2 ^ 3) with 8.
  rewrite Z.add_comm, Z.mod_add by lia. apply Z.mod_small. destruct v; simpl; lia.
Qed.

Lemma key_in_u64 n v : 1 <= n < 2 ^ 32 -> in_u64 (n * 8 + WireType_value (wtype v)).
Proof. intros Hn. destruct v; simpl; zlia. Qed.

Lemma varint_bytes_nonempty n : in_u64 n -> varint_bytes n <> [].
Proof. intros Hn H. pose proof (varint_bytes_length n Hn). rewrite H in *. simpl in *. lia. Qed.

(** The reader at an encoded field. *)
Lemma next_fixed_encode r fd bs post n :
  rest_of r = bs ++ post -> reader_wf r -> length bs = n ->
  Reader.next_fixed r fd n =
    (true, {| number := number fd; type := type fd; varint_value := 0; bytes_value := bs |},
     Reader.advance r n).
Proof.
  intros Hr Hwf Hn. unfold Reader.next_fixed.
  rewrite <- rest_of_length, Hr by done.
  case_test; [rewrite size_app in *; zlia|].
  rewrite subspan_eq, Hr. by rewrite take_length_app.
Qed.

Lemma advance_wf r bs post :
  reader_wf r -> rest_of r = bs ++ post -> reader_wf (Reader.advance r (length bs)).
Proof.
  unfold reader_wf, rest_of. cbn. intros Hr H. apply (f_equal length) in H.
  rewrite length_drop, length_app in H. lia.
Qed.

Lemma advance_advance r m n :
  Reader.advance (Reader.advance r m) n = Reader.advance r (m + n).
Proof. unfold Reader.advance. cbn. f_equal. lia. Qed.

Lemma next_encode r fd f post :
  rest_of r = encode_field f ++ post -> reader_wf r -> Reader.ok_ r = true -> field_ok f ->
  Reader.next r fd = (true, to_field f, Reader.advance r (length (encode_field f))).
Proof.
  intros Hr Hwf Hok [Hn Hv]. destruct f as [n v]. cbn [wnum wval] in *.
  unfold encode_field in *. cbn [wnum wval] in *.
  rewrite <- app_assoc in Hr. pose proof (key_in_u64 n v Hn) as Hk.
  unfold Reader.next. rewrite Hok. cbn [negb orb].
  pose proof (rest_of_length r Hwf) as Hlen. rewrite Hr in Hlen.
  rewrite size_app in Hlen. pose proof (varint_bytes_length _ Hk).
  unfold Reader.remaining in Hlen.
  pose proof (size_nonneg (encode_value v ++ post)).
  case_test; [zlia|]. clear Hlen.
  rewrite (readVarint_bytes r _ _ Hr Hk). cbn [negb].
  rewrite key_number, key_type, WireType_of_value by lia. cbn [number type].
  case_test; [lia|].
  pose proof (rest_of_advance _ _ _ Hr) as Hr1.
  pose proof (advance_wf _ _ _ Hwf Hr) as Hwf1.
  rewrite length_app, <- advance_advance.
  destruct v as [v|bs|bs|bs]; cbn [wtype value_ok encode_value] in *.
  - by rewrite (readVarint_bytes _ _ _ Hr1 Hv).
  - rewrite (next_fixed_encode _ _ bs post) by done. by rewrite Hv.
  - assert (Hs : in_u64 (size bs)) by (pose proof (size_nonneg bs); zlia).
    rewrite <- app_assoc in Hr1. rewrite (readVarint_bytes _ _ _ Hr1 Hs). cbn [negb orb].
    pose proof (rest_of_advance _ _ _ Hr1) as Hr2.
    pose proof (advance_wf _ _ _ Hwf1 Hr1) as Hwf2.
    rewrite <- rest_of_length, Hr2, size_app by done.
    case_test; [pose proof (size_nonneg post); lia|].
    rewrite subspan_eq, Hr2.
    replace (Z.to_nat (size bs)) with (length bs) by zlia.
    rewrite take_length_app by done.
    by rewrite length_app, !advance_advance, Nat.add_assoc.
  - rewrite (next_fixed_encode _ _ bs post) by done. by rewrite Hv.
Qed.

End next.

(** ** Lemmas: the scanning loops *)
Section scan.
Context {A : Type} (body : Field -> option A).

(** Enough fuel is enough. *)
Lemma scan_loop_fuel n m r fd :
  reader_wf r ->
  (length (Reader.bytes_ r) - Reader.offset_ r < n)%nat ->
  (length (Reader.bytes_ r) - Reader.offset_ r < m)%nat ->
  Reader.scan_loop n body r fd = Reader.scan_loop m body r fd.
Proof.
  revert m r fd. induction n as [|n IH]; intros m r fd Hr Hn Hm; [lia|].
  destruct m as [|m]; [lia|]. cbn [Reader.scan_loop].
  pose proof (next_range r fd Hr) as H.
  destruct (Reader.next r fd) as [[[] fd'] r']; [|done].
  destruct H as (Hb & Hr' & _ & Ho). destruct (Ho eq_refl) as [Ho' _].
  destruct (body fd'); [done|]. unfold reader_wf in *.
  apply IH; rewrite ?Hb; rewrite ?Hb in *; unfold reader_wf; rewrite ?Hb; lia.
Qed.

(** The loop does what the [while] does: one round, then itself. *)
Lemma scan_round r fd :
  reader_wf r ->
  Reader.scan body r fd =
    match Reader.next r fd with
    | (true, fd', r') =>
        match body fd' with
        | Some a => Some a
        | None => Reader.scan body r' fd'
        end
    | (false, _, _) => None
    end.
Proof.
  intros Hr. unfold Reader.scan at 1. cbn [Reader.scan_loop].
  pose proof (next_range r fd Hr) as H.
  destruct (Reader.next r fd) as [[[] fd'] r']; [|done].
  destruct H as (Hb & Hr' & _ & Ho). destruct (Ho eq_refl) as [Ho' _].
  destruct (body fd'); [done|]. unfold Reader.scan.
  apply scan_loop_fuel; [done| |]; unfold reader_wf in *; rewrite ?Hb in *; lia.
Qed.

Lemma scan_encode fs r fd :
  rest_of r = encode fs -> reader_wf r -> Reader.ok_ r = true -> Forall field_ok fs ->
  Reader.scan body r fd = first_some body (map to_field fs).
Proof.
  intros Hr Hwf Hok Hfs. revert r fd Hr Hwf Hok.
  induction Hfs as [|f fs Hf Hfs IH]; intros r fd Hr Hwf Hok; rewrite scan_round by done.
  - by rewrite next_end.
  - unfold encode in Hr. cbn [map concat] in Hr. fold (encode fs) in Hr.
    rewrite (next_encode _ _ _ _ Hr) by done. cbn [map first_some].
    destruct (body (to_field f)); [done|]. apply IH; [|by eapply advance_wf|done].
    by apply rest_of_advance.
Qed.

(** A scan stops at the first answer and never looks at what follows. *)
Lemma scan_encode_app fs post r fd a :
  rest_of r = encode fs ++ post -> reader_wf r -> Reader.ok_ r = true -> Forall field_ok fs ->
  first_some body (map to_field fs) = Some a ->
  Reader.scan body r fd = Some a.
Proof.
  intros Hr Hwf Hok Hfs. revert r fd Hr Hwf Hok.
  induction Hfs as [|f fs Hf Hfs IH]; intros r fd Hr Hwf Hok Ha; [done|].
  rewrite scan_round by done.
  unfold encode in Hr. cbn [map concat] in Hr. fold (encode fs) in Hr.
  rewrite <- app_assoc in Hr.
  rewrite (next_encode _ _ _ _ Hr) by done. cbn [map first_some] in Ha.
  destruct (body (to_field f)); [done|].
  apply IH; [|by eapply advance_wf|done|done]. by apply rest_of_advance.
Qed.

End scan.

(** ** Lemmas: messages *)
Section messages.

Lemma scan_init {A} (body : Field -> option A) fs :
  Forall field_ok fs ->
  Reader.scan body (Reader.init (encode fs)) Field_init = first_some body (map to_field fs).
Proof. intros Hfs. apply scan_encode; [done|unfold reader_wf; cbn; lia|done|done]. Qed.

Lemma findVarint_encode fs n :
  Forall field_ok fs -> findVarint (encode fs) n = lookup_varint fs n.
Proof.
  intros Hfs. unfold findVarint. rewrite scan_init by done. clear Hfs.
  induction fs as [|[m [v|bs|bs|bs]] fs IH]; cbn; [done|..];
    destruct (m =? n); by rewrite ?IH.
Qed.

Lemma findBytes_encode fs n :
  Forall field_ok fs -> findBytes (encode fs) n = lookup_bytes fs n.
Proof.
  intros Hfs. unfold findBytes. rewrite scan_init by done. clear Hfs.
  induction fs as [|[m [v|bs|bs|bs]] fs IH]; cbn; [done|..];
    destruct (m =? n); by rewrite ?IH.
Qed.

Lemma hasField_encode fs n :
  Forall field_ok fs -> hasField (encode fs) n = has_number fs n.
Proof.
  intros Hfs. unfold hasField. rewrite scan_init by done. clear Hfs.
  induction fs as [|[m v] fs IH]; cbn; [done|]. by destruct (m =? n).
Qed.

(** An upper bound on an encoding's size that computes on a concrete list. *)
Fixpoint fields_size (fs : list wfield) : Z :=
  match fs with
  | [] => 0
  | W _ (WVarint _) :: fs => 20 + fields_size fs
  | W _ (WFixed64 bs) :: fs | W _ (WFixed32 bs) :: fs | W _ (WBytes bs) :: fs =>
      20 + size bs + fields_size fs
  end.

Lemma varint_bytes_max n : size (varint_bytes n) <= 10.
Proof.
  unfold varint_bytes, size.
  assert (H : forall fuel m, (length (varint_enc fuel m) <= fuel)%nat).
  { induction fuel as [|fuel IH]; intros m; cbn; [lia|].
    case_test; cbn; [lia|]. apply le_n_S, IH. }
  specialize (H 10%nat n). lia.
Qed.

Lemma encode_size fs : size (encode fs) <= fields_size fs.
Proof.
  induction fs as [|[n v] fs IH]; [done|].
  unfold encode. cbn [map concat]. fold (encode fs). unfold encode_field. cbn [wnum wval].
  rewrite !size_app. pose proof (varint_bytes_max (n * 8 + WireType_value (wtype v))).
  destruct v as [v|bs|bs|bs]; cbn [encode_value fields_size wtype] in *.
  - pose proof (varint_bytes_max v). lia.
  - lia.
  - rewrite size_app. pose proof (varint_bytes_max (size bs)). lia.
  - lia.
Qed.

Lemma encode_app fs gs : encode (fs ++ gs) = encode fs ++ encode gs.
Proof. unfold encode. by rewrite map_app, concat_app. Qed.

(** Each writer operation appends one field. *)
Lemma encodes_init : encodes Writer.init [].
Proof. split; [done|constructor]. Qed.

Lemma writer_key w n v :
  1 <= n < 2 ^ 32 ->
  Writer.data_ (Writer.key w n (wtype v)) =
    Writer.data_ w ++ varint_bytes (n * 8 + WireType_value (wtype v)).
Proof.
  intros Hn. unfold Writer.key. rewrite wrap_small; [|rewrite Z.shiftl_mul_pow2; lia].
  rewrite Z.lor_comm, lor_shiftl_add by (lia || destruct v; cbn; lia).
  rewrite <- writer_varint by (by apply key_in_u64).
  do 2 f_equal. lia.
Qed.

Lemma encodes_snoc w w' fs n v :
  encodes w fs -> 1 <= n < 2 ^ 32 -> value_ok v ->
  Writer.data_ w' = Writer.data_ w ++ encode_field (W n v) ->
  encodes w' (fs ++ [W n v]).
Proof.
  intros [Hw Hfs] Hn Hv Hw'. split.
  - rewrite Hw', Hw, encode_app. cbn. by rewrite app_nil_r.
  - apply Forall_app. split; [done|]. by apply Forall_singleton.
Qed.

Lemma encodes_varintField w fs n v :
  encodes w fs -> 1 <= n < 2 ^ 32 -> in_u64 v ->
  encodes (Writer.varintField w n v) (fs ++ [W n (WVarint v)]).
Proof.
  intros Hw Hn Hv. apply (encodes_snoc w); [done..|]. unfold Writer.varintField.
  rewrite writer_varint by done. change Varint with (wtype (WVarint v)).
  rewrite writer_key by done. by rewrite <- app_assoc.
Qed.

Lemma encodes_bytesField w fs n bs :
  encodes w fs -> 1 <= n < 2 ^ 32 -> size bs < 2 ^ 64 ->
  encodes (Writer.bytesField w n bs) (fs ++ [W n (WBytes bs)]).
Proof.
  intros Hw Hn Hv. apply (encodes_snoc w); [done..|]. unfold Writer.bytesField.
  cbn [Writer.data_]. rewrite writer_varint by (pose proof (size_nonneg bs); zlia).
  change LengthDelimited with (wtype (WBytes bs)).
  rewrite writer_key by done. unfold encode_field. cbn. by rewrite <- !app_assoc.
Qed.

Lemma encodes_stringField w fs n s :
  encodes w fs -> 1 <= n < 2 ^ 32 -> Z.of_nat (String.length s) < 2 ^ 64 ->
  encodes (Writer.stringField w n s) (fs ++ [W n (WBytes (bytes_of_string s))]).
Proof.
  intros. apply encodes_bytesField; [done..|]. unfold size. by rewrite bytes_of_string_length.
Qed.

Lemma encodes_messageField w fs n nested nfs :
  encodes nested nfs -> encodes w fs -> 1 <= n < 2 ^ 32 -> fields_size nfs < 2 ^ 64 ->
  encodes (Writer.messageField w n nested) (fs ++ [W n (WBytes (encode nfs))]).
Proof.
  intros [Hd Hnfs] Hw Hn Hs. unfold Writer.messageField. rewrite Hd.
  apply encodes_bytesField; [done..|]. pose proof (encode_size nfs). lia.
Qed.

(** Reading from a writer's bytes. *)
Lemma findVarint_encodes w fs n : encodes w fs -> findVarint (Writer.data_ w) n = lookup_varint fs n.
Proof. intros [-> ?]. by apply findVarint_encode. Qed.

Lemma findBytes_encodes w fs n : encodes w fs -> findBytes (Writer.data_ w) n = lookup_bytes fs n.
Proof. intros [-> ?]. by apply findBytes_encode. Qed.

Lemma hasField_encodes w fs n : encodes w fs -> hasField (Writer.data_ w) n = has_number fs n.
Proof. intros [-> ?]. by apply hasField_encode. Qed.

End messages.

(** ** Framing *)
Section framing.

(** The decoder a receiver of frames amounts to. *)
Definition deframe (stream : list Z) : option (list Z * list Z) :=
  let '(done, n, prefix) := decodeVarintPrefix stream in
  let rest := drop prefix stream in
  if done && (n <=? size rest) then Some (take (Z.to_nat n) rest, drop (Z.to_nat n) rest)
  else None.

#[export] Instance frame_deframe :
  SelfDelimiting (fun payload => size payload < 2 ^ 64) frame deframe.
Proof.
  intros payload rest Hp. unfold deframe. rewrite frame_eq, <- app_assoc by done.
  assert (Hs : in_u64 (size payload)) by (pose proof (size_nonneg payload); zlia).
  rewrite (decodeVarintPrefix_of _ (size payload)); [|by apply varint_bytes_of|
    by apply varint_bytes_length].
  rewrite wrap_small, drop_app_length, size_app by done. cbn [andb].
  case_test; [|pose proof (size_nonneg rest); lia].
  replace (Z.to_nat (size payload)) with (length payload) by zlia.
  by rewrite take_app_length, drop_app_length.
Qed.

Context {A : Type} {valid : A -> Prop} {enc : A -> list Z}
  {dec : list Z -> option (A * list Z)} {SD : SelfDelimiting valid enc dec}.

Lemma decode_many_enc l rest :
  Forall valid l -> decode_many dec (length l) (concat (map enc l) ++ rest) = Some (l, rest).
Proof.
  induction 1 as [|a l Ha Hl IH]; [done|]. cbn [length decode_many map concat].
  rewrite <- app_assoc, dec_enc by done. by rewrite IH.
Qed.

Lemma enc_app_inj a b ra rb :
  valid a -> valid b -> enc a ++ ra = enc b ++ rb -> a = b /\ ra = rb.
Proof.
  intros Ha Hb H. pose proof (dec_enc a ra Ha) as Ea. rewrite H, dec_enc in Ea by done.
  by injection Ea as -> ->.
Qed.

End framing.

#[global] Arguments varint_bytes : simpl never.
#[global] Arguments encode : simpl never.
#[global] Arguments findVarint : simpl never.
#[global] Arguments findBytes : simpl never.
#[global] Arguments hasField : simpl never.
#[global] Arguments frame : simpl never.

(** ** Automation

    [encode_solve] proves that a writer built by a sequence of field operations
    encodes the list of those fields; [bound_sizes] bounds the sizes of nested
    encodings on the way, and [wire] holds the facts on 64-bit conversions. *)
Create HintDb wire.

Lemma in_u64_wrap64 z : in_u64 (u64 z).
Proof. pose proof (wrap_range 64 z). zlia. Qed.

Lemma in_u64_wrap32 z : in_u64 (u32 z).
Proof. pose proof (wrap_range 32 z). zlia. Qed.

Lemma u64_u32 z : u64 (u32 z) = u32 z.
Proof. apply wrap_small, in_u64_wrap32. Qed.

#[export] Hint Resolve in_u64_wrap64 in_u64_wrap32 : wire.

Ltac bound_sizes :=
  repeat match goal with
  | |- context [size (encode ?l)] =>
      generalize (encode_size l); generalize (size (encode l)); cbn [fields_size app]
  end;
  unfold size in *; rewrite ?bytes_of_string_length in *; cbn [String.length] in *;
  intros; lia.

Ltac encode_step :=
  lazymatch goal with
  | |- encodes Writer.init _ => exact encodes_init
  | |- encodes (Writer.messageField _ _ _) _ => eapply encodes_messageField
  | |- encodes (Writer.stringField _ _ _) _ => eapply encodes_stringField
  | |- encodes (Writer.bytesField _ _ _) _ => eapply encodes_bytesField
  | |- encodes (Writer.varintField _ _ _) _ => eapply encodes_varintField
  | |- in_u64 _ => first [apply in_u64_wrap64 | apply in_u64_wrap32 | zlia]
  | |- _ <= _ < _ => lia
  | |- _ < _ => cbn [fields_size app String.length]; bound_sizes
  end.

Ltac encode_solve := repeat encode_step.
