(* ===== verification/Framing.v ===== *)
(** * Splitting a byte stream into frames

    [unframe] is the reference reading of a connection: as many whole frames as the
    bytes hold.  The lemmas relate it to [deframe] and to a decoder that is given
    the length one byte at a time, as the remote connection and the pairing
    connection are. *)

From S2P Require Import Prelude Wire WireSpec.

Local Open Scope Z_scope.

(** Every frame takes at least one byte, so the length of the stream is fuel enough. *)
Fixpoint unframe_loop (fuel : nat) (stream : list Z) : list (list Z) :=
  match fuel with
  | O => []
  | S fuel =>
      match deframe stream with
      | Some (message, stream) => message :: unframe_loop fuel stream
      | None => []
      end
  end.

Definition unframe (stream : list Z) : list (list Z) := unframe_loop (length stream) stream.

(** The first [length messages] frames of [bytes] are [messages], and [partial] is
    what follows them. *)
Definition framed (bytes : list Z) (messages : list (list Z)) (partial : list Z) : Prop :=
  decode_many deframe (length messages) bytes = Some (messages, partial).

(** A length that is not complete yet, and its value so far. *)
Definition unfinished (bytes : list Z) (value : Z) : Prop :=
  decodeVarintPrefix bytes = (false, value, 0%nat).

Definition finished (bytes : list Z) (value : Z) : Prop :=
  decodeVarintPrefix bytes = (true, value, length bytes).

Section prefix.

Lemma decode_loop_app data rest value p sh v n :
  decodeVarintPrefix_loop data value p sh = (true, v, n) ->
  decodeVarintPrefix_loop (data ++ rest) value p sh = (true, v, n).
Proof.
  revert value p sh. induction data as [|b data IH]; intros value p sh H; [done|].
  cbn [app decodeVarintPrefix_loop] in *. case_test_in H; [done|].
  destruct (Z.land b 0x80 =? 0); auto.
Qed.

Lemma decode_loop_length data value p sh v n :
  decodeVarintPrefix_loop data value p sh = (true, v, n) -> (p < n <= p + length data)%nat.
Proof.
  revert value p sh. induction data as [|b data IH]; intros value p sh H; [done|].
  cbn [length decodeVarintPrefix_loop] in *. case_test_in H; [done|].
  destruct (Z.land b 0x80 =? 0); [injection H; lia|]. apply IH in H. lia.
Qed.

Lemma decode_loop_more data b value p sh v :
  decodeVarintPrefix_loop data value p sh = (false, v, 0%nat) -> (0 < p)%nat \/ sh <= 63 ->
  decodeVarintPrefix_loop (data ++ [b]) value p sh =
  decodeVarintPrefix_loop [b] v (p + length data) (sh + 7 * Z.of_nat (length data)).
Proof.
  revert value p sh. induction data as [|c data IH]; intros value p sh H Hp.
  { injection H as ->. cbn [app length]. rewrite Nat.add_0_r. by rewrite Z.add_0_r. }
  cbn [app length decodeVarintPrefix_loop] in *.
  destruct (Z.ltb_spec 63 sh); [injection H as -> ->; lia|].
  destruct (Z.land c 0x80 =? 0); [done|]. rewrite IH by (done || lia).
  cbn [decodeVarintPrefix_loop].
  replace (S p + length data)%nat with (p + S (length data))%nat by lia.
  by replace (sh + 7 + 7 * Z.of_nat (length data)) with (sh + 7 * Z.of_nat (S (length data))) by lia.
Qed.

Lemma decodeVarintPrefix_range bytes v n : decodeVarintPrefix bytes = (true, v, n) -> 0 <= v.
Proof.
  unfold decodeVarintPrefix. generalize 0%nat at 1. intros p. generalize 0 at 2. intros sh.
  assert (0 <= 0) as H0 by lia. revert H0. generalize 0 at 2 3. intros value.
  revert value p sh. induction bytes as [|b bytes IH]; intros value p sh H0 H; [done|].
  cbn [decodeVarintPrefix_loop] in H. case_test_in H; [done|].
  assert (0 <= Z.lor value (u64 (Z.shiftl (Z.land b 0x7f) sh))) as Hl.
  { apply Z.lor_nonneg. split; [done|]. apply wrap_range. lia. }
  destruct (Z.land b 0x80 =? 0); [injection H as <- _; done|]. by eapply IH.
Qed.

(** One more byte of a length. *)
Lemma unfinished_nil : unfinished [] 0.
Proof. reflexivity. Qed.

Lemma unfinished_more bytes v b :
  unfinished bytes v -> (length bytes <= 9)%nat ->
  let v' := Z.lor v (u64 (Z.shiftl (Z.land b 0x7f) (7 * Z.of_nat (length bytes)))) in
  if Z.land b 0x80 =? 0 then finished (bytes ++ [b]) v' else unfinished (bytes ++ [b]) v'.
Proof.
  intros H Hl. unfold finished, unfinished, decodeVarintPrefix in *.
  rewrite (decode_loop_more _ _ _ _ _ _ H) by lia. cbn [decodeVarintPrefix_loop].
  destruct (Z.ltb_spec 63 (0 + 7 * Z.of_nat (length bytes))); [lia|].
  rewrite length_app. cbn. rewrite Nat.add_1_r. by destruct (Z.land b 0x80 =? 0).
Qed.

Lemma unfinished_deframe bytes v : unfinished bytes v -> deframe bytes = None.
Proof. intros H. unfold deframe. by rewrite H. Qed.

(** A length and the bytes it announces make one frame. *)
Lemma finished_deframe bytes v message :
  finished bytes v -> size message = v -> deframe (bytes ++ message) = Some (message, []).
Proof.
  intros H Hv. unfold deframe, finished, decodeVarintPrefix in *.
  rewrite (decode_loop_app _ _ _ _ _ _ _ H), drop_app_length, <- Hv, Z.leb_refl. cbn [andb].
  replace (Z.to_nat (size message)) with (length message) by zlia.
  by rewrite take_ge, drop_ge by lia.
Qed.

Lemma finished_waits bytes v : finished bytes v -> 1 <= v -> deframe bytes = None.
Proof.
  intros H Hv. unfold deframe. rewrite H, drop_ge by lia.
  destruct (Z.leb_spec v (size (A := Z) [])); [zlia|done].
Qed.

Lemma deframe_app a b m r : deframe a = Some (m, r) -> deframe (a ++ b) = Some (m, (r ++ b)%list).
Proof.
  unfold deframe. destruct (decodeVarintPrefix a) as [[[|] n] k] eqn:E; [|done].
  unfold decodeVarintPrefix in *. rewrite (decode_loop_app _ _ _ _ _ _ _ E).
  apply decode_loop_length in E as Hk. apply decodeVarintPrefix_range in E as Hn.
  rewrite drop_app_le, size_app by lia. pose proof (size_nonneg b).
  destruct (Z.leb_spec n (size (drop k a))); [|done]. cbn [andb]. intros [= <- <-].
  destruct (Z.leb_spec n (size (drop k a) + size b)); [|lia].
  rewrite take_app_le, drop_app_le by zlia. done.
Qed.

Lemma deframe_shorter a m r : deframe a = Some (m, r) -> (length r < length a)%nat.
Proof.
  unfold deframe. destruct (decodeVarintPrefix a) as [[[|] n] k] eqn:E; [|done].
  apply decode_loop_length in E. destruct (_ <=? _); [|done]. intros [= _ <-].
  rewrite !length_drop. lia.
Qed.

End prefix.

Section frames.

Lemma framed_nil bytes : framed bytes [] bytes.
Proof. reflexivity. Qed.

(** More bytes may follow. *)
Lemma framed_app bytes messages partial more :
  framed bytes messages partial -> framed (bytes ++ more) messages (partial ++ more).
Proof.
  unfold framed. revert bytes. induction messages as [|m messages IH]; intros bytes H;
    cbn [length decode_many] in *; [by injection H as ->|].
  destruct (deframe bytes) as [[m' bytes']|] eqn:E; [|done].
  rewrite (deframe_app _ _ _ _ E).
  destruct (decode_many deframe (length messages) bytes') as [[l r]|] eqn:El; [|done].
  injection H as -> -> ->. by rewrite (IH _ El).
Qed.

(** The next message. *)
Lemma framed_snoc bytes messages partial m rest :
  framed bytes messages partial -> deframe partial = Some (m, rest) ->
  framed bytes (messages ++ [m]) rest.
Proof.
  unfold framed. rewrite length_app, Nat.add_1_r.
  revert bytes. induction messages as [|m' messages IH]; intros bytes H Hm;
    cbn [length decode_many app] in *.
  { injection H as ->. by rewrite Hm. }
  destruct (deframe bytes) as [[m1 bytes']|] eqn:E; [|done].
  destruct (decode_many deframe (length messages) bytes') as [[l r]|] eqn:El; [|done].
  injection H as -> -> ->. specialize (IH _ El Hm). cbn [decode_many] in IH. by rewrite IH.
Qed.

Lemma unframe_loop_framed fuel bytes messages partial :
  framed bytes messages partial -> (length bytes <= fuel)%nat ->
  exists fuel', (length partial <= fuel')%nat /\
    unframe_loop fuel bytes = (messages ++ unframe_loop fuel' partial)%list.
Proof.
  unfold framed. revert fuel bytes. induction messages as [|m messages IH]; intros fuel bytes H Hl;
    cbn [length decode_many app] in *; [injection H as ->; by exists fuel|].
  destruct (deframe bytes) as [[m' bytes']|] eqn:E; [|done].
  destruct (decode_many deframe (length messages) bytes') as [[l r]|] eqn:El; [|done].
  injection H as -> -> ->. apply deframe_shorter in E as Hs.
  destruct fuel as [|fuel]; [lia|]. cbn [unframe_loop]. rewrite E.
  destruct (IH fuel _ El ltac:(lia)) as (fuel' & Hf & ->). by exists fuel'.
Qed.

Lemma unframe_framed bytes messages partial :
  framed bytes messages partial -> messages `prefix_of` unframe bytes.
Proof.
  intros H. destruct (unframe_loop_framed (length bytes) _ _ _ H) as (f & _ & E); [done|].
  unfold unframe. rewrite E. by eexists.
Qed.

Lemma unframe_complete bytes messages partial :
  framed bytes messages partial -> deframe partial = None -> unframe bytes = messages.
Proof.
  intros H Hp. destruct (unframe_loop_framed (length bytes) _ _ _ H) as (f & _ & E); [done|].
  unfold unframe. rewrite E. destruct f; cbn [unframe_loop]; [|rewrite Hp]; apply app_nil_r.
Qed.

(** What was framed of a stream of frames is what was put in. *)
Lemma framed_prefix bytes payloads messages partial rest :
  Forall (fun payload => size payload < 2 ^ 64) payloads ->
  framed bytes messages partial -> (bytes ++ rest)%list = concat (map frame payloads) ->
  messages `prefix_of` payloads.
Proof.
  intros Hp H%(framed_app _ _ _ rest) E. rewrite E in H. clear E bytes.
  unfold framed in H. revert payloads Hp H.
  induction messages as [|m messages IH]; intros payloads Hp H; [by eexists|].
  cbn [length decode_many] in H. destruct Hp as [|p payloads Hp1 Hp]; cbn [map concat] in H.
  { by vm_compute in H. }
  rewrite (dec_enc (enc := frame)) in H by done.
  destruct (decode_many _ _ (concat _)) as [[l r]|] eqn:El; [|done].
  injection H as -> -> Hr. apply prefix_cons, (IH _ Hp). by rewrite El, Hr.
Qed.

End frames.

#[global] Arguments unframe : simpl never.
#[global] Arguments deframe : simpl never.
