(* ===== verification/WireProps.v ===== *)
(** * Properties of the wire codec

    Round trips, exactness of the varint decoders, safety and termination of the
    reader on arbitrary input, and the framing of streams. *)

From S2P Require Import Prelude Wire WireSpec.

Local Open Scope Z_scope.

(** The writer that appends the fields of a list one after the other. *)
Definition write_field (w : Writer.Writer) (f : wfield) : Writer.Writer :=
  match wval f with
  | WVarint v => Writer.varintField w (wnum f) v
  | WBytes bs => Writer.bytesField w (wnum f) bs
  | WFixed64 _ | WFixed32 _ => w
  end.

(** The fields the writer has an operation for. *)
Definition writable (f : wfield) : Prop :=
  field_ok f /\ match wval f with WVarint _ | WBytes _ => True | _ => False end.

Lemma write_fields_encodes w fs gs :
  encodes w gs -> Forall writable fs -> encodes (fold_left write_field fs w) (gs ++ fs).
Proof.
  intros Hw Hfs. revert w gs Hw. induction Hfs as [|[n v] fs [[Hn Hv] Hk] Hfs IH];
    intros w gs Hw; cbn; [by rewrite app_nil_r|].
  change (gs ++ W n v :: fs) with (gs ++ [W n v] ++ fs). rewrite app_assoc. apply IH.
  destruct v; try done; cbn in *; [by apply encodes_varintField|by apply encodes_bytesField].
Qed.

(** Whether a decoder's input starts with a varint of at most ten bytes. *)
Definition starts_with_varint (bytes bs : list Z) (n : Z) : Prop :=
  exists rest, bytes = bs ++ rest /\ varint_of bs n /\ (length bs <= 10)%nat.

(** C28. Any message written field by field is read back exactly: [findVarint],
    [findBytes] and [hasField] give, for every field number, the first field of
    that number and type among those that were written, and [None] or [false]
    when there is none. *)
Theorem write_find_roundtrip (fs : list wfield) (n : Z) :
  Forall writable fs ->
  let message := Writer.data_ (fold_left write_field fs Writer.init) in
  findVarint message n = lookup_varint fs n /\
  findBytes message n = lookup_bytes fs n /\
  hasField message n = has_number fs n.
Proof.
  intros Hfs message. pose proof (write_fields_encodes _ _ [] encodes_init Hfs) as H.
  split_and!; [by apply findVarint_encodes|by apply findBytes_encodes|by apply hasField_encodes].
Qed.

Lemma write_find_roundtrip_witness :
  let fs := [W 1 (WVarint 300); W 2 (WBytes [1; 2; 3]); W 1 (WVarint 7)] in
  findVarint (Writer.data_ (fold_left write_field fs Writer.init)) 1 = Some 300.
Proof.
  apply (write_find_roundtrip [W 1 (WVarint 300); W 2 (WBytes [1; 2; 3]); W 1 (WVarint 7)] 1).
  repeat constructor; cbn; zlia.
Defined.

(** [readVarint] is exact on arbitrary bytes: it succeeds precisely when the
    unread input starts with a base-128 number of at most ten bytes, the value is
    that number modulo [2 ^ 64], and exactly its bytes are consumed. *)
Theorem readVarint_exact (r : Reader.Reader) (v : Z) (r' : Reader.Reader) :
  bytes_ok (rest_of r) ->
  Reader.readVarint r = (true, v, r') <->
  exists bs n, starts_with_varint (rest_of r) bs n /\
    v = u64 n /\ r' = Reader.advance r (length bs).
Proof.
  intros Hok. split.
  - intros H. pose proof H as H'. unfold Reader.readVarint in H'. fold (rest_of r) in H'.
    destruct (Reader.readVarint_loop _ _ _ _) as [[done v'] o'] eqn:E.
    injection H' as -> -> H'.
    apply (readVarint_loop_inv _ Hok _ _ 0) in E as (bs & n & rest & Hr & Hbs & Hlen & _).
    rewrite (readVarint_of r bs n rest) in H by done. injection H as <- <-.
    exists bs, n. split; [by exists rest|done].
  - intros (bs & n & (rest & Hr & Hbs & Hlen) & -> & ->). by eapply readVarint_of.
Qed.

Lemma readVarint_exact_witness :
  Reader.readVarint (Reader.init [0xac; 0x02; 0x55]) =
    (true, 300, Reader.advance (Reader.init [0xac; 0x02; 0x55]) 2).
Proof.
  apply (readVarint_exact (Reader.init [0xac; 0x02; 0x55])).
  - repeat constructor; zlia.
  - exists [0xac; 0x02], 300. split; [|done]. exists [0x55]. split_and!; [done| |cbn; lia].
    apply (varint_more 0xac [0x02] 2); [lia|]. by constructor.
Defined.

(** C31. [Reader::next] is memory safe on every input: the reader keeps its buffer,
    never moves backwards or past the end, moves forward when it returns [true],
    and the span it hands out lies inside the part of the buffer already passed. *)
Theorem next_safe (r : Reader.Reader) (fd : Field) :
  reader_wf r ->
  let '(found, fd', r') := Reader.next r fd in
  Reader.bytes_ r' = Reader.bytes_ r /\ reader_wf r' /\
  (Reader.offset_ r <= Reader.offset_ r')%nat /\
  (found = true -> (Reader.offset_ r < Reader.offset_ r')%nat /\
     span_inside (Reader.bytes_ r) (bytes_value fd') (Reader.offset_ r')).
Proof. apply next_range. Qed.

Lemma next_safe_witness :
  let '(found, fd', r') := Reader.next (Reader.init [0x12; 0x02; 7; 8; 9]) Field_init in
  found = true /\ bytes_value fd' = [7; 8] /\ reader_wf r'.
Proof.
  pose proof (next_safe (Reader.init [0x12; 0x02; 7; 8; 9]) Field_init) as H.
  vm_compute in H |- *. split_and!; [done..|]. apply H. lia.
Defined.

(** Malformed fields are rejected for good: after a key that has field number
    0 or a wire type without an enumerator, announces a fixed-width value or a
    length longer than what is left, [next] returns [false], [ok()] is [false],
    and every later [next] returns [false] without touching anything. *)
Theorem next_rejects_malformed (r : Reader.Reader) (fd : Field) (bs rest : list Z) (k : Z) :
  reader_wf r -> Reader.ok_ r = true ->
  rest_of r = bs ++ rest -> varint_of bs k -> (length bs <= 10)%nat ->
  (u32 (Z.shiftr (u64 k) 3) = 0 \/
   match WireType_of (Z.land (u64 k) 0x07) with
   | Varint => False
   | Fixed64 => size rest < 8
   | Fixed32 => size rest < 4
   | LengthDelimited =>
       exists ls len body, rest = ls ++ body /\ varint_of ls len /\
         (length ls <= 10)%nat /\ size body < u64 len
   | UnnamedWireType _ => True
   end) ->
  exists fd' r', Reader.next r fd = (false, fd', r') /\ Reader.ok_ r' = false /\
    forall fd'', Reader.next r' fd'' = (false, fd'', r').
Proof.
  intros Hwf Hok Hr Hbs Hlen Hbad.
  assert (Hstuck : forall r0 fd0, Reader.ok_ r0 = false -> Reader.next r0 fd0 = (false, fd0, r0)).
  { intros r0 fd0 H. unfold Reader.next. by rewrite H. }
  pose proof (varint_of_length _ _ Hbs).
  pose proof (rest_of_length r Hwf) as Hsz. rewrite Hr, size_app in Hsz.
  pose proof (rest_of_advance _ _ _ Hr) as Hr1.
  pose proof (advance_wf _ _ _ Hwf Hr) as Hwf1.
  unfold Reader.next at 1. rewrite Hok. cbn [negb orb]. unfold Reader.remaining in Hsz.
  pose proof (size_nonneg rest).
  case_test; [zlia|]. rewrite (readVarint_of r bs k rest) by done. cbn [negb number type].
  destruct (Z.eqb_spec (u32 (Z.shiftr (u64 k) 3)) 0) as [E|E]; [eexists _, _; split; eauto|].
  destruct Hbad as [?|Hbad]; [done|].
  destruct (WireType_of _); [done| | | |eexists _, _; split; eauto].
  - unfold Reader.next_fixed. rewrite <- rest_of_length, Hr1 by done.
    case_test; [|zlia]. eexists _, _; split; eauto.
  - destruct Hbad as (ls & len & body & -> & Hls & Hll & Hbody).
    rewrite (readVarint_of _ ls len body) by done. cbn [negb orb].
    rewrite <- rest_of_length, (rest_of_advance _ _ _ Hr1) by (by eapply advance_wf).
    case_test; [|zlia]. eexists _, _; split; eauto.
  - unfold Reader.next_fixed. rewrite <- rest_of_length, Hr1 by done.
    case_test; [|zlia]. eexists _, _; split; eauto.
Qed.

Lemma next_rejects_malformed_witness :
  exists fd' r', Reader.next (Reader.init [0x12; 0x05; 7]) Field_init = (false, fd', r') /\
    Reader.ok_ r' = false /\ forall fd'', Reader.next r' fd'' = (false, fd'', r').
Proof.
  apply (next_rejects_malformed (Reader.init [0x12; 0x05; 7]) Field_init [0x12] [0x05; 7] 0x12).
  - unfold reader_wf. cbn. lia.
  - done.
  - done.
  - constructor. lia.
  - cbn. lia.
  - right. exists [0x05], 5, [7]. split_and!; [done|constructor; lia|cbn; lia|vm_compute; done].
Defined.

(** C32. The scanning loops terminate: one round per unread byte is enough, any
    further fuel changes nothing, and the result satisfies the loop's equation. *)
Theorem scan_terminates {A} (body : Field -> option A) (fuel : nat) (r : Reader.Reader) (fd : Field) :
  reader_wf r -> (length (Reader.bytes_ r) - Reader.offset_ r < fuel)%nat ->
  Reader.scan_loop fuel body r fd = Reader.scan body r fd /\
  Reader.scan body r fd =
    match Reader.next r fd with
    | (true, fd', r') =>
        match body fd' with Some a => Some a | None => Reader.scan body r' fd' end
    | (false, _, _) => None
    end.
Proof.
  intros Hr Hf. split; [|by apply scan_round].
  unfold Reader.scan. apply scan_loop_fuel; [done|done|lia].
Qed.

Lemma scan_terminates_witness :
  Reader.scan_loop 40 Some (Reader.init [0x08; 0x07]) Field_init =
  Reader.scan Some (Reader.init [0x08; 0x07]) Field_init.
Proof. apply scan_terminates; [unfold reader_wf|]; cbn; lia. Defined.

(** C33. The writer's varints are canonical: a 64-bit value is appended as one
    base-128 number of one to ten bytes, and no shorter number has that value. *)
Theorem varint_shortest (w : Writer.Writer) (v : Z) :
  in_u64 v ->
  exists bs, Writer.data_ (Writer.varint w v) = Writer.data_ w ++ bs /\
    varint_of bs v /\ (1 <= length bs <= 10)%nat /\
    forall bs', varint_of bs' v -> (length bs <= length bs')%nat.
Proof.
  intros Hv. exists (varint_bytes v).
  split_and!; [by apply writer_varint|by apply varint_bytes_of|apply varint_bytes_length..|];
    [done|done|].
  intros bs' Hbs'. apply varint_enc_length; [by eapply varint_of_length|].
  pose proof (varint_of_bound _ _ Hbs'). done.
Qed.

Lemma varint_shortest_witness :
  exists bs, Writer.data_ (Writer.varint Writer.init 16384) = bs /\ length bs = 3%nat.
Proof.
  destruct (varint_shortest Writer.init 16384) as (bs & H & _); [zlia|].
  exists bs. cbn [app Writer.init Writer.data_] in H. split; [done|].
  rewrite <- H. vm_compute. reflexivity.
Defined.

(** C30. Framing round trip: the concatenation of the frames of any payloads,
    followed by anything, is split back into exactly those payloads, and the
    bytes after the last frame are left. *)
Theorem frames_roundtrip (payloads : list (list Z)) (rest : list Z) :
  Forall (fun payload => size payload < 2 ^ 64) payloads ->
  decode_many deframe (length payloads) (concat (map frame payloads) ++ rest) =
    Some (payloads, rest).
Proof. apply decode_many_enc. Qed.

Lemma frames_roundtrip_witness :
  decode_many deframe 3 (concat (map frame [[1; 2]; []; replicate 200 5]) ++ [9]) =
    Some ([[1; 2]; []; replicate 200 5], [9]).
Proof. apply (frames_roundtrip [[1; 2]; []; replicate 200 5] [9]). repeat constructor. Defined.

(** Where [decodeVarintPrefix] stops when it fails. *)
Lemma decode_loop_fails data value k v n :
  (k <= 10)%nat ->
  decodeVarintPrefix_loop data value k (7 * Z.of_nat k) = (false, v, n) ->
  n = if (10 <? k + length data)%nat then 10%nat else 0%nat.
Proof.
  revert value k. induction data as [|b data IH]; intros value k Hk H; cbn [length] in *.
  - injection H as <- <-. case_test; lia.
  - cbn [decodeVarintPrefix_loop] in H. case_test_in H.
    + injection H as <- <-. case_test; lia.
    + destruct (Z.land b 0x80 =? 0); [done|].
      replace (7 * Z.of_nat k + 7) with (7 * Z.of_nat (S k)) in H by lia.
      apply IH in H; [|lia]. by rewrite H, Nat.add_succ_r.
Qed.

(** The two varint decoders agree on every input: same verdict, same value,
    same number of bytes when they succeed; when they fail the reader is no longer
    [ok()], and [prefixLength] is 0 for an input that ends inside a number and 10
    for a number that is too long. *)
Theorem decoders_agree (data : list Z) :
  let '(done, v, n) := decodeVarintPrefix data in
  let '(done', v', r') := Reader.readVarint (Reader.init data) in
  done' = done /\ v' = v /\
  (if done then Reader.offset_ r' = n
   else Reader.ok_ r' = false /\ n = if (10 <? length data)%nat then 10%nat else 0%nat).
Proof.
  unfold decodeVarintPrefix, Reader.readVarint. cbn [Reader.init Reader.bytes_ Reader.offset_ drop].
  pose proof (decode_loop_eq data 0 0 0 0) as H.
  pose proof (decode_loop_fails data 0 0) as Hf. change (7 * Z.of_nat 0) with 0 in Hf.
  destruct (decodeVarintPrefix_loop _ _ _ _) as [[d v] n].
  destruct (Reader.readVarint_loop _ _ _ _) as [[d' v'] o'].
  destruct H as (-> & -> & Ho). split_and!; [done..|]. destruct d; cbn.
  - specialize (Ho eq_refl). lia.
  - split; [done|]. by apply (Hf v n); [lia|].
Qed.
