(* ===== verification/Types.v ===== *)
(** * The public data types ([include/androidtvremote/types.hpp])

    Enumerations are inductive types; [..._value] is the underlying integer. *)

From S2P Require Import Prelude.

Local Open Scope Z_scope.

Inductive ConnectionState :=
  | Disconnected
  | Connecting
  | Connected
  | Reconnecting.

#[export] Instance ConnectionState_eq_dec : EqDecision ConnectionState.
Proof. solve_decision. Defined.

Inductive Direction :=
  | UnknownDirection
  | StartLong
  | EndLong
  | Short.

#[export] Instance Direction_eq_dec : EqDecision Direction.
Proof. solve_decision. Defined.

Definition Direction_value (d : Direction) : Z :=
  match d with
  | UnknownDirection => 0
  | StartLong => 1
  | EndLong => 2
  | Short => 3
  end.

Inductive KeyCode :=
  | UnknownKey | Home | Back
  | Digit0 | Digit1 | Digit2 | Digit3 | Digit4
  | Digit5 | Digit6 | Digit7 | Digit8 | Digit9
  | DpadUp | DpadDown | DpadLeft | DpadRight | DpadCenter
  | VolumeUp | VolumeDown | Power | Enter | Delete | Search
  | MediaPlayPause | PageUp | PageDown | VolumeMute | ChannelUp | ChannelDown.

#[export] Instance KeyCode_eq_dec : EqDecision KeyCode.
Proof. solve_decision. Defined.

Definition KeyCode_value (k : KeyCode) : Z :=
  match k with
  | UnknownKey => 0
  | Home => 3
  | Back => 4
  | Digit0 => 7
  | Digit1 => 8
  | Digit2 => 9
  | Digit3 => 10
  | Digit4 => 11
  | Digit5 => 12
  | Digit6 => 13
  | Digit7 => 14
  | Digit8 => 15
  | Digit9 => 16
  | DpadUp => 19
  | DpadDown => 20
  | DpadLeft => 21
  | DpadRight => 22
  | DpadCenter => 23
  | VolumeUp => 24
  | VolumeDown => 25
  | Power => 26
  | Enter => 66
  | Delete => 67
  | Search => 84
  | MediaPlayPause => 85
  | PageUp => 92
  | PageDown => 93
  | VolumeMute => 164
  | ChannelUp => 166
  | ChannelDown => 167
  end.

Record DeviceInfo := mkDeviceInfo {
  manufacturer : string;
  model : string;
  softwareVersion : string
}.

Record VolumeInfo := mkVolumeInfo {
  level : Z;
  maximum : Z;
  muted : bool
}.

Record DeviceIdentity := mkDeviceIdentity {
  name : string;
  macAddress : string
}.

Definition DeviceInfo_init : DeviceInfo :=
  {| manufacturer := ""; model := ""; softwareVersion := "" |}.

Definition VolumeInfo_init : VolumeInfo :=
  {| level := 0; maximum := 0; muted := false |}.

Definition DeviceIdentity_init : DeviceIdentity :=
  {| name := ""; macAddress := "" |}.
