(* ===== verification/Messages.v ===== *)
(** * The protocol's messages ([src/protocol_messages.hpp], [src/protocol_messages.cpp])

    Builders return the bytes of the message; [parseRemote] classifies a message
    of the television.  Writers of nested messages are threaded as in the code. *)

From S2P Require Import Prelude Wire Types.

Local Open Scope Z_scope.

Definition FeaturePing : Z := Z.shiftl 1 0.
Definition FeatureKey : Z := Z.shiftl 1 1.
Definition FeatureIme : Z := Z.shiftl 1 2.
Definition FeatureVoice : Z := Z.shiftl 1 3.
Definition FeaturePower : Z := Z.shiftl 1 5.
Definition FeatureVolume : Z := Z.shiftl 1 6.
Definition FeatureAppLink : Z := Z.shiftl 1 9.

(** [RemoteIncoming::Kind] *)
Inductive Kind :=
  | KUnknown
  | KConfigure
  | KSetActive
  | KImeKeyInject
  | KImeBatchEdit
  | KVolume
  | KStart
  | KPing
  | KError
  | KVoiceBegin.

#[export] Instance Kind_eq_dec : EqDecision Kind.
Proof. solve_decision. Defined.

Record RemoteIncoming := mkIncoming {
  kind : Kind;
  supportedFeatures : Z;
  deviceInfo : DeviceInfo;
  currentApp : string;
  imeCounter : Z;
  fieldCounter : Z;
  volume : VolumeInfo;
  started : bool;
  pingValue : Z;
  voiceSessionId : Z
}.

Definition RemoteIncoming_init : RemoteIncoming :=
  {| kind := KUnknown; supportedFeatures := 0; deviceInfo := DeviceInfo_init;
     currentApp := ""; imeCounter := 0; fieldCounter := 0; volume := VolumeInfo_init;
     started := false; pingValue := 0; voiceSessionId := 0 |}.

(** ** Pairing messages *)

Definition pairingOuter (fieldNumber : Z) (inner : Writer.Writer) : Writer.Writer :=
  let outer := Writer.init in
  let outer := Writer.varintField outer 1 2 in
  let outer := Writer.varintField outer 2 200 in
  Writer.messageField outer fieldNumber inner.

Definition asString (bytes : list Z) : string := string_of_bytes bytes.

Definition asI32 (value : option Z) : Z :=
  match value with Some v => i32 v | None => 0 end.

Definition asU32 (value : option Z) : Z :=
  match value with Some v => u32 v | None => 0 end.

Definition pairingRequest (clientName : string) : list Z :=
  let request := Writer.init in
  let request := Writer.stringField request 1 "atvremote" in
  let request := Writer.stringField request 2 clientName in
  Writer.data_ (pairingOuter 10 request).

Definition pairingOptions : list Z :=
  let encoding := Writer.init in
  let encoding := Writer.varintField encoding 1 3 in
  let encoding := Writer.varintField encoding 2 6 in
  let options := Writer.init in
  let options := Writer.messageField options 1 encoding in
  let options := Writer.varintField options 3 1 in
  Writer.data_ (pairingOuter 20 options).

Definition pairingConfiguration : list Z :=
  let encoding := Writer.init in
  let encoding := Writer.varintField encoding 1 3 in
  let encoding := Writer.varintField encoding 2 6 in
  let configuration := Writer.init in
  let configuration := Writer.messageField configuration 1 encoding in
  let configuration := Writer.varintField configuration 2 1 in
  Writer.data_ (pairingOuter 30 configuration).

Definition pairingSecret (secretBytes : list Z) : list Z :=
  let secret := Writer.init in
  let secret := Writer.bytesField secret 1 secretBytes in
  Writer.data_ (pairingOuter 40 secret).

Definition pairingStatus (message : list Z) : option Z := findVarint message 2.
Definition hasPairingRequestAck (message : list Z) : bool := hasField message 11.
Definition hasPairingOptions (message : list Z) : bool := hasField message 20.
Definition hasConfigurationAck (message : list Z) : bool := hasField message 31.
Definition hasSecretAck (message : list Z) : bool := hasField message 41.

(** ** Remote messages to the television *)

Definition remoteConfigureResponse (activeFeatures : Z) : list Z :=
  let device := Writer.init in
  let device := Writer.varintField device 3 1 in
  let device := Writer.stringField device 4 "1" in
  let device := Writer.stringField device 5 "atvremote" in
  let device := Writer.stringField device 6 "1.0.0" in
  let configure := Writer.init in
  let configure := Writer.varintField configure 1 (u64 activeFeatures) in
  let configure := Writer.messageField configure 2 device in
  let remote := Writer.init in
  let remote := Writer.messageField remote 1 configure in
  Writer.data_ remote.

Definition remoteSetActiveResponse (activeFeatures : Z) : list Z :=
  let active := Writer.init in
  let active := Writer.varintField active 1 (u64 activeFeatures) in
  let remote := Writer.init in
  let remote := Writer.messageField remote 2 active in
  Writer.data_ remote.

Definition remotePingResponse (value : Z) : list Z :=
  let ping := Writer.init in
  let ping := Writer.varintField ping 1 (u64 (u32 value)) in
  let remote := Writer.init in
  let remote := Writer.messageField remote 9 ping in
  Writer.data_ remote.

Definition remoteKey (keyCode : Z) (direction : Direction) : list Z :=
  let key := Writer.init in
  let key := Writer.varintField key 1 (u64 (u32 keyCode)) in
  let key := Writer.varintField key 2 (u64 (Direction_value direction)) in
  let remote := Writer.init in
  let remote := Writer.messageField remote 10 key in
  Writer.data_ remote.

(** [pos] is an [int]; the subtraction overflows, undefined in C++, only for a
    text whose size is [2 ^ 31] modulo [2 ^ 32]. *)
Definition remoteText (text : string) (imeCounter fieldCounter : Z) : list Z :=
  let pos := i32 (Z.of_nat (String.length text)) - 1 in
  let imeObject := Writer.init in
  let imeObject := Writer.varintField imeObject 1 (u64 (u32 pos)) in
  let imeObject := Writer.varintField imeObject 2 (u64 (u32 pos)) in
  let imeObject := Writer.stringField imeObject 3 text in
  let editInfo := Writer.init in
  let editInfo := Writer.varintField editInfo 1 1 in
  let editInfo := Writer.messageField editInfo 2 imeObject in
  let batch := Writer.init in
  let batch := Writer.varintField batch 1 (u64 (u32 imeCounter)) in
  let batch := Writer.varintField batch 2 (u64 (u32 fieldCounter)) in
  let batch := Writer.messageField batch 3 editInfo in
  let remote := Writer.init in
  let remote := Writer.messageField remote 21 batch in
  Writer.data_ remote.

Definition remoteAppLink (appLink : string) : list Z :=
  let launch := Writer.init in
  let launch := Writer.stringField launch 1 appLink in
  let remote := Writer.init in
  let remote := Writer.messageField remote 90 launch in
  Writer.data_ remote.

Definition remoteVoiceBegin (sessionId : Z) : list Z :=
  let begin := Writer.init in
  let begin := Writer.varintField begin 1 (u64 (u32 sessionId)) in
  let remote := Writer.init in
  let remote := Writer.messageField remote 30 begin in
  Writer.data_ remote.

Definition remoteVoicePayload (sessionId : Z) (samples : list Z) : list Z :=
  let payload := Writer.init in
  let payload := Writer.varintField payload 1 (u64 (u32 sessionId)) in
  let payload := Writer.bytesField payload 2 samples in
  let remote := Writer.init in
  let remote := Writer.messageField remote 31 payload in
  Writer.data_ remote.

Definition remoteVoiceEnd (sessionId : Z) : list Z :=
  let ending := Writer.init in
  let ending := Writer.varintField ending 1 (u64 (u32 sessionId)) in
  let remote := Writer.init in
  let remote := Writer.messageField remote 32 ending in
  Writer.data_ remote.

(** ** Messages of the television *)

(** [remote_configure]: the nested [if]s of case 1. *)
Definition parseDeviceInfo (info : list Z) : DeviceInfo :=
  let deviceInfo := DeviceInfo_init in
  let deviceInfo :=
    match findBytes info 1 with
    | Some model => {| manufacturer := manufacturer deviceInfo; model := asString model;
                       softwareVersion := softwareVersion deviceInfo |}
    | None => deviceInfo
    end in
  let deviceInfo :=
    match findBytes info 2 with
    | Some vendor => {| manufacturer := asString vendor; model := model deviceInfo;
                        softwareVersion := softwareVersion deviceInfo |}
    | None => deviceInfo
    end in
  match findBytes info 6 with
  | Some version => {| manufacturer := manufacturer deviceInfo; model := model deviceInfo;
                       softwareVersion := asString version |}
  | None => deviceInfo
  end.

Definition parseConfigure (bytes : list Z) : RemoteIncoming :=
  {| kind := KConfigure;
     supportedFeatures := asI32 (findVarint bytes 1);
     deviceInfo := match findBytes bytes 2 with
                   | Some info => parseDeviceInfo info
                   | None => DeviceInfo_init
                   end;
     currentApp := ""; imeCounter := 0; fieldCounter := 0; volume := VolumeInfo_init;
     started := false; pingValue := 0; voiceSessionId := 0 |}.

Definition incoming_of_kind (k : Kind) : RemoteIncoming :=
  {| kind := k; supportedFeatures := 0; deviceInfo := DeviceInfo_init;
     currentApp := ""; imeCounter := 0; fieldCounter := 0; volume := VolumeInfo_init;
     started := false; pingValue := 0; voiceSessionId := 0 |}.

Definition parsePing (bytes : list Z) : RemoteIncoming :=
  {| kind := KPing; supportedFeatures := 0; deviceInfo := DeviceInfo_init;
     currentApp := ""; imeCounter := 0; fieldCounter := 0; volume := VolumeInfo_init;
     started := false; pingValue := asI32 (findVarint bytes 1); voiceSessionId := 0 |}.

Definition parseImeKeyInject (bytes : list Z) : RemoteIncoming :=
  {| kind := KImeKeyInject; supportedFeatures := 0; deviceInfo := DeviceInfo_init;
     currentApp := match findBytes bytes 1 with
                   | Some appInfo =>
                       match findBytes appInfo 12 with
                       | Some appPackage => asString appPackage
                       | None => ""
                       end
                   | None => ""
                   end;
     imeCounter := 0; fieldCounter := 0; volume := VolumeInfo_init;
     started := false; pingValue := 0; voiceSessionId := 0 |}.

Definition parseImeBatchEdit (bytes : list Z) : RemoteIncoming :=
  {| kind := KImeBatchEdit; supportedFeatures := 0; deviceInfo := DeviceInfo_init;
     currentApp := "";
     imeCounter := asI32 (findVarint bytes 1);
     fieldCounter := asI32 (findVarint bytes 2);
     volume := VolumeInfo_init;
     started := false; pingValue := 0; voiceSessionId := 0 |}.

Definition parseVoiceBegin (bytes : list Z) : RemoteIncoming :=
  {| kind := KVoiceBegin; supportedFeatures := 0; deviceInfo := DeviceInfo_init;
     currentApp := ""; imeCounter := 0; fieldCounter := 0; volume := VolumeInfo_init;
     started := false; pingValue := 0;
     voiceSessionId := asI32 (findVarint bytes 1) |}.

(** [value_or(0) != 0] *)
Definition flag_of (value : option Z) : bool :=
  negb ((match value with Some v => v | None => 0 end) =? 0).

Definition parseStart (bytes : list Z) : RemoteIncoming :=
  {| kind := KStart; supportedFeatures := 0; deviceInfo := DeviceInfo_init;
     currentApp := ""; imeCounter := 0; fieldCounter := 0; volume := VolumeInfo_init;
     started := flag_of (findVarint bytes 1); pingValue := 0; voiceSessionId := 0 |}.

Definition parseVolume (bytes : list Z) : RemoteIncoming :=
  {| kind := KVolume; supportedFeatures := 0; deviceInfo := DeviceInfo_init;
     currentApp := ""; imeCounter := 0; fieldCounter := 0;
     volume := {| level := asU32 (findVarint bytes 7);
                  maximum := asU32 (findVarint bytes 6);
                  muted := flag_of (findVarint bytes 8) |};
     started := false; pingValue := 0; voiceSessionId := 0 |}.

(** The body of [parseRemote]'s loop: [Some] is a [return], [None] goes on. *)
Definition parseField (field : Field) : option RemoteIncoming :=
  if negb (bool_decide (type field = LengthDelimited)) then None
  else match number field with
       | 1 => Some (parseConfigure (bytes_value field))
       | 2 => Some (incoming_of_kind KSetActive)
       | 3 => Some (incoming_of_kind KError)
       | 8 => Some (parsePing (bytes_value field))
       | 20 => Some (parseImeKeyInject (bytes_value field))
       | 21 => Some (parseImeBatchEdit (bytes_value field))
       | 30 => Some (parseVoiceBegin (bytes_value field))
       | 40 => Some (parseStart (bytes_value field))
       | 50 => Some (parseVolume (bytes_value field))
       | _ => None
       end.

Definition parseRemote (message : list Z) : RemoteIncoming :=
  match Reader.scan parseField (Reader.init message) Field_init with
  | Some result => result
  | None => RemoteIncoming_init
  end.

Example remoteKey_power :
  option_map (fun nested => (findVarint nested 1, findVarint nested 2))
    (findBytes (remoteKey 26 Short) 10) = Some (Some 26, Some 3).
Proof. vm_compute. reflexivity. Qed.
