(* ===== verification/MessagesSpec.v ===== *)
(** * What the protocol's messages mean

    The television's side of the protocol: [tv_message] is what a television
    sends, [tv_field] its encoding and [tv_incoming] what the client is to make of
    it.  The [..._eq] lemmas give the fields of each message of the client. *)

From S2P Require Import Prelude Wire WireSpec Types Messages.

Local Open Scope Z_scope.

(** A bound on the strings the application passes that leaves room for the
    enclosing messages; [std::string::max_size()] is in the same range. *)
Definition text_ok (s : string) : Prop := Z.of_nat (String.length s) < 2 ^ 60.

Inductive tv_message :=
  | TvConfigure (features : Z) (model vendor version : string)
  | TvSetActive
  | TvError
  | TvPing (value : Z)
  | TvImeKeyInject (appPackage : string)
  | TvImeBatchEdit (imeCounter fieldCounter : Z)
  | TvVoiceBegin (sessionId : Z)
  | TvStart (started : bool)
  | TvVolume (maximum level : Z) (muted : bool).

Definition tv_number (m : tv_message) : Z :=
  match m with
  | TvConfigure _ _ _ _ => 1
  | TvSetActive => 2
  | TvError => 3
  | TvPing _ => 8
  | TvImeKeyInject _ => 20
  | TvImeBatchEdit _ _ => 21
  | TvVoiceBegin _ => 30
  | TvStart _ => 40
  | TvVolume _ _ _ => 50
  end.

Definition wstring (n : Z) (s : string) : wfield := W n (WBytes (bytes_of_string s)).
Definition wmessage (n : Z) (fs : list wfield) : wfield := W n (WBytes (encode fs)).
Definition wint (n v : Z) : wfield := W n (WVarint v).
Definition wbool (n : Z) (b : bool) : wfield := W n (WVarint (Z.b2z b)).

(** Signed numbers travel sign-extended or as 32 bits; the client reads both. *)
Definition tv_body (m : tv_message) : list wfield :=
  match m with
  | TvConfigure features model vendor version =>
      [wint 1 (u64 features);
       wmessage 2 [wstring 1 model; wstring 2 vendor; wstring 6 version]]
  | TvSetActive => [wint 1 0]
  | TvError => []
  | TvPing value => [wint 1 (u32 value)]
  | TvImeKeyInject appPackage => [wmessage 1 [wstring 12 appPackage]]
  | TvImeBatchEdit ime field => [wint 1 (u64 ime); wint 2 (u64 field)]
  | TvVoiceBegin sessionId => [wint 1 (u64 sessionId)]
  | TvStart started => [wbool 1 started]
  | TvVolume maximum level muted => [wint 6 maximum; wint 7 level; wbool 8 muted]
  end.

Definition tv_field (m : tv_message) : wfield := wmessage (tv_number m) (tv_body m).

Definition tv_ok (m : tv_message) : Prop :=
  match m with
  | TvConfigure features model vendor version =>
      in_i32 features /\ text_ok model /\ text_ok vendor /\ text_ok version
  | TvSetActive | TvError | TvStart _ => True
  | TvPing value => in_i32 value
  | TvImeKeyInject appPackage => text_ok appPackage
  | TvImeBatchEdit ime field => in_i32 ime /\ in_i32 field
  | TvVoiceBegin sessionId => in_i32 sessionId
  | TvVolume maximum level _ => in_u32 maximum /\ in_u32 level
  end.

Definition tv_incoming (m : tv_message) : RemoteIncoming :=
  let d := RemoteIncoming_init in
  let k kd := {| kind := kd; supportedFeatures := 0; deviceInfo := deviceInfo d;
                 currentApp := ""; imeCounter := 0; fieldCounter := 0; volume := volume d;
                 started := false; pingValue := 0; voiceSessionId := 0 |} in
  match m with
  | TvConfigure features model vendor version =>
      {| kind := KConfigure; supportedFeatures := features;
         deviceInfo := {| manufacturer := vendor; model := model; softwareVersion := version |};
         currentApp := ""; imeCounter := 0; fieldCounter := 0; volume := volume d;
         started := false; pingValue := 0; voiceSessionId := 0 |}
  | TvSetActive => k KSetActive
  | TvError => k KError
  | TvPing value =>
      {| kind := KPing; supportedFeatures := 0; deviceInfo := deviceInfo d;
         currentApp := ""; imeCounter := 0; fieldCounter := 0; volume := volume d;
         started := false; pingValue := value; voiceSessionId := 0 |}
  | TvImeKeyInject appPackage =>
      {| kind := KImeKeyInject; supportedFeatures := 0; deviceInfo := deviceInfo d;
         currentApp := appPackage; imeCounter := 0; fieldCounter := 0; volume := volume d;
         started := false; pingValue := 0; voiceSessionId := 0 |}
  | TvImeBatchEdit ime field =>
      {| kind := KImeBatchEdit; supportedFeatures := 0; deviceInfo := deviceInfo d;
         currentApp := ""; imeCounter := ime; fieldCounter := field; volume := volume d;
         started := false; pingValue := 0; voiceSessionId := 0 |}
  | TvVoiceBegin sessionId =>
      {| kind := KVoiceBegin; supportedFeatures := 0; deviceInfo := deviceInfo d;
         currentApp := ""; imeCounter := 0; fieldCounter := 0; volume := volume d;
         started := false; pingValue := 0; voiceSessionId := sessionId |}
  | TvStart started =>
      {| kind := KStart; supportedFeatures := 0; deviceInfo := deviceInfo d;
         currentApp := ""; imeCounter := 0; fieldCounter := 0; volume := volume d;
         started := started; pingValue := 0; voiceSessionId := 0 |}
  | TvVolume maximum level muted =>
      {| kind := KVolume; supportedFeatures := 0; deviceInfo := deviceInfo d;
         currentApp := ""; imeCounter := 0; fieldCounter := 0;
         volume := {| level := level; maximum := maximum; muted := muted |};
         started := false; pingValue := 0; voiceSessionId := 0 |}
  end.

(** A field the client passes over: of another wire type, or unknown. *)
Definition ignored (f : wfield) : Prop :=
  match wval f with
  | WBytes _ => ~ (wnum f ∈ [1; 2; 3; 8; 20; 21; 30; 40; 50])
  | _ => True
  end.

Lemma encodes_eq w fs gs : encodes w fs -> fs = gs -> Writer.data_ w = encode gs.
Proof. intros [-> _] ->. done. Qed.

(** Proves a [..._eq] lemma. *)
Ltac message_eq :=
  unfold text_ok in *;
  eapply encodes_eq; [encode_solve | rewrite ?u64_u32; reflexivity].

Section messages.

Lemma pairingOuter_eq n inner fs :
  encodes inner fs -> fields_size fs < 2 ^ 64 -> 1 <= n < 2 ^ 32 ->
  Writer.data_ (pairingOuter n inner) = encode [wint 1 2; wint 2 200; wmessage n fs].
Proof.
  intros Hi Hs Hn. unfold pairingOuter. eapply encodes_eq.
  - eapply encodes_messageField; [done| |done|done].
    apply encodes_varintField; [|zlia|zlia]. apply encodes_varintField; [|zlia|zlia].
    apply encodes_init.
  - done.
Qed.

Lemma remoteKey_eq k d :
  remoteKey k d = encode [wmessage 10 [wint 1 (u32 k); wint 2 (Direction_value d)]].
Proof.
  unfold remoteKey. rewrite (wrap_small 64 (Direction_value d)) by (destruct d; cbn; lia).
  message_eq. destruct d; cbn; zlia.
Qed.

Lemma remotePingResponse_eq v :
  remotePingResponse v = encode [wmessage 9 [wint 1 (u32 v)]].
Proof. unfold remotePingResponse. message_eq. Qed.

Lemma remoteAppLink_eq s :
  text_ok s -> remoteAppLink s = encode [wmessage 90 [wstring 1 s]].
Proof. intros Hs. unfold remoteAppLink. message_eq. Qed.

Lemma remoteVoiceBegin_eq sid :
  remoteVoiceBegin sid = encode [wmessage 30 [wint 1 (u32 sid)]].
Proof. unfold remoteVoiceBegin. message_eq. Qed.

Lemma remoteVoiceEnd_eq sid :
  remoteVoiceEnd sid = encode [wmessage 32 [wint 1 (u32 sid)]].
Proof. unfold remoteVoiceEnd. message_eq. Qed.

Lemma remoteVoicePayload_eq sid bs :
  size bs < 2 ^ 60 ->
  remoteVoicePayload sid bs = encode [wmessage 31 [wint 1 (u32 sid); W 2 (WBytes bs)]].
Proof. intros Hs. unfold remoteVoicePayload. message_eq. Qed.

Lemma remoteSetActiveResponse_eq a :
  remoteSetActiveResponse a = encode [wmessage 2 [wint 1 (u64 a)]].
Proof. unfold remoteSetActiveResponse. message_eq. Qed.

Lemma remoteConfigureResponse_eq a :
  remoteConfigureResponse a =
    encode [wmessage 1 [wint 1 (u64 a);
      wmessage 2 [wint 3 1; wstring 4 "1"; wstring 5 "atvremote"; wstring 6 "1.0.0"]]].
Proof. unfold remoteConfigureResponse. message_eq. Qed.

Lemma remoteText_eq s ime field :
  text_ok s ->
  let pos := u32 (i32 (Z.of_nat (String.length s)) - 1) in
  remoteText s ime field =
    encode [wmessage 21 [wint 1 (u32 ime); wint 2 (u32 field);
      wmessage 3 [wint 1 1; wmessage 2 [wint 1 pos; wint 2 pos; wstring 3 s]]]].
Proof. intros Hs. unfold remoteText. message_eq. Qed.

Lemma pairingRequest_eq s :
  text_ok s ->
  pairingRequest s = encode [wint 1 2; wint 2 200;
    wmessage 10 [wstring 1 "atvremote"; wstring 2 s]].
Proof. intros Hs. unfold pairingRequest, pairingOuter. message_eq. Qed.

Lemma pairingOptions_eq :
  pairingOptions = encode [wint 1 2; wint 2 200;
    wmessage 20 [wmessage 1 [wint 1 3; wint 2 6]; wint 3 1]].
Proof. unfold pairingOptions, pairingOuter. message_eq. Qed.

Lemma pairingConfiguration_eq :
  pairingConfiguration = encode [wint 1 2; wint 2 200;
    wmessage 30 [wmessage 1 [wint 1 3; wint 2 6]; wint 2 1]].
Proof. unfold pairingConfiguration, pairingOuter. message_eq. Qed.

Lemma pairingSecret_eq bs :
  size bs < 2 ^ 60 ->
  pairingSecret bs = encode [wint 1 2; wint 2 200; wmessage 40 [W 1 (WBytes bs)]].
Proof. intros Hs. unfold pairingSecret, pairingOuter. message_eq. Qed.

End messages.
