(* ===== verification/MessagesProps.v ===== *)
(** * Properties of the protocol's messages

    What the television sends is read back exactly, and what the client sends
    carries exactly its arguments. *)

From S2P Require Import Prelude Wire WireSpec Types Messages MessagesSpec.

Local Open Scope Z_scope.

Lemma first_some_app {A B} (body : A -> option B) l1 l2 :
  first_some body l1 = None -> first_some body (l1 ++ l2) = first_some body l2.
Proof. induction l1 as [|x l1 IH]; cbn; [done|]. destruct (body x); [done|]. apply IH. Qed.

(** The fields [parseRemote] passes over. *)
Lemma parseField_ignored f : ignored f -> parseField (to_field f) = None.
Proof.
  destruct f as [n [v|bs|bs|bs]]; [done|done| |done]. unfold ignored, parseField. cbn.
  intros Hn.
  rewrite !not_elem_of_cons in Hn. destruct_pairs.
  destruct n as [|p|p]; [done| |done].
  do 6 (destruct p as [p|p|]; try done).
Qed.

Lemma first_some_ignored fs :
  Forall ignored fs -> first_some parseField (map to_field fs) = None.
Proof. induction 1 as [|f fs Hf Hfs IH]; cbn; [done|]. by rewrite parseField_ignored. Qed.

Lemma asString_of_string s : asString (bytes_of_string s) = s.
Proof. apply string_of_bytes_of_string. Qed.

Lemma flag_of_b2z b : flag_of (Some (Z.b2z b)) = b.
Proof. by destruct b. Qed.

(** Computes the lookups in the encoding of a concrete list of fields. *)
Lemma wint_ok n v : 1 <= n < 2 ^ 32 -> in_u64 v -> field_ok (wint n v).
Proof. done. Qed.

Lemma wbool_ok n b : 1 <= n < 2 ^ 32 -> field_ok (wbool n b).
Proof. intros ?. split; [done|]. destruct b; cbn; zlia. Qed.

Lemma wmessage_ok n fs : 1 <= n < 2 ^ 32 -> fields_size fs < 2 ^ 64 -> field_ok (wmessage n fs).
Proof. intros ??. split; [done|]. cbn. pose proof (encode_size fs). lia. Qed.

Lemma wstring_ok n s : 1 <= n < 2 ^ 32 -> text_ok s -> field_ok (wstring n s).
Proof.
  intros ? Hs. split; [done|]. cbn. unfold size. rewrite bytes_of_string_length.
  unfold text_ok in Hs. lia.
Qed.

Lemma wbytes_ok n bs : 1 <= n < 2 ^ 32 -> size bs < 2 ^ 60 -> field_ok (W n (WBytes bs)).
Proof. intros ??. split; [done|]. cbn. lia. Qed.

Ltac fields_ok :=
  repeat match goal with
  | |- Forall field_ok _ => constructor
  | |- field_ok (wint _ _) => apply wint_ok
  | |- field_ok (wbool _ _) => apply wbool_ok
  | |- field_ok (wmessage _ _) => apply wmessage_ok
  | |- field_ok (wstring _ _) => apply wstring_ok
  | |- field_ok (W _ (WBytes _)) => apply wbytes_ok
  | |- in_u64 _ => first [assumption | apply in_u64_wrap64 | apply in_u64_wrap32 | zlia]
  | |- text_ok _ => done
  | |- size _ < _ => assumption
  | |- _ <= _ < _ => lia
  | |- fields_size _ < _ =>
      unfold text_ok, wmessage, wstring, wint, wbool in *; cbn [fields_size]; bound_sizes
  end.

Ltac lookup_step :=
  first [ rewrite findVarint_encode by fields_ok
        | rewrite findBytes_encode by fields_ok
        | rewrite hasField_encode by fields_ok ];
  cbn [lookup_varint lookup_bytes has_number wint wbool wmessage wstring Z.eqb Pos.eqb].

Ltac lookups := repeat lookup_step.

(** The body of each television message is read back. *)
Lemma parse_tv_field m :
  tv_ok m -> parseField (to_field (tv_field m)) = Some (tv_incoming m).
Proof.
  destruct m; cbn [tv_ok]; intros Hok; destruct_pairs;
    unfold parseField, tv_field, tv_number, tv_body; cbn; f_equal;
    unfold parseConfigure, parseDeviceInfo, parsePing, parseImeKeyInject, parseImeBatchEdit,
      parseVoiceBegin, parseStart, parseVolume, incoming_of_kind;
    lookups; unfold asI32, asU32; cbn;
    rewrite ?asString_of_string, ?i32_u64, ?i32_u32, ?wrap_small, ?flag_of_b2z by done; done.
Qed.

Lemma tv_body_size m : tv_ok m -> fields_size (tv_body m) < 2 ^ 64.
Proof.
  destruct m; cbn [tv_ok tv_body]; unfold text_ok, wint, wbool, wstring, wmessage;
    cbn [fields_size]; intros; destruct_pairs; bound_sizes.
Qed.

(** The pairing reply of a television: its status and one message. *)
Definition pairing_reply (status number : Z) (body : list wfield) : list wfield :=
  [wint 1 2; wint 2 status; wmessage number body].

Lemma parse_tv_message (skipped : list wfield) (m : tv_message) (junk : list Z) :
  Forall field_ok skipped -> Forall ignored skipped -> tv_ok m ->
  parseRemote (encode (skipped ++ [tv_field m]) ++ junk) = tv_incoming m.
Proof.
  intros Hok Hig Hm. unfold parseRemote.
  erewrite (scan_encode_app parseField (skipped ++ [tv_field m]) junk); [done|done| |done| |].
  - unfold reader_wf. cbn. lia.
  - apply Forall_app. split; [done|]. apply Forall_singleton.
    apply wmessage_ok; [by destruct m|by apply tv_body_size].
  - rewrite map_app, first_some_app by (by apply first_some_ignored).
    cbn [map first_some]. by rewrite parse_tv_field.
Qed.

(** C29. Messages of the television are understood exactly.  Whatever fields that
    the client does not know come first, and whatever bytes follow, [parseRemote]
    returns the kind and every argument of the message: strings, signed counters
    and session numbers (sign-extended or 32-bit), unsigned volumes and flags. *)
Theorem parseRemote_tv (skipped : list wfield) (m : tv_message) (junk : list Z) :
  Forall field_ok skipped -> Forall ignored skipped -> tv_ok m ->
  parseRemote (encode (skipped ++ [tv_field m]) ++ junk) = tv_incoming m.
Proof. apply parse_tv_message. Qed.

Lemma parseRemote_tv_witness :
  let m := TvConfigure 623 "Fake TV" "Test Vendor" "1.2.3" in
  parseRemote (encode ([wint 7 5; wstring 99 "new"] ++ [tv_field m]) ++ [1; 2]) = tv_incoming m.
Proof.
  apply parseRemote_tv.
  - repeat constructor; cbn; try zlia.
  - constructor; [done|]. constructor; [|constructor]. unfold ignored. cbn.
    rewrite !not_elem_of_cons. split_and!; try lia. apply not_elem_of_nil.
  - cbn. unfold text_ok. cbn. split_and!; zlia.
Defined.

(** A message none of whose fields the client knows is [Unknown], with every
    other member at its default: it is never taken for another message. *)
Theorem parseRemote_unknown (fs : list wfield) :
  Forall field_ok fs -> Forall ignored fs -> parseRemote (encode fs) = RemoteIncoming_init.
Proof.
  intros Hok Hig. unfold parseRemote. rewrite scan_init by done.
  by rewrite first_some_ignored.
Qed.

Lemma parseRemote_unknown_witness :
  parseRemote (encode [wint 1 5; wmessage 9 [wint 1 5]]) = RemoteIncoming_init.
Proof.
  apply parseRemote_unknown.
  - repeat constructor; cbn; zlia.
  - constructor; [done|]. constructor; [|constructor]. unfold ignored. cbn.
    rewrite !not_elem_of_cons. split_and!; try lia. apply not_elem_of_nil.
Defined.

(** [remoteText] carries the text and its context: the counters of the last
    batch edit, one edit, and an object with the whole text and the cursor on its
    last character twice. *)
Theorem remoteText_carries (text : string) (ime field : Z) :
  (0 < String.length text)%nat -> Z.of_nat (String.length text) < 2 ^ 31 ->
  exists batch info object,
    findBytes (remoteText text ime field) 21 = Some batch /\
    findVarint batch 1 = Some (u32 ime) /\ findVarint batch 2 = Some (u32 field) /\
    findBytes batch 3 = Some info /\
    findVarint info 1 = Some 1 /\ findBytes info 2 = Some object /\
    findVarint object 1 = Some (Z.of_nat (String.length text) - 1) /\
    findVarint object 2 = Some (Z.of_nat (String.length text) - 1) /\
    findBytes object 3 = Some (bytes_of_string text).
Proof.
  intros Hpos Hlen. assert (text_ok text) as Hok by (unfold text_ok; lia).
  rewrite remoteText_eq, swrap_small by (done || zlia).
  rewrite (wrap_small 32 (Z.of_nat (String.length text) - 1)) by lia.
  eexists _, _, _. split; [lookups; reflexivity|].
  split; [lookups; reflexivity|]. split; [lookups; reflexivity|].
  split; [lookups; reflexivity|]. split; [lookups; reflexivity|].
  split; [lookups; reflexivity|]. by split_and!; lookups.
Qed.

Lemma remoteText_carries_witness :
  exists batch, findBytes (remoteText "hello" (-1) 4) 21 = Some batch /\
    findVarint batch 1 = Some (u32 (-1)).
Proof.
  destruct (remoteText_carries "hello" (-1) 4) as (batch & info & object & H);
    [cbn; lia|cbn; lia|]. exists batch. by split; apply H.
Defined.

(** The other commands carry their arguments: a key its code (as 32 bits) and
    its direction, a ping response its value, an App Link its text, and the voice
    messages their session and samples; none of them can be taken by [parseRemote]
    for something else than what its field number says. *)
Theorem commands_carry (k v sid : Z) (d : Direction) (link : string) (samples : list Z) :
  text_ok link -> size samples < 2 ^ 60 ->
  (exists b, findBytes (remoteKey k d) 10 = Some b /\
     findVarint b 1 = Some (u32 k) /\ findVarint b 2 = Some (Direction_value d)) /\
  (exists b, findBytes (remotePingResponse v) 9 = Some b /\ findVarint b 1 = Some (u32 v)) /\
  (exists b, findBytes (remoteAppLink link) 90 = Some b /\
     findBytes b 1 = Some (bytes_of_string link)) /\
  (exists b, findBytes (remoteVoicePayload sid samples) 31 = Some b /\
     findVarint b 1 = Some (u32 sid) /\ findBytes b 2 = Some samples) /\
  (exists b, findBytes (remoteVoiceEnd sid) 32 = Some b /\ findVarint b 1 = Some (u32 sid)).
Proof.
  intros Hl Hs.
  rewrite remoteKey_eq, remotePingResponse_eq, remoteAppLink_eq, remoteVoicePayload_eq,
    remoteVoiceEnd_eq by done.
  assert (in_u64 (Direction_value d)) by (destruct d; cbn; zlia).
  split_and!; eexists; (split; [lookups; reflexivity|]); split_and?; by lookups.
Qed.

Lemma commands_carry_witness :
  exists b, findBytes (remoteKey 26 Short) 10 = Some b /\ findVarint b 1 = Some 26.
Proof.
  destruct (commands_carry 26 0 0 Short "" []) as [(b & H) _]; [done|done|].
  exists b. by split; apply H.
Defined.

(** C34. The client's answers to the handshake are read by its own parser as what
    they are, and the sign-extended feature set and the 32-bit numbers survive:
    the configuration answer announces exactly the active features. *)
Theorem answers_roundtrip (features sid ime field : Z) (text : string) :
  in_i32 features -> in_i32 sid -> in_i32 ime -> in_i32 field -> text_ok text ->
  (let r := parseRemote (remoteConfigureResponse features) in
   kind r = KConfigure /\ supportedFeatures r = features /\
   softwareVersion (deviceInfo r) = "1.0.0") /\
  kind (parseRemote (remoteSetActiveResponse features)) = KSetActive /\
  (let r := parseRemote (remoteVoiceBegin sid) in
   kind r = KVoiceBegin /\ voiceSessionId r = sid) /\
  (let r := parseRemote (remoteText text ime field) in
   kind r = KImeBatchEdit /\ imeCounter r = ime /\ fieldCounter r = field).
Proof.
  intros Hf Hsid Hime Hfield Ht.
  rewrite remoteConfigureResponse_eq, remoteSetActiveResponse_eq, remoteVoiceBegin_eq,
    remoteText_eq by done.
  unfold parseRemote. rewrite !scan_init by fields_ok. cbn [map first_some].
  unfold parseField. cbn.
  change (bool_decide (LengthDelimited = LengthDelimited)) with true. cbn.
  split_and!; try done.
  - lookups. cbn [asI32]. by rewrite i32_u64.
  - lookups. unfold parseDeviceInfo. lookups. done.
  - lookups. cbn [asI32]. by rewrite i32_u32.
  - lookups. cbn [asI32]. by rewrite i32_u32.
  - lookups. cbn [asI32]. by rewrite i32_u32.
Qed.

Lemma answers_roundtrip_witness :
  supportedFeatures (parseRemote (remoteConfigureResponse (-5))) = -5.
Proof. apply (answers_roundtrip (-5) 1 2 3 "x"); done || zlia. Defined.

(** The client's pairing messages carry status 200 and exactly one message:
    the request names the service and the client, options and configuration ask
    for six hexadecimal symbols, the secret message holds the secret. *)
Theorem pairing_messages (client : string) (secret : list Z) :
  text_ok client -> size secret < 2 ^ 60 ->
  (forall message, message ∈ [pairingRequest client; pairingOptions; pairingConfiguration;
                              pairingSecret secret] ->
     pairingStatus message = Some 200 /\ findVarint message 1 = Some 2) /\
  (exists b, findBytes (pairingRequest client) 10 = Some b /\
     findBytes b 1 = Some (bytes_of_string "atvremote") /\
     findBytes b 2 = Some (bytes_of_string client)) /\
  (exists b e, findBytes pairingOptions 20 = Some b /\ findVarint b 3 = Some 1 /\
     findBytes b 1 = Some e /\ findVarint e 1 = Some 3 /\ findVarint e 2 = Some 6) /\
  (exists b e, findBytes pairingConfiguration 30 = Some b /\ findVarint b 2 = Some 1 /\
     findBytes b 1 = Some e /\ findVarint e 1 = Some 3 /\ findVarint e 2 = Some 6) /\
  (exists b, findBytes (pairingSecret secret) 40 = Some b /\ findBytes b 1 = Some secret).
Proof.
  intros Hc Hs. unfold pairingStatus.
  rewrite pairingRequest_eq, pairingOptions_eq, pairingConfiguration_eq, pairingSecret_eq by done.
  split.
  { intros message. rewrite !elem_of_cons. intros [->|[->|[->|[->|[]%not_elem_of_nil]]]];
      split; lookups; done. }
  split_and!.
  - eexists. split; [lookups; reflexivity|]. by split; lookups.
  - eexists _, _. split; [lookups; reflexivity|]. split; [by lookups|].
    split; [lookups; reflexivity|]. by split; lookups.
  - eexists _, _. split; [lookups; reflexivity|]. split; [by lookups|].
    split; [lookups; reflexivity|]. by split; lookups.
  - eexists. split; [lookups; reflexivity|]. by lookups.
Qed.

Lemma pairing_messages_witness :
  exists b, findBytes (pairingRequest "tv") 10 = Some b /\
    findBytes b 2 = Some (bytes_of_string "tv").
Proof.
  destruct (pairing_messages "tv" []) as (_ & (b & H) & _); [done|done|].
  exists b. by split; apply H.
Defined.

(** The television's pairing replies are told apart: the status is read from
    field 2, and each of the four tests answers [true] exactly on the field number
    it looks for. *)
Theorem pairing_replies_classified (status n : Z) (body : list wfield) :
  in_u64 status -> 3 <= n < 2 ^ 32 -> fields_size body < 2 ^ 64 ->
  let message := encode (pairing_reply status n body) in
  pairingStatus message = Some status /\
  hasPairingRequestAck message = (n =? 11) /\
  hasPairingOptions message = (n =? 20) /\
  hasConfigurationAck message = (n =? 31) /\
  hasSecretAck message = (n =? 41).
Proof.
  intros Hst Hn Hb message. unfold pairingStatus, hasPairingRequestAck, hasPairingOptions,
    hasConfigurationAck, hasSecretAck, message, pairing_reply.
  split_and!; lookups; try done; by destruct (n =? _).
Qed.

Lemma pairing_replies_classified_witness :
  hasConfigurationAck (encode (pairing_reply 200 31 [])) = true.
Proof. apply (pairing_replies_classified 200 31 []); cbn; zlia. Defined.
