(* ===== verification/KeyCodes.v ===== *)
(** * Key names ([keyCodeFromName] of [src/android_tv_remote.cpp])

    [std::toupper] is the one of the "C" locale. *)

From S2P Require Import Prelude Types.

Local Open Scope Z_scope.

Definition toupper (c : ascii) : ascii :=
  let n := N_of_ascii c in
  if ((97 <=? n) && (n <=? 122))%N then ascii_of_N (n - 32) else c.

Fixpoint transform (f : ascii -> ascii) (s : string) : string :=
  match s with
  | EmptyString => EmptyString
  | String c s => String (f c) (transform f s)
  end.

(** [value.erase(0, n)] *)
Fixpoint erase0 (n : nat) (s : string) : string :=
  match n, s with
  | O, _ => s
  | S n, String _ s => erase0 n s
  | S _, EmptyString => EmptyString
  end.

(** [value.rfind(prefix, 0) == 0] holds when [prefix] starts [value]. *)
Definition upperKeyName (input : string) : string :=
  let value := transform toupper input in
  if String.prefix "KEYCODE_" value then erase0 8 value else value.

Definition codes_list : list (string * Z) :=
  [ ("HOME", 3); ("BACK", 4);
      ("0", 7); ("1", 8); ("2", 9); ("3", 10); ("4", 11);
      ("5", 12); ("6", 13); ("7", 14); ("8", 15); ("9", 16);
      ("DPAD_UP", 19); ("DPAD_DOWN", 20); ("DPAD_LEFT", 21); ("DPAD_RIGHT", 22);
      ("DPAD_CENTER", 23); ("VOLUME_UP", 24); ("VOLUME_DOWN", 25); ("POWER", 26);
      ("ENTER", 66); ("DEL", 67); ("SEARCH", 84); ("MEDIA_PLAY_PAUSE", 85);
      ("PAGE_UP", 92); ("PAGE_DOWN", 93); ("MUTE", 91); ("VOLUME_MUTE", 164);
      ("CHANNEL_UP", 166); ("CHANNEL_DOWN", 167) ]%string.

Definition codes : gmap string Z := list_to_map codes_list.

Definition keyCodeFromName (name : string) : option Z :=
  let key := upperKeyName name in
  match codes !! key with
  | None => None
  | Some second => Some second
  end.

Example keycode_dpad_up : keyCodeFromName "keycode_dpad_up" = Some 19.
Proof. vm_compute. reflexivity. Qed.

Example not_a_key : keyCodeFromName "NOT_A_KEY" = None.
Proof. vm_compute. reflexivity. Qed.

Section key_names.

Lemma transform_app f s t : transform f (s +:+ t) = transform f s +:+ transform f t.
Proof.
  induction s as [|c s IH]; [done|].
  change (String (f c) (transform f (s +:+ t)) =
          String (f c) (transform f s +:+ transform f t)). by rewrite IH.
Qed.

Lemma toupper_idempotent c : toupper (toupper c) = toupper c.
Proof.
  assert (H : forallb (fun n => bool_decide
                (toupper (toupper (ascii_of_nat n)) = toupper (ascii_of_nat n))) (seq 0 256) = true)
    by (vm_compute; reflexivity).
  rewrite forallb_forall in H. rewrite <- (ascii_nat_embedding c).
  apply (bool_decide_eq_true_1 _), H, in_seq. pose proof (nat_ascii_bounded c). lia.
Qed.

Lemma transform_idempotent s : transform toupper (transform toupper s) = transform toupper s.
Proof. induction s as [|c s IH]; cbn; [done|]. by rewrite toupper_idempotent, IH. Qed.

Lemma prefix_app s t : String.prefix s (s +:+ t) = true.
Proof.
  induction s as [|c s IH]; [by destruct t|].
  change ((if ascii_dec c c then String.prefix s (s +:+ t) else false) = true).
  by destruct (ascii_dec c c).
Qed.

Lemma erase0_app s t : erase0 (String.length s) (s +:+ t) = t.
Proof. induction s as [|c s IH]; [done|]. apply IH. Qed.

Lemma keyCode_in_table s c : keyCodeFromName s = Some c -> (upperKeyName s, c) ∈ codes_list.
Proof.
  unfold keyCodeFromName. intros H.
  destruct (codes !! upperKeyName s) eqn:E; [|done]. injection H as <-.
  by apply elem_of_list_to_map_2 in E.
Qed.

(** A decidable statement about every entry of the table. *)
Lemma codes_forall (P : string * Z -> bool) :
  forallb P codes_list = true -> forall e, e ∈ codes_list -> P e = true.
Proof. rewrite forallb_forall. intros H e He%list_elem_of_In. by apply H. Qed.

(** Key names are case-insensitive and [KEYCODE_] is optional in any case: two
    names that agree up to case have the same code, and a name that does not start
    with [KEYCODE_] has the same code with the prefix as without. *)
Theorem key_names_normalised (s t pre : string) :
  (transform toupper s = transform toupper t -> keyCodeFromName s = keyCodeFromName t) /\
  (transform toupper pre = "KEYCODE_" ->
   String.prefix "KEYCODE_" (transform toupper s) = false ->
   keyCodeFromName (pre +:+ s) = keyCodeFromName s) /\
  keyCodeFromName (transform toupper s) = keyCodeFromName s.
Proof.
  unfold keyCodeFromName, upperKeyName. split_and!.
  - intros ->. done.
  - intros Hpre Hs. rewrite Hs, transform_app, Hpre, prefix_app.
    by rewrite (erase0_app "KEYCODE_").
  - by rewrite transform_idempotent.
Qed.

Lemma key_names_normalised_witness :
  keyCodeFromName ("KeyCode_" +:+ "dpad_Up") = keyCodeFromName "dpad_Up".
Proof. by apply (key_names_normalised "dpad_Up" "" "KeyCode_"). Defined.

(** The table and the [KeyCode] enumeration agree: every enumerator but
    [Unknown] has a name, every name stands for an enumerator or is [MUTE] (91,
    which has none), and no two normalised names share a code. *)
Theorem key_names_table :
  (forall k, k <> UnknownKey -> exists s, keyCodeFromName s = Some (KeyCode_value k)) /\
  (forall s c, keyCodeFromName s = Some c ->
     upperKeyName s = "MUTE" /\ c = 91 \/ exists k, k <> UnknownKey /\ KeyCode_value k = c) /\
  (forall s t c, keyCodeFromName s = Some c -> keyCodeFromName t = Some c ->
     upperKeyName s = upperKeyName t).
Proof.
  split_and!.
  - intros k Hk.
    exists (match list_find (fun e => snd e = KeyCode_value k) codes_list with
            | Some (_, (s, _)) => s | None => "" end).
    destruct k; [done|vm_compute; reflexivity..].
  - intros s c H%keyCode_in_table.
    pose proof (codes_forall (fun e =>
      bool_decide (e = ("MUTE"%string, 91)) ||
      existsb (fun k => KeyCode_value k =? snd e)
        [Home; Back; Digit0; Digit1; Digit2; Digit3; Digit4; Digit5; Digit6; Digit7; Digit8;
         Digit9; DpadUp; DpadDown; DpadLeft; DpadRight; DpadCenter; VolumeUp; VolumeDown; Power;
         Enter; Delete; Search; MediaPlayPause; PageUp; PageDown; VolumeMute; ChannelUp;
         ChannelDown]) eq_refl _ H) as Hd.
    apply orb_true_iff in Hd as [Hd|Hd].
    + apply bool_decide_eq_true in Hd. injection Hd as -> ->. by left.
    + apply existsb_exists in Hd as (k & Hk & E%Z.eqb_eq). right. exists k.
      split; [|done]. intros ->. by repeat destruct Hk as [Hk|Hk].
  - intros s t c Hs%keyCode_in_table Ht%keyCode_in_table.
    pose proof (codes_forall (fun e => forallb (fun e' =>
      negb (snd e =? snd e') || bool_decide (fst e = fst e')) codes_list) eq_refl _ Hs) as H.
    rewrite forallb_forall in H. apply list_elem_of_In in Ht. specialize (H _ Ht).
    cbn in H. rewrite Z.eqb_refl in H. by apply bool_decide_eq_true in H.
Qed.

End key_names.
