(* ===== verification/Effects.v ===== *)
(** * Functions that change state, throw, block or are undefined

    The synchronous half of the library (certificates and pairing) is written in the
    monad [M S]: a function from the state before to an [Outcome].  [wp] is the weakest
    precondition with one postcondition for each way to end; [Undefined] has none, so
    a proved [wp] also shows that nothing undefined happens. *)

From S2P Require Import Prelude.

(** How a call ends: it returns, it throws, it waits for something that does not
    come, or it does what C++ leaves undefined (a null or dangling pointer, a write
    past the end of a buffer). *)
Inductive Outcome (S A : Type) :=
  | Returns (a : A) (s : S)
  | Throws (e : exn) (s : S)
  | Blocks (s : S)
  | Undefined.
Arguments Returns {S A} a s.
Arguments Throws {S A} e s.
Arguments Blocks {S A} s.
Arguments Undefined {S A}.

Definition M (S A : Type) : Type := S -> Outcome S A.

#[export] Instance M_ret {S} : MRet (M S) := fun A a s => Returns a s.

#[export] Instance M_bind {S} : MBind (M S) := fun A B k m s =>
  match m s with
  | Returns a s' => k a s'
  | Throws e s' => Throws e s'
  | Blocks s' => Blocks s'
  | Undefined => Undefined
  end.

Section operations.
Context {S T A : Type}.

Definition throw (e : exn) : M S A := fun s => Throws e s.
Definition block : M S A := fun s => Blocks s.
Definition undefined : M S A := fun _ => Undefined.
Definition gets (f : S -> A) : M S A := fun s => Returns (f s) s.
Definition modify (f : S -> S) : M S unit := fun s => Returns tt (f s).

(** [std::optional] or a nullable pointer that must be there, or else [m]. *)
Definition or_else (o : option A) (m : M S A) : M S A :=
  match o with Some a => mret a | None => m end.

(** A call that works on a part of the state; there is nothing to work on when [get]
    gives [None] (a null pointer). *)
Definition zoom (get : S -> option T) (set : T -> S -> S) (m : M T A) : M S A := fun s =>
  match get s with
  | None => Undefined
  | Some t =>
      match m t with
      | Returns a t' => Returns a (set t' s)
      | Throws e t' => Throws e (set t' s)
      | Blocks t' => Blocks (set t' s)
      | Undefined => Undefined
      end
  end.

(** The destructor [d] of an object of the scope runs when [m] throws.  A destructor
    does not throw (it is [noexcept]). *)
Definition unwind (m : M S A) (d : M S unit) : M S A := fun s =>
  match m s with
  | Throws e s' =>
      match d s' with
      | Returns _ s'' => Throws e s''
      | Blocks s'' => Blocks s''
      | Throws _ _ | Undefined => Undefined
      end
  | o => o
  end.

(** An object of type [T] that lives on the stack of the call, and its last value. *)
Definition with_local (t : T) (m : M (T * S) A) : M S (A * T) := fun s =>
  match m (t, s) with
  | Returns a (t', s') => Returns (a, t') s'
  | Throws e (_, s') => Throws e s'
  | Blocks (_, s') => Blocks s'
  | Undefined => Undefined
  end.

End operations.

(** The state of an object beside the state of its surroundings. *)
Definition outside {X W A} : M W A -> M (X * W) A :=
  zoom (fun s => Some s.2) (fun w s => (s.1, w)).

(** The destructor runs at the end of the scope, whether [m] returns or throws. *)
Definition scope {S A} (m : M S A) (d : M S unit) : M S A :=
  a ← unwind m d; d ;; mret a.

(** ** Weakest preconditions *)
Section wp.
Context {S : Type}.

Definition wp {A} (m : M S A) (Q : A -> S -> Prop) (E : exn -> S -> Prop) (B : S -> Prop)
    (s : S) : Prop :=
  match m s with
  | Returns a s' => Q a s'
  | Throws e s' => E e s'
  | Blocks s' => B s'
  | Undefined => False
  end.

Lemma wp_mono {A} (m : M S A) (Q Q' : A -> S -> Prop) (E E' : exn -> S -> Prop) (B B' : S -> Prop) s :
  wp m Q E B s -> (forall a s, Q a s -> Q' a s) -> (forall e s, E e s -> E' e s) ->
  (forall s, B s -> B' s) -> wp m Q' E' B' s.
Proof. unfold wp. destruct (m s); auto. Qed.

Lemma wp_bind {A C} (m : M S A) (k : A -> M S C) Q E B s :
  wp m (fun a => wp (k a) Q E B) E B s -> wp (m ≫= k) Q E B s.
Proof. unfold wp, mbind, M_bind. destruct (m s); auto. Qed.

Lemma wp_unwind {A} (m : M S A) d Q (E : exn -> S -> Prop) B s :
  wp m Q (fun e => wp d (fun _ => E e) (fun _ _ => False) B) B s -> wp (unwind m d) Q E B s.
Proof. unfold wp, unwind. destruct (m s); auto. by destruct (d _). Qed.

Lemma wp_scope {A} (m : M S A) d (Q : A -> S -> Prop) (E : exn -> S -> Prop) B s :
  wp m (fun a => wp d (fun _ => Q a) (fun _ _ => False) B)
       (fun e => wp d (fun _ => E e) (fun _ _ => False) B) B s ->
  wp (scope m d) Q E B s.
Proof.
  intros H. unfold scope. apply wp_bind, wp_unwind. eapply wp_mono; [exact H| |done|done].
  intros a s' Hd. apply wp_bind. eapply wp_mono; [exact Hd| |done|done].
  intros ? s'' H'. exact H'.
Qed.

Lemma wp_zoom {T A} (get : S -> option T) set (m : M T A) Q E B s t :
  get s = Some t ->
  match m t with
  | Returns a t' => Q a (set t' s)
  | Throws e t' => E e (set t' s)
  | Blocks t' => B (set t' s)
  | Undefined => False
  end -> wp (zoom get set m) Q E B s.
Proof. unfold wp, zoom. intros ->. by destruct (m t). Qed.

Lemma wp_local {T A} (t : T) (m : M (T * S) A) (Q : A * T -> S -> Prop) (E : exn -> S -> Prop) B s :
  match m (t, s) with
  | Returns a s' => Q (a, s'.1) s'.2
  | Throws e s' => E e s'.2
  | Blocks s' => B s'.2
  | Undefined => False
  end -> wp (with_local t m) Q E B s.
Proof. unfold wp, with_local. by destruct (m _) as [? []|? []|[]|]. Qed.

(** [m] keeps the invariant [I], whether it returns or throws, and when it blocks [B]
    holds. *)
Definition keeps {A} (I B : S -> Prop) (m : M S A) : Prop :=
  forall s, I s -> wp m (fun _ => I) (fun _ => I) B s.

Context (I B : S -> Prop).

Lemma keeps_ret {A} (a : A) : keeps I B (mret a).
Proof. by intros s ?. Qed.

Lemma keeps_throw {A} e : keeps I B (throw (A := A) e).
Proof. by intros s ?. Qed.

Lemma keeps_gets {A} (f : S -> A) : keeps I B (gets f).
Proof. by intros s ?. Qed.

Lemma keeps_modify f : (forall s, I s -> I (f s)) -> keeps I B (modify f).
Proof. intros H s Hs. by apply H. Qed.

Lemma keeps_bind {A C} (m : M S A) (k : A -> M S C) :
  keeps I B m -> (forall a, keeps I B (k a)) -> keeps I B (m ≫= k).
Proof. intros Hm Hk s Hs. apply wp_bind. eapply wp_mono; [by apply Hm| |done|done]. intros. by apply Hk. Qed.

Lemma keeps_unwind {A} (m : M S A) d :
  keeps I B m -> (forall s, I s -> wp d (fun _ => I) (fun _ _ => False) B s) ->
  keeps I B (unwind m d).
Proof. intros Hm Hd s Hs. apply wp_unwind. eapply wp_mono; [by apply Hm|done| |done]. auto. Qed.

Lemma keeps_scope {A} (m : M S A) d :
  keeps I B m -> (forall s, I s -> wp d (fun _ => I) (fun _ _ => False) B s) ->
  keeps I B (scope m d).
Proof. intros Hm Hd s Hs. apply wp_scope. eapply wp_mono; [by apply Hm| | |done]; auto. Qed.

End wp.

(** A call on a part of the state keeps [I] when it keeps an invariant of that part. *)
Lemma keeps_zoom {S T A} (I B : S -> Prop) (J C : T -> Prop) (get : S -> option T) set (m : M T A) :
  keeps J C m -> (forall s, I s -> exists t, get s = Some t /\ J t) ->
  (forall s t, I s -> J t -> I (set t s)) -> (forall s t, I s -> C t -> B (set t s)) ->
  keeps I B (zoom get set m).
Proof.
  intros Hm Hget Hset HB s Hs. destruct (Hget s Hs) as (t & E & Ht).
  apply (wp_zoom _ _ _ _ _ _ _ t E). specialize (Hm t Ht). unfold wp in Hm.
  by destruct (m t); auto.
Qed.

Lemma keeps_outside {X W A} (I B : W -> Prop) (m : M W A) :
  keeps I B m -> keeps (fun s : X * W => I s.2) (fun s => B s.2) (outside m).
Proof. intros Hm. apply (keeps_zoom _ _ I B); [done|eauto|by intros..]. Qed.

Lemma keeps_local {S T A} (I B : S -> Prop) (t : T) (m : M (T * S) A) :
  keeps (fun s => I s.2) (fun s => B s.2) m -> keeps I B (with_local t m).
Proof.
  intros Hm s Hs. apply wp_local. specialize (Hm (t, s) Hs). unfold wp in Hm.
  by destruct (m _).
Qed.

(** ** Runs that return *)

Lemma wp_returns {S A} (m : M S A) (Q : A -> S -> Prop) s :
  wp m Q (fun _ _ => False) (fun _ => False) s -> exists a s', m s = Returns a s' /\ Q a s'.
Proof. unfold wp. destruct (m s); try done. eauto. Qed.

Lemma bind_returns {S A C} (m : M S A) (k : A -> M S C) s a s' :
  m s = Returns a s' -> (m ≫= k) s = k a s'.
Proof. unfold mbind, M_bind. by intros ->. Qed.

Lemma bind_throws {S A C} (m : M S A) (k : A -> M S C) s e s' :
  m s = Throws e s' -> (m ≫= k) s = Throws e s'.
Proof. unfold mbind, M_bind. by intros ->. Qed.

Lemma outside_returns {X W A} (m : M W A) (x : X) w a w' :
  m w = Returns a w' -> outside m (x, w) = Returns a (x, w').
Proof. unfold outside, zoom. by cbn; intros ->. Qed.

Lemma outside_throws {X W A} (m : M W A) (x : X) w e w' :
  m w = Throws e w' -> outside m (x, w) = Throws e (x, w').
Proof. unfold outside, zoom. by cbn; intros ->. Qed.

Lemma local_returns {S T A} (m : M (T * S) A) t s a t' s' :
  m (t, s) = Returns a (t', s') -> with_local t m s = Returns (a, t') s'.
Proof. unfold with_local. by intros ->. Qed.

Create HintDb keeps.
#[export] Hint Resolve keeps_ret keeps_throw keeps_gets keeps_modify
  keeps_bind keeps_unwind keeps_scope keeps_outside keeps_local : keeps.

#[global] Arguments throw : simpl never.
#[global] Arguments zoom : simpl never.
#[global] Arguments unwind : simpl never.
#[global] Arguments with_local : simpl never.
#[global] Arguments wp : simpl never.
