(* ===== verification/OpenSSL.v ===== *)
(** * The OpenSSL operations the library calls

    OpenSSL is not part of the repository: [OpenSSL] is its interface, an argument of
    the model.  [OSSL] is the hidden state of the library (error queue, random
    numbers, clock), threaded through every operation that may use it; an operation
    that may fail returns an option.  An object the code owns by a [unique_ptr] for
    one scope is a value, and an operation that changes it returns its new value.  The
    names ending in [_rsa], [_sha256] and [_mem] have that argument fixed.

    The classes after it state what the documentation of OpenSSL promises; a property
    that needs a promise has the class as a hypothesis. *)

From S2P Require Import Prelude.

Local Open Scope Z_scope.

Class OpenSSL := {
  OSSL : Type;
  X509 : Type;
  X509_NAME : Type;
  X509_NAME_ENTRY : Type;
  ASN1_STRING : Type;
  X509_EXTENSION : Type;
  EVP_PKEY : Type;
  EVP_PKEY_CTX : Type;
  EVP_MD_CTX : Type;
  BIO : Type;
  SSL_CTX : Type;

  ERR_get_error : OSSL -> Z * OSSL;
  ERR_error_string_n : Z -> Z -> string;

  (** Keys and numbers; a [BIGNUM] is the number it holds. *)
  X509_get_pubkey : X509 -> OSSL -> option EVP_PKEY * OSSL;
  EVP_PKEY_get_bn_param : EVP_PKEY -> string -> OSSL -> option Z * OSSL;
  BN_num_bytes : Z -> Z;
  BN_bn2bin : Z -> list Z;
  EVP_PKEY_CTX_new_rsa : OSSL -> option EVP_PKEY_CTX * OSSL;
  EVP_PKEY_keygen_init : EVP_PKEY_CTX -> OSSL -> option EVP_PKEY_CTX * OSSL;
  EVP_PKEY_CTX_set_rsa_keygen_bits : EVP_PKEY_CTX -> Z -> OSSL -> option EVP_PKEY_CTX * OSSL;
  EVP_PKEY_keygen : EVP_PKEY_CTX -> OSSL -> option EVP_PKEY * OSSL;

  (** Certificates. The fields that the code sets through a pointer into the
      certificate ([X509_get_serialNumber] and the like) are set on the certificate. *)
  X509_new : OSSL -> option X509 * OSSL;
  X509_set_version : X509 -> Z -> OSSL -> X509 * OSSL;
  serialNumber_set : X509 -> Z -> OSSL -> X509 * OSSL;
  notBefore_adj : X509 -> Z -> OSSL -> X509 * OSSL;
  notAfter_adj : X509 -> Z -> OSSL -> X509 * OSSL;
  X509_set_pubkey : X509 -> EVP_PKEY -> OSSL -> option X509 * OSSL;
  X509_get_subject_name : X509 -> X509_NAME;
  subject_set : X509 -> X509_NAME -> X509;
  X509_NAME_add_entry_by_txt :
    X509_NAME -> string -> Z -> string -> Z -> Z -> Z -> OSSL -> option X509_NAME * OSSL;
  X509_set_issuer_name : X509 -> X509_NAME -> OSSL -> option X509 * OSSL;
  X509V3_EXT_conf_nid : X509 -> X509 -> Z -> string -> OSSL -> option X509_EXTENSION * OSSL;
  X509_add_ext : X509 -> X509_EXTENSION -> Z -> OSSL -> option X509 * OSSL;
  X509_sign_sha256 : X509 -> EVP_PKEY -> OSSL -> option X509 * OSSL;
  X509_NAME_get_index_by_NID : X509_NAME -> Z -> Z -> Z;
  X509_NAME_get_entry : X509_NAME -> Z -> option X509_NAME_ENTRY;
  X509_NAME_ENTRY_get_data : X509_NAME_ENTRY -> ASN1_STRING;
  (** [None]: a negative length or no buffer; [Some]: the [length] bytes of the buffer. *)
  ASN1_STRING_to_UTF8 : ASN1_STRING -> OSSL -> option string * OSSL;

  (** Digests *)
  EVP_MD_CTX_new : OSSL -> option EVP_MD_CTX * OSSL;
  EVP_DigestInit_sha256 : EVP_MD_CTX -> OSSL -> option EVP_MD_CTX * OSSL;
  EVP_DigestUpdate : EVP_MD_CTX -> list Z -> OSSL -> option EVP_MD_CTX * OSSL;
  EVP_DigestFinal_ex : EVP_MD_CTX -> OSSL -> option (list Z) * OSSL;

  (** PEM; a memory [BIO] that is written to is the text in it. *)
  BIO_new_mem : OSSL -> option string * OSSL;
  PEM_write_bio_X509 : string -> X509 -> OSSL -> option string * OSSL;
  PEM_write_bio_PrivateKey : string -> EVP_PKEY -> OSSL -> option string * OSSL;
  BIO_new_mem_buf : string -> Z -> OSSL -> option BIO * OSSL;
  PEM_read_bio_X509 : BIO -> OSSL -> option X509 * OSSL;
  PEM_read_bio_PrivateKey : BIO -> OSSL -> option EVP_PKEY * OSSL;

  (** TLS contexts; a failing operation may leave the context changed. *)
  tls_client_context : OSSL -> result SSL_CTX * OSSL;
  SSL_CTX_use_certificate : SSL_CTX -> X509 -> OSSL -> (bool * SSL_CTX) * OSSL;
  SSL_CTX_use_PrivateKey : SSL_CTX -> EVP_PKEY -> OSSL -> (bool * SSL_CTX) * OSSL;
  SSL_CTX_check_private_key : SSL_CTX -> OSSL -> bool * OSSL;
  (** The [SSL] object that [asio::ssl::stream] makes of its context. *)
  SSL_new : SSL_CTX -> OSSL -> result unit * OSSL
}.

(** The constants of the headers. *)
Definition NID_commonName : Z := 13.
Definition NID_subject_alt_name : Z := 85.
Definition NID_basic_constraints : Z := 87.
Definition NID_dnQualifier : Z := 174.
Definition MBSTRING_UTF8 : Z := Z.lor 0x1000 0.
Definition OSSL_PKEY_PARAM_RSA_N : string := "n".
Definition OSSL_PKEY_PARAM_RSA_E : string := "e".

(** The number that big-endian bytes denote. *)
Fixpoint be_value_from (acc : Z) (bytes : list Z) : Z :=
  match bytes with
  | [] => acc
  | b :: bytes => be_value_from (acc * 256 + b) bytes
  end.

Definition be_value (bytes : list Z) : Z := be_value_from 0 bytes.

(** [BN_num_bits]: the position of the highest bit that is set, counted from 1. *)
Definition bits (v : Z) : Z := if v =? 0 then 0 else Z.log2 (Z.abs v) + 1.

(** BN_num_bytes(3) and BN_bn2bin(3). *)
Class BignumLaws (ssl : OpenSSL) : Prop := {
  BN_num_bytes_bits v : BN_num_bytes v = (bits v + 7) / 8;
  BN_bn2bin_length v : size (BN_bn2bin v) = BN_num_bytes v;
  BN_bn2bin_bytes v : bytes_ok (BN_bn2bin v);
  BN_bn2bin_value v : be_value (BN_bn2bin v) = Z.abs v
}.

(** EVP_DigestInit(3): the digest is a function [sha256] of all that was put in, 32
    bytes long. [hashed ctx bytes] relates a context to what was put in it. *)
Class DigestLaws (ssl : OpenSSL) (sha256 : list Z -> list Z) := {
  hashed : EVP_MD_CTX -> list Z -> Prop;
  sha256_length bytes : length (sha256 bytes) = 32%nat;
  evp_new st : exists ctx st', EVP_MD_CTX_new st = (Some ctx, st');
  evp_init ctx st : exists ctx' st',
    EVP_DigestInit_sha256 ctx st = (Some ctx', st') /\ hashed ctx' [];
  evp_update ctx bytes more st : hashed ctx bytes -> exists ctx' st',
    EVP_DigestUpdate ctx more st = (Some ctx', st') /\ hashed ctx' (bytes ++ more);
  evp_final ctx bytes st : hashed ctx bytes -> exists st',
    EVP_DigestFinal_ex ctx st = (Some (sha256 bytes), st')
}.

(** [certificate] holds an RSA public key whose numbers are [n] and [e]. *)
Definition rsa_certificate {ssl : OpenSSL} (certificate : X509) (n e : Z) : Prop :=
  forall st, exists key st1, X509_get_pubkey certificate st = (Some key, st1) /\
    (forall st, exists st', EVP_PKEY_get_bn_param key OSSL_PKEY_PARAM_RSA_N st = (Some n, st')) /\
    (forall st, exists st', EVP_PKEY_get_bn_param key OSSL_PKEY_PARAM_RSA_E st = (Some e, st')).

(** Texts that PEM reads back: [pem] is the text of [certificate], or of [key]. *)
Definition pem_certificate {ssl : OpenSSL} (pem : string) (certificate : X509) : Prop :=
  forall st, exists bio st',
    BIO_new_mem_buf pem (i32 (Z.of_nat (String.length pem))) st = (Some bio, st') /\
    forall st, exists st', PEM_read_bio_X509 bio st = (Some certificate, st').

Definition pem_key {ssl : OpenSSL} (pem : string) (key : EVP_PKEY) : Prop :=
  forall st, exists bio st',
    BIO_new_mem_buf pem (i32 (Z.of_nat (String.length pem))) st = (Some bio, st') /\
    forall st, exists st', PEM_read_bio_PrivateKey bio st = (Some key, st').

(** The context takes a certificate and its key, one after the other, and finds that they
    belong together.  Whether it does is up to its configuration: a security level may refuse
    the certificate. *)
Definition installs {ssl : OpenSSL} (certificate : X509) (key : EVP_PKEY) (context : SSL_CTX)
    (st : OSSL) (context' : SSL_CTX) (st' : OSSL) : Prop :=
  exists context1 st1 st2,
    SSL_CTX_use_certificate context certificate st = (true, context1, st1) /\
    SSL_CTX_use_PrivateKey context1 key st1 = (true, context', st2) /\
    SSL_CTX_check_private_key context' st2 = (true, st').

Definition accepts {ssl : OpenSSL} (context : SSL_CTX) (certificate : X509) (key : EVP_PKEY) : Prop :=
  forall st, exists context' st', installs certificate key context st context' st'.

Definition refuses {ssl : OpenSSL} (context : SSL_CTX) (certificate : X509) : Prop :=
  forall st, exists context' st', SSL_CTX_use_certificate context certificate st = (false, context', st').

(** A client context can be made, takes the certificate and the key, and a stream can be
    made of it. *)
Definition usable {ssl : OpenSSL} (certificate : X509) (key : EVP_PKEY) : Prop :=
  forall st, exists context st1, tls_client_context st = (Ok context, st1) /\
    accepts context certificate key /\
    forall st context' st', installs certificate key context st context' st' ->
      exists st'', SSL_new context' st' = (Ok tt, st'').
