(* ===== verification/World.v ===== *)
(** * What surrounds the synchronous calls

    [World] is what the certificate and pairing functions act on besides their own
    objects: the state of OpenSSL, the big numbers on the heap, the files, the network.
    The operations below are those of the C++ library ([std::filesystem], streams) that
    the code uses.  What may fail for outside reasons fails as [disk_] and [dials_]
    say; the theorems hold for all of them.  A path is the string it was made from. *)

From S2P Require Import Prelude Effects OpenSSL.

Local Open Scope Z_scope.
Local Open Scope cxx_scope.

Inductive node :=
  | RegularFile (content : string)
  | Directory.

(** What becomes of a file that is opened for reading or writing.  A stream that
    cannot flush its buffer when it is destroyed ([LostFlush]) does not report it. *)
Inductive read_answer := Readable | NotReadable | ReadFails (message : string).
Inductive write_answer :=
  | Written
  | NotWritable
  | WriteFails (kept : string)
  | LostFlush (kept : string).

Record Disk := mkDisk {
  stat_error : string -> option string;
  mkdir_error : string -> option string;
  reading : string -> read_answer;
  writing : string -> write_answer
}.

(** A blocking operation of the network completes, fails or waits forever. *)
Inductive progress := Completes | Fails (message : string) | Hangs.

Section world.
Context {ssl : OpenSSL}.

(** What answers one attempt to connect: the stages of the attempt, the certificate the
    other side shows, the bytes it sends and what follows them ([None]: silence), what
    becomes of the writes to it ([Completes] once the list is used up), and whether it
    lets the TLS shutdown end. *)
Record Peer := mkPeer {
  resolving : progress;
  connecting : progress;
  handshaking : progress;
  presented : option X509;
  incoming : list Z;
  ending : option string;
  accepting : list progress;
  shutting : bool
}.

(** What was done on the network, in order. *)
Inductive net_event :=
  | Dialled (host : string) (port : Z)
  | Wrote (bytes : list Z)
  | Closed.

(** [bignums_] are the [BIGNUM]s that are allocated and not freed, by their address;
    an address is not used twice, so that a dangling pointer stays dangling.  [nHolder] and [eHolder] are the [thread_local]
    variables of [rsaNumbers].  [dials_] are the answers to the next attempts. *)
Record World := mkWorld {
  openssl_ : OSSL;
  bignums_ : gmap Z Z;
  next_ : Z;
  nHolder : option Z;
  eHolder : option Z;
  files_ : gmap string node;
  disk_ : Disk;
  dials_ : list Peer;
  net_ : list net_event
}.

#[global] Instance World_settable : Settable World := fun w =>
  mkWorld (openssl_ w) (bignums_ w) (next_ w) (nHolder w) (eHolder w) (files_ w) (disk_ w)
    (dials_ w) (net_ w).

#[global] Instance Peer_settable : Settable Peer := fun p =>
  mkPeer (resolving p) (connecting p) (handshaking p) (presented p) (incoming p) (ending p)
    (accepting p) (shutting p).

(** An operation of OpenSSL. *)
Definition call {A} (f : OSSL -> A * OSSL) : M World A := fun w =>
  let '(a, st) := f (openssl_ w) in Returns a (w <| openssl_ := st |>).

Definition observe (e : net_event) : M World unit :=
  modify (fun w => w <| net_ := (net_ w ++ [e])%list |>).

(** ** The heap of big numbers *)

Definition BN_alloc (v : Z) : M World Z := fun w =>
  Returns (next_ w) (w <| bignums_ := <[next_ w := v]> (bignums_ w) |> <| next_ := next_ w + 1 |>).

(** The number at a pointer. *)
Definition BN_deref (p : option Z) : M World Z := fun w =>
  match p with
  | Some a => match bignums_ w !! a with Some v => Returns v w | None => Undefined end
  | None => Undefined
  end.

(** [BN_free(nullptr)] does nothing; a second [BN_free] is undefined. *)
Definition BN_free (p : option Z) : M World unit := fun w =>
  match p with
  | Some a =>
      match bignums_ w !! a with
      | Some _ => Returns tt (w <| bignums_ := delete a (bignums_ w) |>)
      | None => Undefined
      end
  | None => Returns tt w
  end.

(** ** Files *)

Definition is_regular_file (path : string) : M World bool := fun w =>
  match stat_error (disk_ w) path with
  | Some m => Throws (system_error m) w
  | None =>
      Returns match files_ w !! path with Some (RegularFile _) => true | _ => false end w
  end.

(** The characters before the last slash, without the slashes they end with; the
    parent of a path in the root directory is the root directory. *)
Fixpoint strip_slashes (rev_path : list ascii) : list ascii :=
  match rev_path with
  | c :: rest => if bool_decide (c = "/"%char) then strip_slashes rest else rev_path
  | [] => []
  end.

Fixpoint drop_filename (rev_path : list ascii) : option (list ascii) :=
  match rev_path with
  | c :: rest => if bool_decide (c = "/"%char) then Some rest else drop_filename rest
  | [] => None
  end.

Definition parent_path (path : string) : string :=
  match drop_filename (rev (list_ascii_of_string path)) with
  | None => ""
  | Some rest =>
      match strip_slashes rest with
      | [] => "/"
      | rest => string_of_list_ascii (rev rest)
      end
  end.

(** A directory and those above it, the highest first: the prefixes that a component
    of the path ends. *)
Fixpoint path_prefixes (before : list ascii) (path : list ascii) : list string :=
  match path with
  | [] => []
  | c :: path =>
      let here := (before ++ [c])%list in
      let rest := path_prefixes here path in
      match path with
      | [] => if bool_decide (c = "/"%char) then rest else string_of_list_ascii here :: rest
      | d :: _ =>
          if bool_decide (d = "/"%char) && negb (bool_decide (c = "/"%char))
          then string_of_list_ascii here :: rest else rest
      end
  end.

Definition create_directory (path : string) : M World unit := fun w =>
  match files_ w !! path with
  | Some Directory => Returns tt w
  | Some (RegularFile _) =>
      Throws (system_error "filesystem error: cannot create directories: Not a directory") w
  | None =>
      match mkdir_error (disk_ w) path with
      | Some m => Throws (system_error m) w
      | None => Returns tt (w <| files_ := <[path := Directory]> (files_ w) |>)
      end
  end.

Fixpoint create_each (paths : list string) : M World unit :=
  match paths with
  | [] => mret tt
  | p :: paths => create_directory p ;; create_each paths
  end.

Definition create_directories (path : string) : M World unit :=
  create_each (path_prefixes [] (list_ascii_of_string path)).

(** [std::ifstream]: [None] when the stream could not be opened, otherwise all that can
    be read from it.  A directory can be opened, not read. *)
Definition read_stream (path : string) : M World (option string) := fun w =>
  match files_ w !! path, reading (disk_ w) path with
  | None, _ | _, NotReadable => Returns None w
  | _, ReadFails m => Throws (system_error m) w
  | Some Directory, Readable => Throws (system_error "error reading the file: Is a directory") w
  | Some (RegularFile content), Readable => Returns (Some content) w
  end.

(** Whether a file can be made in the directory that is to hold it. *)
Definition has_parent (path : string) (files : gmap string node) : bool :=
  let parent := parent_path path in
  bool_decide (parent = "") || bool_decide (parent = "/") ||
  match files !! parent with Some Directory => true | _ => false end.

(** [std::ofstream] with [trunc], [write] and the destructor: whether the stream was
    good after the write. *)
Definition write_stream (path data : string) : M World bool := fun w =>
  let store content := w <| files_ := <[path := RegularFile content]> (files_ w) |> in
  match files_ w !! path with
  | Some Directory => Returns false w
  | _ =>
      if has_parent path (files_ w) then
        match writing (disk_ w) path with
        | Written => Returns true (store data)
        | NotWritable => Returns false w
        | WriteFails kept => Returns false (store kept)
        | LostFlush kept => Returns true (store kept)
        end
      else Returns false w
  end.

End world.

#[global] Arguments call : simpl never.
