(* ===== verification/Certificate.v ===== *)
(** * Certificates, keys and the pairing secret ([src/certificate.cpp])

    The functions of [androidtvremote::crypto], on OpenSSL 3. *)

From S2P Require Import Prelude Types Effects OpenSSL World.

Local Open Scope Z_scope.
Local Open Scope cxx_scope.

(** ** Pure helpers *)

(** The C string at [c_str()]: what comes before the first NUL. *)
Fixpoint c_str (s : string) : string :=
  match s with
  | EmptyString => EmptyString
  | String a s' => if bool_decide (a = Ascii.zero) then EmptyString else String a (c_str s')
  end.

(** The lambda of [hexToBytes]. *)
Definition nibble (c : ascii) : result Z :=
  let code := Z.of_N (N_of_ascii c) in
  if (48 <=? code) && (code <=? 57) then Ok (u8 (code - 48))
  else if (97 <=? code) && (code <=? 102) then Ok (u8 (10 + code - 97))
  else if (65 <=? code) && (code <=? 70) then Ok (u8 (10 + code - 65))
  else Throw (invalid_argument "pairing code is not hexadecimal").

Fixpoint hexToBytes_loop (hex : string) (out : list Z) : result (list Z) :=
  match hex with
  | String a (String b hex) =>
      high <-? nibble a ;;
      low <-? nibble b ;;
      hexToBytes_loop hex (out ++ [u8 (Z.lor (Z.shiftl high 4) low)])%list
  | _ => Ok out
  end.

Definition hexToBytes (hex : string) : result (list Z) :=
  if negb (Nat.even (String.length hex)) then
    Throw (invalid_argument "hex string must have an even number of characters")
  else hexToBytes_loop hex [].

(** Each round takes at least one character, so [length value + 1] rounds are enough. *)
Fixpoint splitSlash_loop (fuel : nat) (value : string) (begin : nat) (parts : list string) :
    list string :=
  match fuel with
  | O => parts
  | S fuel =>
      match String.index begin "/" value with
      | None => (parts ++ [String.substring begin (String.length value - begin) value])%list
      | Some pos =>
          let parts := (parts ++ [String.substring begin (pos - begin) value])%list in
          splitSlash_loop fuel value (pos + 1) parts
      end
  end.

Definition splitSlash (value : string) : list string :=
  splitSlash_loop (String.length value + 1) value 0 [].

Definition of_result {S A} (r : result A) : M S A :=
  match r with Ok a => mret a | Throw e => throw e end.

Section certificate.
Context {ssl : OpenSSL}.

(** ** Errors *)

Definition lastOpenSslError (prefix : string) : M World string :=
  code ← call ERR_get_error;
  if code =? 0 then mret prefix
  else mret (prefix +:+ ": " +:+ ERR_error_string_n code 256).

(** [throw std::runtime_error(lastOpenSslError(prefix))] *)
Definition throw_last {A} (prefix : string) : M World A :=
  message ← lastOpenSslError prefix;
  throw (runtime_error message).

(** A result that is tested, and the exception thrown when the test fails. *)
Definition expect {A} (prefix : string) (o : option A) : M World A :=
  match o with Some a => mret a | None => throw_last prefix end.

Definition checked {A} (f : OSSL -> option A * OSSL) (prefix : string) : M World A :=
  call f ≫= expect prefix.

(** ** Numbers of a public key *)

Definition bnBytes (value : option Z) : M World (list Z) :=
  number ← BN_deref value;
  let size' := BN_num_bytes number in
  if size' <=? 0 then throw (runtime_error "RSA public number is empty")
  else
    let bytes := BN_bn2bin number in
    if size' <? size bytes then undefined
    else if negb (size bytes =? size') then throw_last "BN_bn2bin failed"
    else mret bytes.

(** [EVP_PKEY_get_bn_param] with a null pointer to fill in allocates the number. *)
Definition get_bn_param (key : EVP_PKEY) (param : string) : M World (option Z) :=
  number ← call (EVP_PKEY_get_bn_param key param);
  match number with
  | None => mret None
  | Some v => address ← BN_alloc v; mret (Some address)
  end.

(** [reset] of the holders: the new pointer is stored, then the old number is freed. *)
Definition nHolder_reset (p : option Z) : M World unit :=
  old ← gets nHolder;
  modify (fun w => w <| nHolder := p |>) ;;
  BN_free old.

Definition eHolder_reset (p : option Z) : M World unit :=
  old ← gets eHolder;
  modify (fun w => w <| eHolder := p |>) ;;
  BN_free old.

Definition rsaNumbers (certificate : X509) : M World (option Z * option Z) :=
  key ← checked (X509_get_pubkey certificate) "certificate has no public key";
  n ← get_bn_param key OSSL_PKEY_PARAM_RSA_N;
  e ← match n with
      | Some _ => get_bn_param key OSSL_PKEY_PARAM_RSA_E
      | None => mret None
      end;
  match n, e with
  | Some _, Some _ =>
      nHolder_reset n ;;
      eHolder_reset e ;;
      gets (fun w => (nHolder w, eHolder w))
  | _, _ =>
      BN_free n ;;
      BN_free e ;;
      throw_last "unable to extract RSA public numbers"
  end.

(** ** The pairing secret *)

(** The lambda [update] of [pairingSecret]. *)
Definition digest_add (context : EVP_MD_CTX) (bytes : list Z) : M World EVP_MD_CTX :=
  match bytes with
  | [] => mret context
  | _ => checked (EVP_DigestUpdate context bytes) "SHA-256 update failed"
  end.

Definition digest_final (context : EVP_MD_CTX) : M World (list Z) :=
  digest ← checked (EVP_DigestFinal_ex context) "SHA-256 finalization failed";
  if 32 <? size digest then undefined
  else if negb (size digest =? 32) then throw_last "SHA-256 finalization failed"
  else mret digest.

(** The digest and its check: the calls on [context]. *)
Definition checked_digest (clientNBytes clientEBytes serverNBytes serverEBytes codeBytes : list Z) :
    M World (list Z) :=
  context ← checked EVP_MD_CTX_new "failed to allocate SHA-256 context";
  context ← checked (EVP_DigestInit_sha256 context) "SHA-256 initialization failed";
  context ← digest_add context clientNBytes;
  context ← digest_add context clientEBytes;
  context ← digest_add context serverNBytes;
  context ← digest_add context serverEBytes;
  match codeBytes with
  | [] => undefined
  | first :: codeTail =>
      context ← digest_add context codeTail;
      digest ← digest_final context;
      if bool_decide (head digest = Some first) then mret digest
      else throw (invalid_argument "pairing code does not match the TLS certificates")
  end.

Definition pairingSecret (clientCertificate serverCertificate : X509)
    (sixHexDigitCode : string) : M World (list Z) :=
  if negb (Nat.eqb (String.length sixHexDigitCode) 6) then
    throw (invalid_argument "pairing code must contain exactly 6 hexadecimal digits")
  else
    codeBytes ← of_result (hexToBytes sixHexDigitCode);
    '(clientN, clientE) ← rsaNumbers clientCertificate;
    clientNBytes ← bnBytes clientN;
    clientEBytes ← bnBytes clientE;
    '(serverN, serverE) ← rsaNumbers serverCertificate;
    serverNBytes ← bnBytes serverN;
    serverEBytes ← bnBytes serverE;
    checked_digest clientNBytes clientEBytes serverNBytes serverEBytes codeBytes.

(** ** The identity in a certificate's subject *)

Definition nameEntry (name : X509_NAME) (nid : Z) : M World string :=
  let index := X509_NAME_get_index_by_NID name nid (-1) in
  if index <? 0 then mret ""
  else
    match X509_NAME_get_entry name index with
    | None => mret ""
    | Some entry =>
        utf8 ← call (ASN1_STRING_to_UTF8 (X509_NAME_ENTRY_get_data entry));
        match utf8 with
        | None => mret ""
        | Some text => mret text
        end
    end.

(** The fields of the result, from the two entries. *)
Definition identity_of (commonName qualifier : string) : DeviceIdentity :=
  let commonParts := splitSlash commonName in
  let qualifierParts := splitSlash qualifier in
  let name :=
    if negb (bool_decide (qualifier = "")) && negb (bool_decide (qualifierParts = [])) then
      List.last qualifierParts ""
    else if (1 <? length commonParts)%nat then
      List.nth (length commonParts - 2) commonParts ""
    else commonName in
  let macAddress :=
    if negb (bool_decide (commonParts = [])) then List.last commonParts "" else "" in
  {| name := name; macAddress := macAddress |}.

Definition parseDeviceIdentity (certificate : option X509) : M World DeviceIdentity :=
  match certificate with
  | None => mret DeviceIdentity_init
  | Some certificate =>
      let subject := X509_get_subject_name certificate in
      commonName ← nameEntry subject NID_commonName;
      qualifier ← nameEntry subject NID_dnQualifier;
      mret (identity_of commonName qualifier)
  end.

(** ** Files *)

Definition readFile (path : string) : M World string :=
  content ← read_stream path;
  match content with
  | None => throw (runtime_error ("unable to open TLS identity file: " +:+ path))
  | Some content => mret content
  end.

(** The memory [BIO] is the text that was written to it. *)
Definition writeBioToFile (bio : string) (path : string) : M World unit :=
  if Z.of_nat (String.length bio) <=? 0 then
    throw_last "failed to retrieve generated PEM data"
  else
    good ← write_stream path bio;
    if negb good then throw (runtime_error ("failed to write TLS identity file: " +:+ path))
    else mret tt.

(** ** A new identity *)

Definition addExtension (certificate issuer : X509) (nid : Z) (value : string) : M World X509 :=
  ext ← checked (X509V3_EXT_conf_nid issuer certificate nid value)
          "failed to create X.509 extension";
  checked (X509_add_ext certificate ext (-1)) "failed to add X.509 extension".

(** The key: the calls on [keyContext]. *)
Definition generate_key : M World EVP_PKEY :=
  let error := "failed to initialize RSA key generation" in
  keyContext ← checked EVP_PKEY_CTX_new_rsa error;
  keyContext ← checked (EVP_PKEY_keygen_init keyContext) error;
  keyContext ← checked (EVP_PKEY_CTX_set_rsa_keygen_bits keyContext 2048) error;
  checked (EVP_PKEY_keygen keyContext) "failed to generate RSA key".

(** The certificate: the calls on [certificate].  The name is changed in the
    certificate it belongs to. *)
Definition make_certificate (key : EVP_PKEY) (commonName : string) : M World X509 :=
  certificate ← checked X509_new "failed to allocate X.509 certificate";
  certificate ← call (X509_set_version certificate 2);
  certificate ← call (serialNumber_set certificate 1000);
  certificate ← call (notBefore_adj certificate 0);
  certificate ← call (notAfter_adj certificate (60 * 60 * 24 * 365 * 10));
  certificate ← checked (X509_set_pubkey certificate key) "failed to set certificate public key";
  let name := X509_get_subject_name certificate in
  name ← checked (X509_NAME_add_entry_by_txt name "CN" MBSTRING_UTF8 (c_str commonName) (-1) (-1) 0)
           "failed to set certificate subject";
  let certificate := subject_set certificate name in
  certificate ← checked (X509_set_issuer_name certificate name)
                  "failed to set certificate subject";
  certificate ← addExtension certificate certificate NID_basic_constraints
                  "critical,CA:TRUE,pathlen:0";
  let san := "DNS:" +:+ commonName in
  certificate ← addExtension certificate certificate NID_subject_alt_name (c_str san);
  checked (X509_sign_sha256 certificate key) "failed to sign certificate".

(** The texts: the calls on [certBio] and [keyBio]. *)
Definition identity_pem (certificate : X509) (key : EVP_PKEY) : M World (string * string) :=
  certBio ← call BIO_new_mem;
  keyBio ← call BIO_new_mem;
  match certBio, keyBio with
  | Some certBio, Some keyBio =>
      let error := "failed to write certificate/key PEM files" in
      certBio ← checked (PEM_write_bio_X509 certBio certificate) error;
      keyBio ← checked (PEM_write_bio_PrivateKey keyBio key) error;
      mret (certBio, keyBio)
  | _, _ => throw_last "failed to allocate PEM output BIO"
  end.

Definition create_parent (file : string) : M World unit :=
  if bool_decide (parent_path file = "") then mret tt
  else create_directories (parent_path file).

Definition new_identity (certificateFile privateKeyFile commonName : string) : M World unit :=
  create_parent certificateFile ;;
  create_parent privateKeyFile ;;
  key ← generate_key;
  certificate ← make_certificate key commonName;
  '(certBio, keyBio) ← identity_pem certificate key;
  writeBioToFile certBio certificateFile ;;
  writeBioToFile keyBio privateKeyFile.

Definition generateCertificateIfMissing (certificateFile privateKeyFile commonName : string) :
    M World bool :=
  haveCertificate ← is_regular_file certificateFile;
  haveBoth ← (if (haveCertificate : bool) then is_regular_file privateKeyFile else mret false);
  if (haveBoth : bool) then mret false
  else new_identity certificateFile privateKeyFile commonName ;; mret true.

(** ** Loading the identity into a TLS context

    The state is the context pointed to beside the rest of the world. *)

Definition on_context (f : SSL_CTX -> OSSL -> (bool * SSL_CTX) * OSSL) :
    M (option SSL_CTX * World) bool := fun '(context, w) =>
  match context with
  | None => Undefined
  | Some context =>
      let '(ok, context, st) := f context (openssl_ w) in
      Returns ok (Some context, w <| openssl_ := st |>)
  end.

Definition check_private_key (context : SSL_CTX) (st : OSSL) : (bool * SSL_CTX) * OSSL :=
  let '(ok, st) := SSL_CTX_check_private_key context st in (ok, context, st).

Definition loadClientIdentity (certificateFile privateKeyFile : string) :
    M (option SSL_CTX * World) unit :=
  context ← gets fst;
  match context with
  | None => throw (invalid_argument "SSL_CTX is null")
  | Some _ =>
      certPem ← outside (readFile certificateFile);
      keyPem ← outside (readFile privateKeyFile);
      let length pem := i32 (Z.of_nat (String.length pem)) in
      certBio ← outside (call (BIO_new_mem_buf certPem (length certPem)));
      keyBio ← outside (call (BIO_new_mem_buf keyPem (length keyPem)));
      match certBio, keyBio with
      | Some certBio, Some keyBio =>
          certificate ← outside (call (PEM_read_bio_X509 certBio));
          privateKey ← outside (call (PEM_read_bio_PrivateKey keyBio));
          match certificate, privateKey with
          | Some certificate, Some privateKey =>
              ok ← on_context (fun c => SSL_CTX_use_certificate c certificate);
              ok ← (if (ok : bool) then on_context (fun c => SSL_CTX_use_PrivateKey c privateKey)
                    else mret false);
              ok ← (if (ok : bool) then on_context check_private_key else mret false);
              if (ok : bool) then mret tt
              else outside (throw_last "unable to install TLS certificate/private key")
          | _, _ => outside (throw_last "unable to parse TLS certificate/private key")
          end
      | _, _ => outside (throw_last "unable to allocate PEM BIO")
      end
  end.

End certificate.
