(* ===== verification/CertificateInv.v ===== *)
(** * What the certificate functions keep

    The invariant of the heap of big numbers, for every behaviour of OpenSSL, and the
    runs in which OpenSSL does its work. *)

From S2P Require Import Prelude Types Effects OpenSSL World Certificate.

Local Open Scope Z_scope.
Local Open Scope cxx_scope.

(** The buffers the code provides are large enough: BN_bn2bin(3), EVP_DigestInit(3). *)
Class BufferLaws (ssl : OpenSSL) : Prop := {
  BN_bn2bin_fits v : size (BN_bn2bin v) <= BN_num_bytes v;
  EVP_DigestFinal_fits ctx st digest st' :
    EVP_DigestFinal_ex ctx st = (Some digest, st') -> size digest <= 32
}.

Section inv.
Context {ssl : OpenSSL}.

(** The heap holds exactly the two numbers of the holders: nothing has leaked and no
    holder dangles.  Before the first use of [rsaNumbers] both are empty. *)
Inductive heap_wf (w : World) : Prop :=
  | heap_unused : nHolder w = None -> eHolder w = None -> bignums_ w = ∅ -> heap_wf w
  | heap_used a b n e :
      nHolder w = Some a -> eHolder w = Some b -> a <> b -> a < next_ w -> b < next_ w ->
      bignums_ w = <[a := n]> (<[b := e]> ∅) -> heap_wf w.

(** The files and the network are as they were. *)
Definition quiet (w w' : World) : Prop :=
  files_ w' = files_ w /\ disk_ w' = disk_ w /\ dials_ w' = dials_ w /\ net_ w' = net_ w.

(** Predicates that do not look into OpenSSL. *)
Class IgnoresOpenSSL (I : World -> Prop) : Prop :=
  ignores_openssl w st : I w -> I (w <| openssl_ := st |>).

#[global] Instance heap_wf_ignores : IgnoresOpenSSL heap_wf.
Proof. intros w st []; [by apply heap_unused|]. by eapply heap_used. Qed.

#[global] Instance quiet_ignores w : IgnoresOpenSSL (quiet w).
Proof. by intros w' st H. Qed.

#[global] Instance and_ignores I J :
  IgnoresOpenSSL I -> IgnoresOpenSSL J -> IgnoresOpenSSL (fun w => I w /\ J w).
Proof. intros HI HJ w st []. split; [by apply HI|by apply HJ]. Qed.

Lemma quiet_refl w : quiet w w.
Proof. done. Qed.

Lemma quiet_trans w1 w2 w3 : quiet w1 w2 -> quiet w2 w3 -> quiet w1 w3.
Proof. unfold quiet. intros (-> & -> & -> & ->) (-> & -> & -> & ->). done. Qed.

Lemma wp_call {A} (f : OSSL -> A * OSSL) (Q : A -> World -> Prop) E B w :
  (forall a st, f (openssl_ w) = (a, st) -> Q a (w <| openssl_ := st |>)) -> wp (call f) Q E B w.
Proof. intros H. unfold wp, call. destruct (f _) eqn:Ef. by apply H. Qed.

(** ** Operations of OpenSSL alone *)
Section calls.
Context (I B : World -> Prop) `{HI : !IgnoresOpenSSL I}.

Lemma keeps_call {A} (f : OSSL -> A * OSSL) : keeps I B (call f).
Proof using HI. intros w Hw. apply wp_call. intros. by apply HI. Qed.

(** An error of OpenSSL is thrown, whatever the queue of errors holds. *)
Lemma wp_throw_last {A} prefix (Q : A -> World -> Prop) (E : exn -> World -> Prop) C w :
  I w -> (forall e w, I w -> E e w) -> wp (throw_last prefix) Q E C w.
Proof using HI.
  intros Hw HE. apply wp_bind, wp_bind, wp_call. intros code st _.
  destruct (code =? 0); by apply HE, HI.
Qed.

Lemma wp_expect {A} prefix o (Q : A -> World -> Prop) (E : exn -> World -> Prop) C w :
  I w -> (forall a, o = Some a -> Q a w) -> (forall e w, I w -> E e w) ->
  wp (expect prefix o) Q E C w.
Proof using HI. intros Hw HQ HE. destruct o; [by apply HQ|by apply wp_throw_last]. Qed.

Lemma wp_checked {A} f prefix (Q : A -> World -> Prop) (E : exn -> World -> Prop) C w :
  I w -> (forall a w', f (openssl_ w) = (Some a, openssl_ w') -> I w' -> Q a w') ->
  (forall e w, I w -> E e w) -> wp (checked f prefix) Q E C w.
Proof using HI.
  intros Hw HQ HE. apply wp_bind, wp_call. intros o st Ef.
  apply wp_expect; [by apply HI| |done]. intros a ->. by eapply HQ, HI.
Qed.

(** The test that succeeds. *)
Lemma wp_checked_some {A} f prefix (Q : A -> World -> Prop) E C w a st :
  f (openssl_ w) = (Some a, st) -> Q a (w <| openssl_ := st |>) -> wp (checked f prefix) Q E C w.
Proof using. intros Ef HQ. apply wp_bind, wp_call. rewrite Ef. by intros ?? [= <- <-]. Qed.

Lemma keeps_throw_last {A} prefix : keeps I B (throw_last (A := A) prefix).
Proof using HI. intros w Hw. by apply wp_throw_last. Qed.

Lemma keeps_checked {A} (f : OSSL -> option A * OSSL) prefix : keeps I B (checked f prefix).
Proof using HI. intros w Hw. by apply wp_checked. Qed.

Lemma keeps_of_result {A} (r : result A) : keeps I B (of_result r).
Proof using. destruct r; [apply keeps_ret|apply keeps_throw]. Qed.

Lemma keeps_digest_add context bytes : keeps I B (digest_add context bytes).
Proof using HI. destruct bytes; [apply keeps_ret|apply keeps_checked]. Qed.

Lemma keeps_digest_final context : BufferLaws ssl -> keeps I B (digest_final context).
Proof using HI.
  intros Hb w Hw. apply wp_bind, wp_checked; [done| |done].
  intros digest w' E%EVP_DigestFinal_fits Hw'.
  destruct (Z.ltb_spec 32 (size digest)); [lia|].
  destruct (size digest =? 32); [done|]. by apply wp_throw_last.
Qed.

End calls.

(** ** The big numbers *)

Lemma heap_wf_fresh w a : heap_wf w -> next_ w <= a -> bignums_ w !! a = None.
Proof.
  intros [_ _ ->|a' b' n e _ _ _ ? ? ->] Ha; [apply lookup_empty|].
  by rewrite !lookup_insert_ne, lookup_empty by lia.
Qed.

(** The two new numbers replace the two old ones. *)
Lemma heap_replaced (a b n e a' b' n' e' : Z) :
  a <> b -> a' <> b' -> a' <> a -> a' <> b -> b' <> a -> b' <> b ->
  delete b (delete a (<[b' := e']> (<[a' := n']> (<[a := n]> (<[b := e]> (∅ : gmap Z Z)))))) =
  <[a' := n']> (<[b' := e']> ∅).
Proof.
  intros. rewrite (insert_insert_ne _ b' a'), (insert_insert_ne _ b' a), (insert_insert_ne _ a' a) by done.
  rewrite delete_insert_id by by rewrite !lookup_insert_ne, lookup_empty by done.
  rewrite (insert_insert_ne _ b' b), (insert_insert_ne _ a' b) by done.
  by rewrite delete_insert_id by by rewrite !lookup_insert_ne, lookup_empty by done.
Qed.

Definition allocated (w : World) (v : Z) (st : OSSL) : World :=
  w <| openssl_ := st |> <| bignums_ := <[next_ w := v]> (bignums_ w) |> <| next_ := next_ w + 1 |>.

Lemma wp_get_bn_param key param (Q : option Z -> World -> Prop) E B w :
  (forall st, EVP_PKEY_get_bn_param key param (openssl_ w) = (None, st) ->
     Q None (w <| openssl_ := st |>)) ->
  (forall v st, EVP_PKEY_get_bn_param key param (openssl_ w) = (Some v, st) ->
     Q (Some (next_ w)) (allocated w v st)) ->
  wp (get_bn_param key param) Q E B w.
Proof. intros HN HS. apply wp_bind, wp_call. intros [v|] st Ef; [by apply HS|by apply HN]. Qed.

Lemma wp_BN_free a (Q : unit -> World -> Prop) E B w :
  is_Some (bignums_ w !! a) -> Q tt (w <| bignums_ := delete a (bignums_ w) |>) ->
  wp (BN_free (Some a)) Q E B w.
Proof. intros [v Hv] HQ. unfold wp, BN_free. by rewrite Hv. Qed.

(** The numbers in the holders. *)
Definition holds (w : World) (n e : Z) : Prop :=
  heap_wf w /\ BN_deref (nHolder w) w = Returns n w /\ BN_deref (eHolder w) w = Returns e w.

(** Storing two fresh numbers in the holders frees the ones before. *)
Lemma wp_holders_reset w0 w n e st1 st2 (Q : option Z * option Z -> World -> Prop) E B :
  heap_wf w -> quiet w0 w ->
  (forall w', holds w' n e -> quiet w0 w' -> Q (nHolder w', eHolder w') w') ->
  wp (nHolder_reset (Some (next_ w)) ;; eHolder_reset (Some (next_ w + 1)) ;;
      gets (fun w => (nHolder w, eHolder w))) Q E B
     (allocated (allocated w n st1) e st2).
Proof.
  intros Hwf Hq HQ. set (w2 := allocated _ e st2).
  set (w3 := w2 <| nHolder := Some (next_ w) |> <| eHolder := Some (next_ w + 1) |>
                <| bignums_ := <[next_ w := n]> (<[next_ w + 1 := e]> ∅) |>).
  assert (holds w3 n e) as Hw3.
  { split; [eapply heap_used; [done|done|lia|cbn; lia..|done]|].
    unfold BN_deref, w3; cbn. by rewrite lookup_insert_eq, lookup_insert_ne, lookup_insert_eq by lia. }
  cut (Q (nHolder w3, eHolder w3) w3); [|by apply HQ].
  unfold wp, nHolder_reset, eHolder_reset, mbind, M_bind, gets, modify; cbn.
  destruct Hwf as [Hn He Hb|a b n0 e0 Hn He Hab Ha Hb Hm]; rewrite Hn; cbn.
  - rewrite He. cbn. unfold w3, w2, allocated; cbn. rewrite Hb.
    by rewrite (insert_insert_ne _ (next_ w) (next_ w + 1)) by lia.
  - rewrite Hm, 2!lookup_insert_ne, lookup_insert_eq by lia. cbn. rewrite He. cbn.
    rewrite lookup_delete_ne, 3!lookup_insert_ne, lookup_insert_eq by lia. cbn.
    unfold w3, w2, allocated; cbn. by rewrite Hm, heap_replaced by lia.
Qed.

(** The invariant of a run that began in [w0]. *)
Definition cert_inv (w0 w : World) : Prop := heap_wf w /\ quiet w0 w.

#[global] Instance cert_inv_ignores w0 : IgnoresOpenSSL (cert_inv w0).
Proof. apply _. Qed.

Lemma wp_rsaNumbers w0 certificate (Q : option Z * option Z -> World -> Prop) E B w :
  cert_inv w0 w ->
  (forall n e w', holds w' n e -> quiet w0 w' -> Q (nHolder w', eHolder w') w') ->
  (forall e w', cert_inv w0 w' -> E e w') ->
  wp (rsaNumbers certificate) Q E B w.
Proof.
  intros Hw HQ HE. apply wp_bind, (wp_checked (cert_inv w0)); [done| |done].
  clear Hw. intros key w' _ [Hwf Hq]. clear w; rename w' into w.
  apply wp_bind, wp_get_bn_param; [intros st _|intros n st _].
  { apply wp_bind. unfold mret, M_ret, wp at 1. apply wp_bind. unfold wp at 1, BN_free.
    apply wp_bind. unfold wp at 1. apply (wp_throw_last (cert_inv w0)); [|done].
    split; [by apply heap_wf_ignores|done]. }
  apply wp_bind, wp_get_bn_param; [intros st2 _|intros e st2 _].
  - assert (bignums_ w !! next_ w = None) as Hf by (apply heap_wf_fresh; [done|lia]).
    apply wp_bind, wp_BN_free; [cbn; rewrite lookup_insert_eq; by eexists|].
    apply wp_bind. unfold wp at 1, BN_free. apply (wp_throw_last (cert_inv w0)); [|done].
    split; [|done]. cbn. rewrite delete_insert_id by done.
    destruct Hwf; [by apply heap_unused|]. by eapply heap_used; try done; cbn; lia.
  - apply wp_holders_reset with (w0 := w0); [done|done|]. intros. by eapply HQ.
Qed.

(** What comes of [rsaNumbers] when the certificate has an RSA key. *)
Lemma rsaNumbers_returns certificate n e w :
  heap_wf w -> rsa_certificate certificate n e ->
  exists w', rsaNumbers certificate w = Returns (nHolder w', eHolder w') w' /\
    holds w' n e /\ quiet w w'.
Proof.
  intros Hwf Hrsa. destruct (Hrsa (openssl_ w)) as (key & st1 & Hk & Hn & He).
  destruct (wp_returns (rsaNumbers certificate)
    (fun r w' => r = (nHolder w', eHolder w') /\ holds w' n e /\ quiet w w') w)
    as (? & w' & E & -> & ?); [|by exists w'].
  eapply wp_bind, wp_checked_some; [done|].
  apply wp_bind, wp_get_bn_param; [intros st2|intros n' st2]; destruct (Hn st1) as [st2' En];
    cbn [openssl_ update]; [by rewrite En|rewrite En; intros [= <- <-]].
  apply wp_bind, wp_get_bn_param; [intros st3|intros e' st3]; destruct (He st2') as [st3' Ee];
    cbn [openssl_ update allocated]; [by rewrite Ee|rewrite Ee; intros [= <- <-]].
  apply wp_holders_reset with (w0 := w); [by apply heap_wf_ignores|done|]. done.
Qed.

Lemma wp_bnBytes I `{!IgnoresOpenSSL I} p v (Q : list Z -> World -> Prop) (E : exn -> World -> Prop) B w :
  BufferLaws ssl -> I w -> BN_deref p w = Returns v w ->
  (forall bytes, Q bytes w) -> (forall e w, I w -> E e w) -> wp (bnBytes p) Q E B w.
Proof.
  intros Hb Hw Hp HQ HE. apply wp_bind. unfold wp at 1. rewrite Hp.
  destruct (Z.leb_spec (BN_num_bytes v) 0); [by apply HE|].
  destruct (Z.ltb_spec (BN_num_bytes v) (size (BN_bn2bin v))); [pose proof (BN_bn2bin_fits v); lia|].
  destruct (_ =? _); [apply HQ|]. by apply (wp_throw_last I).
Qed.

Lemma bits_positive v : v <> 0 -> 0 < (bits v + 7) / 8.
Proof.
  intros Hv. unfold bits. destruct (Z.eqb_spec v 0); [done|].
  pose proof (Z.log2_nonneg (Z.abs v)). apply Z.div_str_pos. lia.
Qed.

Lemma bnBytes_returns p v w :
  BignumLaws ssl -> v <> 0 -> BN_deref p w = Returns v w ->
  bnBytes p w = Returns (BN_bn2bin v) w.
Proof.
  intros Hb Hv Hp. unfold bnBytes. rewrite (bind_returns _ _ _ _ _ Hp), BN_num_bytes_bits.
  pose proof (bits_positive v Hv). rewrite BN_bn2bin_length, BN_num_bytes_bits.
  destruct (Z.leb_spec ((bits v + 7) / 8) 0); [lia|].
  by rewrite Z.ltb_irrefl, Z.eqb_refl.
Qed.

(** ** The pairing secret *)

Lemma hexToBytes_loop_length n hex out bytes :
  String.length hex = (2 * n)%nat -> hexToBytes_loop hex out = Ok bytes ->
  length bytes = (length out + n)%nat.
Proof.
  revert hex out. induction n as [|n IH]; intros hex out Hl H.
  - destruct hex as [|a [|b hex]]; cbn in Hl; [|lia..]. injection H as <-. lia.
  - destruct hex as [|a [|b hex]]; cbn [String.length] in Hl; [lia..|].
    cbn [hexToBytes_loop] in H. destruct (nibble a) as [high|]; [|done].
    destruct (nibble b) as [low|]; [|done]. cbn [rbind] in H.
    apply IH in H; [|lia]. rewrite length_app in H. cbn in H. lia.
Qed.

Lemma hexToBytes_length n hex bytes :
  String.length hex = (2 * n)%nat -> hexToBytes hex = Ok bytes -> length bytes = n.
Proof.
  unfold hexToBytes. intros Hl. rewrite Hl, Nat.even_mul. cbn [Nat.even orb negb].
  apply (hexToBytes_loop_length n hex [] bytes Hl).
Qed.

Lemma keeps_checked_digest I B `{!IgnoresOpenSSL I} n1 e1 n2 e2 codeBytes :
  BufferLaws ssl -> codeBytes <> [] -> keeps I B (checked_digest n1 e1 n2 e2 codeBytes).
Proof.
  intros Hb Hc. unfold checked_digest.
  do 2 (apply keeps_bind; [by apply keeps_checked|intros ?]).
  do 4 (apply keeps_bind; [by apply keeps_digest_add|intros ?]).
  destruct codeBytes as [|first codeTail]; [done|].
  apply keeps_bind; [by apply keeps_digest_add|intros ?].
  apply keeps_bind; [by apply keeps_digest_final|intros digest].
  destruct (bool_decide _); eauto with keeps.
Qed.

Lemma keeps_pairingSecret w0 B client server code :
  BufferLaws ssl -> keeps (cert_inv w0) B (pairingSecret client server code).
Proof.
  intros Hb w Hw. unfold pairingSecret. destruct (Nat.eqb_spec (String.length code) 6) as [Hl|]; [|done].
  destruct (hexToBytes code) as [codeBytes|] eqn:Ec; cbn [negb of_result]; [|done].
  apply (hexToBytes_length 3) in Ec; [|done].
  unfold wp. rewrite (bind_returns _ _ _ codeBytes w eq_refl).
  apply wp_bind, (wp_rsaNumbers w0); [done|clear Hw w|done]. intros n e w (Hwf & Hn & He) Hq.
  apply wp_bind, (wp_bnBytes (cert_inv w0) _ n); [done|done|done|intros nBytes|done].
  apply wp_bind, (wp_bnBytes (cert_inv w0) _ e); [done|done|done|intros eBytes|done].
  apply wp_bind, (wp_rsaNumbers w0); [done|clear Hwf Hn He Hq n e w|done].
  intros n e w (Hwf & Hn & He) Hq.
  apply wp_bind, (wp_bnBytes (cert_inv w0) _ n); [done|done|done|intros nBytes'|done].
  apply wp_bind, (wp_bnBytes (cert_inv w0) _ e); [done|done|done|intros eBytes'|done].
  apply keeps_checked_digest; [apply _|done| |done]. by intros ->.
Qed.

(** The secret as a function: what is hashed, and when it is refused. *)
Definition secret_spec (sha256 : list Z -> list Z) (clientN clientE serverN serverE : Z)
    (code : string) : result (list Z) :=
  if negb (Nat.eqb (String.length code) 6) then
    Throw (invalid_argument "pairing code must contain exactly 6 hexadecimal digits")
  else
    codeBytes <-? hexToBytes code ;;
    let digest := sha256 (BN_bn2bin clientN ++ BN_bn2bin clientE ++ BN_bn2bin serverN ++
                          BN_bn2bin serverE ++ tail codeBytes)%list in
    if bool_decide (head digest = head codeBytes) then Ok digest
    else Throw (invalid_argument "pairing code does not match the TLS certificates").

(** ** Runs in which the digest works *)
Section digest.
Context (sha256 : list Z -> list Z) {digest : DigestLaws ssl sha256}.
Context (I : World -> Prop) `{HI : !IgnoresOpenSSL I}.

(** The context has been given [bytes]. *)
Local Definition fed (bytes : list Z) (context : EVP_MD_CTX) (w : World) : Prop :=
  hashed context bytes /\ I w.

Lemma digest_new_returns w : I w ->
  exists context w', checked EVP_MD_CTX_new "failed to allocate SHA-256 context" w =
    Returns context w' /\ I w'.
Proof using HI digest.
  intros Hw. destruct (evp_new (openssl_ w)) as (context & st & E).
  eapply wp_returns, wp_checked_some; [done|]. by apply HI.
Qed.

Lemma digest_init_fed context w : I w ->
  exists context' w', checked (EVP_DigestInit_sha256 context) "SHA-256 initialization failed" w =
    Returns context' w' /\ fed [] context' w'.
Proof using HI digest.
  intros Hw. destruct (evp_init context (openssl_ w)) as (context' & st & E & Hh).
  eapply wp_returns, wp_checked_some; [done|]. split; [done|]. by apply HI.
Qed.

Lemma digest_add_fed context bytes more w :
  fed bytes context w ->
  exists context' w', digest_add context more w = Returns context' w' /\
    fed (bytes ++ more) context' w'.
Proof using HI digest.
  intros [Hh Hw]. destruct more as [|b more]; [rewrite app_nil_r; by exists context, w|].
  destruct (evp_update context bytes (b :: more) (openssl_ w) Hh) as (context' & st & E & Hh').
  eapply wp_returns, wp_checked_some; [done|]. split; [done|]. by apply HI.
Qed.

Lemma digest_final_fed context bytes w :
  fed bytes context w -> exists w', digest_final context w = Returns (sha256 bytes) w' /\ I w'.
Proof using HI digest.
  intros [Hh Hw]. destruct (evp_final context bytes (openssl_ w) Hh) as (st & E).
  destruct (wp_returns (digest_final context) (fun d w' => d = sha256 bytes /\ I w') w)
    as (? & w' & ? & -> & ?); [|by exists w'].
  eapply wp_bind, wp_checked_some; [done|].
  assert (size (sha256 bytes) = 32) as -> by (unfold size; rewrite sha256_length; lia).
  split; [done|]. by apply HI.
Qed.

(** The digest of everything, and its check against the first byte of the code. *)
Lemma checked_digest_returns n1 e1 n2 e2 first codeTail w :
  I w ->
  let d := sha256 (n1 ++ e1 ++ n2 ++ e2 ++ codeTail)%list in
  exists w', I w' /\
    checked_digest n1 e1 n2 e2 (first :: codeTail) w =
    of_result (if bool_decide (head d = Some first) then Ok d
               else Throw (invalid_argument "pairing code does not match the TLS certificates")) w'.
Proof using HI digest.
  intros Hw d. unfold checked_digest.
  destruct (digest_new_returns w Hw) as (c0 & w0 & E & H0). rewrite (bind_returns _ _ _ _ _ E).
  destruct (digest_init_fed c0 w0 H0) as (c1 & w1 & E1 & H1). rewrite (bind_returns _ _ _ _ _ E1).
  destruct (digest_add_fed _ _ n1 _ H1) as (c2 & w2 & E2 & H2). rewrite (bind_returns _ _ _ _ _ E2).
  destruct (digest_add_fed _ _ e1 _ H2) as (c3 & w3 & E3 & H3). rewrite (bind_returns _ _ _ _ _ E3).
  destruct (digest_add_fed _ _ n2 _ H3) as (c4 & w4 & E4 & H4). rewrite (bind_returns _ _ _ _ _ E4).
  destruct (digest_add_fed _ _ e2 _ H4) as (c5 & w5 & E5 & H5). rewrite (bind_returns _ _ _ _ _ E5).
  destruct (digest_add_fed _ _ codeTail _ H5) as (c6 & w6 & E6 & H6).
  rewrite (bind_returns _ _ _ _ _ E6).
  destruct (digest_final_fed _ _ _ H6) as (w7 & E7 & H7). rewrite (bind_returns _ _ _ _ _ E7).
  exists w7. split; [done|]. rewrite <- !app_assoc. cbn [app]. fold d. by destruct (bool_decide _).
Qed.

End digest.

(** The code is checked first; then, for two certificates with RSA keys, the outcome
    is that of [secret_spec]. *)
Lemma pairingSecret_runs sha256 `{!DigestLaws ssl sha256} client server nC eC nS eS code w :
  BignumLaws ssl -> heap_wf w ->
  rsa_certificate client nC eC -> rsa_certificate server nS eS ->
  nC <> 0 -> eC <> 0 -> nS <> 0 -> eS <> 0 ->
  exists w', cert_inv w w' /\
    pairingSecret client server code w = of_result (secret_spec sha256 nC eC nS eS code) w'.
Proof.
  intros Hb Hwf HC HS ????. unfold pairingSecret, secret_spec.
  destruct (Nat.eqb_spec (String.length code) 6) as [Hl|]; cbn [negb]; [|by exists w].
  destruct (hexToBytes code) as [codeBytes|] eqn:Ec; cbn [rbind]; [|by exists w].
  apply (hexToBytes_length 3) in Ec; [|done]. destruct codeBytes as [|first codeTail]; [done|].
  rewrite (bind_returns (of_result (Ok (first :: codeTail))) _ w _ _ eq_refl).
  destruct (rsaNumbers_returns client nC eC w Hwf HC) as (w1 & E1 & (Hwf1 & Hn1 & He1) & Hq1).
  rewrite (bind_returns _ _ _ _ _ E1).
  rewrite (bind_returns _ _ _ _ _ (bnBytes_returns _ nC w1 Hb ltac:(done) Hn1)).
  rewrite (bind_returns _ _ _ _ _ (bnBytes_returns _ eC w1 Hb ltac:(done) He1)).
  destruct (rsaNumbers_returns server nS eS w1 Hwf1 HS) as (w2 & E2 & (Hwf2 & Hn2 & He2) & Hq2).
  rewrite (bind_returns _ _ _ _ _ E2).
  rewrite (bind_returns _ _ _ _ _ (bnBytes_returns _ nS w2 Hb ltac:(done) Hn2)).
  rewrite (bind_returns _ _ _ _ _ (bnBytes_returns _ eS w2 Hb ltac:(done) He2)).
  apply (checked_digest_returns sha256 (cert_inv w)).
  split; [done|]. by eapply quiet_trans.
Qed.

End inv.
