(* ===== verification/CertificateFiles.v ===== *)
(** * The identity on disk

    What [generateCertificateIfMissing] does to the files, for every behaviour of
    OpenSSL and of the disk, and that what it wrote can be loaded. *)

From S2P Require Import Prelude Types Effects OpenSSL World Certificate CertificateInv.

Local Open Scope Z_scope.
Local Open Scope cxx_scope.

(** X509_set_pubkey(3), PEM_read(3): a certificate made for a key stays one, and it and the
    key are read back from what was written. *)
Class IdentityLaws (ssl : OpenSSL) := {
  matches : X509 -> EVP_PKEY -> Prop;
  matches_pubkey c key st c' st' : X509_set_pubkey c key st = (Some c', st') -> matches c' key;
  matches_subject c key name : matches c key -> matches (subject_set c name) key;
  matches_issuer c key name st c' st' :
    X509_set_issuer_name c name st = (Some c', st') -> matches c key -> matches c' key;
  matches_ext c key ext loc st c' st' :
    X509_add_ext c ext loc st = (Some c', st') -> matches c key -> matches c' key;
  matches_sign c key key' st c' st' :
    X509_sign_sha256 c key' st = (Some c', st') -> matches c key -> matches c' key;
  bio_empty st bio st' : BIO_new_mem st = (Some bio, st') -> bio = "";
  pem_of_certificate c st pem st' :
    PEM_write_bio_X509 "" c st = (Some pem, st') -> pem_certificate pem c;
  pem_of_key key st pem st' : PEM_write_bio_PrivateKey "" key st = (Some pem, st') -> pem_key pem key
}.

Section files.
Context {ssl : OpenSSL}.

(** Nothing but what was made at the paths of [changed], and new directories. *)
Definition kept (changed : list string) (w w' : World) : Prop :=
  disk_ w' = disk_ w /\
  forall path, path ∉ changed -> is_Some (files_ w !! path) -> files_ w' !! path = files_ w !! path.

(** The heap and the network are left alone. *)
Definition local_to_disk (w w' : World) : Prop :=
  bignums_ w' = bignums_ w /\ next_ w' = next_ w /\ nHolder w' = nHolder w /\
  eHolder w' = eHolder w /\ dials_ w' = dials_ w /\ net_ w' = net_ w.

Definition disk_inv (changed : list string) (w w' : World) : Prop :=
  kept changed w w' /\ local_to_disk w w'.

#[global] Instance disk_inv_ignores changed w : IgnoresOpenSSL (disk_inv changed w).
Proof. by intros w' st H. Qed.

Lemma disk_inv_refl changed w : disk_inv changed w w.
Proof. by split. Qed.

Lemma kept_trans changed w1 w2 w3 : kept changed w1 w2 -> kept changed w2 w3 -> kept changed w1 w3.
Proof.
  intros [Hd1 H1] [Hd2 H2]. split; [congruence|]. intros path Hp Hs.
  rewrite <- H1 in Hs |- * by done. by apply H2.
Qed.

Lemma disk_inv_store changed w0 w path content :
  disk_inv changed w0 w -> path ∈ changed \/ files_ w !! path = None ->
  disk_inv changed w0 (w <| files_ := <[path := content]> (files_ w) |>).
Proof.
  intros [[Hd Hk] Hl] Hp. split; [|done]. split; [done|]. intros p Hp' Hs. cbn.
  destruct (decide (p = path)) as [->|]; [|rewrite lookup_insert_ne by done; by apply Hk].
  destruct Hp as [Hp|Hp]; [done|]. rewrite Hk in Hp by done. rewrite Hp in Hs. by destruct Hs.
Qed.

Lemma keeps_create_directories changed w0 B path :
  keeps (disk_inv changed w0) B (create_directories path).
Proof.
  unfold create_directories. generalize (path_prefixes [] (list_ascii_of_string path)).
  intros paths. induction paths as [|p paths IH]; [apply keeps_ret|].
  apply keeps_bind; [|done]. intros w Hw. unfold create_directory, wp.
  destruct (files_ w !! p) as [[]|] eqn:E; [done..|].
  destruct (mkdir_error _ _); [done|]. apply disk_inv_store; auto.
Qed.

Lemma keeps_create_parent changed w0 B file : keeps (disk_inv changed w0) B (create_parent file).
Proof.
  unfold create_parent. destruct (bool_decide _); [apply keeps_ret|apply keeps_create_directories].
Qed.

(** A write that the stream reported as good left a regular file, with all of the data
    unless the last flush was lost. *)
Lemma wp_writeBioToFile changed w0 bio path (Q : unit -> World -> Prop) (E : exn -> World -> Prop) B w :
  disk_inv changed w0 w -> path ∈ changed ->
  (forall w' content, disk_inv changed w0 w' ->
     files_ w' = <[path := RegularFile content]> (files_ w) ->
     (writing (disk_ w) path = Written -> content = bio) -> Q tt w') ->
  (forall e w', disk_inv changed w0 w' -> E e w') ->
  wp (writeBioToFile bio path) Q E B w.
Proof.
  intros Hw Hp HQ HE. unfold writeBioToFile.
  destruct (Z.leb_spec (Z.of_nat (String.length bio)) 0); [by apply (wp_throw_last (disk_inv changed w0))|].
  apply wp_bind. unfold wp at 1, write_stream.
  assert (forall content, disk_inv changed w0
    (w <| files_ := <[path := RegularFile content]> (files_ w) |>)) as Hs.
  { intros content. apply disk_inv_store; auto. }
  destruct (files_ w !! path) as [[]|]; [|by apply HE|];
    (destruct (has_parent _ _); [|by apply HE]);
    destruct (writing (disk_ w) path) eqn:Ew;
    first [by apply HE | eapply HQ; [apply Hs|done|done]].
Qed.

(** ** The certificate that is made *)
Section made.
Context (I B : World -> Prop) `{HI : !IgnoresOpenSSL I}.

Lemma keeps_generate_key : keeps I B generate_key.
Proof using HI.
  do 3 (apply keeps_bind; [by apply keeps_checked|intros ?]). by apply keeps_checked.
Qed.

Lemma keeps_addExtension c issuer nid value : keeps I B (addExtension c issuer nid value).
Proof using HI. apply keeps_bind; [by apply keeps_checked|intros ?]. by apply keeps_checked. Qed.

Lemma keeps_make_certificate key commonName : keeps I B (make_certificate key commonName).
Proof using HI.
  apply keeps_bind; [by apply keeps_checked|intros ?].
  do 4 (apply keeps_bind; [by apply keeps_call|intros ?]).
  do 3 (apply keeps_bind; [by apply keeps_checked|intros ?]).
  do 2 (apply keeps_bind; [by apply keeps_addExtension|intros ?]). by apply keeps_checked.
Qed.

Lemma keeps_identity_pem c key : keeps I B (identity_pem c key).
Proof using HI.
  do 2 (apply keeps_bind; [by apply keeps_call|intros [?|]]);
    try by apply keeps_throw_last.
  do 2 (apply keeps_bind; [by apply keeps_checked|intros ?]). apply keeps_ret.
Qed.

Context {laws : IdentityLaws ssl}.

Local Abbreviation gives m Q w := (wp m (fun a w => Q a /\ I w) (fun _ => I) (fun _ => False) w).

Lemma gives_addExtension c issuer nid value key w :
  I w -> matches c key -> gives (addExtension c issuer nid value) (fun c' => matches c' key) w.
Proof using HI laws.
  intros Hw Hm. apply wp_bind, (wp_checked I); [done| |done]. intros ext w' _ Hw'.
  apply (wp_checked I); [done| |done]. intros c' w'' E Hw''. split; [|done].
  by eapply matches_ext.
Qed.

Lemma gives_make_certificate key commonName w :
  I w -> gives (make_certificate key commonName) (fun c => matches c key) w.
Proof using HI laws.
  intros Hw. apply wp_bind, (wp_checked I); [done| |done]. intros c0 w0 _ H0.
  apply wp_bind, wp_call. intros c1 st1 _. apply wp_bind, wp_call. intros c2 st2 _.
  apply wp_bind, wp_call. intros c3 st3 _. apply wp_bind, wp_call. intros c4 st4 _.
  apply wp_bind, (wp_checked I); [by do 4 apply HI| |done]. intros c5 w5 E5 H5.
  apply matches_pubkey in E5.
  apply wp_bind, (wp_checked I); [done| |done]. intros name w6 _ H6.
  apply wp_bind, (wp_checked I); [done| |done]. intros c7 w7 E7 H7.
  eapply matches_issuer in E7; [|by apply matches_subject].
  apply wp_bind. eapply wp_mono; [by eapply gives_addExtension| |done|done]. intros c8 w8 [E8 H8].
  apply wp_bind. eapply wp_mono; [by eapply gives_addExtension| |done|done]. intros c9 w9 [E9 H9].
  apply (wp_checked I); [done| |done]. intros c10 w10 E10 H10. split; [|done].
  by eapply matches_sign.
Qed.

Lemma gives_identity_pem c key w :
  I w -> gives (identity_pem c key) (fun p => pem_certificate p.1 c /\ pem_key p.2 key) w.
Proof using HI laws.
  intros Hw. apply wp_bind, wp_call. intros certBio st1 E1.
  apply wp_bind, wp_call. intros keyBio st2 E2.
  destruct certBio as [certBio|], keyBio as [keyBio|];
    try by (apply (wp_throw_last I); [by do 2 apply HI|..]).
  apply bio_empty in E1 as ->, E2 as ->.
  apply wp_bind, (wp_checked I); [by do 2 apply HI| |done]. intros certPem w3 E3 H3.
  apply wp_bind, (wp_checked I); [done| |done]. intros keyPem w4 E4 H4.
  split; [|done]. split; [by eapply pem_of_certificate|by eapply pem_of_key].
Qed.

End made.

(** ** The whole call *)

Definition regular (w : World) (path : string) : Prop :=
  exists content, files_ w !! path = Some (RegularFile content).

Lemma regular_insert w path content p :
  regular w p \/ p = path ->
  regular (w <| files_ := <[path := RegularFile content]> (files_ w) |>) p.
Proof.
  intros Hp. unfold regular. cbn. destruct (decide (p = path)) as [->|].
  - exists content. by rewrite lookup_insert_eq.
  - rewrite lookup_insert_ne by done. by destruct Hp.
Qed.

Lemma wp_is_regular_file path (Q : bool -> World -> Prop) (E : exn -> World -> Prop) B w :
  (regular w path -> stat_error (disk_ w) path = None -> Q true w) ->
  (~ regular w path -> stat_error (disk_ w) path = None -> Q false w) ->
  (forall e, E e w) ->
  wp (is_regular_file path) Q E B w.
Proof.
  unfold wp, is_regular_file, regular. intros HT HF HE.
  destruct (stat_error _ _); [apply HE|].
  destruct (files_ w !! path) as [[content|]|]; [apply HT; [by eexists|done]|apply HF..];
    try done; by intros [? [=]].
Qed.

(** The texts in the two files, if no write was lost. *)
Definition identity_files (certificateFile privateKeyFile certPem keyPem : string) (w w' : World) :
    Prop :=
  regular w' certificateFile /\ regular w' privateKeyFile /\
  (certificateFile <> privateKeyFile ->
   writing (disk_ w) certificateFile = Written -> writing (disk_ w) privateKeyFile = Written ->
   files_ w' !! certificateFile = Some (RegularFile certPem) /\
   files_ w' !! privateKeyFile = Some (RegularFile keyPem)).

(** What is known of the certificate, the key and their texts: nothing, or what
    [IdentityLaws] says. *)
Record made_as (C : X509 -> EVP_PKEY -> Prop) (P : X509 -> EVP_PKEY -> string * string -> Prop) :
    Prop := {
  made_certificate (I : World -> Prop) `{!IgnoresOpenSSL I} key commonName w : I w ->
    wp (make_certificate key commonName) (fun c w => C c key /\ I w) (fun _ => I)
       (fun _ => False) w;
  made_pem (I : World -> Prop) `{!IgnoresOpenSSL I} c key w : I w ->
    wp (identity_pem c key) (fun p w => P c key p /\ I w) (fun _ => I) (fun _ => False) w
}.

Lemma made_anyhow : made_as (fun _ _ => True) (fun _ _ _ => True).
Proof.
  split; intros I HI *; intros Hw.
  - eapply wp_mono; [by apply (keeps_make_certificate I (fun _ => False))|by intros|done|done].
  - eapply wp_mono; [by apply (keeps_identity_pem I (fun _ => False))|by intros|done|done].
Qed.

Lemma made_by_laws {laws : IdentityLaws ssl} :
  made_as matches (fun c key p => pem_certificate p.1 c /\ pem_key p.2 key).
Proof.
  split; intros I HI *; intros Hw; [by apply gives_make_certificate|by apply gives_identity_pem].
Qed.

Lemma wp_new_identity C P certificateFile privateKeyFile commonName w :
  made_as C P ->
  let I := disk_inv [certificateFile; privateKeyFile] w in
  wp (new_identity certificateFile privateKeyFile commonName)
    (fun _ w' => I w' /\ exists c key certPem keyPem, C c key /\ P c key (certPem, keyPem) /\
       identity_files certificateFile privateKeyFile certPem keyPem w w')
    (fun _ => I) (fun _ => False) w.
Proof.
  intros HCP I. assert (I w) as Hw by apply disk_inv_refl.
  do 2 (apply wp_bind; eapply wp_mono; [by apply (keeps_create_parent [certificateFile; privateKeyFile] w (fun _ => False))| |done|done];
        clear Hw; intros ? ? Hw).
  apply wp_bind. eapply wp_mono; [by apply (keeps_generate_key I (fun _ => False))| |done|done].
  clear Hw. intros key ? Hw.
  apply wp_bind. eapply wp_mono; [by apply (made_certificate _ _ HCP I)| |done|done].
  clear Hw. intros c ? [Hc Hw].
  apply wp_bind. eapply wp_mono; [by apply (made_pem _ _ HCP I)| |done|done].
  clear Hw. intros [certPem keyPem] w1 [Hpem Hw].
  apply wp_bind, (wp_writeBioToFile [certificateFile; privateKeyFile] w); [done|set_solver| |done].
  intros w2 content1 Hw2 E2 W2.
  apply (wp_writeBioToFile [certificateFile; privateKeyFile] w); [done|set_solver| |done].
  intros w3 content2 Hw3 E3 W3. split; [done|].
  exists c, key, certPem, keyPem. split_and!; [done|done|]. unfold identity_files, regular. split_and!.
  - rewrite E3. destruct (decide (certificateFile = privateKeyFile)) as [->|].
    + rewrite lookup_insert_eq. by eexists.
    + rewrite lookup_insert_ne, E2, lookup_insert_eq by done. by eexists.
  - rewrite E3, lookup_insert_eq. by eexists.
  - intros Hne Hwc Hwk. destruct Hw as [[Hd _] _], Hw2 as [[Hd2 _] _].
    rewrite Hd in W2. rewrite Hd2 in W3. rewrite W2 in E2 by done. rewrite W3 in E3 by done.
    rewrite E3, lookup_insert_eq, lookup_insert_ne, E2, lookup_insert_eq by done. done.
Qed.

Definition generated (C : X509 -> EVP_PKEY -> Prop) (P : X509 -> EVP_PKEY -> string * string -> Prop)
    (certificateFile privateKeyFile : string) (w : World) (made : bool) (w' : World) : Prop :=
  if made then
    ~ (regular w certificateFile /\ regular w privateKeyFile) /\
    stat_error (disk_ w) certificateFile = None /\
    disk_inv [certificateFile; privateKeyFile] w w' /\
    exists c key certPem keyPem, C c key /\ P c key (certPem, keyPem) /\
      identity_files certificateFile privateKeyFile certPem keyPem w w'
  else w' = w /\ regular w certificateFile /\ regular w privateKeyFile /\
    stat_error (disk_ w) certificateFile = None /\ stat_error (disk_ w) privateKeyFile = None.

Lemma wp_generate C P certificateFile privateKeyFile commonName w :
  made_as C P ->
  wp (generateCertificateIfMissing certificateFile privateKeyFile commonName)
    (generated C P certificateFile privateKeyFile w)
    (fun _ => disk_inv [certificateFile; privateKeyFile] w) (fun _ => False) w.
Proof.
  intros HCP.
  assert (forall m : M World unit, stat_error (disk_ w) certificateFile = None ->
    ~ (regular w certificateFile /\ regular w privateKeyFile) ->
    m = new_identity certificateFile privateKeyFile commonName ->
    wp (m ;; mret true) (generated C P certificateFile privateKeyFile w)
      (fun _ => disk_inv [certificateFile; privateKeyFile] w) (fun _ => False) w) as Hnew.
  { intros m Hs Hn ->. apply wp_bind.
    eapply wp_mono; [by apply wp_new_identity| |done|done]. intros ? w' [??]. by split_and!. }
  unfold generateCertificateIfMissing.
  apply wp_bind, wp_is_regular_file; [intros Hc Hs|intros Hc Hs|by intros].
  - apply wp_bind, wp_is_regular_file; [by intros|intros Hk _|by intros].
    apply Hnew; [done| |done]. by intros [].
  - apply wp_bind. apply Hnew; [done| |done]. by intros [].
Qed.

(** Both files there: nothing is done. *)
Lemma generate_nothing certificateFile privateKeyFile commonName w :
  regular w certificateFile -> regular w privateKeyFile ->
  stat_error (disk_ w) certificateFile = None -> stat_error (disk_ w) privateKeyFile = None ->
  generateCertificateIfMissing certificateFile privateKeyFile commonName w = Returns false w.
Proof.
  intros [c1 E1] [c2 E2] S1 S2.
  assert (forall path content, files_ w !! path = Some (RegularFile content) ->
    stat_error (disk_ w) path = None -> is_regular_file path w = Returns true w) as H.
  { intros path content E S. unfold is_regular_file. by rewrite S, E. }
  unfold generateCertificateIfMissing.
  rewrite (bind_returns _ _ _ _ _ (H _ _ E1 S1)), (bind_returns _ _ _ _ _ (H _ _ E2 S2)).
  done.
Qed.

(** The certificate file cannot be examined. *)
Lemma generate_unexamined certificateFile privateKeyFile commonName w message :
  stat_error (disk_ w) certificateFile = Some message ->
  generateCertificateIfMissing certificateFile privateKeyFile commonName w =
    Throws (system_error message) w.
Proof.
  intros E. unfold generateCertificateIfMissing.
  rewrite (bind_throws _ _ w (system_error message) w); [done|].
  unfold is_regular_file. by rewrite E.
Qed.

Lemma readFile_returns path content w :
  files_ w !! path = Some (RegularFile content) -> reading (disk_ w) path = Readable ->
  readFile path w = Returns content w.
Proof.
  intros E R. unfold readFile.
  by rewrite (bind_returns (read_stream path) _ w (Some content) w)
    by (unfold read_stream; by rewrite E, R).
Qed.

Lemma call_returns {A} (f : OSSL -> A * OSSL) w a st :
  f (openssl_ w) = (a, st) -> call f w = Returns a (w <| openssl_ := st |>).
Proof. intros E. unfold call. by rewrite E. Qed.

Lemma outside_call {X A} (f : OSSL -> A * OSSL) (x : X) w a st :
  f (openssl_ w) = (a, st) -> outside (call f) (x, w) = Returns a (x, w <| openssl_ := st |>).
Proof. intros E. by apply outside_returns, call_returns. Qed.

Lemma on_context_returns f context w ok context' st :
  f context (openssl_ w) = (ok, context', st) ->
  on_context f (Some context, w) = Returns ok (Some context', w <| openssl_ := st |>).
Proof. intros E. unfold on_context. by rewrite E. Qed.

(** Two files that PEM reads back as a certificate and a key: what loading them comes to is
    what the context says to them. *)
Section loading.
Context (certificateFile privateKeyFile : string) (c : X509) (key : EVP_PKEY)
  (certPem keyPem : string) (context : SSL_CTX) (w : World).
Context (Hc : pem_certificate certPem c) (Hk : pem_key keyPem key).
Context (Fc : files_ w !! certificateFile = Some (RegularFile certPem))
  (Fk : files_ w !! privateKeyFile = Some (RegularFile keyPem)).
Context (Rc : reading (disk_ w) certificateFile = Readable)
  (Rk : reading (disk_ w) privateKeyFile = Readable).

Lemma loadClientIdentity_reads :
  exists st, loadClientIdentity certificateFile privateKeyFile (Some context, w) =
    (ok ← on_context (fun context => SSL_CTX_use_certificate context c);
     ok ← (if (ok : bool) then on_context (fun context => SSL_CTX_use_PrivateKey context key)
           else mret false);
     ok ← (if (ok : bool) then on_context check_private_key else mret false);
     if (ok : bool) then mret tt
     else outside (throw_last "unable to install TLS certificate/private key"))
      (Some context, w <| openssl_ := st |>).
Proof using Hc Hk Fc Fk Rc Rk.
  destruct (Hc (openssl_ w)) as (bio1 & st1 & E1 & Hc').
  destruct (Hk st1) as (bio2 & st2 & E2 & Hk').
  destruct (Hc' st2) as [st3 E3]. destruct (Hk' st3) as [st4 E4]. exists st4.
  unfold loadClientIdentity.
  rewrite (bind_returns (gets fst) _ (Some context, w) (Some context) (Some context, w) eq_refl).
  rewrite (bind_returns _ _ _ _ _ (outside_returns _ (Some context) _ _ _ (readFile_returns _ _ w Fc Rc))).
  rewrite (bind_returns _ _ _ _ _ (outside_returns _ (Some context) _ _ _ (readFile_returns _ _ w Fk Rk))).
  cbv zeta.
  erewrite bind_returns; [|apply outside_call, E1]. erewrite bind_returns; [|apply outside_call, E2].
  cbv beta iota.
  erewrite bind_returns; [|apply outside_call, E3]. erewrite bind_returns; [|apply outside_call, E4].
  reflexivity.
Qed.

Lemma loadClientIdentity_returns :
  accepts context c key ->
  exists st context' st', installs c key context st context' st' /\
    loadClientIdentity certificateFile privateKeyFile (Some context, w) =
      Returns tt (Some context', w <| openssl_ := st' |>).
Proof using Hc Hk Fc Fk Rc Rk.
  intros H. destruct loadClientIdentity_reads as [st ->].
  destruct (H st) as (context2 & st7 & context1 & st5 & st6 & E5 & E6 & E7).
  exists st, context2, st7. split; [by exists context1, st5, st6|].
  erewrite bind_returns; [|apply on_context_returns, E5]. cbv beta iota.
  erewrite bind_returns; [|apply on_context_returns, E6]. cbv beta iota.
  erewrite bind_returns; [|apply on_context_returns; unfold check_private_key; cbn; by rewrite E7].
  done.
Qed.

Lemma loadClientIdentity_refused :
  refuses context c ->
  exists message context' st, loadClientIdentity certificateFile privateKeyFile (Some context, w) =
    Throws (runtime_error message) (Some context', w <| openssl_ := st |>).
Proof using Hc Hk Fc Fk Rc Rk.
  intros H. destruct loadClientIdentity_reads as [st ->].
  destruct (H st) as (context1 & st5 & E5).
  erewrite bind_returns; [|apply on_context_returns, E5]. cbv beta iota.
  rewrite (bind_returns (mret false) _ _ false _ eq_refl), (bind_returns (mret false) _ _ false _ eq_refl).
  cbv beta iota. unfold outside, zoom, throw_last, lastOpenSslError, call, mbind, M_bind. cbn.
  destruct (ERR_get_error st5) as [code st6]. destruct (code =? 0); do 3 eexists; reflexivity.
Qed.

End loading.

End files.
