(* ===== verification/CertificateHex.v ===== *)
(** * Big-endian bytes and hexadecimal digits

    The numbers of a key are hashed as [BN_bn2bin] gives them; the protocol's reference
    implementation is in Python and hashes [bytes.fromhex(f"{n:X}")] and
    [bytes.fromhex(f"0{e:X}")].  [upper_hex] is the format [X] of Python, and
    [be_bytes] the big-endian bytes of a number. *)

From S2P Require Import Prelude Types Effects OpenSSL World Certificate.

Local Open Scope Z_scope.
Local Open Scope cxx_scope.

Fixpoint be_bytes (n : nat) (v : Z) : list Z :=
  match n with
  | O => []
  | S n => (be_bytes n (v / 256) ++ [v mod 256])%list
  end.

(** The number of digits is 1 for zero, and has no leading zero otherwise. *)
Definition hex_digit (d : Z) : ascii :=
  ascii_of_N (Z.to_N (if d <? 10 then 48 + d else 55 + d)).

Fixpoint hex_digits (n : nat) (v : Z) : string :=
  match n with
  | O => ""
  | S n => hex_digits n (v / 16) +:+ String (hex_digit (v mod 16)) ""
  end.

Definition hex_length (v : Z) : nat := Z.to_nat (Z.max 1 ((bits v + 3) / 4)).

Definition upper_hex (v : Z) : string := hex_digits (hex_length v) v.

(** [fromhex] wants an even number of digits. *)
Definition even_hex (v : Z) : string :=
  let digits := upper_hex v in
  if Nat.even (String.length digits) then digits else "0" +:+ digits.

Example upper_hex_exponent : upper_hex 65537 = "10001".
Proof. reflexivity. Qed.

Section bytes.

Lemma be_value_from_app acc l1 l2 :
  be_value_from acc (l1 ++ l2) = be_value_from (be_value_from acc l1) l2.
Proof. revert acc. induction l1 as [|b l1 IH]; intros acc; [done|apply IH]. Qed.

Lemma be_value_snoc l b : be_value (l ++ [b]) = be_value l * 256 + b.
Proof. unfold be_value. by rewrite be_value_from_app. Qed.

Lemma be_bytes_length n v : length (be_bytes n v) = n.
Proof. revert v. induction n as [|n IH]; intros v; [done|]. cbn. rewrite length_app, IH. cbn. lia. Qed.

Lemma be_bytes_ok n v : bytes_ok (be_bytes n v).
Proof.
  revert v. induction n as [|n IH]; intros v; [constructor|].
  apply Forall_app_2; [apply IH|]. repeat constructor; pose proof (Z.mod_pos_bound v 256); lia.
Qed.

Lemma be_bytes_value n v : 0 <= v < 256 ^ Z.of_nat n -> be_value (be_bytes n v) = v.
Proof.
  revert v. induction n as [|n IH]; intros v Hv; [cbn in *; lia|].
  rewrite Nat2Z.inj_succ, Z.pow_succ_r in Hv by lia. cbn [be_bytes]. rewrite be_value_snoc, IH.
  - pose proof (Z.div_mod v 256). lia.
  - split; [apply Z.div_pos; lia|]. apply Z.div_lt_upper_bound; lia.
Qed.

(** Bytes are determined by their number and their value. *)
Lemma be_bytes_unique l : bytes_ok l -> l = be_bytes (length l) (be_value l).
Proof.
  induction l as [|b l IH] using rev_ind; [done|]. intros [Hl Hb]%Forall_app.
  inversion_clear Hb as [|? ? H _]. rewrite length_app, Nat.add_1_r, be_value_snoc. cbn [be_bytes].
  unfold byte_ok in H. rewrite Z.div_add_l, Z.div_small, Z.add_0_r by lia.
  rewrite <- IH by done. do 2 f_equal. rewrite Z.add_comm, Z.mod_add by lia. by rewrite Z.mod_small.
Qed.

Lemma bits_bound v : 0 <= v -> v < 2 ^ bits v.
Proof.
  intros Hv. unfold bits. destruct (Z.eqb_spec v 0) as [->|]; [done|].
  rewrite Z.abs_eq by done. apply Z.log2_spec. lia.
Qed.

Lemma bits_nonneg v : 0 <= bits v.
Proof. unfold bits. destruct (v =? 0); [done|]. pose proof (Z.log2_nonneg (Z.abs v)). lia. Qed.

(** The documented bytes of a number. *)
Lemma BN_bn2bin_eq `{ssl : OpenSSL} v :
  BignumLaws ssl -> 0 <= v -> BN_bn2bin v = be_bytes (Z.to_nat ((bits v + 7) / 8)) v.
Proof.
  intros Hb Hv. rewrite (be_bytes_unique (BN_bn2bin v)) by apply BN_bn2bin_bytes.
  rewrite BN_bn2bin_value, Z.abs_eq by done. f_equal.
  pose proof (BN_bn2bin_length v) as Hl. rewrite BN_num_bytes_bits in Hl. unfold size in Hl. lia.
Qed.

End bytes.

Section hex.

Lemma digit_range d : 0 <= d < 16 -> nibble (hex_digit d) = Ok d.
Proof.
  intros Hd. assert (d = 0 \/ d = 1 \/ d = 2 \/ d = 3 \/ d = 4 \/ d = 5 \/ d = 6 \/ d = 7 \/
    d = 8 \/ d = 9 \/ d = 10 \/ d = 11 \/ d = 12 \/ d = 13 \/ d = 14 \/ d = 15) as Hc by lia.
  repeat destruct Hc as [->|Hc]; try reflexivity. by subst.
Qed.

Lemma append_nil s : "" +:+ s = s.
Proof. reflexivity. Qed.

Lemma append_cons a s1 s2 : String a s1 +:+ s2 = String a (s1 +:+ s2).
Proof. reflexivity. Qed.

Lemma string_app_assoc (s1 s2 s3 : string) : (s1 +:+ s2) +:+ s3 = s1 +:+ (s2 +:+ s3).
Proof. induction s1 as [|a s1 IH]; [done|]. apply (f_equal (String a)), IH. Qed.

Lemma string_length_app (s1 s2 : string) :
  String.length (s1 +:+ s2) = (String.length s1 + String.length s2)%nat.
Proof. induction s1 as [|a s1 IH]; [done|]. apply (f_equal S), IH. Qed.

Lemma hex_digits_length n v : String.length (hex_digits n v) = n.
Proof.
  revert v. induction n as [|n IH]; intros v; [done|]. cbn [hex_digits].
  rewrite string_length_app, IH. cbn [String.length]. lia.
Qed.

(** Two more digits at the end are one more byte. *)
Lemma hexToBytes_loop_snoc n s a b out bytes high low :
  String.length s = (2 * n)%nat -> hexToBytes_loop s out = Ok bytes ->
  nibble a = Ok high -> nibble b = Ok low ->
  hexToBytes_loop (s +:+ String a (String b "")) out =
  Ok (bytes ++ [u8 (Z.lor (Z.shiftl high 4) low)])%list.
Proof.
  revert s out. induction n as [|n IH]; intros s out Hl H Ha Hb.
  - destruct s; [|done]. injection H as <-. rewrite append_nil. cbn [hexToBytes_loop]. by rewrite Ha, Hb.
  - destruct s as [|c [|d s]]; cbn [String.length] in Hl; [lia..|].
    rewrite !append_cons. cbn [hexToBytes_loop] in *. destruct (nibble c); [|done]. destruct (nibble d); [|done].
    cbn [rbind] in *. eapply IH; [lia|done..].
Qed.

Lemma nibbles_byte v : u8 (Z.lor (Z.shiftl (v / 16 mod 16) 4) (v mod 16)) = v mod 256.
Proof.
  pose proof (Z.mod_pos_bound v 16). pose proof (Z.mod_pos_bound (v / 16) 16).
  rewrite Z.lor_comm, lor_shiftl_add by lia. rewrite wrap_small by lia.
  change 256 with (16 * 16). rewrite Z.rem_mul_r by lia. lia.
Qed.

Lemma hexToBytes_digits_loop n v : hexToBytes_loop (hex_digits (2 * n) v) [] = Ok (be_bytes n v).
Proof.
  revert v. induction n as [|n IH]; intros v; [done|].
  replace (2 * S n)%nat with (S (S (2 * n))) by lia. cbn [hex_digits be_bytes].
  rewrite string_app_assoc, append_cons, append_nil.
  rewrite (hexToBytes_loop_snoc n _ _ _ _ (be_bytes n (v / 256)) (v / 16 mod 16) (v mod 16)).
  - by rewrite nibbles_byte.
  - by rewrite hex_digits_length.
  - rewrite Z.div_div by lia. apply IH.
  - apply digit_range, Z.mod_pos_bound. lia.
  - apply digit_range, Z.mod_pos_bound. lia.
Qed.

Lemma hexToBytes_digits n v : hexToBytes (hex_digits (2 * n) v) = Ok (be_bytes n v).
Proof.
  unfold hexToBytes. rewrite hex_digits_length, Nat.even_mul. cbn [Nat.even orb negb].
  apply hexToBytes_digits_loop.
Qed.

(** One digit more than a number needs is a leading zero. *)
Lemma hex_digits_zero n v : 0 <= v < 16 ^ Z.of_nat n -> hex_digits (S n) v = "0" +:+ hex_digits n v.
Proof.
  revert v. induction n as [|n IH]; intros v Hv.
  - assert (v = 0) as -> by (cbn in Hv; lia). reflexivity.
  - rewrite Nat2Z.inj_succ, Z.pow_succ_r in Hv by lia.
    change (hex_digits (S (S n)) v) with (hex_digits (S n) (v / 16) +:+ String (hex_digit (v mod 16)) "").
    rewrite IH; [by rewrite string_app_assoc|].
    split; [apply Z.div_pos; lia|]. apply Z.div_lt_upper_bound; lia.
Qed.

(** Both spell the bytes of the number: as many as it needs. *)
Lemma hexToBytes_even_hex v :
  0 < v -> hexToBytes (even_hex v) = Ok (be_bytes (Z.to_nat ((bits v + 7) / 8)) v).
Proof.
  intros Hv. assert (1 <= bits v) as Hb.
  { unfold bits. destruct (Z.eqb_spec v 0); [lia|]. pose proof (Z.log2_nonneg (Z.abs v)). lia. }
  rewrite <- hexToBytes_digits. f_equal.
  unfold even_hex, upper_hex. rewrite hex_digits_length.
  assert (Z.of_nat (hex_length v) = (bits v + 3) / 4) as Hh.
  { unfold hex_length. pose proof (Z.div_le_lower_bound (bits v + 3) 4 1). lia. }
  pose proof (Z.div_mod (bits v + 3) 4). pose proof (Z.mod_pos_bound (bits v + 3) 4).
  pose proof (Z.div_mod (bits v + 7) 8). pose proof (Z.mod_pos_bound (bits v + 7) 8).
  destruct (Nat.Even_or_Odd (hex_length v)) as [He|Ho].
  - rewrite (proj2 (Nat.even_spec _) He). destruct He as [k Hk]. rewrite Hk. do 2 f_equal. lia.
  - rewrite <- Nat.negb_odd, (proj2 (Nat.odd_spec _) Ho). cbn [negb]. destruct Ho as [k Hk].
    replace (2 * Z.to_nat ((bits v + 7) / 8))%nat with (S (hex_length v)) by lia.
    rewrite hex_digits_zero; [done|]. split; [lia|]. rewrite Hh.
    change 16 with (2 ^ 4). rewrite <- Z.pow_mul_r by lia.
    eapply Z.lt_le_trans; [apply bits_bound; lia|]. apply Z.pow_le_mono_r; lia.
Qed.

End hex.
