(* ===== verification/ExampleSSL.v ===== *)
(** * A small implementation of the OpenSSL interface

    It satisfies every promise of [OpenSSL.v] and [CertificateFiles.v], so that the
    properties that depend on them can be applied to concrete runs.  A certificate or a
    key is a text, which is also its name; the modulus is the text as a number. *)

From S2P Require Import Prelude Types Effects OpenSSL World Certificate CertificateInv CertificateFiles CertificateHex.

Local Open Scope Z_scope.

(** 32 bytes that depend on all that is hashed. *)
Definition small_digest (bytes : list Z) : list Z :=
  let sum := fold_left (fun acc b => (acc * 3 + b) mod 256) bytes 7 in
  sum :: repeat ((sum + 1) mod 256) 31.

Definition text_number (text : string) : Z := be_value (bytes_of_string text) + 1.

Definition number_bytes (v : Z) : list Z := be_bytes (Z.to_nat ((bits v + 7) / 8)) (Z.abs v).

Definition succeed {A} (a : A) (st : unit) : option A * unit := (Some a, st).
Definition same {A} (a : A) (st : unit) : A * unit := (a, st).

#[export] Instance small_ssl : OpenSSL := {|
  OSSL := unit; X509 := string; X509_NAME := string; X509_NAME_ENTRY := string;
  ASN1_STRING := string; X509_EXTENSION := unit; EVP_PKEY := string; EVP_PKEY_CTX := unit;
  EVP_MD_CTX := list Z; BIO := string; SSL_CTX := string;
  ERR_get_error := same 0;
  ERR_error_string_n _ _ := "error";
  X509_get_pubkey certificate := succeed certificate;
  EVP_PKEY_get_bn_param key param :=
    succeed (if bool_decide (param = OSSL_PKEY_PARAM_RSA_N) then text_number key else 65537);
  BN_num_bytes v := (bits v + 7) / 8;
  BN_bn2bin := number_bytes;
  EVP_PKEY_CTX_new_rsa := succeed tt;
  EVP_PKEY_keygen_init _ := succeed tt;
  EVP_PKEY_CTX_set_rsa_keygen_bits _ _ := succeed tt;
  EVP_PKEY_keygen _ := succeed "key";
  X509_new := succeed "";
  X509_set_version c _ := same c;
  serialNumber_set c _ := same c;
  notBefore_adj c _ := same c;
  notAfter_adj c _ := same c;
  X509_set_pubkey c _ := succeed c;
  X509_get_subject_name c := c;
  subject_set _ name := name;
  X509_NAME_add_entry_by_txt _ _ _ text _ _ _ := succeed text;
  X509_set_issuer_name c _ := succeed c;
  X509V3_EXT_conf_nid _ _ _ _ := succeed tt;
  X509_add_ext c _ _ := succeed c;
  X509_sign_sha256 c _ := succeed c;
  X509_NAME_get_index_by_NID _ nid _ := if nid =? NID_commonName then 0 else -1;
  X509_NAME_get_entry name _ := Some name;
  X509_NAME_ENTRY_get_data entry := entry;
  ASN1_STRING_to_UTF8 text := succeed text;
  EVP_MD_CTX_new := succeed [];
  EVP_DigestInit_sha256 _ := succeed [];
  EVP_DigestUpdate context bytes := succeed (context ++ bytes)%list;
  EVP_DigestFinal_ex context := succeed (small_digest context);
  BIO_new_mem := succeed "";
  PEM_write_bio_X509 bio c := succeed (bio +:+ String "C" c);
  PEM_write_bio_PrivateKey bio key := succeed (bio +:+ String "K" key);
  BIO_new_mem_buf pem _ := succeed pem;
  PEM_read_bio_X509 bio st :=
    (match bio with String "C" c => Some c | _ => None end, st);
  PEM_read_bio_PrivateKey bio st :=
    (match bio with String "K" key => Some key | _ => None end, st);
  tls_client_context := same (Ok "");
  SSL_CTX_use_certificate context c st := (true, context +:+ c, st);
  SSL_CTX_use_PrivateKey context key st := (true, context +:+ key, st);
  SSL_CTX_check_private_key _ := same true;
  SSL_new _ := same (Ok tt)
|}.

Section small.

#[export] Instance small_bignum : BignumLaws small_ssl.
Proof.
  assert (forall v, 0 <= (bits v + 7) / 8) as Hn.
  { intros v. apply Z.div_pos; [|lia]. pose proof (bits_nonneg v). lia. }
  split; intros v; cbn; unfold number_bytes.
  - done.
  - unfold size. rewrite be_bytes_length. specialize (Hn v). lia.
  - apply be_bytes_ok.
  - apply be_bytes_value. split; [lia|].
    assert (bits v = bits (Z.abs v)) as E.
    { unfold bits. rewrite Z.abs_idemp. by destruct (Z.eqb_spec v 0), (Z.eqb_spec (Z.abs v) 0); try lia. }
    rewrite E. eapply Z.lt_le_trans; [apply bits_bound; lia|]. rewrite <- E.
    change 256 with (2 ^ 8). rewrite <- Z.pow_mul_r by lia. apply Z.pow_le_mono_r; [lia|].
    specialize (Hn v). pose proof (Z.div_mod (bits v + 7) 8).
    pose proof (Z.mod_pos_bound (bits v + 7) 8). lia.
Qed.

#[export] Instance small_buffers : BufferLaws small_ssl.
Proof.
  split; [intros v; by rewrite BN_bn2bin_length|].
  intros ctx st digest st' [= <- _]. unfold size, small_digest. cbn. lia.
Qed.

#[export] Instance small_digests : DigestLaws small_ssl small_digest.
Proof.
  refine {| hashed := fun ctx bytes => ctx = bytes :> list Z |}; cbn; unfold succeed; intros.
  - done.
  - by do 2 eexists.
  - by do 2 eexists.
  - subst. by do 2 eexists.
  - subst. by eexists.
Defined.

#[export] Instance small_identity : IdentityLaws small_ssl.
Proof.
  refine {| matches := fun _ _ => True |}; cbn; unfold succeed; intros; try done.
  - congruence.
  - injection H as <- _. intros st''. by do 2 eexists; split; [done|]; eexists.
  - injection H as <- _. intros st''. by do 2 eexists; split; [done|]; eexists.
Defined.

Lemma small_accepts context certificate key : accepts context certificate key.
Proof. intros []. do 2 eexists. exists (context +:+ certificate), tt, tt. by split_and!. Qed.

Lemma small_usable certificate key : usable certificate key.
Proof.
  intros st. exists "", st. split; [done|]. split; [apply small_accepts|].
  intros st1 context' st' _. by exists st'.
Qed.

Lemma small_rsa certificate : rsa_certificate certificate (text_number certificate) 65537.
Proof. intros st. by do 2 eexists; split_and!; [done|intros; eexists..]. Qed.

End small.

(** A world with these files, in which the disk works and these peers answer. *)
Definition small_disk : Disk :=
  mkDisk (fun _ => None) (fun _ => None) (fun _ => Readable) (fun _ => Written).

Definition small_world (files : gmap string node) (dials : list Peer) : World :=
  mkWorld tt ∅ 1 None None files small_disk dials [].

(** The disk with the identity of [client]. *)
Definition small_files (client : string) : gmap string node :=
  <["cert.pem" := RegularFile (String "C" client)]>
    (<["key.pem" := RegularFile "Kkey"]> ∅).
