(* ===== verification/CertificateNames.v ===== *)
(** * The parts of a subject name

    [splitSlash] is the inverse of joining with slashes. *)

From S2P Require Import Prelude Types Effects OpenSSL World Certificate CertificateHex.

Local Open Scope Z_scope.
Local Open Scope cxx_scope.

Fixpoint no_slash (s : string) : bool :=
  match s with
  | EmptyString => true
  | String c s => negb (bool_decide (c = "/"%char)) && no_slash s
  end.

Definition join (parts : list string) : string := String.concat "/" parts.

Lemma join_cons p q parts : join (p :: q :: parts) = p +:+ ("/" +:+ join (q :: parts)).
Proof. done. Qed.

Section strings.

Lemma append_nil_r s : s +:+ "" = s.
Proof. induction s as [|c s IH]; [done|]. by rewrite append_cons, IH. Qed.

Lemma index_shift pre s :
  String.index (String.length pre) "/" (pre +:+ s) =
  option_map (fun i => String.length pre + i)%nat (String.index 0 "/" s).
Proof.
  induction pre as [|c pre IH]; [rewrite append_nil; cbn [String.length]; by destruct (String.index 0 "/" s)|].
  rewrite append_cons. cbn [String.length String.index]. rewrite IH.
  by destruct (String.index 0 "/" s).
Qed.

Lemma index_slash p s : no_slash p = true -> String.index 0 "/" (p +:+ String "/" s) = Some (String.length p).
Proof.
  induction p as [|c p IH]; [by destruct s|]. cbn [no_slash]. intros [Hc Hp]%andb_true_iff.
  rewrite append_cons. cbn [String.index String.prefix String.length].
  case_bool_decide as Hc'; [done|]. destruct (ascii_dec "/" c); [congruence|].
  by rewrite (IH Hp).
Qed.

Lemma index_none p : no_slash p = true -> String.index 0 "/" p = None.
Proof.
  induction p as [|c p IH]; [done|]. cbn [no_slash]. intros [Hc Hp]%andb_true_iff.
  cbn [String.index String.prefix]. case_bool_decide as Hc'; [done|].
  destruct (ascii_dec "/" c); [congruence|]. by rewrite (IH Hp).
Qed.

Lemma substring_shift pre n s :
  String.substring (String.length pre) n (pre +:+ s) = String.substring 0 n s.
Proof. induction pre as [|c pre IH]; [done|]. rewrite append_cons. apply IH. Qed.

Lemma substring_prefix p s : String.substring 0 (String.length p) (p +:+ s) = p.
Proof.
  induction p as [|c p IH]; [by destruct s|]. rewrite append_cons. cbn. by rewrite IH.
Qed.

End strings.

(** From a position after which the parts follow, the loop adds the parts. *)
Lemma splitSlash_loop_parts fuel pre parts acc :
  Forall (fun p => no_slash p = true) parts -> parts <> [] -> (length parts <= fuel)%nat ->
  splitSlash_loop fuel (pre +:+ join parts) (String.length pre) acc = (acc ++ parts)%list.
Proof.
  revert fuel pre acc. induction parts as [|p parts IH]; intros fuel pre acc Hf Hn Hl; [done|].
  inversion_clear Hf as [|? ? Hp Hps]. destruct fuel as [|fuel]; [cbn in Hl; lia|].
  cbn [splitSlash_loop]. rewrite index_shift. destruct parts as [|q parts].
  - cbn [join String.concat]. rewrite (index_none p Hp). cbn [option_map].
    rewrite string_length_app, substring_shift.
    replace (_ - _)%nat with (String.length p) by lia.
    rewrite <- (append_nil_r p) at 2. by rewrite substring_prefix.
  - rewrite join_cons. rewrite (append_cons "/" "" _), append_nil, index_slash by done. cbn [option_map].
    rewrite substring_shift.
    replace (_ + _ - _)%nat with (String.length p) by lia. rewrite substring_prefix.
    replace (pre +:+ (p +:+ String "/" (join (q :: parts))))
      with ((pre +:+ (p +:+ "/")) +:+ join (q :: parts))
      by (rewrite !string_app_assoc; by rewrite (append_cons "/" ""), append_nil).
    replace (String.length pre + String.length p + 1)%nat with (String.length (pre +:+ (p +:+ "/")))
      by (rewrite !string_length_app; cbn; lia).
    rewrite IH by (done || (cbn in *; lia)). by rewrite <- app_assoc.
Qed.

Lemma join_length parts : (length parts <= String.length (join parts) + 1)%nat.
Proof.
  induction parts as [|p [|q parts] IH]; [cbn; lia|cbn; lia|].
  rewrite join_cons, !string_length_app. cbn [length String.length] in *. lia.
Qed.

Lemma splitSlash_join parts :
  Forall (fun p => no_slash p = true) parts -> parts <> [] -> splitSlash (join parts) = parts.
Proof.
  intros Hf Hn. unfold splitSlash.
  apply (splitSlash_loop_parts _ "" parts []); [done|done|]. apply join_length.
Qed.

(** Every text is the join of such parts. *)
Lemma parts_exist value : exists parts,
  parts <> [] /\ Forall (fun p => no_slash p = true) parts /\ join parts = value.
Proof.
  induction value as [|c value (parts & Hn & Hf & <-)]; [by exists [""]; split_and!; [|repeat constructor|]|].
  destruct parts as [|p parts]; [done|]. destruct (decide (c = "/"%char)) as [->|Hc].
  - exists ("" :: p :: parts). split_and!; [done|by constructor|]. by rewrite join_cons.
  - exists (String c p :: parts). inversion_clear Hf as [|? ? Hp Hps]. split_and!; [done| |].
    + constructor; [|done]. cbn [no_slash]. rewrite Hp. by rewrite bool_decide_eq_false_2.
    + destruct parts; [done|]. by rewrite !join_cons, append_cons.
Qed.

Lemma splitSlash_parts value :
  splitSlash value <> [] /\ Forall (fun p => no_slash p = true) (splitSlash value) /\
  join (splitSlash value) = value.
Proof.
  destruct (parts_exist value) as (parts & Hn & Hf & <-). by rewrite splitSlash_join.
Qed.

(** The identity in names given by their parts. *)
Lemma identity_of_parts parts qualifiers :
  Forall (fun p => no_slash p = true) parts -> parts <> [] ->
  Forall (fun p => no_slash p = true) qualifiers ->
  identity_of (join parts) (if bool_decide (qualifiers = []) then "" else join qualifiers) =
  {| name := if bool_decide (qualifiers = [] \/ qualifiers = [""]) then
               List.nth (length parts - 2) parts ""
             else List.last qualifiers "";
     macAddress := List.last parts "" |}.
Proof.
  intros Hp Hn Hq. unfold identity_of. rewrite (splitSlash_join parts) by done.
  rewrite (bool_decide_eq_false_2 (parts = [])) by done. cbn [negb]. f_equal.
  assert ((if (1 <? length parts)%nat then List.nth (length parts - 2) parts "" else join parts) =
          List.nth (length parts - 2) parts "") as Hname.
  { destruct parts as [|p [|q parts]]; [done|done|]. done. }
  destruct qualifiers as [|q [|q' qualifiers]].
  - rewrite !bool_decide_eq_true_2 by auto. done.
  - rewrite (bool_decide_eq_false_2 ([q] = [])) by done. cbn [join String.concat].
    destruct (decide (q = "")) as [->|Hq'].
    + rewrite !bool_decide_eq_true_2 by auto. done.
    + rewrite (bool_decide_eq_false_2 (q = "")) by done.
      rewrite (bool_decide_eq_false_2 (_ \/ _)) by (intros [?|[=]]; done).
      change (splitSlash q) with (splitSlash (join [q])).
      by rewrite splitSlash_join by done.
  - rewrite (bool_decide_eq_false_2 (_ \/ _)) by (intros [?|[=]]; done).
    rewrite (bool_decide_eq_false_2 (_ :: _ = [])) by done. rewrite splitSlash_join by done.
    rewrite (bool_decide_eq_false_2 (_ = "")); [done|].
    intros H%(f_equal String.length). rewrite join_cons, !string_length_app in H. cbn in H. lia.
Qed.

(** ** The entries of a name *)
Section entries.
Context {ssl : OpenSSL}.

(** The first entry of [name] with this [nid], as UTF-8; [None] if there is none. *)
Definition entry_is (name : X509_NAME) (nid : Z) (text : option string) : Prop :=
  let index := X509_NAME_get_index_by_NID name nid (-1) in
  match text with
  | None => index < 0
  | Some text => 0 <= index /\ exists entry, X509_NAME_get_entry name index = Some entry /\
      forall st, exists st', ASN1_STRING_to_UTF8 (X509_NAME_ENTRY_get_data entry) st = (Some text, st')
  end.

Lemma nameEntry_returns name nid text w :
  entry_is name nid text ->
  exists st, nameEntry name nid w = Returns (default "" text) (w <| openssl_ := st |>).
Proof.
  unfold entry_is, nameEntry. destruct text as [text|]; cbn [default].
  - intros (Hi & entry & -> & H). destruct (Z.ltb_spec (X509_NAME_get_index_by_NID name nid (-1)) 0); [lia|].
    destruct (H (openssl_ w)) as [st E]. exists st.
    erewrite bind_returns; [|unfold call; by rewrite E]. done.
  - intros Hi. apply Z.ltb_lt in Hi. rewrite Hi. exists (openssl_ w). by destruct w.
Qed.

End entries.
