(* ===== verification/CertificateProps.v ===== *)
(** * The properties of the certificate functions *)

From S2P Require Import Prelude Types Effects OpenSSL World Certificate CertificateInv CertificateFiles CertificateHex ExampleSSL CertificateNames.

Local Open Scope Z_scope.
Local Open Scope cxx_scope.

Section properties.
Context {ssl : OpenSSL}.

(** C18. The pairing secret of two certificates with RSA keys is, whatever state OpenSSL
    and the holders are in, the digest of the client's modulus and exponent, the server's
    modulus and exponent and the last two bytes of the code; a code that has not six
    characters, is not hexadecimal, or whose first byte is not the digest's is refused
    with the exception that says so.  Every number that was allocated is freed or is in a
    holder, and files and network are left alone. *)
Theorem pairingSecret_spec (sha256 : list Z -> list Z) (digest : DigestLaws ssl sha256)
    (client server : X509) (nC eC nS eS : Z) (code : string) (w : World) :
  BignumLaws ssl -> heap_wf w ->
  rsa_certificate client nC eC -> rsa_certificate server nS eS ->
  nC <> 0 -> eC <> 0 -> nS <> 0 -> eS <> 0 ->
  exists w', heap_wf w' /\ quiet w w' /\
    pairingSecret client server code w =
    match secret_spec sha256 nC eC nS eS code with
    | Ok secret => Returns secret w'
    | Throw e => Throws e w'
    end.
Proof.
  intros. destruct (pairingSecret_runs sha256 client server nC eC nS eS code w)
    as (w' & [Hwf Hq] & ->); [done..|].
  exists w'. split_and!; [done..|]. by destruct (secret_spec _ _ _ _ _ _).
Qed.

(** The bytes of a key's number that are hashed are those of the Python reference
    implementation: [bytes.fromhex] of the number in upper-case hexadecimal, with a
    leading zero when the number of digits is odd. *)
Theorem bnBytes_reference (p : option Z) (v : Z) (w : World) :
  BignumLaws ssl -> 0 < v -> BN_deref p w = Returns v w ->
  exists bytes, bnBytes p w = Returns bytes w /\ hexToBytes (even_hex v) = Ok bytes.
Proof.
  intros Hb Hv Hp. exists (BN_bn2bin v).
  rewrite hexToBytes_even_hex, BN_bn2bin_eq by (done || lia).
  split; [|done]. rewrite <- BN_bn2bin_eq by (done || lia).
  apply bnBytes_returns; [done|lia|done].
Qed.

(** C21. When both files are there and can be examined, [generateCertificateIfMissing]
    returns [false] and does nothing at all; and it returns [false] only then. Otherwise, for
    every behaviour of OpenSSL and of the disk, it returns [true] with both files there or it
    throws; either way nothing that existed at another path has changed. After it has
    returned [true], a second call returns [false] and does nothing, if the key file can be
    examined by then. When the certificate file cannot be examined, it throws and does
    nothing. *)
Theorem generate_identity (certificateFile privateKeyFile commonName : string) (w : World) :
  let outcome := generateCertificateIfMissing certificateFile privateKeyFile commonName w in
  (regular w certificateFile -> regular w privateKeyFile ->
   stat_error (disk_ w) certificateFile = None -> stat_error (disk_ w) privateKeyFile = None ->
   outcome = Returns false w) /\
  (forall message, stat_error (disk_ w) certificateFile = Some message ->
   outcome = Throws (system_error message) w) /\
  match outcome with
  | Returns false w' =>
      w' = w /\ regular w certificateFile /\ regular w privateKeyFile /\
      stat_error (disk_ w) certificateFile = None /\ stat_error (disk_ w) privateKeyFile = None
  | Returns true w' =>
      ~ (regular w certificateFile /\ regular w privateKeyFile) /\
      kept [certificateFile; privateKeyFile] w w' /\
      regular w' certificateFile /\ regular w' privateKeyFile /\
      (stat_error (disk_ w) privateKeyFile = None -> forall name,
       generateCertificateIfMissing certificateFile privateKeyFile name w' = Returns false w')
  | Throws _ w' => kept [certificateFile; privateKeyFile] w w'
  | Blocks _ | Undefined => False
  end.
Proof.
  cbv zeta. split; [by apply generate_nothing|]. split; [by apply generate_unexamined|].
  pose proof (wp_generate _ _ certificateFile privateKeyFile commonName w made_anyhow) as H.
  unfold wp in H. destruct (generateCertificateIfMissing _ _ _ w) as [[] w'|e w'|w'|];
    [|done|by destruct H|done..].
  destruct H as (Hn & Hs & [[Hd Hk] _] & c & key & certPem & keyPem & _ & _ & Hc & Hp & _).
  split_and!; [done..|]. intros Hs' name. apply generate_nothing; [done|done|congruence..].
Qed.

(** C38. What [generateCertificateIfMissing] wrote, to two different files that can be written
    and read, is a certificate and a key that belong together: a TLS context that accepts
    them has them after [loadClientIdentity], which returns; and one that refuses the
    certificate (its security level may) makes it throw. *)
Theorem identity_roundtrip (laws : IdentityLaws ssl) (certificateFile privateKeyFile commonName : string)
    (w w' : World) :
  certificateFile <> privateKeyFile ->
  Forall (fun path => writing (disk_ w) path = Written /\ reading (disk_ w) path = Readable)
    [certificateFile; privateKeyFile] ->
  generateCertificateIfMissing certificateFile privateKeyFile commonName w = Returns true w' ->
  exists certificate key, matches certificate key /\
    forall context,
      (accepts context certificate key -> exists st context' st',
         installs certificate key context st context' st' /\
         loadClientIdentity certificateFile privateKeyFile (Some context, w') =
           Returns tt (Some context', w' <| openssl_ := st' |>)) /\
      (refuses context certificate -> exists message context' st',
         loadClientIdentity certificateFile privateKeyFile (Some context, w') =
           Throws (runtime_error message) (Some context', w' <| openssl_ := st' |>)).
Proof.
  intros Hne Hd E.
  pose proof (wp_generate _ _ certificateFile privateKeyFile commonName w made_by_laws) as H.
  unfold wp in H. rewrite E in H.
  destruct H as (_ & _ & [[Hdisk _] _] & c & key & certPem & keyPem & Hm & [Hc Hk] & _ & _ & Hf).
  inversion_clear Hd as [|? ? [Wc Rc] Hd']. inversion_clear Hd' as [|? ? [Wk Rk] _].
  destruct (Hf Hne Wc Wk) as [Fc Fk]. rewrite <- Hdisk in Rc, Rk.
  exists c, key. split; [done|]. intros context. split; intros Ha.
  - by apply (loadClientIdentity_returns _ _ c key certPem keyPem).
  - by apply (loadClientIdentity_refused _ _ c key certPem keyPem).
Qed.

(** C39. The identity of a device is read from its certificate's subject: the name is
    the last part of the qualifier when there is one that is not empty, otherwise the
    last part but one of the common name, or its only part; the address is the last part
    of the common name. *)
Theorem device_identity (certificate : X509) (parts qualifiers : list string) (w : World) :
  Forall (fun p => no_slash p = true) (parts ++ qualifiers) -> parts <> [] ->
  let subject := X509_get_subject_name certificate in
  entry_is subject NID_commonName (Some (join parts)) ->
  entry_is subject NID_dnQualifier
    (if bool_decide (qualifiers = []) then None else Some (join qualifiers)) ->
  exists st, parseDeviceIdentity (Some certificate) w = Returns
    {| name :=
         if bool_decide (qualifiers = [] \/ qualifiers = [""]) then
           List.nth (length parts - 2) parts ""
         else List.last qualifiers "";
       macAddress := List.last parts "" |} (w <| openssl_ := st |>).
Proof.
  intros [Hp Hq]%Forall_app Hn subject Hc Hd.
  destruct (nameEntry_returns _ _ _ w Hc) as [st1 E1].
  destruct (nameEntry_returns _ _ _ (w <| openssl_ := st1 |>) Hd) as [st2 E2].
  exists st2. unfold parseDeviceIdentity. fold subject.
  erewrite bind_returns; [|exact E1]. erewrite bind_returns; [|exact E2].
  rewrite <- identity_of_parts by done. by destruct (bool_decide (qualifiers = [])).
Qed.

End properties.

(** ** The example implementation *)

Lemma pairingSecret_spec_witness :
  exists w', heap_wf w' /\
    pairingSecret (ssl := small_ssl) "me" "tv" "0x0000" (small_world ∅ []) =
    Throws (invalid_argument "pairing code is not hexadecimal") w'.
Proof.
  destruct (pairingSecret_spec (ssl := small_ssl) small_digest _ "me" "tv" (text_number "me") 65537
    (text_number "tv") 65537 "0x0000" (small_world ∅ [])) as (w' & Hw & _ & H).
  - apply _.
  - by apply heap_unused.
  - apply small_rsa.
  - apply small_rsa.
  - by vm_compute.
  - done.
  - by vm_compute.
  - done.
  - by exists w'.
Defined.

Lemma bnBytes_reference_witness :
  exists bytes,
    bnBytes (ssl := small_ssl) (Some 1) ((small_world ∅ []) <| bignums_ := <[1 := 65537]> ∅ |>) =
      Returns bytes ((small_world ∅ []) <| bignums_ := <[1 := 65537]> ∅ |>) /\
    hexToBytes "010001" = Ok bytes.
Proof.
  apply (bnBytes_reference (ssl := small_ssl) (Some 1) 65537
    ((small_world ∅ []) <| bignums_ := <[1 := 65537]> ∅ |>)); [apply _|done|reflexivity].
Defined.

Lemma identity_roundtrip_witness :
  exists w' context' st,
    generateCertificateIfMissing (ssl := small_ssl) "id/cert.pem" "id/key.pem" "remote" (small_world ∅ []) =
      Returns true w' /\
    loadClientIdentity (ssl := small_ssl) "id/cert.pem" "id/key.pem" (Some "", w') =
      Returns tt (Some context', w' <| openssl_ := st |>).
Proof.
  set (made := generateCertificateIfMissing (ssl := small_ssl) "id/cert.pem" "id/key.pem" "remote"
                 (small_world ∅ [])).
  assert (exists w', made = Returns true w') as [w' E].
  { assert (match made with Returns true _ => true | _ => false end = true) as H by (vm_compute; reflexivity).
    destruct made as [[|] w'|? ?|?|]; [by exists w'|discriminate H..]. }
  exists w'.
  destruct (identity_roundtrip (ssl := small_ssl) small_identity "id/cert.pem" "id/key.pem" "remote"
    (small_world ∅ []) w') as (certificate & key & _ & H).
  - discriminate.
  - repeat apply Forall_cons_2; [split; reflexivity..|apply Forall_nil_2].
  - exact E.
  - destruct (H "") as [Ha _]. destruct (Ha (small_accepts "" certificate key)) as (_ & context' & st & _ & H').
    exists context', st. split; [exact E|exact H'].
Defined.

Lemma device_identity_witness :
  exists st, parseDeviceIdentity (ssl := small_ssl) (Some "atvremote/Living room/AA:BB")
      (small_world ∅ []) =
    Returns {| name := "Living room"; macAddress := "AA:BB" |} ((small_world ∅ []) <| openssl_ := st |>).
Proof.
  apply (device_identity (ssl := small_ssl) "atvremote/Living room/AA:BB"
    ["atvremote"; "Living room"; "AA:BB"] [] (small_world ∅ [])).
  - by repeat constructor.
  - done.
  - split; [done|]. eexists. split; [done|]. intros st. by eexists.
  - done.
Defined.
