(* ===== verification/Pairing.v ===== *)
(** * The pairing connection and the pairing dialogue ([src/pairing.cpp])

    [SyncTls] is [SyncTlsConnection], a blocking TLS connection; [PairingSession] is
    [PairingSession] and its [Impl].  A method works on its object beside the world. *)

From S2P Require Import Prelude Wire Types Messages Effects OpenSSL World Certificate.

Local Open Scope Z_scope.
Local Open Scope cxx_scope.

(** A blocking operation. *)
Definition wait {S} (p : progress) : M S unit :=
  match p with
  | Completes => mret tt
  | Fails message => throw (system_error message)
  | Hangs => block
  end.

Module SyncTls.
Section connection.
Context {ssl : OpenSSL}.

(** The socket of the stream: not connected yet, or connected to [peer]. *)
Inductive socket :=
  | Idle
  | Attached (peer : Peer).

(** [stream_] is [None] for the null pointer.  The [io_context] has no state. *)
Record SyncTlsConnection := mkConnection {
  context_ : SSL_CTX;
  stream_ : option socket
}.

#[global] Instance SyncTlsConnection_settable : Settable SyncTlsConnection := fun c =>
  mkConnection (context_ c) (stream_ c).

Abbreviation method := (M (SyncTlsConnection * World)).

(** The constructor: the identity is loaded into the context before the stream is made
    of it; each of the three may throw.  Certificates are not verified ([verify_none]). *)
Definition make (certificateFile privateKeyFile : string) : M World SyncTlsConnection :=
  context ← call tls_client_context;
  context ← of_result context;
  '(_, context) ← with_local (Some context) (loadClientIdentity certificateFile privateKeyFile);
  match context with
  | Some context =>
      made ← call (SSL_new context);
      _ ← of_result made;
      mret {| context_ := context; stream_ := Some Idle |}
  | None => undefined
  end.

(** [*stream_] *)
Definition get_socket : method socket := fun '(c, w) =>
  match stream_ c with
  | Some s => Returns s (c, w)
  | None => Undefined
  end.

Definition set_socket (s : socket) : method unit :=
  modify (fun '(c, w) => (c <| stream_ := Some s |>, w)).

(** The peer that an operation on the stream talks to. *)
Definition attached : method Peer :=
  s ← get_socket;
  match s with
  | Attached peer => mret peer
  | Idle => throw (system_error "Transport endpoint is not connected")
  end.

(** What answers the next attempt to connect; no answer is waited for forever. *)
Definition next_dial : M World Peer := fun w =>
  match dials_ w with
  | peer :: rest => Returns peer (w <| dials_ := rest |>)
  | [] => Blocks w
  end.

Definition connect (host : string) (port : Z) : method unit :=
  _ ← get_socket;
  outside (observe (Dialled host port)) ;;
  peer ← outside next_dial;
  wait (resolving peer) ;;
  wait (connecting peer) ;;
  set_socket (Attached peer) ;;
  wait (handshaking peer).

(** [shutdown] waits for the other side; then the socket is closed.  The errors of
    both are ignored. *)
Definition close : method unit := fun '(c, w) =>
  match stream_ c with
  | None | Some Idle => Returns tt (c, w)
  | Some (Attached peer) =>
      if shutting peer then Returns tt (c, w <| net_ := (net_ w ++ [Closed])%list |>)
      else Blocks (c, w)
  end.

(** [asio::write] of the whole buffer. *)
Definition write (buffer : list Z) : method unit :=
  peer ← attached;
  match accepting peer with
  | [] => outside (observe (Wrote buffer))
  | answer :: rest =>
      set_socket (Attached (peer <| accepting := rest |>)) ;;
      wait answer ;;
      outside (observe (Wrote buffer))
  end.

Definition send (payload : list Z) : method unit :=
  let framed := frame payload in
  write framed.

(** [asio::read] of [n] bytes: it waits until they are there or the stream ends. *)
Definition read (n : nat) : method (list Z) :=
  peer ← attached;
  if (n <=? length (incoming peer))%nat then
    set_socket (Attached (peer <| incoming := drop n (incoming peer) |>)) ;;
    mret (take n (incoming peer))
  else
    set_socket (Attached (peer <| incoming := [] |>)) ;;
    match ending peer with
    | Some message => throw (system_error message)
    | None => block
    end.

(** The loop that reads the length.  [shift] grows by 7 in each round and the loop ends
    when it exceeds 63, so that 10 rounds are enough. *)
Fixpoint receive_length (fuel : nat) (length : Z) (shift : Z) : method Z :=
  match fuel with
  | O => undefined
  | S fuel =>
      buffer ← read 1;
      match buffer with
      | [byte] =>
          let length := Z.lor length (u64 (Z.shiftl (Z.land byte 0x7f) shift)) in
          if Z.land byte 0x80 =? 0 then mret length
          else
            let shift := shift + 7 in
            if 63 <? shift then throw (runtime_error "invalid protobuf frame length")
            else receive_length fuel length shift
      | _ => undefined
      end
  end.

Definition receive : method (list Z) :=
  length ← receive_length 10 0 0;
  if 4 * 1024 * 1024 <? length then
    throw (runtime_error "protobuf frame exceeds safety limit")
  else if 0 <? length then read (Z.to_nat length)
  else mret [].

Definition peerCertificate : method (option X509) :=
  s ← get_socket;
  match s with
  | Attached peer => mret (presented peer)
  | Idle => mret None
  end.

End connection.
End SyncTls.

Section helpers.
Context {ssl : OpenSSL}.

Definition loadCertificate (path : string) : M World X509 :=
  pem ← read_stream path;
  match pem with
  | None => throw (runtime_error "unable to open client certificate")
  | Some pem =>
      bio ← call (BIO_new_mem_buf pem (i32 (Z.of_nat (String.length pem))));
      match bio with
      | None => throw (runtime_error "unable to allocate client certificate BIO")
      | Some bio =>
          raw ← call (PEM_read_bio_X509 bio);
          match raw with
          | None => throw (runtime_error "unable to read client certificate PEM")
          | Some raw => mret raw
          end
      end
  end.

Definition requirePairingStatusOk {S} (message : list Z) : M S unit :=
  if bool_decide (pairingStatus message = Some 200) then mret tt
  else throw (runtime_error "Android TV pairing protocol returned an error status").

End helpers.

Module PairingSession.
Section session.
Context {ssl : OpenSSL}.

(** [PairingSession::Impl] *)
Record Impl := mkSession {
  clientName_ : string;
  certificateFile_ : string;
  privateKeyFile_ : string;
  host_ : string;
  port_ : Z;
  connection_ : option SyncTls.SyncTlsConnection
}.

#[global] Instance Impl_settable : Settable Impl := fun s =>
  mkSession (clientName_ s) (certificateFile_ s) (privateKeyFile_ s) (host_ s) (port_ s)
    (connection_ s).

Abbreviation method := (M (Impl * World)).

(** The constructors of both classes. *)
Definition make (clientName certificateFile privateKeyFile host : string) (port : Z) : Impl :=
  {| clientName_ := clientName; certificateFile_ := certificateFile;
     privateKeyFile_ := privateKeyFile; host_ := host; port_ := port; connection_ := None |}.

(** [connection_->m()] *)
Definition on_connection {A} (m : M (SyncTls.SyncTlsConnection * World) A) : method A :=
  zoom (fun '(s, w) => match connection_ s with Some c => Some (c, w) | None => None end)
       (fun '(c, w) '(s, _) => (s <| connection_ := Some c |>, w)) m.

(** The destructor of a connection. *)
Definition destroy_connection (c : SyncTls.SyncTlsConnection) : M World unit :=
  _ ← with_local c SyncTls.close;
  mret tt.

(** Assignment to [connection_]: the old connection is destroyed once the new one is
    in place. *)
Definition assign_connection (new : option SyncTls.SyncTlsConnection) : method unit :=
  s ← gets fst;
  modify (fun '(s, w) => (s <| connection_ := new |>, w)) ;;
  match connection_ s with
  | Some old => outside (destroy_connection old)
  | None => mret tt
  end.

(** The loop of [start]; [steps] are the rounds left. *)
Fixpoint negotiate (steps : nat) : M (SyncTls.SyncTlsConnection * World) bool :=
  match steps with
  | O => mret false
  | S steps =>
      message ← SyncTls.receive;
      requirePairingStatusOk message ;;
      if hasPairingRequestAck message then
        SyncTls.send pairingOptions ;;
        negotiate steps
      else if hasPairingOptions message then
        SyncTls.send pairingConfiguration ;;
        negotiate steps
      else if hasConfigurationAck message then mret true
      else negotiate steps
  end.

Definition start : method unit :=
  s ← gets fst;
  connection ← outside (SyncTls.make (certificateFile_ s) (privateKeyFile_ s));
  assign_connection (Some connection) ;;
  on_connection (SyncTls.connect (host_ s) (port_ s)) ;;
  on_connection (SyncTls.send (pairingRequest (clientName_ s))) ;;
  configured ← on_connection (negotiate 8);
  if (configured : bool) then mret tt
  else
    assign_connection None ;;
    throw (runtime_error "pairing handshake did not reach configuration acknowledgement").

(** The loop of [finish]. *)
Fixpoint await_ack (steps : nat) : M (SyncTls.SyncTlsConnection * World) bool :=
  match steps with
  | O => mret false
  | S steps =>
      message ← SyncTls.receive;
      requirePairingStatusOk message ;;
      if hasSecretAck message then mret true else await_ack steps
  end.

Definition finish (code : string) : method unit :=
  s ← gets fst;
  match connection_ s with
  | None => throw (runtime_error "finishPairing called before startPairing")
  | Some _ =>
      clientCert ← outside (loadCertificate (certificateFile_ s));
      serverCert ← on_connection SyncTls.peerCertificate;
      match serverCert with
      | None => throw (runtime_error "Android TV did not present a TLS certificate")
      | Some serverCert =>
          secret ← outside (Certificate.pairingSecret clientCert serverCert code);
          on_connection (SyncTls.send (Messages.pairingSecret secret)) ;;
          acknowledged ← on_connection (await_ack 4);
          assign_connection None ;;
          if (acknowledged : bool) then mret tt
          else throw (runtime_error "Android TV did not acknowledge the pairing secret")
      end
  end.

Definition getNameAndMac : method DeviceIdentity :=
  s ← gets fst;
  connection ← outside (SyncTls.make (certificateFile_ s) (privateKeyFile_ s));
  '(identity, _) ← outside (with_local connection (scope
    (SyncTls.connect (host_ s) (port_ s) ;;
     certificate ← SyncTls.peerCertificate;
     match certificate with
     | None => throw (runtime_error "Android TV did not present a TLS certificate")
     | Some certificate => outside (parseDeviceIdentity (Some certificate))
     end)
    SyncTls.close));
  mret identity.

(** The destructor: that of [connection_]. *)
Definition destroy : method unit := assign_connection None.

End session.
End PairingSession.
