(* ===== verification/RemoteState.v ===== *)
(** * The state of the remote connection ([AndroidTvRemote::Impl])

    The members of [Impl] as a record, the options and callbacks, and what the
    object does to its surroundings: the operations it starts on [io_], and the
    trace of what it did.  The handlers are in [Remote.v]. *)

From S2P Require Import Prelude Types Messages.

Local Open Scope Z_scope.

(** [AndroidTvRemote::Options] *)
Record Options := mkOptions {
  clientName : string;
  certificateFile : string;
  privateKeyFile : string;
  host : string;
  apiPort : Z;
  pairingPort : Z;
  enableIme : bool;
  enableVoice : bool;
  autoReconnect : bool
}.

Definition Options_init : Options :=
  {| clientName := "Android TV Remote"; certificateFile := ""; privateKeyFile := "";
     host := ""; apiPort := 6466; pairingPort := 6467;
     enableIme := true; enableVoice := false; autoReconnect := true |}.

(** [AndroidTvRemote::Callbacks]: which of the [std::function]s are set. *)
Record Callbacks := mkCallbacks {
  onConnectionState : bool;
  onPowerChanged : bool;
  onCurrentAppChanged : bool;
  onVolumeChanged : bool;
  onDeviceInfoChanged : bool;
  onAvailabilityChanged : bool;
  onAuthenticationRequired : bool;
  onVoiceStarted : bool;
  onVoiceStopped : bool;
  onError : bool
}.

Definition Callbacks_init : Callbacks :=
  mkCallbacks false false false false false false false false false false.

Definition Callbacks_all : Callbacks :=
  mkCallbacks true true true true true true true true true true.

(** A call of one of the callbacks. *)
Inductive notification :=
  | ConnectionStateIs (s : ConnectionState)
  | PowerChanged (on : bool)
  | CurrentAppChanged (app : string)
  | VolumeChanged (v : VolumeInfo)
  | DeviceInfoChanged (d : DeviceInfo)
  | AvailabilityChanged (available : bool)
  | AuthenticationRequired
  | VoiceStarted (sessionId : Z)
  | VoiceStopped
  | Error (message : string).

(** The test [if (callbacks.onX)] before the call. *)
Definition is_set (callbacks : Callbacks) (n : notification) : bool :=
  match n with
  | ConnectionStateIs _ => onConnectionState callbacks
  | PowerChanged _ => onPowerChanged callbacks
  | CurrentAppChanged _ => onCurrentAppChanged callbacks
  | VolumeChanged _ => onVolumeChanged callbacks
  | DeviceInfoChanged _ => onDeviceInfoChanged callbacks
  | AvailabilityChanged _ => onAvailabilityChanged callbacks
  | AuthenticationRequired => onAuthenticationRequired callbacks
  | VoiceStarted _ => onVoiceStarted callbacks
  | VoiceStopped => onVoiceStopped callbacks
  | Error _ => onError callbacks
  end.

Inductive timer := ReconnectTimer | IdleTimer | VoiceTimer.

#[export] Instance timer_eq_dec : EqDecision timer.
Proof. solve_decision. Defined.

(** An asynchronous operation, with what its completion handler captured. *)
Inductive operation :=
  | Resolve (generation : Z) (host : string) (port : Z)
  | Connect (generation : Z)
  | Handshake (generation : Z)
  | ReadLength (generation : Z)
  | ReadBody (generation : Z) (size : Z)
  | Write (generation : Z) (buffer : list Z)
  | WaitReconnect (delay : Z)
  | WaitIdle (generation : Z)
  | WaitVoice.

#[export] Instance operation_eq_dec : EqDecision operation.
Proof. solve_decision. Defined.

Definition timer_of (op : operation) : option timer :=
  match op with
  | WaitReconnect _ => Some ReconnectTimer
  | WaitIdle _ => Some IdleTimer
  | WaitVoice => Some VoiceTimer
  | _ => None
  end.

(** A function object posted to [io_] by the public operations. *)
Inductive task :=
  | TConnect
  | TDisconnect
  | TQueueMessage (payload : list Z)
  | TSendText (text : string)
  | TStartVoice
  | TSendVoiceData (data : list Z)
  | TStopVoice
  | TDisconnectAndWait
  | TDestroy.

(** What a run did, in order.  [Queued], [GotBytes] and [Handled] only record a push
    on [writeQueue_], the bytes a read brought and a call of [handleMessage], for the
    statements about order; [NullStream] records a dereference of an empty
    [stream_], which is undefined in C++ and is proved not to happen. *)
Inductive effect :=
  | Notify (n : notification)
  | Start (op : operation)
  | Cancel (t : timer)
  | CloseSocket
  | Queued (generation : Z) (payload : list Z)
  | GotBytes (generation : Z) (bytes : list Z)
  | Handled (generation : Z) (message : list Z)
  | PromiseSet
  | NullStream.

(** [AndroidTvRemote::Impl].  [sslContext_] is [Some loaded] once the context
    exists, [loaded] telling whether the client identity was installed in it;
    [stream_] and [work_] tell whether the pointer or guard is there.  [posted_]
    and [pending_] are the queues of [io_]: the posted function objects and the
    operations in flight, each with a flag set when its timer was cancelled. *)
Record Impl := mkImpl {
  options_ : Options;
  callbacks_ : Callbacks;
  deviceInfo_ : DeviceInfo;
  volumeInfo_ : VolumeInfo;
  currentApp_ : string;
  isOn_ : bool;
  voiceEnabled_ : bool;
  state_ : ConnectionState;
  shuttingDown_ : bool;
  posted_ : list task;
  pending_ : list (operation * bool);
  work_ : bool;
  sslContext_ : option bool;
  stream_ : bool;
  userDisconnect_ : bool;
  reconnectDelay_ : Z;
  activeFeatures_ : Z;
  supportedFeatures_ : Z;
  imeCounter_ : Z;
  imeFieldCounter_ : Z;
  voiceStarting_ : bool;
  voiceSessionId_ : option Z;
  generation_ : Z;
  lengthByte_ : Z;
  readLength_ : Z;
  readShift_ : Z;
  readBody_ : list Z;
  writeQueue_ : list (list Z);
  writeInProgress_ : bool;
  trace_ : list effect
}.

#[export] Instance Impl_settable : Settable Impl := fun s =>
  mkImpl (options_ s) (callbacks_ s) (deviceInfo_ s) (volumeInfo_ s) (currentApp_ s)
    (isOn_ s) (voiceEnabled_ s) (state_ s) (shuttingDown_ s) (posted_ s) (pending_ s)
    (work_ s) (sslContext_ s) (stream_ s) (userDisconnect_ s) (reconnectDelay_ s)
    (activeFeatures_ s) (supportedFeatures_ s) (imeCounter_ s) (imeFieldCounter_ s)
    (voiceStarting_ s) (voiceSessionId_ s) (generation_ s) (lengthByte_ s) (readLength_ s)
    (readShift_ s) (readBody_ s) (writeQueue_ s) (writeInProgress_ s) (trace_ s).

(** The feature set of the constructor's body. *)
Definition initialFeatures (options : Options) : Z :=
  let active := Z.lor (Z.lor (Z.lor (Z.lor FeaturePing FeatureKey) FeaturePower)
                             FeatureVolume) FeatureAppLink in
  let active := if enableIme options then Z.lor active FeatureIme else active in
  if enableVoice options then Z.lor active FeatureVoice else active.

(** The constructor, with the default member initialisers. *)
Definition Impl_init (options : Options) : Impl :=
  {| options_ := options; callbacks_ := Callbacks_init; deviceInfo_ := DeviceInfo_init;
     volumeInfo_ := VolumeInfo_init; currentApp_ := ""; isOn_ := false;
     voiceEnabled_ := false; state_ := Disconnected; shuttingDown_ := false;
     posted_ := []; pending_ := []; work_ := true; sslContext_ := None; stream_ := false;
     userDisconnect_ := true; reconnectDelay_ := 100;
     activeFeatures_ := initialFeatures options; supportedFeatures_ := 0;
     imeCounter_ := 0; imeFieldCounter_ := 0; voiceStarting_ := false;
     voiceSessionId_ := None; generation_ := 0; lengthByte_ := 0; readLength_ := 0;
     readShift_ := 0; readBody_ := []; writeQueue_ := []; writeInProgress_ := false;
     trace_ := [] |}.

(** ** The primitive effects *)
Section effects.
Local Open Scope cxx_scope.

Definition log (e : effect) (s : Impl) : Impl := s <| trace_ := (trace_ s ++ [e])%list |>.

(** [withCallbacks]: the copy of the callbacks taken under the lock is the current
    [callbacks_], and the call happens only when the function is set. *)
Definition emit (n : notification) (s : Impl) : Impl :=
  if is_set (callbacks_ s) n then log (Notify n) s else s.

(** An [async_] call: the operation is in flight until its handler runs. *)
Definition start (op : operation) (s : Impl) : Impl :=
  log (Start op) (s <| pending_ := (pending_ s ++ [(op, false)])%list |>).

(** The same on [stream_], which must be there. *)
Definition start_on_stream (op : operation) (s : Impl) : Impl :=
  if stream_ s then start op s else log NullStream s.

(** [timer.cancel()], and the cancellation [expires_after] implies: the waits in
    flight will complete with an error, unless they already expired. *)
Definition cancel (t : timer) (s : Impl) : Impl :=
  log (Cancel t)
    (s <| pending_ := map (fun '(op, c) =>
            if bool_decide (timer_of op = Some t) then (op, true) else (op, c)) (pending_ s) |>).

Definition post (t : task) (s : Impl) : Impl := s <| posted_ := (posted_ s ++ [t])%list |>.

End effects.
