(* ===== verification/Remote.v ===== *)
(** * The remote connection ([AndroidTvRemote::Impl], [src/android_tv_remote.cpp])

    Every method and completion handler of [Impl] is a function on its state, in
    the order of the code, with the early returns as the branches of an [if].
    Handlers run one at a time, on the thread of [io_]; [exec] is one turn of it.

    An error code is an [option] of its message; [identity] is what becomes of making
    the TLS context and of [crypto::loadClientIdentity] at the call it is passed to. *)

From S2P Require Import Prelude Wire Types Messages KeyCodes RemoteState.

Local Open Scope Z_scope.
Local Open Scope cxx_scope.

Definition MaxFrameSize : Z := 4 * 1024 * 1024.
Definition VoiceChunkSize : Z := 20 * 1024.
Definition VoiceMinimumChunkSize : Z := 8 * 1024.

(** ** Notifications *)

Definition emitError (message : string) (s : Impl) : Impl := emit (Error message) s.
Definition emitAvailability (available : bool) (s : Impl) : Impl :=
  emit (AvailabilityChanged available) s.
Definition emitVoiceStopped (s : Impl) : Impl := emit VoiceStopped s.

Definition setState (state : ConnectionState) (s : Impl) : Impl :=
  let s := s <| state_ := state |> in
  emit (ConnectionStateIs state) s.

(** ** Closing *)

Definition closeStream (s : Impl) : Impl :=
  let s := s <| generation_ := u64 (generation_ s + 1) |> in
  let s := s <| voiceStarting_ := false |> in
  let s := s <| voiceSessionId_ := None |> in
  let s := s <| writeQueue_ := [] |> in
  let s := s <| writeInProgress_ := false |> in
  let s := s <| readLength_ := 0 |> in
  let s := s <| readShift_ := 0 |> in
  if stream_ s then
    let s := log CloseSocket s in
    s <| stream_ := false |>
  else s.

Definition handleConnectionLoss (generation : Z) (s : Impl) : Impl :=
  if negb (generation =? generation_ s) then s else
  let wasConnected := bool_decide (state_ s = Connected) in
  let s := closeStream s in
  let s := if wasConnected then emitAvailability false s else s in
  if autoReconnect (options_ s) && negb (userDisconnect_ s) && negb (shuttingDown_ s) then
    let s := setState Reconnecting s in
    let s := cancel ReconnectTimer s in
    let s := start (WaitReconnect (reconnectDelay_ s)) s in
    s <| reconnectDelay_ := Z.min (reconnectDelay_ s * 2) 30000 |>
  else setState Disconnected s.

Definition connectionFailed (prefix : string) (message : string) (generation : Z)
    (s : Impl) : Impl :=
  if negb (generation =? generation_ s) || userDisconnect_ s || shuttingDown_ s then s else
  let s := emitError (prefix +:+ ": " +:+ message) s in
  handleConnectionLoss generation s.

Definition authenticationFailed (message : string) (generation : Z) (s : Impl) : Impl :=
  if negb (generation =? generation_ s) || userDisconnect_ s || shuttingDown_ s then s else
  let s := emitError ("TLS authentication failed; pairing is required: " +:+ message) s in
  let wasConnected := bool_decide (state_ s = Connected) in
  let s := closeStream s in
  let s := setState Disconnected s in
  let s := if wasConnected then emitAvailability false s else s in
  emit AuthenticationRequired s.

(** ** The idle timer, and writing *)

Definition resetIdleTimer (s : Impl) : Impl :=
  let generation := generation_ s in
  let s := cancel IdleTimer s in
  start (WaitIdle generation) s.

Definition on_idle (generation : Z) (error : option string) (s : Impl) : Impl :=
  match error with
  | None =>
      if negb (userDisconnect_ s) && (generation =? generation_ s) then
        let s := emitError "closing idle Android TV connection after 16 seconds without traffic" s in
        handleConnectionLoss generation s
      else s
  | Some _ => s
  end.

Definition beginWrite (s : Impl) : Impl :=
  match writeQueue_ s with
  | front :: _ =>
      if negb (stream_ s) then s <| writeInProgress_ := false |> else
      let s := s <| writeInProgress_ := true |> in
      let generation := generation_ s in
      start_on_stream (Write generation front) s
  | [] => s <| writeInProgress_ := false |>
  end.

Definition on_written (generation : Z) (error : option string) (s : Impl) : Impl :=
  if negb (generation =? generation_ s) then s else
  match error with
  | Some message =>
      let s := s <| writeInProgress_ := false |> in
      connectionFailed "write failed" message generation s
  | None =>
      let s := s <| writeQueue_ := tail (writeQueue_ s) |> in
      beginWrite s
  end.

Definition queueMessage (payload : list Z) (s : Impl) : Impl :=
  if negb (stream_ s) then s else
  let s := resetIdleTimer s in
  let s := s <| writeQueue_ := (writeQueue_ s ++ [frame payload])%list |> in
  let s := log (Queued (generation_ s) payload) s in
  if negb (writeInProgress_ s) then beginWrite s else s.

(** ** Messages of the television *)

Definition handleMessage (message : list Z) (s : Impl) : Impl :=
  let s := log (Handled (generation_ s) message) s in
  let incoming := parseRemote message in
  match kind incoming with
  | KConfigure =>
      let s := s <| supportedFeatures_ := supportedFeatures incoming |> in
      let s := s <| activeFeatures_ := Z.land (activeFeatures_ s) (supportedFeatures_ s) |> in
      let s := s <| voiceEnabled_ := negb (Z.land (activeFeatures_ s) FeatureVoice =? 0) |> in
      let s := s <| deviceInfo_ := deviceInfo incoming |> in
      let s := emit (DeviceInfoChanged (deviceInfo incoming)) s in
      queueMessage (remoteConfigureResponse (activeFeatures_ s)) s
  | KSetActive => queueMessage (remoteSetActiveResponse (activeFeatures_ s)) s
  | KImeKeyInject =>
      let s := s <| currentApp_ := currentApp incoming |> in
      emit (CurrentAppChanged (currentApp incoming)) s
  | KImeBatchEdit =>
      let s := s <| imeCounter_ := imeCounter incoming |> in
      s <| imeFieldCounter_ := fieldCounter incoming |>
  | KVolume =>
      let s := s <| volumeInfo_ := volume incoming |> in
      emit (VolumeChanged (volume incoming)) s
  | KStart =>
      let s := s <| isOn_ := started incoming |> in
      let s := setState Connected s in
      let s := emitAvailability true s in
      emit (PowerChanged (started incoming)) s
  | KPing => queueMessage (remotePingResponse (pingValue incoming)) s
  | KError => emitError "Android TV reported a remote protocol error" s
  | KVoiceBegin =>
      if voiceStarting_ s then
        let s := s <| voiceStarting_ := false |> in
        let s := cancel VoiceTimer s in
        let s := s <| voiceSessionId_ := Some (voiceSessionId incoming) |> in
        let s := queueMessage (remoteVoiceBegin (voiceSessionId incoming)) s in
        emit (VoiceStarted (voiceSessionId incoming)) s
      else s
  | KUnknown => s
  end.

(** ** Reading frames *)

Definition readOneLengthByte (generation : Z) (s : Impl) : Impl :=
  if negb (stream_ s) || negb (generation =? generation_ s) then s
  else start_on_stream (ReadLength generation) s.

Definition beginReadLength (generation : Z) (s : Impl) : Impl :=
  if negb (stream_ s) || negb (generation =? generation_ s) then s else
  let s := s <| readLength_ := 0 |> in
  let s := s <| readShift_ := 0 |> in
  readOneLengthByte generation s.

(** A read completes with an error or with what was read. *)
Definition on_length_byte (generation : Z) (outcome : string + Z) (s : Impl) : Impl :=
  let s := match outcome with inr byte => s <| lengthByte_ := byte |> | inl _ => s end in
  if negb (generation =? generation_ s) then s else
  match outcome with
  | inl message => connectionFailed "read failed" message generation s
  | inr byte =>
      let s := log (GotBytes generation [byte]) s in
      let s := s <| readLength_ := Z.lor (readLength_ s)
                 (u64 (Z.shiftl (Z.land (lengthByte_ s) 0x7f) (readShift_ s))) |> in
      if negb (Z.land (lengthByte_ s) 0x80 =? 0) then
        let s := s <| readShift_ := readShift_ s + 7 |> in
        if 63 <? readShift_ s then
          let s := emitError "invalid protobuf frame length" s in
          handleConnectionLoss generation s
        else readOneLengthByte generation s
      else if MaxFrameSize <? readLength_ s then
        let s := emitError "protobuf frame exceeds 4 MiB safety limit" s in
        handleConnectionLoss generation s
      else
        let s := s <| readBody_ := replicate (Z.to_nat (readLength_ s)) 0 |> in
        if size (readBody_ s) =? 0 then
          let s := handleMessage [] s in
          beginReadLength generation s
        else start_on_stream (ReadBody generation (size (readBody_ s))) s
  end.

Definition on_body (generation : Z) (outcome : string + list Z) (s : Impl) : Impl :=
  if negb (generation =? generation_ s) then s else
  match outcome with
  | inl message => connectionFailed "read failed" message generation s
  | inr body =>
      let s := log (GotBytes generation body) s in
      let s := s <| readBody_ := body |> in
      let s := resetIdleTimer s in
      let s := handleMessage (readBody_ s) s in
      beginReadLength generation s
  end.

(** ** Connecting *)

(** What the two steps of [ensureSslContext] come to: the constructor of the context
    throws, or it is made and [crypto::loadClientIdentity] returns or throws. *)
Inductive setup :=
  | NoContext (e : exn)
  | Made (identity : result unit).

Coercion Made : result >-> setup.

(** [ensureSslContext]: the context is assigned before the identity is loaded into
    it, and stays assigned when that throws. *)
Definition ensureSslContext (identity : setup) (s : Impl) : result unit * Impl :=
  match sslContext_ s with
  | Some _ => (Ok tt, s)
  | None =>
      match identity with
      | NoContext e => (Throw e, s)
      | Made identity =>
          let s := s <| sslContext_ := Some false |> in
          match identity with
          | Ok tt => (Ok tt, s <| sslContext_ := Some true |>)
          | Throw e => (Throw e, s)
          end
      end
  end.

(** [beginConnect].  [make_unique<Stream>] is outside the [try], on the thread of [io_]:
    when it throws nothing catches the exception and the process ends, so that there is
    no state after such a turn. *)
Definition beginConnect (reconnecting : bool) (identity : setup) (s : Impl) : Impl :=
  if shuttingDown_ s || userDisconnect_ s then s else
  let s := closeStream s in
  let generation := generation_ s in
  match ensureSslContext identity s with
  | (Throw error, s) =>
      let s := emitError ("unable to load TLS certificate/key: " +:+ what error) s in
      setState Disconnected s
  | (Ok _, s) =>
      let s := setState (if reconnecting then Reconnecting else Connecting) s in
      let s := s <| stream_ := true |> in
      start (Resolve generation (host (options_ s)) (apiPort (options_ s))) s
  end.

Definition on_resolved (generation : Z) (error : option string) (s : Impl) : Impl :=
  if negb (generation =? generation_ s) then s else
  match error with
  | Some message => connectionFailed "DNS/host resolution failed" message generation s
  | None => start_on_stream (Connect generation) s
  end.

Definition on_connected (generation : Z) (error : option string) (s : Impl) : Impl :=
  if negb (generation =? generation_ s) then s else
  match error with
  | Some message => connectionFailed "TCP connection failed" message generation s
  | None => start_on_stream (Handshake generation) s
  end.

Definition on_handshake (generation : Z) (error : option string) (s : Impl) : Impl :=
  if negb (generation =? generation_ s) then s else
  match error with
  | Some message => authenticationFailed message generation s
  | None =>
      let s := s <| reconnectDelay_ := 100 |> in
      let s := beginReadLength generation s in
      resetIdleTimer s
  end.

Definition on_reconnect (error : option string) (identity : setup) (s : Impl) : Impl :=
  match error with
  | None => if negb (userDisconnect_ s) then beginConnect true identity s else s
  | Some _ => s
  end.

(** ** Voice *)

Definition startVoice_task (s : Impl) : Impl :=
  if negb (voiceEnabled_ s) then
    emitError "voice is not enabled or not supported by the Android TV" s
  else if voiceStarting_ s || bool_decide (is_Some (voiceSessionId_ s)) then
    emitError "voice session already in progress" s
  else if negb (bool_decide (state_ s = Connected)) then
    emitError "cannot start voice while disconnected" s
  else
    let s := s <| voiceStarting_ := true |> in
    let s := queueMessage (remoteKey (KeyCode_value Search) Short) s in
    let s := cancel VoiceTimer s in
    start WaitVoice s.

Definition on_voice_timeout (error : option string) (s : Impl) : Impl :=
  match error with
  | None =>
      if voiceStarting_ s then
        let s := s <| voiceStarting_ := false |> in
        emitError "Android TV did not start a voice session within 2 seconds" s
      else s
  | Some _ => s
  end.

(** [chunk.resize(VoiceMinimumChunkSize, 0)] when the chunk is shorter. *)
Definition pad_chunk (chunk : list Z) : list Z :=
  if size chunk <? VoiceMinimumChunkSize
  then (chunk ++ replicate (Z.to_nat (VoiceMinimumChunkSize - size chunk)) 0)%list
  else chunk.

(** The [for] loop of [sendVoiceData]; [offset] grows by [VoiceChunkSize] in each
    round, so one round per byte of [data] is more than enough ([chunks_fuel]). *)
Fixpoint sendVoiceData_loop (fuel : nat) (data : list Z) (offset : Z) (sessionId : Z)
    (s : Impl) : Impl :=
  match fuel with
  | O => s
  | S fuel =>
      if offset <? size data then
        let length := Z.min VoiceChunkSize (size data - offset) in
        let chunk := pad_chunk (take (Z.to_nat length) (drop (Z.to_nat offset) data)) in
        let s := queueMessage (remoteVoicePayload sessionId chunk) s in
        sendVoiceData_loop fuel data (offset + VoiceChunkSize) sessionId s
      else s
  end.

Definition sendVoiceData_task (data : list Z) (s : Impl) : Impl :=
  match voiceSessionId_ s with
  | None => s
  | Some sessionId => sendVoiceData_loop (S (length data)) data 0 sessionId s
  end.

Definition stopVoice_task (s : Impl) : Impl :=
  let s := cancel VoiceTimer s in
  let s := s <| voiceStarting_ := false |> in
  match voiceSessionId_ s with
  | Some sessionId =>
      let s := queueMessage (remoteVoiceEnd sessionId) s in
      let s := s <| voiceSessionId_ := None |> in
      emitVoiceStopped s
  | None => s
  end.

(** ** The posted function objects *)

Definition connect_task (identity : setup) (s : Impl) : Impl :=
  let s := s <| userDisconnect_ := false |> in
  let s := cancel ReconnectTimer s in
  let s := s <| reconnectDelay_ := 100 |> in
  beginConnect false identity s.

Definition disconnect_task (s : Impl) : Impl :=
  let s := s <| userDisconnect_ := true |> in
  let s := cancel ReconnectTimer s in
  let s := cancel VoiceTimer s in
  let s := cancel IdleTimer s in
  let s := closeStream s in
  let s := setState Disconnected s in
  emitAvailability false s.

Definition disconnectAndWait_task (s : Impl) : Impl :=
  let s := s <| userDisconnect_ := true |> in
  let s := cancel ReconnectTimer s in
  let s := cancel IdleTimer s in
  let s := cancel VoiceTimer s in
  let s := closeStream s in
  let s := setState Disconnected s in
  log PromiseSet s.

(** The function object posted by the destructor. *)
Definition destroy_task (s : Impl) : Impl :=
  let s := s <| userDisconnect_ := true |> in
  let s := closeStream s in
  let s := cancel ReconnectTimer s in
  let s := cancel IdleTimer s in
  let s := cancel VoiceTimer s in
  s <| work_ := false |>.

Definition sendText_task (text : string) (s : Impl) : Impl :=
  queueMessage (remoteText text (imeCounter_ s) (imeFieldCounter_ s)) s.

Definition run_task (t : task) (identity : setup) (s : Impl) : Impl :=
  match t with
  | TConnect => connect_task identity s
  | TDisconnect => disconnect_task s
  | TQueueMessage payload => queueMessage payload s
  | TSendText text => sendText_task text s
  | TStartVoice => startVoice_task s
  | TSendVoiceData data => sendVoiceData_task data s
  | TStopVoice => stopVoice_task s
  | TDisconnectAndWait => disconnectAndWait_task s
  | TDestroy => destroy_task s
  end.

(** ** The public operations, on the caller's thread *)

Definition setCallbacks (callbacks : Callbacks) (s : Impl) : Impl :=
  s <| callbacks_ := callbacks |>.

Definition postMessage (payload : list Z) (s : Impl) : Impl := post (TQueueMessage payload) s.

Definition connect (s : Impl) : Impl := post TConnect s.
Definition disconnect (s : Impl) : Impl := post TDisconnect s.
Definition sendKey (key : Z) (direction : Direction) (s : Impl) : Impl :=
  postMessage (remoteKey key direction) s.

Definition sendKeyCode (key : KeyCode) (direction : Direction) (s : Impl) : Impl :=
  sendKey (KeyCode_value key) direction s.

Definition sendKeyName (keyName : string) (direction : Direction) (s : Impl) : result Impl :=
  match keyCodeFromName keyName with
  | None => Throw (invalid_argument ("unknown Android key name: " +:+ keyName))
  | Some key => Ok (sendKey key direction s)
  end.

Definition sendText (text : string) (s : Impl) : result Impl :=
  if bool_decide (text = "") then Throw (invalid_argument "text cannot be empty")
  else Ok (post (TSendText text) s).

Definition launchApp (appLink : string) (s : Impl) : Impl := postMessage (remoteAppLink appLink) s.
Definition startVoice (s : Impl) : Impl := post TStartVoice s.
Definition sendVoiceData (pcm : list Z) (s : Impl) : Impl := post (TSendVoiceData pcm) s.
Definition stopVoice (s : Impl) : Impl := post TStopVoice s.
Definition disconnectAndWait (s : Impl) : Impl := post TDisconnectAndWait s.

(** What the application reads, from any thread, under the locks. *)
Module Observers.
Definition connectionState (s : Impl) : ConnectionState := state_ s.
Definition isVoiceEnabled (s : Impl) : bool := voiceEnabled_ s.
Definition isOn (s : Impl) : bool := isOn_ s.
Definition currentApp (s : Impl) : string := currentApp_ s.
Definition deviceInfo (s : Impl) : DeviceInfo := deviceInfo_ s.
Definition volumeInfo (s : Impl) : VolumeInfo := volumeInfo_ s.
End Observers.

(** The destructor up to [io_.stop()]. *)
Definition destroy (s : Impl) : Impl :=
  let s := s <| shuttingDown_ := true |> in
  post TDestroy s.

(** ** The thread of [io_] *)

(** How an operation in flight completes. *)
Inductive outcome :=
  | Succeeded
  | ReadByte (byte : Z)
  | ReadBytes (bytes : list Z)
  | Failed (message : string).

(** What happens next: a public operation is called from some thread, or the I/O
    thread runs the oldest posted function object or the handler of the [i]-th
    operation in flight. *)
Inductive choice :=
  | CallConnect
  | CallDisconnect
  | CallSendKey (key : Z) (direction : Direction)
  | CallSendKeyName (keyName : string) (direction : Direction)
  | CallSendText (text : string)
  | CallLaunchApp (appLink : string)
  | CallStartVoice
  | CallSendVoiceData (pcm : list Z)
  | CallStopVoice
  | CallDisconnectAndWait
  | CallDestroy
  | CallSetCallbacks (callbacks : Callbacks)
  | RunPosted (identity : setup)
  | Complete (i : nat) (o : outcome) (identity : setup).

(** The handler of an operation; [None] when the operation cannot complete so.  A
    wait that was cancelled may still succeed, when it had already expired; a wait
    that was not cancelled does not fail; reads give as much as was asked for. *)
Definition complete (op : operation) (cancelled : bool) (o : outcome)
    (identity : setup) (s : Impl) : option Impl :=
  match op, o with
  | Resolve g _ _, Succeeded => Some (on_resolved g None s)
  | Resolve g _ _, Failed m => Some (on_resolved g (Some m) s)
  | Connect g, Succeeded => Some (on_connected g None s)
  | Connect g, Failed m => Some (on_connected g (Some m) s)
  | Handshake g, Succeeded => Some (on_handshake g None s)
  | Handshake g, Failed m => Some (on_handshake g (Some m) s)
  | ReadLength g, ReadByte b =>
      if bool_decide (byte_ok b) then Some (on_length_byte g (inr b) s) else None
  | ReadLength g, Failed m => Some (on_length_byte g (inl m) s)
  | ReadBody g n, ReadBytes bs =>
      if bool_decide (bytes_ok bs) && (size bs =? n) then Some (on_body g (inr bs) s) else None
  | ReadBody g _, Failed m => Some (on_body g (inl m) s)
  | Write g _, Succeeded => Some (on_written g None s)
  | Write g _, Failed m => Some (on_written g (Some m) s)
  | WaitReconnect _, Succeeded => Some (on_reconnect None identity s)
  | WaitReconnect _, Failed m =>
      if cancelled then Some (on_reconnect (Some m) identity s) else None
  | WaitIdle g, Succeeded => Some (on_idle g None s)
  | WaitIdle g, Failed m => if cancelled then Some (on_idle g (Some m) s) else None
  | WaitVoice, Succeeded => Some (on_voice_timeout None s)
  | WaitVoice, Failed m => if cancelled then Some (on_voice_timeout (Some m) s) else None
  | _, _ => None
  end.

(** An exception leaves the object as it was. *)
Definition or_unchanged (r : result Impl) (s : Impl) : Impl :=
  match r with Ok s' => s' | Throw _ => s end.

Definition exec (c : choice) (s : Impl) : option Impl :=
  match c with
  | CallConnect => Some (connect s)
  | CallDisconnect => Some (disconnect s)
  | CallSendKey key direction => Some (sendKey key direction s)
  | CallSendKeyName keyName direction => Some (or_unchanged (sendKeyName keyName direction s) s)
  | CallSendText text => Some (or_unchanged (sendText text s) s)
  | CallLaunchApp appLink => Some (launchApp appLink s)
  | CallStartVoice => Some (startVoice s)
  | CallSendVoiceData pcm => Some (sendVoiceData pcm s)
  | CallStopVoice => Some (stopVoice s)
  | CallDisconnectAndWait => Some (disconnectAndWait s)
  | CallDestroy => Some (destroy s)
  | CallSetCallbacks callbacks => Some (setCallbacks callbacks s)
  | RunPosted identity =>
      match posted_ s with
      | t :: rest => Some (run_task t identity (s <| posted_ := rest |>))
      | [] => None
      end
  | Complete i o identity =>
      match pending_ s !! i with
      | Some (op, cancelled) =>
          complete op cancelled o identity (s <| pending_ := delete i (pending_ s) |>)
      | None => None
      end
  end.

Fixpoint run (cs : list choice) (s : Impl) : option Impl :=
  match cs with
  | [] => Some s
  | c :: cs => match exec c s with Some s => run cs s | None => None end
  end.
