(* ===== verification/RemoteInv.v ===== *)
(** * The invariant of the remote connection

    [inv] relates the members of [Impl] to each other and to the operations in
    flight; every turn of [exec] preserves it.  Inside a handler two of its parts
    are open: the operation whose handler runs is no longer in flight ([mid]: the
    connection's next operation is not started yet; [hole]: the write that ended is
    still at the front of the queue).  [invp] takes them as arguments. *)

From S2P Require Import Prelude Wire WireSpec Framing Types Messages KeyCodes RemoteState Remote.

Local Open Scope Z_scope.
Local Open Scope cxx_scope.

(** ** Operations in flight *)

Definition ops (s : Impl) : list operation := map fst (pending_ s).

Definition op_generation (op : operation) : option Z :=
  match op with
  | Resolve g _ _ | Connect g | Handshake g | ReadLength g | ReadBody g _ | Write g _
  | WaitIdle g => Some g
  | WaitReconnect _ | WaitVoice => None
  end.

(** The operations that carry a connection forward: one leads to the next. *)
Definition chain_op (g : Z) (op : operation) : bool :=
  match op with
  | Resolve g' _ _ | Connect g' | Handshake g' | ReadLength g' | ReadBody g' _ => g' =? g
  | Write _ _ | WaitIdle _ | WaitReconnect _ | WaitVoice => false
  end.

Definition write_op (g : Z) (op : operation) : option (list Z) :=
  match op with
  | Write g' buffer => if g' =? g then Some buffer else None
  | _ => None
  end.

Definition chain_ops (g : Z) (l : list operation) : list operation :=
  omap (fun op => if chain_op g op then Some op else None) l.

Definition write_ops (g : Z) (l : list operation) : list (list Z) := omap (write_op g) l.

#[global] Arguments ops : simpl never.
#[global] Arguments chain_ops : simpl never.
#[global] Arguments write_ops : simpl never.

(** ** What the trace says of one connection *)

Definition queued_effect (g : Z) (e : effect) : option (list Z) :=
  match e with Queued g' payload => if g' =? g then Some payload else None | _ => None end.

Definition written_effect (g : Z) (e : effect) : option (list Z) :=
  match e with Start op => write_op g op | _ => None end.

Definition received_effect (g : Z) (e : effect) : option (list Z) :=
  match e with
  | GotBytes g' bytes => if g' =? g then Some bytes else None
  | _ => None
  end.

Definition handled_effect (g : Z) (e : effect) : option (list Z) :=
  match e with Handled g' message => if g' =? g then Some message else None | _ => None end.

(** The payloads pushed on the queue and the buffers given to [async_write]; the
    bytes that the reads brought and the messages handled. *)
Definition queued (g : Z) (t : list effect) : list (list Z) := omap (queued_effect g) t.
Definition written (g : Z) (t : list effect) : list (list Z) := omap (written_effect g) t.
Definition received (g : Z) (t : list effect) : list Z := concat (omap (received_effect g) t).
Definition handled (g : Z) (t : list effect) : list (list Z) := omap (handled_effect g) t.

#[global] Arguments queued : simpl never.
#[global] Arguments written : simpl never.
#[global] Arguments received : simpl never.
#[global] Arguments handled : simpl never.

(** What the invariant claims of a connection, in particular of past ones. *)
Definition io_ok (s : Impl) (g : Z) : Prop :=
  (shuttingDown_ s = false -> written g (trace_ s) `prefix_of` map frame (queued g (trace_ s))) /\
  exists partial, framed (received g (trace_ s)) (handled g (trace_ s)) partial.

Definition io_none (s : Impl) (g : Z) : Prop :=
  written g (trace_ s) = [] /\ queued g (trace_ s) = [] /\
  received g (trace_ s) = [] /\ handled g (trace_ s) = [].

(** The frames not yet written are the queue, without its front when that is being
    written. *)
Definition fifo (s : Impl) (rest : list (list Z)) : Prop :=
  shuttingDown_ s = false ->
  map frame (queued (generation_ s) (trace_ s)) = (written (generation_ s) (trace_ s) ++ rest)%list.

(** The bytes read since the last message handled. *)
Definition reads_to (s : Impl) (partial : list Z) : Prop :=
  framed (received (generation_ s) (trace_ s)) (handled (generation_ s) (trace_ s)) partial.

(** What the operation in flight means for them. *)
Definition reading_op (s : Impl) (partial : list Z) (op : operation) : Prop :=
  match op with
  | Resolve g _ _ | Connect g | Handshake g => g = generation_ s -> partial = []
  | ReadLength g =>
      g = generation_ s ->
      unfinished partial (readLength_ s) /\ (length partial <= 9)%nat /\
      readShift_ s = 7 * Z.of_nat (length partial)
  | ReadBody g n =>
      g = generation_ s ->
      finished partial n /\ n = size (readBody_ s) /\ 1 <= n <= MaxFrameSize
  | Write _ _ | WaitIdle _ | WaitReconnect _ | WaitVoice => True
  end.

(** Whether the public state tells the truth about the connection. *)
Definition state_ok (s : Impl) : Prop :=
  match state_ s with
  | Disconnected => stream_ s = false
  | Connecting | Connected => stream_ s = true
  | Reconnecting => stream_ s = true \/ exists d, (WaitReconnect d, false) ∈ pending_ s
  end.

(** A connection that is up has exactly one operation that carries it forward
    (unless the object is being destroyed). *)
Definition chain_ok (mid : option (list Z)) (s : Impl) : Prop :=
  let n := length (chain_ops (generation_ s) (ops s)) in
  match mid with
  | Some _ => n = 0%nat /\ stream_ s = true
  | None => (n <= 1)%nat /\ (stream_ s = false -> n = 0%nat) /\
            (shuttingDown_ s = false -> stream_ s = true -> n = 1%nat)
  end.

(** The write in flight is that of the front of the queue. *)
Definition write_ok (hole : bool) (s : Impl) : Prop :=
  let w := write_ops (generation_ s) (ops s) in
  if hole then w = [] /\ stream_ s = true
  else w = (if writeInProgress_ s then take 1 (writeQueue_ s) else []) /\
       (writeInProgress_ s = true -> writeQueue_ s <> []) /\
       (shuttingDown_ s = false -> writeQueue_ s <> [] -> writeInProgress_ s = true).

(** The part that survives any interruption of a handler.  [n] bounds the number of
    connections closed so far. *)
Record base (n : Z) (s : Impl) : Prop := {
  i_gen : 0 <= generation_ s <= n;
  i_old : forall op g, op ∈ ops s -> op_generation op = Some g -> g <= generation_ s;
  i_destroy : TDestroy ∈ posted_ s -> shuttingDown_ s = true;
  i_delay : 100 <= reconnectDelay_ s <= 30000;
  i_features : Z.land (activeFeatures_ s) (initialFeatures (options_ s)) = activeFeatures_ s;
  i_enabled : voiceEnabled_ s = true -> Z.land (activeFeatures_ s) FeatureVoice <> 0;
  i_null : NullStream ∉ trace_ s;
  i_past : forall g, io_ok s g;
  i_future : forall g, generation_ s < g -> io_none s g
}.

Definition reading_ok (mid : option (list Z)) (s : Impl) : Prop :=
  match mid with
  | Some partial => reads_to s partial
  | None => exists partial, reads_to s partial /\ forall op, op ∈ ops s -> reading_op s partial op
  end.

Record invp (n : Z) (mid : option (list Z)) (hole : bool) (s : Impl) : Prop := {
  i_base : base n s;
  i_chain : chain_ok mid s;
  i_write : write_ok hole s;
  i_fifo : hole = false -> fifo s (if writeInProgress_ s then tail (writeQueue_ s) else writeQueue_ s);
  i_reading : reading_ok mid s;
  i_queue : stream_ s = false -> writeQueue_ s = [];
  i_session : stream_ s = false -> voiceSessionId_ s = None;
  i_voice : voiceStarting_ s = true -> voiceSessionId_ s = None /\ state_ s = Connected;
  i_state : shuttingDown_ s = false -> state_ok s;
  i_user : userDisconnect_ s = true ->
             stream_ s = false /\ (shuttingDown_ s = false -> state_ s = Disconnected)
}.

Abbreviation inv n := (invp n None false).

(** The state a closed connection leaves, whatever [state_] says of it. *)
Record closed (n : Z) (s : Impl) : Prop := {
  c_base : base n s;
  c_stream : stream_ s = false;
  c_progress : writeInProgress_ s = false;
  c_queue : writeQueue_ s = [];
  c_session : voiceSessionId_ s = None;
  c_voice : voiceStarting_ s = false;
  c_chain : chain_ops (generation_ s) (ops s) = [];
  c_write : write_ops (generation_ s) (ops s) = [];
  c_io : io_none s (generation_ s)
}.

(** ** Lemmas on the operations in flight *)
Section operations.
Implicit Types (g : Z) (l : list operation).

Lemma chain_ops_app g l1 l2 : chain_ops g (l1 ++ l2) = (chain_ops g l1 ++ chain_ops g l2)%list.
Proof. apply omap_app. Qed.

Lemma write_ops_app g l1 l2 : write_ops g (l1 ++ l2) = (write_ops g l1 ++ write_ops g l2)%list.
Proof. apply omap_app. Qed.

Lemma chain_ops_one g op : chain_ops g [op] = if chain_op g op then [op] else [].
Proof. unfold chain_ops. cbn. by destruct (chain_op g op). Qed.

Lemma write_ops_one g op :
  write_ops g [op] = match write_op g op with Some b => [b] | None => [] end.
Proof. unfold write_ops. cbn. by destruct (write_op g op). Qed.

Lemma ops_delete i (l : list (operation * bool)) :
  map fst (delete i l) = delete i (map fst l).
Proof. revert i. induction l as [|p l IH]; intros [|i]; cbn; [done..|]. f_equal. apply IH. Qed.

Lemma elem_of_delete_list {A} i (l : list A) x : x ∈ delete i l -> x ∈ l.
Proof. intros H. by eapply elem_of_sublist, sublist_delete. Qed.

Lemma elem_of_delete_other {A} i (l : list A) x y :
  x ∈ l -> l !! i = Some y -> x <> y -> x ∈ delete i l.
Proof.
  intros Hx Hi%delete_Permutation Hne. rewrite Hi in Hx.
  by apply elem_of_cons in Hx as [?|?].
Qed.

(** Taking an operation out of the list takes its share out of the counts. *)
Lemma omap_delete {A B} (f : A -> option B) i (l : list A) x :
  l !! i = Some x ->
  omap f l ≡ₚ (match f x with Some y => [y] | None => [] end ++ omap f (delete i l))%list.
Proof. intros H%delete_Permutation. rewrite H at 1. cbn. by destruct (f x). Qed.

Lemma chain_ops_stale g l :
  chain_ops g l = [] -> forall op, op ∈ l -> chain_op g op = false.
Proof.
  intros H op Hop. apply not_true_iff_false. intros Hc.
  apply (not_elem_of_nil op). rewrite <- H. apply list_elem_of_omap. exists op. by rewrite Hc.
Qed.

(** Nothing in flight belongs to a generation to come. *)
Lemma future_chain g l :
  (forall op g', op ∈ l -> op_generation op = Some g' -> g' <= g) ->
  chain_ops (g + 1) l = [].
Proof.
  intros H. apply elem_of_nil_inv. intros b (op & Hop & Hc)%list_elem_of_omap.
  destruct op; cbn in Hc; try done; case_test_in Hc; try done;
    specialize (H _ _ Hop eq_refl); lia.
Qed.

Lemma future_write g l :
  (forall op g', op ∈ l -> op_generation op = Some g' -> g' <= g) ->
  write_ops (g + 1) l = [].
Proof.
  intros H. apply elem_of_nil_inv. intros b (op & Hop & Hc)%list_elem_of_omap.
  destruct op; cbn in Hc; try done; case_test_in Hc; try done;
    specialize (H _ _ Hop eq_refl); lia.
Qed.

End operations.

(** ** What the primitive effects keep *)
Section effects.
Implicit Types (n : Z) (m : option (list Z)) (h : bool) (s : Impl).

(** The effects that concern neither the frames nor the safety of [stream_]. *)
Definition calm (e : effect) : Prop :=
  match e with
  | NullStream | Queued _ _ | GotBytes _ _ | Handled _ _ | Start (Write _ _) => False
  | _ => True
  end.

Lemma calm_trace e t g :
  calm e -> written g (t ++ [e]) = written g t /\ queued g (t ++ [e]) = queued g t /\
    received g (t ++ [e]) = received g t /\ handled g (t ++ [e]) = handled g t.
Proof.
  intros He. unfold written, queued, received, handled. rewrite !omap_app, concat_app.
  destruct e as [|[]| | | | | | |]; try done; cbn; by rewrite !app_nil_r.
Qed.

Lemma calm_io e s g : calm e -> io_ok s g -> io_ok (log e s) g.
Proof.
  intros He. unfold io_ok. cbn. by destruct (calm_trace _ (trace_ s) g He) as (-> & -> & -> & ->).
Qed.

Lemma calm_none e s g : calm e -> io_none s g -> io_none (log e s) g.
Proof.
  intros He. unfold io_none. cbn. by destruct (calm_trace _ (trace_ s) g He) as (-> & -> & -> & ->).
Qed.

Lemma calm_fifo e s rest : calm e -> fifo s rest -> fifo (log e s) rest.
Proof.
  intros He. unfold fifo. cbn. by destruct (calm_trace _ (trace_ s) (generation_ s) He) as (-> & -> & _).
Qed.

Lemma calm_reads e s partial : calm e -> reads_to s partial -> reads_to (log e s) partial.
Proof.
  intros He. unfold reads_to. cbn.
  by destruct (calm_trace _ (trace_ s) (generation_ s) He) as (_ & _ & -> & ->).
Qed.

Lemma calm_reading e m s : calm e -> reading_ok m s -> reading_ok m (log e s).
Proof.
  destruct m as [partial|]; cbn; [apply calm_reads|].
  intros He (partial & Hr & Hop). exists partial. split; [by apply calm_reads|done].
Qed.

Lemma calm_null e t : calm e -> NullStream ∉ t -> NullStream ∉ (t ++ [e])%list.
Proof.
  intros He Ht. rewrite elem_of_app, list_elem_of_singleton. by intros [?|<-].
Qed.

#[local] Hint Resolve calm_io calm_none calm_fifo calm_reads calm_reading calm_null : core.

Lemma base_le n n' s : base n s -> n <= n' -> base n' s.
Proof. intros [[]] ?. constructor; [lia|auto..]. Qed.

Lemma inv_le n n' m h s : invp n m h s -> n <= n' -> invp n' m h s.
Proof. intros [] ?. constructor; eauto using base_le. Qed.

Lemma base_log e n s : calm e -> base n s -> base n (log e s).
Proof. intros He []; constructor; auto; by apply calm_null. Qed.

Lemma inv_log e n m h s : calm e -> invp n m h s -> invp n m h (log e s).
Proof. intros He []. constructor; auto using base_log. Qed.

Lemma closed_log e n s : calm e -> closed n s -> closed n (log e s).
Proof. intros He []. constructor; auto using base_log. Qed.


Lemma ops_cancel t s : ops (cancel t s) = ops s.
Proof.
  unfold ops, cancel. cbn. rewrite map_map. apply map_ext. intros [op c]. by case_bool_decide.
Qed.

Lemma live_cancel t s op :
  timer_of op <> Some t -> (op, false) ∈ pending_ s -> (op, false) ∈ pending_ (cancel t s).
Proof.
  intros Ht H. unfold cancel. cbn. apply list_elem_of_fmap. exists (op, false).
  split; [|done]. by case_bool_decide.
Qed.

Lemma base_cancel t n s : base n s -> base n (cancel t s).
Proof.
  intros []. constructor; rewrite ?ops_cancel; auto.
  - by apply calm_null.
  - intros g. exact (calm_io (Cancel t) s g I (i_past0 g)).
  - intros g Hg. exact (calm_none (Cancel t) s g I (i_future0 g Hg)).
Qed.

Lemma calm_start op s : calm (Start op) ->
  (forall g, io_ok s g -> io_ok (start op s) g) /\ (forall g, io_none s g -> io_none (start op s) g) /\
  (forall rest, fifo s rest -> fifo (start op s) rest) /\
  (forall partial, reads_to s partial -> reads_to (start op s) partial).
Proof.
  intros He. split_and!; intros; [by apply (calm_io (Start op) s)|by apply (calm_none (Start op) s)|
    by apply (calm_fifo (Start op) s)|by apply (calm_reads (Start op) s)].
Qed.

Lemma cancel_reading t m s : reading_ok m s -> reading_ok m (cancel t s).
Proof.
  intros H. apply (calm_reading (Cancel t)) in H; [|done].
  destruct m as [partial|]; [exact H|]. destruct H as (partial & Hr & Hop). exists partial.
  split; [exact Hr|]. rewrite ops_cancel. exact Hop.
Qed.

Lemma inv_cancel t n m h s :
  (t = ReconnectTimer -> shuttingDown_ s = true) -> invp n m h s -> invp n m h (cancel t s).
Proof.
  intros Ht []. constructor; unfold chain_ok, write_ok; rewrite ?ops_cancel;
    auto using base_cancel, cancel_reading.
  { intros Hh. exact (calm_fifo (Cancel t) s _ I (i_fifo0 Hh)). }
  intros Hs. specialize (i_state0 Hs). revert i_state0. unfold state_ok.
  change (state_ (cancel t s)) with (state_ s). change (stream_ (cancel t s)) with (stream_ s).
  destruct (state_ s); auto. intros [|[d Hd]]; [by left|right; exists d].
  apply live_cancel; [|done]. cbn. intros [= <-]. specialize (Ht eq_refl). cbn in Hs. congruence.
Qed.

Lemma closed_cancel t n s : closed n s -> closed n (cancel t s).
Proof.
  intros []. constructor; rewrite ?ops_cancel; auto using base_cancel.
  exact (calm_none (Cancel t) s _ I c_io0).
Qed.

Lemma ops_start op s : ops (start op s) = (ops s ++ [op])%list.
Proof. unfold ops, start. cbn. by rewrite map_app. Qed.

(** Starting a wait. *)
Definition wait_op (g : Z) (op : operation) : Prop :=
  is_Some (timer_of op) /\ forall g', op_generation op = Some g' -> g' <= g.

Lemma wait_chain g g' op : wait_op g op -> chain_op g' op = false.
Proof. intros [[t Ht] _]. by destruct op. Qed.

Lemma wait_write g g' op : wait_op g op -> write_op g' op = None.
Proof. intros [[t Ht] _]. by destruct op. Qed.

Lemma chain_ops_wait g g' op l : wait_op g op -> chain_ops g' (l ++ [op]) = chain_ops g' l.
Proof.
  intros H. rewrite chain_ops_app, chain_ops_one, (wait_chain g) by done. apply app_nil_r.
Qed.

Lemma write_ops_wait g g' op l : wait_op g op -> write_ops g' (l ++ [op]) = write_ops g' l.
Proof.
  intros H. rewrite write_ops_app, write_ops_one, (wait_write g) by done. apply app_nil_r.
Qed.

Lemma base_start_io op n s :
  (forall g, op_generation op = Some g -> g <= generation_ s) ->
  (forall g, io_ok (start op s) g) ->
  (forall g, generation_ s < g -> io_none (start op s) g) -> base n s -> base n (start op s).
Proof.
  intros Hop Hok Hnone []. constructor; rewrite ?ops_start; auto; cbn.
  - intros op' g [?|E%list_elem_of_singleton]%elem_of_app; subst; eauto.
  - rewrite elem_of_app, list_elem_of_singleton. intros [?|?]; [auto|congruence].
Qed.

Lemma base_start op n s :
  (forall g, op_generation op = Some g -> g <= generation_ s) -> calm (Start op) ->
  base n s -> base n (start op s).
Proof.
  intros Hop Hc Hb. destruct (calm_start op s Hc) as (Hok & Hnone & _).
  apply base_start_io; auto; intros; [apply Hok, Hb|by apply Hnone, Hb].
Qed.

Lemma wait_calm g op : wait_op g op -> calm (Start op).
Proof. intros [[t Ht] _]. by destruct op. Qed.

Lemma start_reading op m s :
  calm (Start op) -> (m = None -> forall partial, reads_to s partial -> reading_op s partial op) ->
  reading_ok m s -> reading_ok m (start op s).
Proof.
  intros Hc Hop H. destruct (calm_start op s Hc) as (_ & _ & _ & Hr).
  destruct m as [partial|]; [by apply Hr|]. destruct H as (partial & Hp & Hops). exists partial.
  split; [by apply Hr|]. rewrite ops_start.
  intros op' [?|E%list_elem_of_singleton]%elem_of_app; [by apply Hops|subst]. by apply Hop.
Qed.

Lemma inv_start op n m h s :
  wait_op (generation_ s) op -> invp n m h s -> invp n m h (start op s).
Proof.
  intros Hop []. pose proof (wait_calm _ _ Hop) as Hc.
  destruct (calm_start op s Hc) as (_ & _ & Hf & _).
  constructor; unfold chain_ok, write_ok; rewrite ?ops_start; cbn -[reading_ok];
    rewrite ?(chain_ops_wait (generation_ s)), ?(write_ops_wait (generation_ s)) by done; auto.
  - by apply base_start; [apply Hop|..].
  - apply start_reading; [done| |done]. intros _ partial _. destruct Hop as [[t Ht] _]. by destruct op.
  - intros Hs. specialize (i_state0 Hs). revert i_state0. unfold state_ok. cbn.
    destruct (state_ s); auto. intros [|[d Hd]]; [by left|right; exists d].
    apply elem_of_app. by left.
Qed.

Lemma closed_start op n s : wait_op (generation_ s) op -> closed n s -> closed n (start op s).
Proof.
  intros Hop []. pose proof (wait_calm _ _ Hop) as Hc.
  destruct (calm_start op s Hc) as (_ & Hnone & _).
  constructor; rewrite ?ops_start; cbn;
    rewrite ?(chain_ops_wait (generation_ s)), ?(write_ops_wait (generation_ s)) by done; auto.
  - by apply base_start; [apply Hop|..].
Qed.

Lemma inv_emit e n m h s : invp n m h s -> invp n m h (emit e s).
Proof. unfold emit. destruct is_set; [by apply inv_log|done]. Qed.

Lemma closed_emit e n s : closed n s -> closed n (emit e s).
Proof. unfold emit. destruct is_set; [by apply closed_log|done]. Qed.

Lemma base_emit e n s : base n s -> base n (emit e s).
Proof. unfold emit. destruct is_set; [by apply base_log|done]. Qed.

Lemma wait_reconnect g d : wait_op g (WaitReconnect d).
Proof. split; [by eexists|done]. Qed.
Lemma wait_voice g : wait_op g WaitVoice.
Proof. split; [by eexists|done]. Qed.
Lemma wait_idle g : wait_op g (WaitIdle g).
Proof. split; [by eexists|]. intros ? [= ->]. lia. Qed.

End effects.

(** ** Closing *)
Section closing.
Implicit Types (n : Z) (m : option (list Z)) (h : bool) (s : Impl).

(** What [closeStream] leaves alone. *)
Record same_rest (s s' : Impl) : Prop := {
  r_pending : pending_ s' = pending_ s;
  r_posted : posted_ s' = posted_ s;
  r_shut : shuttingDown_ s' = shuttingDown_ s;
  r_delay : reconnectDelay_ s' = reconnectDelay_ s;
  r_active : activeFeatures_ s' = activeFeatures_ s;
  r_options : options_ s' = options_ s;
  r_enabled : voiceEnabled_ s' = voiceEnabled_ s;
  r_trace : trace_ s' = trace_ s
}.

Lemma io_same s s' g :
  shuttingDown_ s' = shuttingDown_ s -> trace_ s' = trace_ s -> io_ok s g -> io_ok s' g.
Proof. unfold io_ok. by intros -> ->. Qed.

Lemma base_renew n s s' :
  base n s -> same_rest s s' -> generation_ s' = generation_ s + 1 -> base (n + 1) s'.
Proof.
  intros [] [] Hg. assert (ops s' = ops s) as Ho by (unfold ops; congruence).
  constructor; rewrite ?Hg, ?Ho, ?r_posted0, ?r_shut0, ?r_delay0, ?r_active0, ?r_options0,
    ?r_enabled0, ?r_trace0; auto; try lia.
  - intros op g Hop E. specialize (i_old0 op g Hop E). lia.
  - intros g. by apply (io_same s).
  - intros g Hlt. unfold io_none. rewrite r_trace0. apply i_future0. lia.
Qed.

Lemma renew_closed n s s' :
  base n s -> same_rest s s' -> generation_ s' = generation_ s + 1 ->
  stream_ s' = false -> writeInProgress_ s' = false -> writeQueue_ s' = [] ->
  voiceSessionId_ s' = None -> voiceStarting_ s' = false -> closed (n + 1) s'.
Proof.
  intros Hb Hr Hg. assert (ops s' = ops s) as Ho by (unfold ops; f_equal; apply Hr).
  constructor; rewrite ?Hg, ?Ho; auto.
  - by eapply base_renew.
  - apply future_chain, Hb.
  - apply future_write, Hb.
  - unfold io_none. rewrite (r_trace _ _ Hr). apply (i_future _ _ Hb). lia.
Qed.

Lemma closeStream_closed n s : base n s -> n + 1 < 2 ^ 64 -> closed (n + 1) (closeStream s).
Proof.
  intros Hb Hn. pose proof (i_gen _ _ Hb) as Hg.
  assert (u64 (generation_ s + 1) = generation_ s + 1) as Hu by (apply wrap_small; lia).
  unfold closeStream. cbn. rewrite Hu. destruct (stream_ s) eqn:Es.
  - apply (renew_closed n (log CloseSocket s)); try done. by apply base_log.
  - by apply (renew_closed n s).
Qed.

Lemma closed_op n s partial op : closed n s -> op ∈ ops s -> reading_op s partial op.
Proof.
  intros [] Hop. pose proof (chain_ops_stale _ _ c_chain0 _ Hop) as H.
  destruct op; cbn in *; try done; apply Z.eqb_neq in H; congruence.
Qed.

Lemma closed_inv n s :
  closed n s -> (shuttingDown_ s = false -> state_ok s) ->
  (userDisconnect_ s = true -> shuttingDown_ s = false -> state_ s = Disconnected) -> inv n s.
Proof.
  intros Hc Hs Hu. pose proof (fun op => closed_op n s [] op Hc) as Hr. destruct Hc.
  destruct c_io0 as (Hw & Hq & Hrec & Hh). constructor; auto.
  - split_and!; [by rewrite c_chain0; cbn; lia|by rewrite c_chain0|congruence].
  - split_and!; [by rewrite c_write0, c_progress0|congruence|congruence].
  - intros _ _. by rewrite Hw, Hq, c_queue0, c_progress0.
  - exists []. split; [|done]. unfold reads_to. by rewrite Hrec, Hh.
  - congruence.
Qed.

(** Fields that [closed] does not mention may be set. *)
Lemma closed_state n s state : closed n s -> closed n (s <| state_ := state |>).
Proof. intros [[]]. constructor; [constructor|..]; done. Qed.

Lemma closed_setState n s state : closed n s -> closed n (setState state s).
Proof. intros H. apply closed_emit, closed_state, H. Qed.

Lemma closed_delay n s d : 100 <= d <= 30000 -> closed n s -> closed n (s <| reconnectDelay_ := d |>).
Proof. intros ? [[]]. constructor; [constructor|..]; done. Qed.

Lemma closed_userDisconnect n s b : closed n s -> closed n (s <| userDisconnect_ := b |>).
Proof. intros [[]]. constructor; [constructor|..]; done. Qed.

Lemma emit_fields {T} (f : Impl -> T) e s :
  (forall s t, f (s <| trace_ := t |>) = f s) -> f (emit e s) = f s.
Proof. intros H. unfold emit, log. destruct is_set; [apply H|done]. Qed.

Lemma state_setState state s : state_ (setState state s) = state.
Proof. unfold setState. by rewrite emit_fields. Qed.

Lemma user_setState state s : userDisconnect_ (setState state s) = userDisconnect_ s.
Proof. unfold setState. by rewrite emit_fields. Qed.

Lemma shut_setState state s : shuttingDown_ (setState state s) = shuttingDown_ s.
Proof. unfold setState. by rewrite emit_fields. Qed.

Lemma disconnected_inv n s : closed n s -> inv n (setState Disconnected s).
Proof.
  intros H. apply (closed_setState _ _ Disconnected) in H. apply closed_inv; [done|..].
  - intros _. unfold state_ok. rewrite state_setState. apply H.
  - intros _ _. apply state_setState.
Qed.

(** Waiting for the next attempt. *)
Lemma reconnecting_inv n d d' s :
  closed n s -> state_ s = Reconnecting -> userDisconnect_ s = false -> 100 <= d' <= 30000 ->
  inv n ((start (WaitReconnect d) (cancel ReconnectTimer s)) <| reconnectDelay_ := d' |>).
Proof.
  intros Hc Hs Hu Hd. apply closed_inv; cbn; [|unfold state_ok; cbn; rewrite Hs|congruence].
  - apply closed_delay; [done|]. apply closed_start; [apply wait_reconnect|by apply closed_cancel].
  - intros _. right. exists d. apply elem_of_app. right. by apply list_elem_of_singleton.
Qed.

Lemma handleConnectionLoss_inv n s :
  base n s -> n + 1 < 2 ^ 64 -> inv (n + 1) (handleConnectionLoss (generation_ s) s).
Proof.
  intros Hb Hn. pose proof (closeStream_closed _ _ Hb Hn) as Hc.
  unfold handleConnectionLoss. rewrite Z.eqb_refl. cbv beta zeta iota delta [negb].
  set (s1 := if bool_decide _ then _ else _).
  assert (closed (n + 1) s1) as Hs1.
  { unfold s1, emitAvailability. destruct bool_decide; auto using closed_emit. }
  clearbody s1. destruct (_ && _) eqn:E; [|by apply disconnected_inv].
  apply andb_true_iff in E as [[E1 E2%negb_true_iff]%andb_true_iff E3].
  apply (closed_setState _ _ Reconnecting) in Hs1.
  apply reconnecting_inv; [done|apply state_setState|by rewrite user_setState|].
  pose proof (i_delay _ _ (c_base _ _ Hs1)). cbn. lia.
Qed.

(** A handler may stop where it is once the object is being destroyed; after a
    disconnection there is no handler of the connection left to run. *)
Lemma abandon_inv n m h s :
  invp n m h s -> userDisconnect_ s || shuttingDown_ s = true ->
  (h = true -> writeInProgress_ s = false) -> inv n s.
Proof.
  intros [] Hus Hh.
  assert (stream_ s = true -> shuttingDown_ s = true) as Hshut.
  { intros Hst. destruct (userDisconnect_ s) eqn:Eu; [|done].
    destruct (i_user0 eq_refl). congruence. }
  constructor; auto.
  - destruct m; [|done]. destruct i_chain0 as [Hz Hst]. unfold chain_ok. rewrite Hz.
    split_and!; [lia|done|]. rewrite Hshut by done. done.
  - destruct h; [|done]. destruct i_write0 as [Hz Hst]. unfold write_ok. rewrite Hz.
    rewrite Hh, Hshut by done. done.
  - destruct h; [|by apply i_fifo0]. destruct i_write0 as [_ Hst]. intros _ Hs.
    rewrite Hshut in Hs by done. done.
  - destruct m as [partial|]; [|done]. exists partial. split; [done|]. intros op Hop.
    destruct i_chain0 as [Hz%length_zero_iff_nil _].
    pose proof (chain_ops_stale _ _ Hz _ Hop) as H.
    destruct op; cbn in *; try done; apply Z.eqb_neq in H; congruence.
Qed.

Lemma connectionFailed_inv n m h prefix message g s :
  invp n m h s -> g = generation_ s -> (h = true -> writeInProgress_ s = false) ->
  n + 1 < 2 ^ 64 -> inv (n + 1) (connectionFailed prefix message g s).
Proof.
  intros H -> Hh Hn. unfold connectionFailed. rewrite Z.eqb_refl. cbn [negb orb].
  destruct (userDisconnect_ s || shuttingDown_ s) eqn:E.
  - eapply inv_le; [by eapply abandon_inv|lia].
  - replace (generation_ s) with (generation_ (emitError (prefix +:+ ": " +:+ message) s))
      by (unfold emitError; by rewrite emit_fields).
    apply handleConnectionLoss_inv; [|done]. apply base_emit, H.
Qed.

Lemma authenticationFailed_inv n m h message s :
  invp n m h s -> (h = true -> writeInProgress_ s = false) -> n + 1 < 2 ^ 64 ->
  inv (n + 1) (authenticationFailed message (generation_ s) s).
Proof.
  intros H Hh Hn. unfold authenticationFailed. rewrite Z.eqb_refl. cbn [negb orb].
  destruct (userDisconnect_ s || shuttingDown_ s) eqn:E.
  - eapply inv_le; [by eapply abandon_inv|lia].
  - apply inv_emit.
    set (s1 := emitError _ s). assert (base n s1) as Hs1 by apply base_emit, H.
    pose proof (disconnected_inv _ _ (closeStream_closed _ _ Hs1 Hn)) as Hd.
    destruct bool_decide; [by apply inv_emit|done].
Qed.

(** ** Connecting *)

Lemma ensureSslContext_closed n identity s r s' :
  closed n s -> ensureSslContext identity s = (r, s') ->
  closed n s' /\ generation_ s' = generation_ s /\ userDisconnect_ s' = userDisconnect_ s.
Proof.
  intros H. unfold ensureSslContext. destruct (sslContext_ s) as [b|].
  - by intros [= <- <-].
  - destruct identity as [e|[[]|e]]; intros [= <- <-]; [by split_and!|..]; (split; [|done]);
      destruct H as [[]]; (constructor; [constructor|..]; done).
Qed.

Lemma resolving_inv n (host : string) port s :
  closed n s -> state_ s = Connecting \/ state_ s = Reconnecting -> userDisconnect_ s = false ->
  inv n (start (Resolve (generation_ s) host port) (s <| stream_ := true |>)).
Proof.
  intros Hc Hs Hu. pose proof (fun op => closed_op n s [] op Hc) as Hr. destruct Hc.
  destruct c_io0 as (Hw & Hq & Hrec & Hh).
  set (s1 := s <| stream_ := true |>). set (op := Resolve _ _ _).
  destruct (calm_start op s1 I) as (_ & _ & Hf & _).
  constructor; unfold chain_ok, write_ok; rewrite ?ops_start; cbn -[reading_ok]; auto; try congruence.
  - apply base_start; [by intros ? [= <-]; cbn; lia|done|]. destruct c_base0; by constructor.
  - rewrite chain_ops_app, chain_ops_one. change (ops s1) with (ops s). rewrite c_chain0.
    cbn. rewrite Z.eqb_refl. done.
  - rewrite write_ops_app, write_ops_one. change (ops s1) with (ops s). rewrite c_write0.
    cbn. rewrite c_progress0. done.
  - intros _. rewrite c_progress0. apply Hf. intros _. cbn. by rewrite Hw, Hq, c_queue0.
  - apply start_reading; [done| |].
    + intros _ partial. unfold reads_to. cbn. rewrite Hrec, Hh. by intros [= <-].
    + exists []. split; [|exact Hr]. unfold reads_to. cbn. by rewrite Hrec, Hh.
  - intros _. unfold state_ok. cbn. destruct Hs as [->| ->]; auto.
Qed.

Lemma beginConnect_inv n reconnecting identity s :
  base n s -> (shuttingDown_ s || userDisconnect_ s = true -> inv n s) -> n + 1 < 2 ^ 64 ->
  inv (n + 1) (beginConnect reconnecting identity s).
Proof.
  intros Hb Hi Hn. unfold beginConnect. destruct (_ || _) eqn:E.
  { eapply inv_le; [by apply Hi|lia]. }
  apply orb_false_iff in E as [_ Hu].
  assert (userDisconnect_ (closeStream s) = false) as Hu1.
  { unfold closeStream. cbn. by destruct (stream_ s). }
  pose proof (closeStream_closed _ _ Hb Hn) as Hc. set (s1 := closeStream s) in *. clearbody s1.
  destruct (ensureSslContext identity s1) as [r s2] eqn:Ec.
  destruct (ensureSslContext_closed _ _ _ _ _ Hc Ec) as (Hc2 & Hg & Hu2). destruct r as [u|e].
  - cbv zeta. set (state := if reconnecting then _ else _).
    assert (state = Connecting \/ state = Reconnecting) as Hst by (unfold state; destruct reconnecting; auto).
    clearbody state. apply (closed_setState _ _ state) in Hc2.
    replace (generation_ s1) with (generation_ (setState state s2))
      by (unfold setState; by rewrite emit_fields).
    apply resolving_inv; [done|by rewrite state_setState|by rewrite user_setState, Hu2].
  - apply disconnected_inv. by apply closed_emit.
Qed.

End closing.
