(* ===== verification/RemoteSteps.v ===== *)
(** * The remote connection keeps its invariant

    One lemma per operation, handler and posted function object of [Remote.v]: it
    takes the part of [invp] that is open where it runs to the part that is open
    after it.  [exec_inv] puts them together for a turn of the I/O thread and
    [run_inv] for a run; [reachable_inv] is what the properties use. *)

From S2P Require Import Prelude Wire WireSpec Framing Types Messages KeyCodes RemoteState Remote.
From S2P Require Import RemoteInv.

Local Open Scope Z_scope.
Local Open Scope cxx_scope.

(** ** Messages and writing *)

(** Setting a member the invariant does not constrain. *)
Ltac inv_member H :=
  let Hb := fresh in
  destruct H as [Hb]; constructor; [destruct Hb; by constructor|auto..].

Section messages.
Implicit Types (n : Z) (m : option (list Z)) (h : bool) (s : Impl).

Lemma resetIdleTimer_inv n m h s : invp n m h s -> invp n m h (resetIdleTimer s).
Proof.
  intros H. unfold resetIdleTimer. apply inv_start; [apply (wait_idle (generation_ s))|].
  by apply inv_cancel.
Qed.

(** What the other effects add to the traces of a connection. *)
Lemma write_trace g g' b t :
  written g (t ++ [Start (Write g' b)]) = (written g t ++ if g' =? g then [b] else [])%list /\
  queued g (t ++ [Start (Write g' b)]) = queued g t /\
  received g (t ++ [Start (Write g' b)]) = received g t /\
  handled g (t ++ [Start (Write g' b)]) = handled g t.
Proof.
  unfold written, queued, received, handled. rewrite !omap_app, concat_app. cbn.
  rewrite !app_nil_r. split_and!; [|done..]. by destruct (g' =? g).
Qed.

Lemma queue_trace g g' p t :
  queued g (t ++ [Queued g' p]) = (queued g t ++ if g' =? g then [p] else [])%list /\
  written g (t ++ [Queued g' p]) = written g t /\
  received g (t ++ [Queued g' p]) = received g t /\ handled g (t ++ [Queued g' p]) = handled g t.
Proof.
  unfold written, queued, received, handled. rewrite !omap_app, concat_app. cbn.
  rewrite !app_nil_r. split_and!; [|done..]. by destruct (g' =? g).
Qed.

Lemma state_start op s :
  timer_of op <> Some ReconnectTimer -> state_ok s -> state_ok (start op s).
Proof.
  intros _. unfold state_ok. cbn. destruct (state_ s); auto.
  intros [|[d Hd]]; [by left|right; exists d]. apply elem_of_app. by left.
Qed.

(** The write of the front of the queue. *)
Lemma start_write_inv n m s b rest :
  invp n m true s -> writeQueue_ s = b :: rest -> fifo s (writeQueue_ s) ->
  invp n m false (start (Write (generation_ s) b) (s <| writeInProgress_ := true |>)).
Proof.
  intros [] Hq Hf. destruct i_write as [Hw Hs]. rewrite Hq in Hf.
  set (s1 := s <| writeInProgress_ := true |>).
  assert (forall g, generation_ s <> g ->
    forall t, written g (t ++ [Start (Write (generation_ s) b)]) = written g t) as Hold.
  { intros g Hg t. destruct (write_trace g (generation_ s) b t) as [-> _].
    destruct (Z.eqb_spec (generation_ s) g); [done|]. apply app_nil_r. }
  destruct (write_trace (generation_ s) (generation_ s) b (trace_ s)) as (Ew & Eq & Er & Eh).
  rewrite Z.eqb_refl in Ew.
  constructor; unfold chain_ok, write_ok; rewrite ?ops_start; cbn -[reading_ok]; auto.
  - apply base_start_io; [by intros ? [= <-]; cbn; lia|..|by destruct i_base; constructor].
    + intros g. unfold io_ok. cbn -[written]. destruct (i_past _ _ i_base g) as [Hpre Hfr].
      destruct (write_trace g (generation_ s) b (trace_ s)) as (_ & -> & -> & ->).
      split; [|done]. intros Hsh. destruct (Z.eq_dec (generation_ s) g) as [<-|Hne].
      * rewrite Ew, (Hf Hsh). exists rest. by rewrite <- app_assoc.
      * rewrite Hold by done. by apply Hpre.
    + intros g Hlt. unfold io_none. cbn -[written].
      destruct (write_trace g (generation_ s) b (trace_ s)) as (_ & -> & -> & ->).
      rewrite Hold by (cbn in Hlt; lia). by apply (i_future _ _ i_base).
  - rewrite chain_ops_app, chain_ops_one, app_nil_r. apply i_chain.
  - rewrite write_ops_app, write_ops_one. cbn. rewrite Z.eqb_refl, Hq.
    change (ops s1) with (ops s). rewrite Hw. done.
  - intros _ Hsh. cbn -[written]. rewrite Ew, Eq, (Hf Hsh), Hq. by rewrite <- app_assoc.
  - assert (forall partial, reads_to s partial -> reads_to (start (Write (generation_ s) b) s1) partial) as Hr
      by (intros partial; unfold reads_to; cbn; by rewrite Er, Eh).
    destruct m as [partial|]; [by apply Hr|]. destruct i_reading as (partial & Hp & Hops).
    exists partial. split; [by apply Hr|]. rewrite ops_start.
    intros op' [?|E%list_elem_of_singleton]%elem_of_app; [by apply Hops|by subst].
  - intros Hsh. apply state_start; [done|]. by apply i_state.
Qed.

Lemma stop_write_inv n m s :
  invp n m true s -> writeQueue_ s = [] -> fifo s (writeQueue_ s) ->
  invp n m false (s <| writeInProgress_ := false |>).
Proof.
  intros [] Hq Hf. destruct i_write as [Hw Hs]. constructor; auto.
  - destruct i_base; by constructor.
  - unfold write_ok. cbn. rewrite Hq. done.
Qed.

Lemma beginWrite_inv n m s :
  invp n m true s -> fifo s (writeQueue_ s) -> invp n m false (beginWrite s).
Proof.
  intros H Hf. pose proof (i_write _ _ _ _ H) as [_ Hs]. unfold beginWrite, start_on_stream.
  destruct (writeQueue_ s) as [|b rest] eqn:Eq; [by apply stop_write_inv; rewrite ?Eq|].
  cbn. rewrite Hs. cbn. by eapply start_write_inv; rewrite ?Eq.
Qed.

(** A push onto the queue. *)
Definition push (p : list Z) (s : Impl) : Impl :=
  log (Queued (generation_ s) p) (s <| writeQueue_ := (writeQueue_ s ++ [frame p])%list |>).

Lemma push_base n p s : base n s -> base n (push p s).
Proof.
  intros []. constructor; auto; cbn.
  - rewrite elem_of_app, list_elem_of_singleton. by intros [?|?].
  - intros g. destruct (i_past g) as [Hpre Hfr]. unfold io_ok. cbn.
    destruct (queue_trace g (generation_ s) p (trace_ s)) as (-> & -> & -> & ->).
    split; [|done]. intros Hsh. rewrite map_app. by apply prefix_app_r, Hpre.
  - intros g Hlt. unfold io_none. cbn.
    destruct (queue_trace g (generation_ s) p (trace_ s)) as (-> & -> & -> & ->).
    destruct (Z.eqb_spec (generation_ s) g); [lia|]. rewrite app_nil_r. by apply i_future.
Qed.

Lemma push_fifo p s rest : fifo s rest -> fifo (push p s) (rest ++ [frame p]).
Proof.
  intros H Hsh. cbn.
  destruct (queue_trace (generation_ s) (generation_ s) p (trace_ s)) as (-> & -> & _).
  rewrite Z.eqb_refl, map_app, (H Hsh). cbn. by rewrite app_assoc.
Qed.

Lemma push_reading m p s : reading_ok m s -> reading_ok m (push p s).
Proof.
  assert (forall partial, reads_to s partial -> reads_to (push p s) partial) as Hr.
  { intros partial. unfold reads_to. cbn.
    by destruct (queue_trace (generation_ s) (generation_ s) p (trace_ s)) as (_ & _ & -> & ->). }
  destruct m as [partial|]; [apply Hr|]. intros (partial & Hp & Hops). exists partial.
  split; [by apply Hr|]. exact Hops.
Qed.

Lemma push_inv n m p s :
  invp n m false s -> stream_ s = true -> writeInProgress_ s = true -> invp n m false (push p s).
Proof.
  intros [] Hs Hw. destruct i_write as (Hz & Hb & Hd). specialize (Hb Hw).
  constructor; auto using push_base, push_reading; cbn; try congruence.
  - unfold write_ok. cbn. rewrite Hw in *. change (ops (push p s)) with (ops s). rewrite Hz.
    split_and!; [by destruct (writeQueue_ s)|intros _ [_ [=]]%app_eq_nil|done].
  - intros _. rewrite Hw in *. specialize (i_fifo eq_refl). apply (push_fifo p) in i_fifo.
    by destruct (writeQueue_ s).
Qed.

Lemma push_idle_inv n m p s :
  invp n m false s -> stream_ s = true -> writeInProgress_ s = false -> invp n m true (push p s).
Proof.
  intros [] Hs Hw. destruct i_write as (Hz & Hb & Hd). rewrite Hw in Hz.
  constructor; auto using push_base, push_reading; cbn; try congruence; done.
Qed.

Lemma queueMessage_inv n m payload s : invp n m false s -> invp n m false (queueMessage payload s).
Proof.
  intros H. unfold queueMessage. destruct (stream_ s) eqn:Es; [cbn [negb]|done].
  apply resetIdleTimer_inv in H. assert (stream_ (resetIdleTimer s) = true) as Es' by done.
  set (s1 := resetIdleTimer s) in *. clearbody s1. cbv zeta.
  change (log _ _) with (push payload s1).
  change (writeInProgress_ (push payload s1)) with (writeInProgress_ s1).
  destruct (writeInProgress_ s1) eqn:Ew; cbn [negb]; [by apply push_inv|].
  apply beginWrite_inv; [by apply push_idle_inv|].
  pose proof (i_fifo _ _ _ _ H eq_refl) as Hf. rewrite Ew in Hf.
  exact (push_fifo payload s1 _ Hf).
Qed.

Lemma configure_inv n m supported s :
  invp n m false s ->
  let active := Z.land (activeFeatures_ s) supported in
  invp n m false ((s <| activeFeatures_ := active |>)
    <| voiceEnabled_ := negb (Z.land active FeatureVoice =? 0) |>).
Proof.
  intros [Hb] active. constructor; auto. destruct Hb; constructor; auto; cbn.
  - unfold active. rewrite <- Z.land_assoc, (Z.land_comm supported), Z.land_assoc. by f_equal.
  - case_test; done.
Qed.

Lemma connected_inv n p s :
  invp n (Some p) false s -> invp n (Some p) false (setState Connected s).
Proof.
  intros H. apply inv_emit. destruct H. pose proof i_chain as [_ Hs]. constructor; auto; cbn.
  - destruct i_base; by constructor.
  - intros Hv. split; [|done]. by apply i_voice.
  - intros Hu. destruct (i_user Hu). congruence.
Qed.

(** The effects of reading concern the current connection. *)
Definition read_effect (g : Z) (e : effect) : Prop :=
  match e with GotBytes g' _ | Handled g' _ => g' = g | _ => False end.

Lemma read_trace g g' e t :
  read_effect g' e ->
  written g (t ++ [e]) = written g t /\ queued g (t ++ [e]) = queued g t /\
  (g' <> g -> received g (t ++ [e]) = received g t /\ handled g (t ++ [e]) = handled g t).
Proof.
  intros He. unfold written, queued, received, handled. rewrite !omap_app, concat_app.
  destruct e; try done; cbn in He; subst; cbn; rewrite !app_nil_r; (split_and!; [done..|]);
    intros Hg; apply Z.eqb_neq in Hg; rewrite Hg; cbn; by rewrite !app_nil_r.
Qed.

Lemma log_read_inv n e partial partial' s :
  read_effect (generation_ s) e -> reads_to (log e s) partial' ->
  invp n (Some partial) false s -> invp n (Some partial') false (log e s).
Proof.
  intros He Hr []. constructor; auto.
  - destruct i_base. constructor; auto; cbn.
    + rewrite elem_of_app, list_elem_of_singleton. by intros [?|<-].
    + intros g. destruct (i_past g) as [Hpre Hfr]. unfold io_ok. cbn.
      destruct (read_trace g _ e (trace_ s) He) as (-> & -> & Hne). split; [done|].
      destruct (Z.eq_dec (generation_ s) g) as [<-|Hg]; [by exists partial'|].
      by destruct (Hne Hg) as [-> ->].
    + intros g Hlt. unfold io_none. cbn.
      destruct (read_trace g _ e (trace_ s) He) as (-> & -> & Hne).
      destruct Hne as [-> ->]; [lia|]. by apply i_future.
  - intros _ Hs. cbn. destruct (read_trace (generation_ s) _ e (trace_ s) He) as (-> & -> & _).
    by apply i_fifo.
Qed.

Lemma log_bytes_inv n partial bytes s :
  invp n (Some partial) false s ->
  invp n (Some (partial ++ bytes)%list) false (log (GotBytes (generation_ s) bytes) s).
Proof.
  intros H. eapply log_read_inv; [done| |done].
  unfold reads_to, received, handled. cbn. rewrite !omap_app, concat_app. cbn.
  rewrite Z.eqb_refl. cbn. rewrite !app_nil_r. apply framed_app, (i_reading _ _ _ _ H).
Qed.

Lemma log_handled_inv n partial message s :
  invp n (Some partial) false s -> deframe partial = Some (message, []) ->
  invp n (Some []) false (log (Handled (generation_ s) message) s).
Proof.
  intros H Hm. eapply log_read_inv; [done| |done].
  unfold reads_to, received, handled. cbn. rewrite !omap_app, concat_app. cbn.
  rewrite Z.eqb_refl. cbn. rewrite app_nil_r.
  eapply framed_snoc; [|exact Hm]. apply (i_reading _ _ _ _ H).
Qed.

Lemma handleMessage_inv n partial message s :
  invp n (Some partial) false s -> deframe partial = Some (message, []) ->
  invp n (Some []) false (handleMessage message s).
Proof.
  intros H Hm. apply (log_handled_inv _ _ _ _ H) in Hm. clear H. rename Hm into H.
  unfold handleMessage. cbv zeta. set (s0 := log _ s) in *. clearbody s0. clear s.
  set (incoming := parseRemote message). destruct (kind incoming).
  - done.
  - apply queueMessage_inv, inv_emit.
    apply (configure_inv _ _ (supportedFeatures incoming)) in H. inv_member H.
  - by apply queueMessage_inv.
  - apply inv_emit. inv_member H.
  - inv_member H.
  - apply inv_emit. inv_member H.
  - apply inv_emit, inv_emit, connected_inv. inv_member H.
  - by apply queueMessage_inv.
  - by apply inv_emit.
  - destruct (voiceStarting_ s0) eqn:Ev; [|done]. apply inv_emit, queueMessage_inv.
    pose proof (i_chain _ _ _ _ H) as [_ Hs].
    apply (inv_cancel VoiceTimer) in H; [|done].
    set (s1 := cancel VoiceTimer s0) in *.
    assert (stream_ s1 = true) as Hs1 by done.
    change (cancel VoiceTimer (s0 <| voiceStarting_ := false |>))
      with (s1 <| voiceStarting_ := false |>).
    clearbody s1. destruct H as [Hb]. constructor; auto; cbn; try congruence.
    destruct Hb; by constructor.
Qed.

(** ** Reading *)

Lemma mid_members n p h s a b c :
  invp n (Some p) h s ->
  invp n (Some p) h (((s <| readLength_ := a |>) <| readShift_ := b |>) <| readBody_ := c |>).
Proof. intros H. inv_member H. Qed.

(** The next operation of the connection. *)
Lemma chain_start_inv n partial op s :
  invp n (Some partial) false s -> chain_op (generation_ s) op = true ->
  reading_op s partial op -> inv n (start_on_stream op s).
Proof.
  intros [] Hop Hr. destruct i_chain as [Hz Hs]. unfold start_on_stream. rewrite Hs.
  assert (forall g, op_generation op = Some g -> g = generation_ s) as Hg.
  { intros g Hg. destruct op; cbn in *; try done; apply Z.eqb_eq in Hop; congruence. }
  assert (write_op (generation_ s) op = None /\ calm (Start op)) as [Hw Hc] by (by destruct op).
  destruct (calm_start op s Hc) as (_ & _ & Hf & Hre).
  constructor; unfold chain_ok; rewrite ?ops_start; cbn -[reading_ok]; auto.
  - apply base_start; [|done..]. intros g ->%Hg. lia.
  - rewrite chain_ops_app, length_app, Hz, chain_ops_one, Hop, Hs. done.
  - unfold write_ok. rewrite ops_start. cbn. rewrite write_ops_app, write_ops_one, Hw, app_nil_r.
    apply i_write.
  - exists partial. split; [by apply Hre|]. rewrite ops_start.
    intros op' [Hop'|E%list_elem_of_singleton]%elem_of_app; [|by subst].
    apply length_zero_iff_nil in Hz. pose proof (chain_ops_stale _ _ Hz _ Hop') as Ho.
    destruct op'; cbn in *; try done; apply Z.eqb_neq in Ho; congruence.
  - intros Hsh. apply state_start; [by destruct op|]. by apply i_state.
Qed.

Lemma beginReadLength_inv n s :
  invp n (Some []) false s -> inv n (beginReadLength (generation_ s) s).
Proof.
  intros H. pose proof (i_chain _ _ _ _ H) as [_ Hs].
  unfold beginReadLength, readOneLengthByte. cbn. rewrite Hs, Z.eqb_refl. cbn [negb orb].
  apply (mid_members _ _ _ _ 0 0 (readBody_ s)) in H.
  apply (chain_start_inv _ []); [inv_member H|cbn; apply Z.eqb_refl|].
  intros _. split_and!; [apply unfinished_nil|cbn; lia|done].
Qed.

End messages.

(** ** The handlers *)
Section handlers.
Implicit Types (n g : Z) (s : Impl).

Lemma generation_queueMessage payload s : generation_ (queueMessage payload s) = generation_ s.
Proof.
  unfold queueMessage. destruct (stream_ s); [cbn|done]. destruct (writeInProgress_ s); [done|].
  unfold beginWrite, start_on_stream. cbn. destruct (_ ++ _)%list; [done|]. cbn. by destruct (stream_ s).
Qed.

Lemma generation_handleMessage message s : generation_ (handleMessage message s) = generation_ s.
Proof.
  unfold handleMessage. cbv zeta. set (s0 := log _ s).
  change (generation_ s) with (generation_ s0). clearbody s0.
  destruct (kind _); [done|..];
    unfold setState, emitAvailability, emitError; rewrite ?emit_fields by done; try done.
  - rewrite generation_queueMessage, emit_fields by done. done.
  - apply generation_queueMessage.
  - apply generation_queueMessage.
  - destruct (voiceStarting_ s0); [|done].
    rewrite emit_fields, generation_queueMessage by done. done.
Qed.

(** The part of the invariant that is open while the handler of an operation of
    generation [g] runs. *)
Definition mid_of (g : Z) (s : Impl) (partial : list Z) : option (list Z) :=
  if g =? generation_ s then Some partial else None.

(** Every handler first compares the generation it captured; [chain_handler] is
    the case it differs. *)
Ltac chain_handler H :=
  lazymatch type of H with
  | invp _ (mid_of ?g ?s _) _ _ =>
      unfold mid_of in H; destruct (Z.eqb_spec g (generation_ s)) as [Eg|Eg]; cbn [negb];
      [subst g; cbn [negb] |by eapply inv_le; [exact H|lia]]
  end.

Lemma on_resolved_inv n g partial error s :
  invp n (mid_of g s partial) false s -> (g = generation_ s -> partial = []) ->
  n + 1 < 2 ^ 64 -> inv (n + 1) (on_resolved g error s).
Proof.
  intros H Hp Hn. unfold on_resolved. chain_handler H.
  destruct error; [by eapply connectionFailed_inv|].
  apply (inv_le n); [|lia]. by eapply chain_start_inv; [|apply Z.eqb_refl|].
Qed.

Lemma on_connected_inv n g partial error s :
  invp n (mid_of g s partial) false s -> (g = generation_ s -> partial = []) ->
  n + 1 < 2 ^ 64 -> inv (n + 1) (on_connected g error s).
Proof.
  intros H Hp Hn. unfold on_connected. chain_handler H.
  destruct error; [by eapply connectionFailed_inv|].
  apply (inv_le n); [|lia]. by eapply chain_start_inv; [|apply Z.eqb_refl|].
Qed.

Lemma on_handshake_inv n g partial error s :
  invp n (mid_of g s partial) false s -> (g = generation_ s -> partial = []) ->
  n + 1 < 2 ^ 64 -> inv (n + 1) (on_handshake g error s).
Proof.
  intros H Hp Hn. unfold on_handshake. chain_handler H.
  destruct error; [by eapply authenticationFailed_inv|].
  rewrite (Hp eq_refl) in H. apply (inv_le n); [apply resetIdleTimer_inv|lia].
  set (s1 := s <| reconnectDelay_ := 100 |>). change (generation_ s) with (generation_ s1).
  apply beginReadLength_inv.
  destruct H as [Hb]. constructor; auto. destruct Hb; constructor; auto. cbn. lia.
Qed.

Lemma failed_reading_inv n m h g message s :
  invp n m h s -> g = generation_ s -> n + 1 < 2 ^ 64 ->
  inv (n + 1) (handleConnectionLoss g (emitError message s)).
Proof.
  intros H -> Hn. replace (generation_ s) with (generation_ (emitError message s))
    by (unfold emitError; by rewrite emit_fields).
  apply handleConnectionLoss_inv; [|done]. apply base_emit, H.
Qed.

(** A length that is not complete: the next byte, or none when it is too long. *)
Lemma length_more_inv n partial v s :
  invp n (Some partial) false s -> unfinished partial v -> (length partial <= 10)%nat ->
  n + 1 < 2 ^ 64 ->
  let s := s <| readLength_ := v |> <| readShift_ := 7 * Z.of_nat (length partial) |> in
  inv (n + 1)
    (if 63 <? readShift_ s
     then handleConnectionLoss (generation_ s) (emitError "invalid protobuf frame length" s)
     else readOneLengthByte (generation_ s) s).
Proof.
  intros H Hu Hl Hn. pose proof (i_chain _ _ _ _ H) as [_ Hs].
  apply (mid_members _ _ _ _ v (7 * Z.of_nat (length partial)) (readBody_ s)) in H.
  cbv zeta. set (s1 := _ <| readShift_ := _ |>).
  assert (invp n (Some partial) false s1) as H1 by (inv_member H).
  assert (readLength_ s1 = v /\ readShift_ s1 = 7 * Z.of_nat (length partial) /\ stream_ s1 = true)
    as (E1 & E2 & E3) by done.
  clearbody s1. rewrite E2. destruct (Z.ltb_spec 63 (7 * Z.of_nat (length partial))).
  - by eapply failed_reading_inv.
  - unfold readOneLengthByte. rewrite E3, Z.eqb_refl. cbn [negb orb].
    apply (inv_le n); [|lia]. eapply chain_start_inv; [done|cbn; apply Z.eqb_refl|].
    intros _. rewrite E1, E2. split_and!; [done|lia|done].
Qed.

(** A complete length: the body, if there is one and it is not too long. *)
Lemma length_done_inv n partial v s :
  invp n (Some partial) false s -> finished partial v -> n + 1 < 2 ^ 64 ->
  inv (n + 1)
    (let g := generation_ s in
     let s := s <| readLength_ := v |> in
     if MaxFrameSize <? v
     then handleConnectionLoss g (emitError "protobuf frame exceeds 4 MiB safety limit" s)
     else
       let s := s <| readBody_ := replicate (Z.to_nat (readLength_ s)) 0 |> in
       if size (readBody_ s) =? 0 then beginReadLength g (handleMessage [] s)
       else start_on_stream (ReadBody g (size (readBody_ s))) s).
Proof.
  intros H Hf Hn. cbv zeta.
  apply decodeVarintPrefix_range in Hf as Hv.
  destruct (Z.ltb_spec MaxFrameSize v).
  - apply (failed_reading_inv _ (Some partial) false); [|done..].
    apply (mid_members _ _ _ _ v (readShift_ s) (readBody_ s)) in H. inv_member H.
  - apply (mid_members _ _ _ _ v (readShift_ s) (replicate (Z.to_nat v) 0)) in H.
    set (s1 := _ <| readBody_ := _ |>).
    assert (invp n (Some partial) false s1) as H1 by (unfold s1; inv_member H).
    assert (size (readBody_ s1) = v) as Hsize.
    { unfold size. cbn. rewrite length_replicate. lia. }
    change (generation_ s) with (generation_ s1).
    clearbody s1. apply (inv_le n); [|lia]. rewrite Hsize. destruct (Z.eqb_spec v 0) as [->|].
    + rewrite <- (generation_handleMessage [] s1). apply beginReadLength_inv.
      eapply handleMessage_inv; [done|]. rewrite <- (app_nil_r partial). by eapply finished_deframe.
    + eapply chain_start_inv; [done|apply Z.eqb_refl|]. intros _. rewrite Hsize.
      split_and!; [done|done|lia|lia].
Qed.

Lemma on_length_byte_inv n g partial outcome s :
  invp n (mid_of g s partial) false s -> reading_op s partial (ReadLength g) ->
  n + 1 < 2 ^ 64 -> inv (n + 1) (on_length_byte g outcome s).
Proof.
  intros H Hr Hn. unfold on_length_byte. cbv zeta.
  set (s1 := match outcome with inl _ => _ | inr _ => _ end).
  assert (invp n (mid_of g s1 partial) false s1) as H1.
  { unfold s1. destruct outcome; [done|]. change (mid_of g _ partial) with (mid_of g s partial).
    inv_member H. }
  assert (reading_op s1 partial (ReadLength g)) as Hr1 by (by destruct outcome).
  assert (forall b, outcome = inr b -> lengthByte_ s1 = b) as Hb by (by intros b ->).
  clearbody s1. clear H Hr. chain_handler H1. destruct outcome as [message|b].
  { by eapply connectionFailed_inv. }
  rewrite <- (Hb b eq_refl). clear Hb b.
  destruct (Hr1 eq_refl) as (Hu & Hl & Hsh).
  apply (log_bytes_inv _ _ [lengthByte_ s1]) in H1 as H2.
  set (s2 := log (GotBytes _ _) s1) in *. change (lengthByte_ s1) with (lengthByte_ s2) in H2.
  change (generation_ s1) with (generation_ s2).
  change (readLength_ s1) with (readLength_ s2) in Hu.
  change (readShift_ s1) with (readShift_ s2) in Hsh. clearbody s2. clear Hr1 H1 s1.
  pose proof (unfinished_more _ _ (lengthByte_ s2) Hu Hl) as Hmore. cbv zeta in Hmore.
  rewrite <- Hsh in Hmore. set (v := Z.lor _ _) in *.
  change (lengthByte_ (s2 <| readLength_ := v |>)) with (lengthByte_ s2).
  change (readShift_ (s2 <| readLength_ := v |>)) with (readShift_ s2).
  destruct (Z.land (lengthByte_ s2) 0x80 =? 0); cbn [negb].
  - exact (length_done_inv _ _ _ _ H2 Hmore Hn).
  - assert (length (partial ++ [lengthByte_ s2]) = S (length partial)) as El
      by (rewrite length_app; cbn; lia).
    pose proof (length_more_inv _ _ _ _ H2 Hmore ltac:(lia) Hn) as Hg. rewrite El in Hg.
    replace (readShift_ s2 + 7) with (7 * Z.of_nat (S (length partial))) by lia.
    exact Hg.
Qed.

Lemma on_body_inv n g k partial outcome s :
  invp n (mid_of g s partial) false s -> reading_op s partial (ReadBody g k) ->
  (forall body, outcome = inr body -> size body = k) -> n + 1 < 2 ^ 64 ->
  inv (n + 1) (on_body g outcome s).
Proof.
  intros H Hr Hk Hn. unfold on_body. chain_handler H.
  destruct outcome as [|body]; [by eapply connectionFailed_inv|]. cbv zeta.
  destruct (Hr eq_refl) as (Hf & _ & _). specialize (Hk body eq_refl).
  apply (inv_le n); [|lia].
  apply (log_bytes_inv _ _ body) in H. set (s0 := log _ s) in *.
  change (generation_ s) with (generation_ s0). clearbody s0.
  set (s1 := resetIdleTimer _). change (generation_ s0) with (generation_ s1).
  assert (readBody_ s1 = body) as Hb by done.
  assert (invp n (Some (partial ++ body)%list) false s1) as H1.
  { apply resetIdleTimer_inv.
    apply (mid_members _ _ _ _ (readLength_ s0) (readShift_ s0) body) in H. inv_member H. }
  clearbody s1. rewrite Hb, <- (generation_handleMessage body s1).
  apply beginReadLength_inv. eapply handleMessage_inv; [done|]. by eapply finished_deframe.
Qed.

Lemma on_written_inv n g error s :
  invp n None (g =? generation_ s) s ->
  (g = generation_ s -> fifo s (tail (writeQueue_ s))) -> n + 1 < 2 ^ 64 ->
  inv (n + 1) (on_written g error s).
Proof.
  intros H Hf Hn. unfold on_written.
  destruct (Z.eqb_spec g (generation_ s)) as [->|]; cbn [negb]; [|by apply (inv_le n); [|lia]].
  pose proof (i_write _ _ _ _ H) as [_ Hs]. specialize (Hf eq_refl).
  destruct error; cbv zeta.
  - apply (connectionFailed_inv _ None true); [|done..]. inv_member H. done.
  - apply (inv_le n); [|lia]. apply beginWrite_inv; [|exact Hf]. destruct H as [Hb].
    constructor; auto; try done.
    + destruct Hb; by constructor.
    + cbn. congruence.
Qed.

Lemma on_idle_inv n g error s : inv n s -> n + 1 < 2 ^ 64 -> inv (n + 1) (on_idle g error s).
Proof.
  intros H Hn. assert (inv (n + 1) s) as H' by (eapply inv_le; [done|lia]).
  unfold on_idle. destruct error; [done|]. destruct (_ && _) eqn:E; [|done].
  apply andb_true_iff in E as [_ ->%Z.eqb_eq].
  by eapply failed_reading_inv.
Qed.

Lemma on_voice_timeout_inv n error s : inv n s -> inv n (on_voice_timeout error s).
Proof.
  intros H. unfold on_voice_timeout. destruct error; [done|].
  destruct (voiceStarting_ s); [|done]. apply inv_emit.
  destruct H as [Hb]. constructor; auto; [destruct Hb; by constructor|done].
Qed.

End handlers.

(** ** The posted function objects *)
Section tasks.
Implicit Types (n g : Z) (s : Impl).

Lemma sendVoiceData_loop_inv fuel n data offset sessionId s :
  inv n s -> inv n (sendVoiceData_loop fuel data offset sessionId s).
Proof.
  revert offset s. induction fuel as [|fuel IH]; intros offset s H; cbn [sendVoiceData_loop]; [done|].
  destruct (_ <? _); [|done]. by apply IH, queueMessage_inv.
Qed.

Lemma startVoice_inv n s : inv n s -> inv n (startVoice_task s).
Proof.
  intros H. unfold startVoice_task.
  destruct (voiceEnabled_ s); cbn [negb]; [|by apply inv_emit].
  destruct (_ || _) eqn:E; [by apply inv_emit|]. apply orb_false_iff in E as [_ E].
  destruct (bool_decide (state_ s = Connected)) eqn:Hs; cbn [negb]; [|by apply inv_emit].
  apply bool_decide_eq_true in Hs. cbv zeta.
  apply inv_start; [apply wait_voice|]. apply inv_cancel; [done|]. apply queueMessage_inv.
  destruct H as [Hb]. constructor; auto; [destruct Hb; by constructor|].
  intros _. split; [|done]. apply bool_decide_eq_false in E. cbn.
  destruct (voiceSessionId_ s); [|done]. destruct E. by eexists.
Qed.

Lemma no_voice_inv n s : inv n s -> inv n (s <| voiceStarting_ := false |>).
Proof. intros [Hb]. constructor; auto; [destruct Hb; by constructor|done]. Qed.

Lemma no_session_inv n s : inv n s -> inv n (s <| voiceSessionId_ := None |>).
Proof.
  intros [Hb]. constructor; auto; [destruct Hb; by constructor|].
  intros Hv. split; [done|]. by apply i_voice.
Qed.

Lemma stopVoice_inv n s : inv n s -> inv n (stopVoice_task s).
Proof.
  intros H. unfold stopVoice_task. cbv zeta.
  apply (inv_cancel VoiceTimer) in H; [|done]. apply no_voice_inv in H.
  destruct (voiceSessionId_ _); [|done].
  by apply inv_emit, no_session_inv, queueMessage_inv.
Qed.

Lemma no_disconnect_inv n s : inv n s -> inv n (s <| userDisconnect_ := false |>).
Proof. intros [Hb]. constructor; auto; [destruct Hb; by constructor|done]. Qed.

Lemma connect_inv n identity s : inv n s -> n + 1 < 2 ^ 64 -> inv (n + 1) (connect_task identity s).
Proof.
  intros H Hn. unfold connect_task. cbv zeta. apply no_disconnect_inv in H.
  set (s1 := s <| userDisconnect_ := false |>) in *.
  assert (userDisconnect_ s1 = false) as Hu by done. clearbody s1.
  apply beginConnect_inv; [..|done].
  - pose proof (base_cancel ReconnectTimer _ _ (i_base _ _ _ _ H)) as Hb.
    destruct Hb; constructor; auto. cbn. lia.
  - change (shuttingDown_ s1 || userDisconnect_ s1 = true -> inv n ((cancel ReconnectTimer s1)
      <| reconnectDelay_ := 100 |>)).
    rewrite Hu, orb_false_r. intros Hs. apply (inv_cancel ReconnectTimer) in H; [|done].
    destruct H as [Hb]. constructor; auto. destruct Hb; constructor; auto. cbn. lia.
Qed.

(** A disconnection closes what there is; [closing_tasks] is common to its forms. *)
Lemma disconnect_closed n s ts :
  base n s -> n + 1 < 2 ^ 64 ->
  closed (n + 1) (closeStream (foldr cancel (s <| userDisconnect_ := true |>) ts)).
Proof.
  intros Hb Hn. apply closeStream_closed; [|done].
  induction ts as [|t ts IH]; cbn [foldr]; [destruct Hb; by constructor|by apply base_cancel].
Qed.

Lemma disconnect_inv n s : base n s -> n + 1 < 2 ^ 64 -> inv (n + 1) (disconnect_task s).
Proof.
  intros Hb Hn. unfold disconnect_task. apply inv_emit, disconnected_inv.
  by apply (disconnect_closed _ _ [IdleTimer; VoiceTimer; ReconnectTimer]).
Qed.

Lemma disconnectAndWait_inv n s :
  base n s -> n + 1 < 2 ^ 64 -> inv (n + 1) (disconnectAndWait_task s).
Proof.
  intros Hb Hn. unfold disconnectAndWait_task. apply inv_log; [done|]. apply disconnected_inv.
  by apply (disconnect_closed _ _ [VoiceTimer; IdleTimer; ReconnectTimer]).
Qed.

Lemma shut_closeStream s : shuttingDown_ (closeStream s) = shuttingDown_ s.
Proof. unfold closeStream. cbn. by destruct (stream_ s). Qed.

Lemma shut_cancel t s : shuttingDown_ (cancel t s) = shuttingDown_ s.
Proof. reflexivity. Qed.

Lemma destroyed_inv n s :
  closed n s -> shuttingDown_ s = true -> inv n (s <| work_ := false |>).
Proof.
  intros Hc Hs. apply closed_inv; [|cbn; congruence..].
  destruct Hc as [[]]. constructor; [constructor|..]; done.
Qed.

Lemma destroy_inv n s :
  base n s -> shuttingDown_ s = true -> n + 1 < 2 ^ 64 -> inv (n + 1) (destroy_task s).
Proof.
  intros Hb Hs Hn. unfold destroy_task. cbv zeta. apply destroyed_inv.
  - apply closed_cancel, closed_cancel, closed_cancel, closeStream_closed; [|done].
    destruct Hb; by constructor.
  - by rewrite !shut_cancel, shut_closeStream.
Qed.

Lemma run_task_inv n t identity s :
  inv n s -> (t = TDestroy -> shuttingDown_ s = true) -> n + 1 < 2 ^ 64 ->
  inv (n + 1) (run_task t identity s).
Proof.
  intros H Hd Hn. pose proof (i_base _ _ _ _ H) as Hb.
  destruct t; cbn [run_task]; auto using connect_inv, disconnect_inv, disconnectAndWait_inv, destroy_inv;
    apply (inv_le n); try lia; auto using queueMessage_inv, startVoice_inv, stopVoice_inv.
  - by apply queueMessage_inv.
  - unfold sendVoiceData_task. destruct (voiceSessionId_ s); [|done]. by apply sendVoiceData_loop_inv.
Qed.

End tasks.

(** ** One turn of the I/O thread *)
Section turns.
Implicit Types (n g : Z) (s : Impl).

Lemma write_hole g g' b : bool_decide (is_Some (write_op g' (Write g b))) = (g =? g').
Proof. cbn. by destruct (g =? g'). Qed.

Definition take_op (i : nat) (s : Impl) : Impl := s <| pending_ := delete i (pending_ s) |>.

Lemma ops_take i s : ops (take_op i s) = delete i (ops s).
Proof. apply ops_delete. Qed.

Lemma base_take i n s : base n s -> base n (take_op i s).
Proof.
  intros []. constructor; auto. intros op g. rewrite ops_take. intros ?%elem_of_delete_list. eauto.
Qed.

Lemma ops_lookup i op c s : pending_ s !! i = Some (op, c) -> ops s !! i = Some op.
Proof. intros Hi. unfold ops. by rewrite list_lookup_fmap, Hi. Qed.

Lemma take_chain i op s :
  chain_ok None s -> ops s !! i = Some op ->
  chain_ok (if chain_op (generation_ s) op then Some [] else None) (take_op i s).
Proof.
  intros (H1 & H2 & H3) Ho.
  pose proof (omap_delete (fun op => if chain_op (generation_ s) op then Some op else None) _ _ _ Ho)
    as Hc%Permutation_length.
  fold (chain_ops (generation_ s) (ops s)) in Hc.
  fold (chain_ops (generation_ s) (delete i (ops s))) in Hc.
  rewrite length_app in Hc. unfold chain_ok. rewrite ops_take.
  change (generation_ (take_op i s)) with (generation_ s).
  destruct (chain_op (generation_ s) op); cbn in Hc |- *; rewrite Hc in *; [|done].
  split; [lia|]. destruct (stream_ s); [done|]. specialize (H2 eq_refl). lia.
Qed.

Lemma take_write i op s :
  write_ok false s -> ops s !! i = Some op -> (stream_ s = false -> writeQueue_ s = []) ->
  write_ok (bool_decide (is_Some (write_op (generation_ s) op))) (take_op i s) /\
  (is_Some (write_op (generation_ s) op) -> writeInProgress_ s = true).
Proof.
  intros (H1 & H2 & H3) Ho Hst.
  pose proof (omap_delete (write_op (generation_ s)) _ _ _ Ho) as Hw.
  fold (write_ops (generation_ s) (ops s)) in Hw.
  fold (write_ops (generation_ s) (delete i (ops s))) in Hw.
  rewrite H1 in Hw. unfold write_ok. rewrite ops_take.
  change (generation_ (take_op i s)) with (generation_ s).
  destruct (write_op (generation_ s) op) as [b|]; cbn in Hw |- *.
  - destruct (writeInProgress_ s); [|by apply Permutation_nil_cons in Hw]. split; [|done].
    destruct (writeQueue_ s) as [|b' rest]; [by destruct H2|].
    split; [|destruct (stream_ s); [done|by specialize (Hst eq_refl)]].
    apply Permutation_length in Hw. cbn in Hw. rewrite firstn_O in Hw.
    destruct (write_ops _ (delete i _)); [done|]. cbn in Hw. lia.
  - split; [|by intros []]. split; [|done]. symmetry.
    destruct (writeInProgress_ s), (writeQueue_ s); cbn in Hw |- *; rewrite ?firstn_O in *;
      (by apply Permutation_nil_l in Hw) || by apply Permutation_singleton_l in Hw.
Qed.

(** What stays open while the handler of the operation runs. *)
Lemma take_inv n i op c s :
  inv n s -> pending_ s !! i = Some (op, c) ->
  (timer_of op = Some ReconnectTimer -> c = true \/ shuttingDown_ s = true \/ state_ s <> Reconnecting) ->
  exists partial, reading_op s partial op /\
    (is_Some (write_op (generation_ s) op) -> fifo s (tail (writeQueue_ s))) /\
    invp n (if chain_op (generation_ s) op then Some partial else None)
      (bool_decide (is_Some (write_op (generation_ s) op))) (take_op i s).
Proof.
  intros [] Hi Hr. pose proof (ops_lookup _ _ _ _ Hi) as Ho.
  pose proof (take_chain _ _ _ i_chain Ho) as Hchain.
  destruct (take_write _ _ _ i_write Ho i_queue) as [Hwrite Hbusy].
  destruct i_reading as (partial & Hp & Hops). exists partial. specialize (i_fifo eq_refl).
  split; [by apply Hops; eapply list_elem_of_lookup_2|].
  split; [by intros Hw; rewrite (Hbusy Hw) in i_fifo|].
  constructor; auto using base_take.
  - by destruct (chain_op (generation_ s) op).
  - destruct (chain_op (generation_ s) op); [exact Hp|]. exists partial. split; [exact Hp|].
    intros op'. rewrite ops_take. intros ?%elem_of_delete_list. by apply Hops.
  - change (shuttingDown_ (take_op i s)) with (shuttingDown_ s).
    intros Hs. specialize (i_state Hs). revert i_state. unfold state_ok. cbn.
    destruct (state_ s) eqn:Est; auto. intros [|[d Hd]]; [by left|right; exists d].
    eapply elem_of_delete_other; [done..|]. intros [= <- <-].
    destruct (Hr eq_refl) as [|[|]]; congruence.
Qed.

Lemma on_reconnect_inv n i d c error identity s :
  inv n s -> pending_ s !! i = Some (WaitReconnect d, c) -> (error <> None -> c = true) ->
  n + 1 < 2 ^ 64 -> inv (n + 1) (on_reconnect error identity (take_op i s)).
Proof.
  intros H Hi He Hn.
  assert (c = true \/ shuttingDown_ s = true \/ state_ s <> Reconnecting -> inv n (take_op i s))
    as Hidle.
  { intros Hc. by destruct (take_inv n i (WaitReconnect d) c s H Hi (fun _ => Hc)) as (p & _ & _ & ?). }
  assert (inv n (take_op i s) -> inv (n + 1) (take_op i s)) as Hle by (intros; by apply (inv_le n); [|lia]).
  unfold on_reconnect. destruct error as [m|]; [apply Hle, Hidle; left; by apply He|].
  change (userDisconnect_ (take_op i s)) with (userDisconnect_ s).
  destruct (userDisconnect_ s) eqn:Hu; cbn [negb].
  - apply Hle, Hidle. right. destruct (shuttingDown_ s) eqn:Hs; [by left|right].
    destruct (i_user _ _ _ _ H Hu) as [_ Hd]. rewrite (Hd Hs). done.
  - apply beginConnect_inv; [apply base_take, H| |done].
    change (shuttingDown_ s || userDisconnect_ s = true -> inv n (take_op i s)).
    rewrite Hu, orb_false_r. auto.
Qed.

Lemma complete_inv n i op c o identity s s' :
  inv n s -> pending_ s !! i = Some (op, c) -> n + 1 < 2 ^ 64 ->
  complete op c o identity (take_op i s) = Some s' -> inv (n + 1) s'.
Proof.
  intros H Hi Hn Hc.
  assert (timer_of op <> Some ReconnectTimer -> exists partial, reading_op s partial op /\
    (is_Some (write_op (generation_ s) op) -> fifo s (tail (writeQueue_ s))) /\
    invp n (if chain_op (generation_ s) op then Some partial else None)
      (bool_decide (is_Some (write_op (generation_ s) op))) (take_op i s)) as Ht
    by (intros Ht; exact (take_inv n i op c s H Hi (fun E => False_ind _ (Ht E)))).
  destruct op as [g h p|g|g|g|g k|g b|d|g|]; destruct o; try done; cbn [complete] in Hc;
    repeat match type of Hc with (if ?b then _ else _) = _ => destruct b eqn:? ; [|done] end;
    apply (inj Some) in Hc; subst s'; try (by apply (on_reconnect_inv n i _ _ _ _ _ H Hi));
    destruct (Ht ltac:(done)) as (partial & Hop & Hf & Hinv); clear Ht;
    try (apply on_idle_inv; [exact Hinv|done]);
    try (apply (inv_le n); [by apply on_voice_timeout_inv|lia]).
  1-2: by eapply on_resolved_inv.
  1-2: by eapply on_connected_inv.
  1-2: by eapply on_handshake_inv.
  1-2: by eapply on_length_byte_inv.
  - eapply on_body_inv; [exact Hinv|exact Hop| |done]. intros body [= <-].
    match goal with E : _ && _ = true |- _ => apply andb_true_iff in E as [_ E]; by apply Z.eqb_eq end.
  - by eapply on_body_inv.
  - apply on_written_inv; [| |done].
    + rewrite write_hole in Hinv. exact Hinv.
    + intros E. apply Hf. cbn. rewrite (E : g = generation_ s), Z.eqb_refl. by eexists.
  - apply on_written_inv; [| |done].
    + rewrite write_hole in Hinv. exact Hinv.
    + intros E. apply Hf. cbn. rewrite (E : g = generation_ s), Z.eqb_refl. by eexists.
Qed.

Lemma post_inv n t s : (t = TDestroy -> shuttingDown_ s = true) -> inv n s -> inv n (post t s).
Proof.
  intros Ht [Hb]. constructor; auto. destruct Hb; constructor; auto. cbn.
  rewrite elem_of_app, list_elem_of_singleton. intros [|<-]; auto.
Qed.

Lemma shutting_inv n s : inv n s -> inv n (s <| shuttingDown_ := true |>).
Proof.
  intros [Hb (H1 & H2 & H3) (H4 & H5 & H6)]. constructor; auto; try done.
  - destruct Hb; constructor; auto. intros g. split; [done|]. apply i_past.
  - intros Hu. split; [by apply i_user|done].
Qed.

(** Every turn preserves the invariant; a turn closes at most one connection. *)
Lemma exec_inv n c s s' : inv n s -> n + 1 < 2 ^ 64 -> exec c s = Some s' -> inv (n + 1) s'.
Proof.
  intros H Hn He.
  assert (forall t, t <> TDestroy -> inv (n + 1) (post t s)) as Hpost.
  { intros t Ht. apply post_inv; [done|]. apply (inv_le n); [done|lia]. }
  assert (inv (n + 1) s) as H' by (apply (inv_le n); [done|lia]).
  destruct c; cbn [exec] in He; try (apply (inj Some) in He; subst s').
  1-3, 6-10: by apply Hpost.
  - unfold sendKeyName. destruct (keyCodeFromName keyName); cbn; [|done].
    by apply Hpost.
  - unfold sendText. case_bool_decide; cbn; [done|]. by apply Hpost.
  - by apply post_inv, shutting_inv.
  - inv_member H'.
  - destruct (posted_ s) as [|t rest] eqn:Ep; [done|]. injection He as <-.
    apply run_task_inv; [| |done].
    + destruct H as [Hb]. constructor; auto. destruct Hb; constructor; auto.
      cbn. intros Hr. apply i_destroy. rewrite Ep. by apply elem_of_cons; right.
    + intros ->. apply (i_destroy _ _ (i_base _ _ _ _ H)). rewrite Ep. by apply elem_of_cons; left.
  - destruct (pending_ s !! i) as [[op c]|] eqn:Hi; [|done]. by eapply complete_inv.
Qed.

Lemma init_inv options : inv 0 (Impl_init options).
Proof.
  constructor; try done; try (by inversion 1).
  - constructor; cbn; try done; try (by inversion 1); try lia; [apply Z.land_diag|].
    intros g. split; [done|]. by exists [].
  - split_and!; [apply Nat.le_0_l|done|done].
  - exists []. split; [done|]. by inversion 1.
Qed.

Lemma run_inv n cs s s' :
  inv n s -> n + size cs < 2 ^ 64 -> run cs s = Some s' -> inv (n + size cs) s'.
Proof.
  revert n s. induction cs as [|c cs IH]; intros n s H Hn Hr; cbn [run] in Hr.
  { injection Hr as <-. apply (inv_le n); [done|]. zlia. }
  assert (size (c :: cs) = 1 + size cs) as E by zlia. pose proof (size_nonneg cs).
  rewrite E in *. destruct (exec c s) as [s1|] eqn:He; [|done].
  replace (n + (1 + size cs)) with (n + 1 + size cs) by lia.
  eapply IH; [|lia|done]. eapply exec_inv; [done|lia|done].
Qed.

End turns.

(** A state the program can reach.  The bound on the number of turns keeps
    [generation_], a [std::uint64_t], from wrapping around. *)
Definition reachable (options : Options) (s : Impl) : Prop :=
  exists cs, run cs (Impl_init options) = Some s /\ size cs < 2 ^ 64 - 1.

Lemma reachable_inv options s : reachable options s -> exists n, inv n s /\ n + 1 < 2 ^ 64.
Proof.
  intros (cs & Hr & Hs). exists (size cs). split; [|lia].
  replace (size cs) with (0 + size cs) by lia. eapply run_inv; [apply init_inv|lia|done].
Qed.
