(* ===== verification/RemoteQuiet.v ===== *)
(** * What the remote connection does not start

    [grows P s s'] says that everything done between [s] and [s'] satisfies [P].
    With it: a late completion of an old connection does nothing, nothing is started
    after a disconnection until [connect] is called, and no connection is attempted
    once the object is being destroyed. *)

From S2P Require Import Prelude Wire WireSpec Framing Types Messages KeyCodes RemoteState Remote.
From S2P Require Import RemoteInv RemoteSteps.

Local Open Scope Z_scope.
Local Open Scope cxx_scope.

(** ** The growth of the trace *)
Section growth.
Context (allowed : operation -> Prop).

Definition quiet (e : effect) : Prop :=
  match e with Start op => allowed op | _ => True end.

Definition grows (s s' : Impl) : Prop :=
  (shuttingDown_ s = true -> shuttingDown_ s' = true) /\
  exists t, trace_ s' = (trace_ s ++ t)%list /\ Forall quiet t.

#[global] Instance grows_preorder : PreOrder grows.
Proof.
  split.
  - intros s. split; [done|]. exists []. by rewrite app_nil_r.
  - intros s1 s2 s3 (Hs & t & E & Ht) (Hs' & t' & E' & Ht'). split; [auto|].
    exists (t ++ t')%list. split; [by rewrite E', E, app_assoc|by apply Forall_app].
Qed.

Lemma grows_same s s' :
  (shuttingDown_ s = true -> shuttingDown_ s' = true) -> trace_ s' = trace_ s -> grows s s'.
Proof. intros Hs E. split; [done|]. exists []. by rewrite E, app_nil_r. Qed.

Lemma grows_one s s' e :
  shuttingDown_ s' = shuttingDown_ s -> trace_ s' = (trace_ s ++ [e])%list -> quiet e -> grows s s'.
Proof. intros Hs E He. split; [congruence|]. exists [e]. by split; [|constructor]. Qed.

Lemma grows_log e s s' : quiet e -> grows s s' -> grows s (log e s').
Proof. intros He H. etransitivity; [exact H|]. by eapply grows_one. Qed.

Lemma grows_emit n s s' : grows s s' -> grows s (emit n s').
Proof. intros H. unfold emit. destruct is_set; [by apply grows_log|done]. Qed.

Lemma grows_cancel t s s' : grows s s' -> grows s (cancel t s').
Proof. intros H. etransitivity; [exact H|]. by apply (grows_one _ _ (Cancel t)). Qed.

Lemma grows_start op s s' : allowed op -> grows s s' -> grows s (start op s').
Proof. intros Hop H. etransitivity; [exact H|]. by apply (grows_one _ _ (Start op)). Qed.

Lemma grows_start_on_stream op s s' : allowed op -> grows s s' -> grows s (start_on_stream op s').
Proof.
  intros Hop H. unfold start_on_stream.
  destruct (stream_ s'); [by apply grows_start|by apply grows_log].
Qed.

Lemma grows_then s s1 s' : grows s s1 -> (grows s1 s') -> grows s s'.
Proof. intros. by etransitivity. Qed.

Lemma grows_setState state s s' : grows s s' -> grows s (setState state s').
Proof. intros H. apply grows_emit. eapply grows_then; [exact H|]. by apply grows_same. Qed.

Lemma grows_closeStream s s' : grows s s' -> grows s (closeStream s').
Proof.
  intros H. eapply grows_then; [exact H|]. unfold closeStream. cbn.
  destruct (stream_ s'); [by eapply grows_one|by apply grows_same].
Qed.

(** ** The operations that start no connection *)
Context (Hallowed : forall op, (forall d, op <> WaitReconnect d) ->
  (forall g h p, op <> Resolve g h p) -> allowed op).

Lemma grows_resetIdleTimer s s' : grows s s' -> grows s (resetIdleTimer s').
Proof. intros H. apply grows_start; [by apply Hallowed|by apply grows_cancel]. Qed.

Lemma grows_beginWrite s s' : grows s s' -> grows s (beginWrite s').
Proof.
  intros H. unfold beginWrite. destruct (writeQueue_ s').
  - eapply grows_then; [exact H|]. by apply grows_same.
  - destruct (stream_ s'); cbn [negb].
    + apply grows_start_on_stream; [by apply Hallowed|].
      eapply grows_then; [exact H|]. by apply grows_same.
    + eapply grows_then; [exact H|]. by apply grows_same.
Qed.

Lemma grows_queueMessage payload s s' : grows s s' -> grows s (queueMessage payload s').
Proof.
  intros H. unfold queueMessage. destruct (stream_ s'); cbn [negb]; [|done]. cbv zeta.
  apply grows_resetIdleTimer in H. set (s1 := resetIdleTimer s') in *. clearbody s1.
  set (s2 := log _ _). assert (grows s s2) as H2.
  { apply grows_log; [done|]. eapply grows_then; [exact H|]. by apply grows_same. }
  clearbody s2. destruct (negb _); [by apply grows_beginWrite|done].
Qed.

Lemma grows_handleMessage message s s' : grows s s' -> grows s (handleMessage message s').
Proof.
  intros H. unfold handleMessage. cbv zeta.
  apply (grows_log (Handled (generation_ s') message)) in H; [|done].
  set (s0 := log _ _) in *. clearbody s0.
  assert (forall s2, shuttingDown_ s2 = shuttingDown_ s0 -> trace_ s2 = trace_ s0 -> grows s s2) as Hset.
  { intros s2 Hs Ht. eapply grows_then; [exact H|]. apply grows_same; congruence. }
  destruct (kind _); [done|..].
  - apply grows_queueMessage, grows_emit. by apply Hset.
  - by apply grows_queueMessage.
  - apply grows_emit. by apply Hset.
  - by apply Hset.
  - apply grows_emit. by apply Hset.
  - apply grows_emit, grows_emit, grows_setState. by apply Hset.
  - by apply grows_queueMessage.
  - by apply grows_emit.
  - destruct (voiceStarting_ s0); [|done]. apply grows_emit, grows_queueMessage.
    eapply grows_then; [|by apply grows_same].
    apply grows_cancel. by apply Hset.
Qed.

Lemma grows_readOneLengthByte g s s' : grows s s' -> grows s (readOneLengthByte g s').
Proof.
  intros H. unfold readOneLengthByte. destruct (_ || _); [done|].
  apply grows_start_on_stream; [by apply Hallowed|done].
Qed.

Lemma grows_beginReadLength g s s' : grows s s' -> grows s (beginReadLength g s').
Proof.
  intros H. unfold beginReadLength. destruct (_ || _); [done|].
  apply grows_readOneLengthByte. eapply grows_then; [exact H|]. by apply grows_same.
Qed.

Lemma grows_voice_loop fuel data offset sessionId s s' :
  grows s s' -> grows s (sendVoiceData_loop fuel data offset sessionId s').
Proof.
  revert offset s'. induction fuel as [|fuel IH]; intros offset s' H; [done|].
  cbn [sendVoiceData_loop]. destruct (_ <? _); [|done]. by apply IH, grows_queueMessage.
Qed.

End growth.

(** ** Destruction *)

(** The operations that begin a connection, now or later. *)
Definition begins (op : operation) : bool :=
  match op with Resolve _ _ _ | WaitReconnect _ => true | _ => false end.

Section destruction.

Let allowed (op : operation) : Prop := begins op = false.

Lemma allowed_all op :
  (forall d, op <> WaitReconnect d) -> (forall g h p, op <> Resolve g h p) -> allowed op.
Proof. unfold allowed. destruct op; cbn; naive_solver. Qed.

Context (s0 : Impl) (Hshut : shuttingDown_ s0 = true).

Lemma grown_shut s : grows allowed s0 s -> shuttingDown_ s = true.
Proof. intros [Hs _]. auto. Qed.

Lemma shut_loss g s : grows allowed s0 s -> grows allowed s0 (handleConnectionLoss g s).
Proof.
  intros H. unfold handleConnectionLoss. destruct (negb _); [done|]. cbv zeta.
  apply grows_closeStream in H as H1. set (s1 := if bool_decide _ then _ else _).
  assert (grows allowed s0 s1) as H2 by (unfold s1; destruct bool_decide; [by apply grows_emit|done]).
  clearbody s1. rewrite (grown_shut _ H2), andb_false_r. by apply grows_setState.
Qed.

Lemma shut_failed prefix message g s :
  grows allowed s0 s -> grows allowed s0 (connectionFailed prefix message g s).
Proof.
  intros H. unfold connectionFailed. rewrite (grown_shut _ H), orb_true_r. exact H.
Qed.

Lemma shut_authentication message g s :
  grows allowed s0 s -> grows allowed s0 (authenticationFailed message g s).
Proof.
  intros H. unfold authenticationFailed. rewrite (grown_shut _ H), orb_true_r. exact H.
Qed.

Lemma shut_connect reconnecting identity s :
  grows allowed s0 s -> grows allowed s0 (beginConnect reconnecting identity s).
Proof. intros H. unfold beginConnect. by rewrite (grown_shut _ H). Qed.

Lemma grows_set s s' :
  grows allowed s0 s -> shuttingDown_ s' = shuttingDown_ s -> trace_ s' = trace_ s ->
  grows allowed s0 s'.
Proof. intros H Hs Ht. etransitivity; [exact H|]. apply grows_same; congruence. Qed.

Lemma shut_length_byte g outcome s :
  grows allowed s0 s -> grows allowed s0 (on_length_byte g outcome s).
Proof.
  intros H. unfold on_length_byte. cbv zeta.
  set (s1 := match outcome with inl _ => _ | inr _ => _ end).
  assert (grows allowed s0 s1) as H1 by (unfold s1; destruct outcome; [done|by eapply grows_set]).
  clearbody s1. destruct (negb _); [done|].
  destruct outcome as [m|b]; [by apply shut_failed|].
  apply (grows_log allowed (GotBytes g [b])) in H1; [|done].
  set (s2 := log _ s1) in *. clearbody s2. clear H s1 s.
  set (v := Z.lor _ _). clearbody v.
  assert (grows allowed s0 (s2 <| readLength_ := v |>)) as H3 by (by eapply grows_set).
  set (s3 := s2 <| readLength_ := v |>) in *. clearbody s3.
  destruct (negb _).
  - assert (grows allowed s0 (s3 <| readShift_ := readShift_ s3 + 7 |>)) as H4 by (by eapply grows_set).
    set (s4 := s3 <| readShift_ := _ |>) in *. clearbody s4.
    destruct (_ <? _); [by apply shut_loss, grows_emit|].
    apply grows_readOneLengthByte; [exact allowed_all|done].
  - destruct (_ <? _); [by apply shut_loss, grows_emit|].
    set (s4 := s3 <| readBody_ := _ |>).
    assert (grows allowed s0 s4) as H4 by (by eapply grows_set). clearbody s4.
    destruct (_ =? _).
    + apply grows_beginReadLength; [exact allowed_all|].
      by apply grows_handleMessage; [exact allowed_all|].
    + by apply grows_start_on_stream.
Qed.

Lemma shut_complete op c o identity s s' :
  grows allowed s0 s -> complete op c o identity s = Some s' -> grows allowed s0 s'.
Proof.
  intros H Hc. pose proof allowed_all as Ha.
  destruct op, o; try done; cbn [complete] in Hc;
    repeat match type of Hc with (if ?b then _ else _) = _ => destruct b eqn:? ; [|done] end;
    apply (inj Some) in Hc; subst s'.
  1-2: unfold on_resolved; destruct (negb _); [done|];
    first [by apply shut_failed|by apply grows_start_on_stream].
  1-2: unfold on_connected; destruct (negb _); [done|];
    first [by apply shut_failed|by apply grows_start_on_stream].
  - unfold on_handshake. destruct (negb _); [done|]. apply grows_resetIdleTimer; [exact Ha|].
    apply grows_beginReadLength; [exact Ha|]. by eapply grows_set.
  - unfold on_handshake. destruct (negb _); [done|]. by apply shut_authentication.
  - by apply shut_length_byte.
  - by apply shut_length_byte.
  - unfold on_body. destruct (negb _); [done|]. apply grows_beginReadLength; [exact Ha|].
    apply grows_handleMessage; [exact Ha|]. apply grows_resetIdleTimer; [exact Ha|].
    eapply grows_set; [by apply (grows_log allowed (GotBytes generation bytes))|done..].
  - unfold on_body. destruct (negb _); [done|]. by apply shut_failed.
  - unfold on_written. destruct (negb _); [done|]. apply grows_beginWrite; [exact Ha|]. by eapply grows_set.
  - unfold on_written. destruct (negb _); [done|]. apply shut_failed. by eapply grows_set.
  - unfold on_reconnect. destruct (negb _); [by apply shut_connect|done].
  - done.
  - unfold on_idle. destruct (_ && _); [|done]. by apply shut_loss, grows_emit.
  - done.
  - unfold on_voice_timeout. destruct (voiceStarting_ s); [|done]. apply grows_emit. by eapply grows_set.
  - done.
Qed.

Lemma shut_user b s : grows allowed s0 s -> grows allowed s0 (s <| userDisconnect_ := b |>).
Proof. intros H. by eapply grows_set. Qed.

Lemma shut_connect_task identity s :
  grows allowed s0 s -> grows allowed s0 (connect_task identity s).
Proof.
  intros H. unfold connect_task. apply shut_connect.
  apply (grows_set (cancel ReconnectTimer (s <| userDisconnect_ := false |>))); [|done..].
  by apply grows_cancel, shut_user.
Qed.

Lemma shut_disconnect_task s : grows allowed s0 s -> grows allowed s0 (disconnect_task s).
Proof.
  intros H. unfold disconnect_task.
  by apply grows_emit, grows_setState, grows_closeStream, grows_cancel, grows_cancel, grows_cancel,
    shut_user.
Qed.

Lemma shut_disconnectAndWait_task s :
  grows allowed s0 s -> grows allowed s0 (disconnectAndWait_task s).
Proof.
  intros H. unfold disconnectAndWait_task. apply grows_log; [done|].
  by apply grows_setState, grows_closeStream, grows_cancel, grows_cancel, grows_cancel, shut_user.
Qed.

Lemma shut_work s : grows allowed s0 s -> grows allowed s0 (s <| work_ := false |>).
Proof. intros H. by eapply grows_set. Qed.

Lemma shut_destroy_task s : grows allowed s0 s -> grows allowed s0 (destroy_task s).
Proof.
  intros H. unfold destroy_task. cbv zeta.
  by apply shut_work, grows_cancel, grows_cancel, grows_cancel, grows_closeStream, shut_user.
Qed.

Lemma shut_startVoice_task s : grows allowed s0 s -> grows allowed s0 (startVoice_task s).
Proof.
  intros H. unfold startVoice_task. destruct (negb _); [by apply grows_emit|].
  destruct (_ || _); [by apply grows_emit|]. destruct (negb _); [by apply grows_emit|].
  apply grows_start; [done|]. apply grows_cancel. apply grows_queueMessage; [exact allowed_all|].
  by eapply grows_set.
Qed.

Lemma shut_session o s : grows allowed s0 s -> grows allowed s0 (s <| voiceSessionId_ := o |>).
Proof. intros H. by eapply grows_set. Qed.

Lemma shut_starting b s : grows allowed s0 s -> grows allowed s0 (s <| voiceStarting_ := b |>).
Proof. intros H. by eapply grows_set. Qed.

Lemma shut_stopVoice_task s : grows allowed s0 s -> grows allowed s0 (stopVoice_task s).
Proof.
  intros H. unfold stopVoice_task. cbv zeta.
  apply (grows_cancel allowed VoiceTimer), (shut_starting false) in H.
  set (s1 := _ <| voiceStarting_ := _ |>) in *. clearbody s1.
  destruct (voiceSessionId_ s1); [|done].
  by apply grows_emit, shut_session, (grows_queueMessage allowed allowed_all).
Qed.

Lemma shut_run_task t identity s :
  grows allowed s0 s -> grows allowed s0 (run_task t identity s).
Proof.
  intros H. pose proof allowed_all as Ha. destruct t; cbn [run_task];
    auto using shut_connect_task, shut_disconnect_task, shut_disconnectAndWait_task,
      shut_destroy_task, shut_startVoice_task, shut_stopVoice_task.
  - by apply grows_queueMessage.
  - by apply grows_queueMessage.
  - unfold sendVoiceData_task. destruct (voiceSessionId_ s); [|done]. by apply grows_voice_loop.
Qed.

Lemma shut_exec c s s' : grows allowed s0 s -> exec c s = Some s' -> grows allowed s0 s'.
Proof.
  intros H Hc.
  assert (forall t, grows allowed s0 (post t s)) as Hpost by (intros t; by eapply grows_set).
  destruct c; cbn [exec] in Hc; try (apply (inj Some) in Hc; subst s').
  1-3, 6-10: by apply Hpost.
  - unfold sendKeyName. destruct (keyCodeFromName keyName); [by apply Hpost|done].
  - unfold sendText. destruct (bool_decide _); [done|by apply Hpost].
  - eapply grows_then; [exact H|]. apply grows_same; done.
  - by eapply grows_set.
  - destruct (posted_ s) as [|t rest]; [done|]. apply (inj Some) in Hc. subst s'.
    apply shut_run_task. by eapply grows_set.
  - destruct (pending_ s !! i) as [[op c]|]; [|done]. eapply shut_complete; [|exact Hc].
    by eapply grows_set.
Qed.

Lemma shut_run cs s s' : grows allowed s0 s -> run cs s = Some s' -> grows allowed s0 s'.
Proof.
  revert s. induction cs as [|c cs IH]; intros s H Hr; cbn [run] in Hr; [by injection Hr as <-|].
  destruct (exec c s) as [s1|] eqn:E; [|done]. by eapply IH; [eapply shut_exec|].
Qed.

End destruction.

(** ** Disconnection *)

Definition offline (s : Impl) : Prop := userDisconnect_ s = true /\ stream_ s = false.

(** [calls s s'] is [grows], with what a disconnected object keeps. *)
Definition rests (s s' : Impl) : Prop :=
  grows (fun op => op = WaitVoice) s s' /\ offline s' /\ posted_ s' = posted_ s.

Section disconnection.

Context (s0 : Impl).

Lemma rests_emit n s : rests s0 s -> rests s0 (emit n s).
Proof.
  intros (H & [Hu Hs] & Hp). split; [by apply grows_emit|].
  unfold offline. by rewrite !(emit_fields _ n s) by done.
Qed.

Lemma rests_cancel t s : rests s0 s -> rests s0 (cancel t s).
Proof. intros (H & Ho & Hp). by split; [apply grows_cancel|]. Qed.

Lemma rests_set s s' :
  rests s0 s -> trace_ s' = trace_ s -> shuttingDown_ s' = shuttingDown_ s ->
  userDisconnect_ s' = userDisconnect_ s -> stream_ s' = stream_ s -> posted_ s' = posted_ s ->
  rests s0 s'.
Proof.
  intros (H & [Hu Hs] & Hp) Ht Hsh Hu' Hs' Hp'. split; [|split; [split|]; congruence].
  etransitivity; [exact H|]. apply grows_same; congruence.
Qed.

Lemma rests_closeStream s : rests s0 s -> rests s0 (closeStream s).
Proof.
  intros H. unfold closeStream. cbn. destruct H as (H & [Hu Hs] & Hp). rewrite Hs.
  by eapply rests_set; [split; [exact H|split; [by split|exact Hp]]|..].
Qed.

Lemma rests_setState state s : rests s0 s -> rests s0 (setState state s).
Proof. intros H. apply rests_emit. by eapply rests_set. Qed.

Lemma rests_queueMessage payload s : rests s0 s -> rests s0 (queueMessage payload s).
Proof. intros H. unfold queueMessage. pose proof H as (_ & [_ ->] & _). exact H. Qed.

Lemma rests_user s : rests s0 s -> rests s0 (s <| userDisconnect_ := true |>).
Proof. intros H. pose proof H as (_ & [Hu _] & _). by eapply rests_set. Qed.

Lemma rests_starting b s : rests s0 s -> rests s0 (s <| voiceStarting_ := b |>).
Proof. intros H. by eapply rests_set. Qed.

Lemma rests_work s : rests s0 s -> rests s0 (s <| work_ := false |>).
Proof. intros H. by eapply rests_set. Qed.

Lemma rests_promise s : rests s0 s -> rests s0 (log PromiseSet s).
Proof. intros (H & Ho & Hp). by split; [apply grows_log|]. Qed.

Lemma rests_voice_loop fuel data offset sessionId s :
  rests s0 s -> rests s0 (sendVoiceData_loop fuel data offset sessionId s).
Proof.
  revert offset s. induction fuel as [|fuel IH]; intros offset s H; [done|].
  cbn [sendVoiceData_loop]. destruct (_ <? _); [|done]. by apply IH, rests_queueMessage.
Qed.

Lemma rests_startVoice s : rests s0 s -> rests s0 (startVoice_task s).
Proof.
  intros H. unfold startVoice_task. destruct (negb _); [by apply rests_emit|].
  destruct (_ || _); [by apply rests_emit|]. destruct (negb _); [by apply rests_emit|].
  apply (rests_starting true), (rests_queueMessage (remoteKey (KeyCode_value Search) Short)),
    (rests_cancel VoiceTimer) in H.
  destruct H as (H & Ho & Hp). by split; [apply grows_start|].
Qed.

Lemma rests_stopVoice s : rests s0 s -> rests s0 (stopVoice_task s).
Proof.
  intros H. unfold stopVoice_task. cbv zeta.
  apply (rests_cancel VoiceTimer), (rests_starting false) in H.
  set (s1 := _ <| voiceStarting_ := _ |>) in *. clearbody s1.
  destruct (voiceSessionId_ s1); [|done]. apply rests_emit.
  eapply rests_set; [by apply rests_queueMessage|done..].
Qed.

Lemma rests_task t identity s :
  t <> TConnect -> rests s0 s -> rests s0 (run_task t identity s).
Proof.
  intros Ht H. destruct t; cbn [run_task]; try done;
    auto using rests_queueMessage, rests_startVoice, rests_stopVoice.
  - unfold disconnect_task.
    by apply rests_emit, rests_setState, rests_closeStream, rests_cancel, rests_cancel, rests_cancel,
      rests_user.
  - by apply rests_queueMessage.
  - unfold sendVoiceData_task. destruct (voiceSessionId_ s); [|done]. by apply rests_voice_loop.
  - unfold disconnectAndWait_task.
    by apply rests_promise, rests_setState, rests_closeStream, rests_cancel, rests_cancel, rests_cancel,
      rests_user.
  - unfold destroy_task. cbv zeta.
    by apply rests_work, rests_cancel, rests_cancel, rests_cancel, rests_closeStream, rests_user.
Qed.

(** No handler of the connection that was closed has anything left to do. *)
Lemma rests_complete op c o identity s s' :
  rests s0 s -> chain_op (generation_ s) op = false -> write_op (generation_ s) op = None ->
  complete op c o identity s = Some s' -> rests s0 s'.
Proof.
  intros H Hch Hw Hc. pose proof H as (_ & [Hu _] & _).
  destruct op, o; try done; cbn [complete] in Hc;
    repeat match type of Hc with (if ?b then _ else _) = _ => destruct b eqn:? ; [|done] end;
    apply (inj Some) in Hc; subst s'; cbn [chain_op write_op] in Hch, Hw;
    unfold on_resolved, on_connected, on_handshake, on_body, on_written, on_reconnect, on_idle,
      on_voice_timeout;
    rewrite ?Hch, ?Hu; try done.
  - unfold on_length_byte. cbn. rewrite Hch. cbn. by eapply rests_set.
  - unfold on_length_byte. cbn. by rewrite Hch.
  - by destruct (generation =? generation_ s).
  - by destruct (generation =? generation_ s).
  - destruct (voiceStarting_ s); [|done]. apply rests_emit. by apply rests_starting.
Qed.

End disconnection.

(** What stays true of an object that was disconnected, until [connect] is called. *)
Definition resting (s : Impl) : Prop := userDisconnect_ s = true /\ TConnect ∉ posted_ s.

Lemma offline_stale n s op :
  inv n s -> stream_ s = false -> op ∈ ops s ->
  chain_op (generation_ s) op = false /\ write_op (generation_ s) op = None.
Proof.
  intros [] Hs Hop. split.
  - destruct i_chain as (_ & Hz & _). apply (chain_ops_stale _ (ops s)); [|done].
    apply length_zero_iff_nil. auto.
  - destruct i_write as (Hw & _). rewrite (i_queue Hs) in Hw.
    destruct (write_op (generation_ s) op) as [b|] eqn:E; [|done].
    assert (b ∈ write_ops (generation_ s) (ops s)) as Hb
      by (apply list_elem_of_omap; by exists op).
    rewrite Hw in Hb. by destruct (writeInProgress_ s); inversion Hb.
Qed.

Lemma rest_exec n c s s' :
  inv n s -> resting s -> c <> CallConnect -> exec c s = Some s' ->
  resting s' /\ grows (fun op => op = WaitVoice) s s'.
Proof.
  intros H [Hu Hp] Hne Hc. destruct (i_user _ _ _ _ H Hu) as [Hst _].
  assert (forall s1, rests s1 s' -> posted_ s1 = posted_ s \/ (exists t, posted_ s = t :: posted_ s1) ->
    grows (fun op => op = WaitVoice) s s1 -> resting s' /\ grows (fun op => op = WaitVoice) s s')
    as Hrest.
  { intros s1 (Hg & [Hu' _] & Ep) Hps Hg1. split; [|by etransitivity]. split; [done|].
    rewrite Ep. destruct Hps as [->|[t Et]]; [done|]. rewrite Et in Hp.
    intros Hin. apply Hp, elem_of_cons. by right. }
  assert (forall t, t <> TConnect -> resting (post t s) /\ grows (fun op => op = WaitVoice) s (post t s))
    as Hpost.
  { intros t Ht. split; [split; [done|]|by apply grows_same]. cbn.
    rewrite elem_of_app, list_elem_of_singleton. intros [|]; congruence. }
  assert (forall s1, userDisconnect_ s1 = userDisconnect_ s -> stream_ s1 = stream_ s -> rests s1 s1)
    as Hrefl by (intros s1 Eu Es; split; [done|]; split; [split; congruence|done]).
  destruct c; cbn [exec] in Hc; try done; try (apply (inj Some) in Hc; subst s').
  1-2, 5-9: by apply Hpost.
  - unfold sendKeyName. destruct (keyCodeFromName keyName); cbn; [by apply Hpost|by split].
  - unfold sendText. destruct (bool_decide _); cbn; [by split|by apply Hpost].
  - destruct (Hpost TDestroy ltac:(done)) as [[Hu1 Hp1] _]. split; [done|]. by apply grows_same.
  - split; [done|]. by apply grows_same.
  - destruct (posted_ s) as [|t rest] eqn:Ep; [done|]. apply (inj Some) in Hc. subst s'.
    assert (t <> TConnect) as Ht by (intros ->; apply Hp, elem_of_cons; by left).
    apply (Hrest (s <| posted_ := rest |>)); [|right; by exists t|by apply grows_same].
    apply rests_task; [done|]. by apply Hrefl.
  - destruct (pending_ s !! i) as [[op c]|] eqn:Hi; [|done].
    apply (Hrest (take_op i s)); [|by left|by apply grows_same].
    assert (op ∈ ops s) as Hop by (eapply list_elem_of_lookup_2, ops_lookup, Hi).
    destruct (offline_stale _ _ _ H Hst Hop) as [Hch Hw].
    eapply (rests_complete _ _ _ _ _ (take_op i s)); [by apply Hrefl|exact Hch|exact Hw|exact Hc].
Qed.

Lemma rest_run n cs s s' :
  inv n s -> n + size cs < 2 ^ 64 -> resting s -> CallConnect ∉ cs -> run cs s = Some s' ->
  resting s' /\ grows (fun op => op = WaitVoice) s s'.
Proof.
  revert n s. induction cs as [|c cs IH]; intros n s H Hn Hr Hcs Hrun; cbn [run] in Hrun.
  { injection Hrun as <-. by split. }
  destruct (exec c s) as [s1|] eqn:Hc; [|done]. apply not_elem_of_cons in Hcs as [Hne Hcs].
  assert (size (c :: cs) = 1 + size cs) as E by zlia. pose proof (size_nonneg cs).
  destruct (rest_exec _ _ _ _ H Hr (not_eq_sym Hne) Hc) as [Hr1 Hg].
  destruct (IH (n + 1) s1) as [Hr' Hg']; [eapply exec_inv; [done|lia|done]|lia|done..|].
  split; [done|by etransitivity].
Qed.
