(* ===== verification/RemoteSpec.v ===== *)
(** * What the remote connection promises

    An abstract session: what an application can observe ([view]), and for each
    message of the television the answers that are queued for it and the callbacks
    that are called.  [obs_handleMessage] is the step of the refinement. *)

From S2P Require Import Prelude Wire WireSpec Types Messages MessagesSpec MessagesProps.
From S2P Require Import RemoteState Remote RemoteInv RemoteSteps.

Local Open Scope Z_scope.
Local Open Scope cxx_scope.

Record view := mkView {
  v_state : ConnectionState;
  v_device : DeviceInfo;
  v_volume : VolumeInfo;
  v_app : string;
  v_on : bool;
  v_voiceEnabled : bool;
  v_active : Z;
  v_supported : Z;
  v_ime : Z;
  v_imeField : Z;
  v_starting : bool;
  v_session : option Z
}.

#[export] Instance view_settable : Settable view := fun v =>
  mkView (v_state v) (v_device v) (v_volume v) (v_app v) (v_on v) (v_voiceEnabled v) (v_active v)
    (v_supported v) (v_ime v) (v_imeField v) (v_starting v) (v_session v).

Definition view_of (s : Impl) : view :=
  mkView (Observers.connectionState s) (Observers.deviceInfo s) (Observers.volumeInfo s)
    (Observers.currentApp s) (Observers.isOn s) (Observers.isVoiceEnabled s)
    (activeFeatures_ s) (supportedFeatures_ s) (imeCounter_ s) (imeFieldCounter_ s)
    (voiceStarting_ s) (voiceSessionId_ s).

(** The next view, the payloads queued and the notifications, for one message. *)
Definition tv_step (m : tv_message) (v : view) : view * list (list Z) * list notification :=
  match m with
  | TvConfigure features model vendor version =>
      let active := Z.land (v_active v) features in
      let device := {| manufacturer := vendor; model := model; softwareVersion := version |} in
      ((((v <| v_active := active |>) <| v_supported := features |>) <| v_device := device |>)
         <| v_voiceEnabled := negb (Z.land active FeatureVoice =? 0) |>,
       [remoteConfigureResponse active], [DeviceInfoChanged device])
  | TvSetActive => (v, [remoteSetActiveResponse (v_active v)], [])
  | TvError => (v, [], [Error "Android TV reported a remote protocol error"])
  | TvPing value => (v, [remotePingResponse value], [])
  | TvImeKeyInject app => (v <| v_app := app |>, [], [CurrentAppChanged app])
  | TvImeBatchEdit ime field => ((v <| v_ime := ime |>) <| v_imeField := field |>, [], [])
  | TvVoiceBegin session =>
      if v_starting v then
        ((v <| v_starting := false |>) <| v_session := Some session |>,
         [remoteVoiceBegin session], [VoiceStarted session])
      else (v, [], [])
  | TvStart on =>
      ((v <| v_on := on |>) <| v_state := Connected |>, [],
       [ConnectionStateIs Connected; AvailabilityChanged true; PowerChanged on])
  | TvVolume maximum level muted =>
      let volume := {| level := level; maximum := maximum; muted := muted |} in
      (v <| v_volume := volume |>, [], [VolumeChanged volume])
  end.

(** A sequence of messages. *)
Fixpoint tv_steps (ms : list tv_message) (v : view)
    : view * list (list Z) * list notification :=
  match ms with
  | [] => (v, [], [])
  | m :: ms =>
      let '(v, out, notes) := tv_step m v in
      let '(v, out', notes') := tv_steps ms v in
      (v, (out ++ out')%list, (notes ++ notes')%list)
  end.

(** ** Observations of the detailed state *)

Definition notified (t : list effect) : list notification :=
  omap (fun e => match e with Notify n => Some n | _ => None end) t.

#[global] Arguments notified : simpl never.

(** What one of them adds; [stream_], [generation_] and [callbacks_] stay. *)
Record observed (s s' : Impl) (v : view) (out : list (list Z)) (notes : list notification) : Prop := {
  o_view : view_of s' = v;
  o_queued : queued (generation_ s) (trace_ s') = (queued (generation_ s) (trace_ s) ++ out)%list;
  o_notified : notified (trace_ s') = (notified (trace_ s) ++ List.filter (is_set (callbacks_ s)) notes)%list;
  o_generation : generation_ s' = generation_ s;
  o_stream : stream_ s' = stream_ s;
  o_callbacks : callbacks_ s' = callbacks_ s
}.

Section observations.

Lemma observed_refl s : observed s s (view_of s) [] [].
Proof. constructor; rewrite ?app_nil_r; done. Qed.

Lemma observed_trans {s1 s2 s3 v2 v3 out out' notes notes'} :
  observed s1 s2 v2 out notes -> observed s2 s3 v3 out' notes' ->
  observed s1 s3 v3 (out ++ out') (notes ++ notes').
Proof.
  intros [] []. constructor; try congruence.
  - rewrite o_generation0 in o_queued1. by rewrite o_queued1, o_queued0, app_assoc.
  - rewrite o_callbacks0 in o_notified1.
    by rewrite o_notified1, o_notified0, List.filter_app, app_assoc.
Qed.

(** Members that only the view mentions. *)
Lemma observed_set s s' :
  trace_ s' = trace_ s -> generation_ s' = generation_ s -> stream_ s' = stream_ s ->
  callbacks_ s' = callbacks_ s -> observed s s' (view_of s') [] [].
Proof. intros Ht Hg Hs Hc. constructor; rewrite ?Ht, ?app_nil_r; done. Qed.

Lemma observed_emit s n : observed s (emit n s) (view_of s) [] [n].
Proof.
  unfold emit. cbn. destruct (is_set (callbacks_ s) n) eqn:E;
    constructor; rewrite ?app_nil_r; cbn; rewrite ?E, ?app_nil_r; try done.
  - unfold queued. rewrite omap_app. apply app_nil_r.
  - unfold notified. by rewrite omap_app.
Qed.

(** An effect that is neither a push nor a callback. *)
Ltac observed_step :=
  constructor; rewrite ?app_nil_r; try done; cbn;
  [unfold queued; rewrite omap_app; apply app_nil_r
  |unfold notified; rewrite omap_app; apply app_nil_r].

Lemma observed_cancel s t : observed s (cancel t s) (view_of s) [] [].
Proof. observed_step. Qed.

Lemma observed_idle s g : observed s (start (WaitIdle g) s) (view_of s) [] [].
Proof. observed_step. Qed.

Lemma observed_write s g b : observed s (start (Write g b) s) (view_of s) [] [].
Proof. observed_step. Qed.

Lemma observed_handled s g m : observed s (log (Handled g m) s) (view_of s) [] [].
Proof. observed_step. Qed.

Lemma observed_push s p : observed s (push p s) (view_of s) [p] [].
Proof.
  constructor; rewrite ?app_nil_r; try done; cbn.
  - destruct (queue_trace (generation_ s) (generation_ s) p (trace_ s)) as (-> & _).
    by rewrite Z.eqb_refl.
  - unfold notified. rewrite omap_app. apply app_nil_r.
Qed.

Lemma observed_progress s b : observed s (s <| writeInProgress_ := b |>) (view_of s) [] [].
Proof. constructor; rewrite ?app_nil_r; done. Qed.

Lemma view_progress s b : view_of (s <| writeInProgress_ := b |>) = view_of s.
Proof. reflexivity. Qed.

Lemma stream_progress s b : stream_ (s <| writeInProgress_ := b |>) = stream_ s.
Proof. reflexivity. Qed.

Lemma view_cancel t s : view_of (cancel t s) = view_of s.
Proof. reflexivity. Qed.

Lemma view_push p s : view_of (push p s) = view_of s.
Proof. reflexivity. Qed.

Lemma observed_beginWrite s : observed s (beginWrite s) (view_of s) [] [].
Proof.
  unfold beginWrite, start_on_stream. destruct (writeQueue_ s) as [|b rest];
    [apply observed_progress|].
  destruct (stream_ s) eqn:Hs; cbn [negb]; [|apply observed_progress].
  cbv zeta. rewrite stream_progress, Hs.
  pose proof (observed_write (s <| writeInProgress_ := true |>) (generation_ s) b) as H.
  rewrite view_progress in H. exact (observed_trans (observed_progress s true) H).
Qed.

Lemma observed_resetIdleTimer s : observed s (resetIdleTimer s) (view_of s) [] [].
Proof.
  pose proof (observed_idle (cancel IdleTimer s) (generation_ s)) as H. rewrite view_cancel in H.
  exact (observed_trans (observed_cancel s IdleTimer) H).
Qed.

Lemma view_resetIdleTimer s : view_of (resetIdleTimer s) = view_of s.
Proof. reflexivity. Qed.

Lemma queueMessage_push p s :
  queueMessage p s =
  if negb (stream_ s) then s
  else if negb (writeInProgress_ (push p (resetIdleTimer s)))
       then beginWrite (push p (resetIdleTimer s)) else push p (resetIdleTimer s).
Proof. unfold queueMessage, push. cbv zeta. exact eq_refl. Qed.

Lemma observed_queueMessage s p :
  stream_ s = true -> observed s (queueMessage p s) (view_of s) [p] [].
Proof.
  intros Hs. rewrite queueMessage_push, Hs. cbn [negb].
  pose proof (observed_push (resetIdleTimer s) p) as H2. rewrite view_resetIdleTimer in H2.
  pose proof (observed_trans (observed_resetIdleTimer s) H2) as H3. cbn [app] in H3.
  destruct (negb _); [|exact H3].
  pose proof (observed_beginWrite (push p (resetIdleTimer s))) as H4.
  rewrite view_push, view_resetIdleTimer in H4.
  exact (observed_trans H3 H4).
Qed.

(** One message: the step of the abstract session. *)
Lemma obs_handleMessage s skipped m junk :
  Forall field_ok skipped -> Forall ignored skipped -> tv_ok m -> stream_ s = true ->
  let '(v, out, notes) := tv_step m (view_of s) in
  observed s (handleMessage (encode (skipped ++ [tv_field m]) ++ junk) s) v out notes.
Proof.
  intros Hok Hig Hm Hs. unfold handleMessage. cbv zeta. rewrite parse_tv_message by done.
  set (message := (_ ++ junk)%list).
  assert (observed s (log (Handled (generation_ s) message) s) (view_of s) [] []) as H0 by apply observed_handled.
  set (s0 := log _ s) in *. assert (stream_ s0 = true) as Hs0 by done.
  assert (view_of s0 = view_of s) as Hv by done. rewrite <- Hv in *. clearbody s0. clear Hs.
  assert (forall s' v out notes, observed s0 s' v out notes -> observed s s' v out notes) as Hfrom.
  { intros s' v out notes H'. exact (observed_trans H0 H'). }
  clear H0 Hv.
  assert (forall s1 n, observed s0 s1 (view_of s1) [] [] -> observed s (emit n s1) (view_of s1) [] [n])
    as Hemit.
  { intros s1 n H1. apply Hfrom. exact (observed_trans H1 (observed_emit s1 n)). }
  assert (forall s1 p, observed s0 s1 (view_of s1) [] [] -> stream_ s1 = true ->
    observed s (queueMessage p s1) (view_of s1) [p] []) as Hqueue.
  { intros s1 p H1 Hs1. apply Hfrom. exact (observed_trans H1 (observed_queueMessage s1 p Hs1)). }
  assert (forall s1, trace_ s1 = trace_ s0 -> generation_ s1 = generation_ s0 ->
    stream_ s1 = stream_ s0 -> callbacks_ s1 = callbacks_ s0 -> observed s0 s1 (view_of s1) [] [])
    as Hset by (intros; by apply observed_set).
  destruct m as [features md vendor version| | |pv|app|ime fld|session|on|mx lv mt];
    cbn [tv_incoming kind tv_step].
  - set (v := _ <| v_voiceEnabled := _ |>). set (s1 := _ <| deviceInfo_ := _ |>).
    assert (view_of s1 = v) as Hv by done.
    assert (activeFeatures_ s1 = Z.land (v_active (view_of s0)) features) as Ha by done.
    assert (observed s0 s1 (view_of s1) [] []) as H1 by (by apply Hset).
    assert (stream_ s1 = true) as Hs1 by done. clearbody s1 v.
    cbn [deviceInfo]. set (n := DeviceInfoChanged _). clearbody n.
    apply (Hemit s1 n) in H1.
    rewrite (emit_fields activeFeatures_) by done. rewrite Ha.
    set (p := remoteConfigureResponse _). clearbody p.
    pose proof (observed_queueMessage (emit n s1) p) as H2.
    rewrite (emit_fields stream_) in H2 by done. specialize (H2 Hs1).
    rewrite (emit_fields view_of) in H2 by done. rewrite Hv in *. exact (observed_trans H1 H2).
  - apply Hqueue; [apply observed_refl|done].
  - apply (Hemit s0), observed_refl.
  - apply Hqueue; [apply observed_refl|done].
  - set (v := _ <| v_app := _ |>). set (s1 := _ <| currentApp_ := _ |>).
    assert (view_of s1 = v) as <- by done. apply Hemit. by apply Hset.
  - set (v := _ <| v_imeField := _ |>). set (s1 := _ <| imeFieldCounter_ := _ |>).
    assert (view_of s1 = v) as <- by done. apply Hfrom. by apply Hset.
  - change (v_starting (view_of s0)) with (voiceStarting_ s0).
    destruct (voiceStarting_ s0); [|apply Hfrom, observed_refl].
    set (v := _ <| v_session := _ |>). set (s1 := _ <| voiceSessionId_ := _ |>).
    assert (view_of s1 = v) as Hv by done.
    assert (observed s0 s1 (view_of s1) [] []) as H1.
    { constructor; rewrite ?app_nil_r; try done; cbn.
      - unfold queued. rewrite omap_app. apply app_nil_r.
      - unfold notified. rewrite omap_app. apply app_nil_r. }
    assert (stream_ s1 = true) as Hs1 by done. clearbody s1 v. cbn [voiceSessionId].
    apply (Hqueue _ (remoteVoiceBegin session)) in H1; [|done].
    pose proof (observed_queueMessage s1 (remoteVoiceBegin session) Hs1) as Hq.
    set (s2 := queueMessage _ s1) in *. clearbody s2.
    rewrite <- (o_view _ _ _ _ _ Hq) in H1.
    pose proof (observed_trans H1 (observed_emit s2 (VoiceStarted session))) as H3.
    rewrite (o_view _ _ _ _ _ Hq), Hv in H3. exact H3.
  - unfold setState, emitAvailability.
    set (v := _ <| v_state := _ |>). set (s1 := _ <| state_ := _ |>).
    assert (view_of s1 = v) as Hv by done.
    assert (observed s0 s1 (view_of s1) [] []) as H1 by (by apply Hset). clearbody s1 v.
    apply (Hemit s1 (ConnectionStateIs Connected)) in H1. cbn [started].
    pose proof (observed_emit (emit (ConnectionStateIs Connected) s1) (AvailabilityChanged true)) as H2.
    pose proof (observed_emit (emit (AvailabilityChanged true) (emit (ConnectionStateIs Connected) s1))
      (PowerChanged on)) as H3.
    rewrite !(emit_fields view_of), Hv in * by done.
    exact (observed_trans H1 (observed_trans H2 H3)).
  - set (v := _ <| v_volume := _ |>). set (s1 := _ <| volumeInfo_ := _ |>).
    assert (view_of s1 = v) as <- by done. apply Hemit. by apply Hset.
Qed.

End observations.
