(* ===== verification/RemoteProps.v ===== *)
(** * Properties of the remote connection

    What holds in every state the object can reach: its public state is truthful,
    messages are handled in the order they were sent and commands are written in
    the order they were queued, whatever the interleaving of calls and completions. *)

From S2P Require Import Prelude Wire WireSpec Framing Types Messages KeyCodes RemoteState Remote.
From S2P Require Import RemoteInv RemoteSteps RemoteQuiet.

Local Open Scope Z_scope.
Local Open Scope cxx_scope.

(** ** A session, for the examples *)

Definition tv_options : Options :=
  {| clientName := "Phone"; certificateFile := "c.pem"; privateKeyFile := "k.pem";
     host := "tv"; apiPort := 6466; pairingPort := 6467; enableIme := true; enableVoice := true;
     autoReconnect := true |}.

(** Up to the end of the TLS handshake. *)
Definition opening : list choice :=
  [CallSetCallbacks Callbacks_all; CallConnect; RunPosted (Ok tt);
   Complete 0 Succeeded (Ok tt); Complete 0 Succeeded (Ok tt); Complete 0 Succeeded (Ok tt)].

(** The television says "started" (field 40), then pings (field 8). *)
Definition tv_start : list Z := [0xc2; 0x02; 0x02; 0x08; 0x01].
Definition tv_ping : list Z := [0x42; 0x02; 0x08; 0x07].

(** The length byte, the body, and the completion of the idle wait they cancelled. *)
Definition reading_start : list choice :=
  [Complete 0 (ReadByte 5) (Ok tt); Complete 1 (ReadBytes tv_start) (Ok tt);
   Complete 0 (Failed "cancelled") (Ok tt)].

Definition reading_ping : list choice :=
  [Complete 1 (ReadByte 4) (Ok tt); Complete 1 (ReadBytes tv_ping) (Ok tt)].

Definition session : list choice := opening ++ reading_start ++ reading_ping.

Definition session_end : Impl := default (Impl_init tv_options) (run session (Impl_init tv_options)).

Example session_runs :
  run session (Impl_init tv_options) = Some session_end /\
  state_ session_end = Connected /\ stream_ session_end = true /\
  ops session_end = [WaitIdle 1; WaitIdle 1; WaitIdle 1; Write 1 (frame (remotePingResponse 7));
                     ReadLength 1].
Proof. vm_compute. done. Qed.

Lemma session_reachable : reachable tv_options session_end.
Proof. exists session. split; vm_compute; reflexivity. Qed.

(** ** Every reachable state *)

(** C1. In every state the object can reach, by any interleaving of calls, posted
    function objects and completions: the empty [stream_] was never used; unless it
    is being destroyed, the public state tells the truth ([Connected] and
    [Connecting] mean a stream, [Disconnected] none, [Reconnecting] a stream or a
    timer that is still running), a stream has exactly one operation that carries it
    forward and an idle [writeQueue_] no write, a busy one exactly the write of its
    front; without a stream nothing of the current generation is in flight, nothing
    is queued and no voice session is open. *)
Theorem reachable_state_truthful (options : Options) (s : Impl) :
  reachable options s ->
  (NullStream ∉ trace_ s) /\
  (shuttingDown_ s = false ->
     state_ok s /\
     (stream_ s = true -> length (chain_ops (generation_ s) (ops s)) = 1%nat) /\
     write_ops (generation_ s) (ops s) = take 1 (writeQueue_ s)) /\
  (stream_ s = false ->
     chain_ops (generation_ s) (ops s) = [] /\ write_ops (generation_ s) (ops s) = [] /\
     writeQueue_ s = [] /\ voiceSessionId_ s = None).
Proof.
  intros (n & [] & Hn)%reachable_inv. destruct i_chain as (Hc & Hcf & Hct).
  destruct i_write as (Hw & Hb & Hd). split_and!; [apply i_base| |].
  - intros Hs. split_and!; [auto..|]. rewrite Hw.
    destruct (writeInProgress_ s); [done|]. destruct (writeQueue_ s); [done|].
    by specialize (Hd Hs ltac:(done)).
  - intros Hs. specialize (i_queue Hs). split_and!; auto.
    + apply length_zero_iff_nil. auto.
    + rewrite Hw, i_queue. by destruct (writeInProgress_ s).
Qed.

Lemma reachable_state_truthful_witness :
  (NullStream ∉ trace_ session_end) /\ length (chain_ops 1 (ops session_end)) = 1%nat.
Proof.
  destruct (reachable_state_truthful tv_options session_end) as (Hn & Hs & _).
  - apply session_reachable.
  - split; [exact Hn|]. destruct Hs as (_ & Hc & _); [vm_compute; reflexivity|].
    apply Hc. vm_compute. reflexivity.
Defined.

(** C3. Received messages: on every connection, the messages given to
    [handleMessage] are the first of those the television framed, in its order,
    unchanged, none lost or repeated; whatever else happened in between. *)
Theorem messages_in_order (options : Options) (s : Impl) (g : Z)
    (payloads : list (list Z)) (rest : list Z) :
  reachable options s ->
  Forall (fun payload => size payload < 2 ^ 64) payloads ->
  (received g (trace_ s) ++ rest)%list = concat (map frame payloads) ->
  handled g (trace_ s) `prefix_of` payloads.
Proof.
  intros (n & H & Hn)%reachable_inv Hp E.
  destruct (i_past _ _ (i_base _ _ _ _ H) g) as [_ [partial Hf]]. by eapply framed_prefix.
Qed.

Lemma messages_in_order_witness :
  handled 1 (trace_ session_end) `prefix_of` [tv_start; tv_ping; [1; 2; 3]].
Proof.
  apply (messages_in_order tv_options session_end 1 _ (frame [1; 2; 3])).
  - apply session_reachable.
  - repeat constructor.
  - vm_compute. reflexivity.
Defined.

(** C8. The incremental reader is the batch decoder: while a connection is up
    and the object is not being destroyed, the messages handled so far are exactly what [unframe] (that is [deframe], again and
    again) makes of all the bytes read so far; none is held back. *)
Theorem reader_refines_unframe (options : Options) (s : Impl) :
  reachable options s -> shuttingDown_ s = false -> stream_ s = true ->
  handled (generation_ s) (trace_ s) = unframe (received (generation_ s) (trace_ s)).
Proof.
  intros (n & [] & Hn)%reachable_inv Hs Hst. destruct i_chain as (_ & _ & Hc).
  destruct i_reading as (partial & Hp & Hops). symmetry. eapply unframe_complete; [exact Hp|].
  specialize (Hc Hs Hst).
  destruct (chain_ops (generation_ s) (ops s)) as [|op l] eqn:E; [done|].
  assert (op ∈ chain_ops (generation_ s) (ops s)) as (op' & Hop & Ho)%list_elem_of_omap
    by (rewrite E; apply elem_of_cons; by left).
  specialize (Hops _ Hop). destruct op'; cbn in Ho, Hops; try done;
    destruct (Z.eqb_spec generation (generation_ s)) as [Eg|]; try done.
  1-3: by rewrite (Hops Eg).
  - destruct (Hops Eg) as [Hu _]. by eapply unfinished_deframe.
  - destruct (Hops Eg) as (Hf & _ & ?). eapply finished_waits; [done|lia].
Qed.

Lemma reader_refines_unframe_witness :
  handled 1 (trace_ session_end) = unframe (received 1 (trace_ session_end)).
Proof.
  apply (reader_refines_unframe tv_options session_end).
  - apply session_reachable.
  - vm_compute. reflexivity.
  - vm_compute. reflexivity.
Defined.

(** C4. Written commands: as long as the object is not being destroyed, what was given to
    [async_write] on every connection are the frames of the payloads queued on it, whole,
    in the order they were queued, none lost or repeated; and the frames not given yet on
    the connection there is are those of [writeQueue_] after the one being written.
    (During a destruction, before its posted function object has run, this is false: see
    [written_twice].) *)
Theorem writes_in_order (options : Options) (s : Impl) (g : Z) :
  reachable options s -> shuttingDown_ s = false ->
  (exists payloads, payloads `prefix_of` queued g (trace_ s) /\
     written g (trace_ s) = map frame payloads) /\
  map frame (queued (generation_ s) (trace_ s)) =
    (written (generation_ s) (trace_ s) ++
     if writeInProgress_ s then tail (writeQueue_ s) else [])%list.
Proof.
  intros (n & [] & Hn)%reachable_inv Hs. split.
  - destruct (i_past _ _ i_base g) as [[rest Hpre] _]; [done|].
    exists (take (length (written g (trace_ s))) (queued g (trace_ s))).
    split; [apply prefix_take|]. rewrite <- firstn_map, Hpre, take_app_length. done.
  - rewrite (i_fifo eq_refl Hs). destruct i_write as (_ & _ & Hd).
    destruct (writeInProgress_ s); [done|]. destruct (writeQueue_ s); [done|].
    by specialize (Hd Hs ltac:(done)).
Qed.

Lemma writes_in_order_witness :
  map frame (queued 1 (trace_ session_end)) = (written 1 (trace_ session_end) ++ [])%list.
Proof.
  apply (writes_in_order tv_options session_end 1).
  - apply session_reachable.
  - vm_compute. reflexivity.
Defined.

(** Why the object must not be being destroyed: a write that fails then leaves its frame at
    the front of [writeQueue_] and the stream open, so that a message that was posted before
    the destructor's function object gives the same frame to [async_write] again. *)
Lemma written_twice :
  exists s,
    run [CallSendKey 3 Short; CallDestroy; Complete 3 (Failed "Broken pipe") (Ok tt); RunPosted (Ok tt)]
      session_end = Some s /\
    written 1 (trace_ s) = [frame (remotePingResponse 7); frame (remotePingResponse 7)] /\
    queued 1 (trace_ s) = [remotePingResponse 7; remoteKey 3 Short].
Proof. eexists. split; [vm_compute; reflexivity|]. split; vm_compute; reflexivity. Qed.

(** ** What does not happen *)

(** A completion that comes after its connection was closed changes nothing: the
    handlers of an older [generation] leave every member as it is ([lengthByte_], the
    buffer of the read, apart) and start, write and notify nothing. *)
Theorem stale_completion_inert (op : operation) (cancelled : bool) (o : outcome)
    (identity : setup) (s s' : Impl) (g : Z) :
  op_generation op = Some g -> g <> generation_ s ->
  complete op cancelled o identity s = Some s' ->
  s' = s <| lengthByte_ := lengthByte_ s' |>.
Proof.
  intros Hg Hne%Z.eqb_neq Hc.
  assert (s = s <| lengthByte_ := lengthByte_ s |>) as Hs by (by destruct s).
  destruct op; cbn [op_generation] in Hg; try done; injection Hg as ->;
    destruct o; try done; cbn [complete] in Hc;
    repeat match type of Hc with (if ?b then _ else _) = _ => destruct b eqn:? ; [|done] end;
    apply (inj Some) in Hc; subst s';
    unfold on_resolved, on_connected, on_handshake, on_length_byte, on_body, on_written, on_idle;
    cbn; rewrite ?Hne; cbn; try done.
  rewrite andb_false_r. done.
Qed.

Lemma stale_completion_inert_witness :
  exists s', complete (ReadBody 0 3) false (ReadBytes [1; 2; 3]) (Ok tt) session_end = Some s' /\
    s' = session_end <| lengthByte_ := lengthByte_ s' |>.
Proof.
  exists session_end. split; [vm_compute; reflexivity|].
  apply (stale_completion_inert (ReadBody 0 3) false (ReadBytes [1; 2; 3]) (Ok tt)
           session_end session_end 0); [reflexivity|vm_compute; discriminate|vm_compute; reflexivity].
Defined.

(** C7. A disconnection is final: from a reachable state in which the user has
    disconnected and no [connect] is waiting to run, until [connect] is called no
    operation is started (except the 2-second wait of a [startVoice] during
    destruction), there is no stream, and the state is [Disconnected] unless the
    object is being destroyed. *)
Theorem disconnect_final (options : Options) (before after : list choice) (s s' : Impl) :
  run before (Impl_init options) = Some s -> run after s = Some s' ->
  size before + size after < 2 ^ 64 ->
  userDisconnect_ s = true -> TConnect ∉ posted_ s -> CallConnect ∉ after ->
  stream_ s' = false /\ (shuttingDown_ s' = false -> state_ s' = Disconnected) /\
  exists t, trace_ s' = (trace_ s ++ t)%list /\
    forall op, Start op ∈ t -> op = WaitVoice.
Proof.
  intros Hb Ha Hn Hu Hp Hc.
  pose proof (size_nonneg before). pose proof (size_nonneg after).
  assert (inv (size before) s) as H1.
  { replace (size before) with (0 + size before) by lia.
    eapply run_inv; [apply init_inv|lia|exact Hb]. }
  destruct (rest_run _ after s s' H1 Hn (conj Hu Hp) Hc Ha) as [[Hu' _] [_ (t & Ht & Hq)]].
  assert (inv (size before + size after) s') as H2 by (by eapply run_inv).
  destruct (i_user _ _ _ _ H2 Hu') as [Hst Hd]. split_and!; [done..|].
  exists t. split; [done|]. intros op Hop. apply (proj1 (Forall_forall _ _) Hq _ (proj1 (list_elem_of_In _ _) Hop)).
Qed.

Definition session_disconnected : list choice := session ++ [CallDisconnect; RunPosted (Ok tt)].

Definition late_completions : list choice :=
  [CallSendKey 3 Short; Complete 4 (ReadByte 9) (Ok tt); Complete 3 (Failed "aborted") (Ok tt);
   RunPosted (Ok tt); Complete 0 (Failed "cancelled") (Ok tt)].

Lemma disconnect_final_witness :
  let s := default session_end (run session_disconnected (Impl_init tv_options)) in
  let s' := default session_end (run late_completions s) in
  length (pending_ s) = 5%nat /\ length (pending_ s') = 2%nat /\ state_ s' = Disconnected.
Proof.
  split_and!; [vm_compute; reflexivity|vm_compute; reflexivity|].
  eapply (disconnect_final tv_options session_disconnected late_completions).
  - vm_compute. reflexivity.
  - vm_compute. reflexivity.
  - vm_compute. reflexivity.
  - vm_compute. reflexivity.
  - vm_compute. by inversion 1.
  - intros H. repeat (apply elem_of_cons in H as [H|H]; [discriminate H|]). by inversion H.
  - vm_compute. reflexivity.
Defined.

(** C35. Destruction is final: once the destructor has begun, whatever is called,
    posted or completes, no name is resolved and no reconnection is scheduled, so
    no new connection is attempted. *)
Theorem destruction_final (after : list choice) (s s' : Impl) :
  shuttingDown_ s = true -> run after s = Some s' ->
  shuttingDown_ s' = true /\
  exists t, trace_ s' = (trace_ s ++ t)%list /\ forall op, Start op ∈ t -> begins op = false.
Proof.
  intros Hs Hr.
  destruct (shut_run s Hs after s s') as [Hs' (t & Ht & Hq)]; [done|done|].
  split; [auto|]. exists t. split; [done|]. intros op Hop.
  apply (proj1 (Forall_forall _ _) Hq _ (proj1 (list_elem_of_In _ _) Hop)).
Qed.

Lemma destruction_final_witness :
  exists s', run [Complete 4 (Failed "reset") (Ok tt); RunPosted (Ok tt)] (destroy session_end) = Some s' /\
    shuttingDown_ s' = true.
Proof.
  eexists. split; [vm_compute; reflexivity|].
  eapply (destruction_final [Complete 4 (Failed "reset") (Ok tt); RunPosted (Ok tt)]
    (destroy session_end)); vm_compute; reflexivity.
Defined.
