(* ===== verification/RemoteMirror.v ===== *)
(** * What the callbacks tell the application

    [mirror] is what an application knows that remembers the last value each callback
    gave it.  In every state the object can reach it is what the object would answer,
    so that an application with callbacks need not query. *)

From S2P Require Import Prelude Wire Types Messages KeyCodes RemoteState Remote.
From S2P Require Import RemoteInv RemoteSteps RemoteSpec RemoteProps.

Local Open Scope Z_scope.
Local Open Scope cxx_scope.

Record mirror := mkMirror {
  m_state : ConnectionState;
  m_on : bool;
  m_app : string;
  m_volume : VolumeInfo;
  m_device : DeviceInfo;
  m_available : bool;
  m_voice : option Z
}.

#[export] Instance mirror_settable : Settable mirror := fun m =>
  mkMirror (m_state m) (m_on m) (m_app m) (m_volume m) (m_device m) (m_available m) (m_voice m).

(** What is known before the first callback: the values of a new object. *)
Definition mirror_init : mirror :=
  mkMirror Disconnected false "" VolumeInfo_init DeviceInfo_init false None.

Definition learn (m : mirror) (n : notification) : mirror :=
  match n with
  | ConnectionStateIs state => m <| m_state := state |>
  | PowerChanged on => m <| m_on := on |>
  | CurrentAppChanged app => m <| m_app := app |>
  | VolumeChanged v => m <| m_volume := v |>
  | DeviceInfoChanged d => m <| m_device := d |>
  | AvailabilityChanged available => m <| m_available := available |>
  | VoiceStarted id => m <| m_voice := Some id |>
  | VoiceStopped => m <| m_voice := None |>
  | AuthenticationRequired | Error _ => m
  end.

Definition mirror_of (t : list effect) : mirror := foldl learn mirror_init (notified t).

(** The callbacks a mirror needs. *)
Definition hears (c : Callbacks) : bool :=
  onConnectionState c && onPowerChanged c && onCurrentAppChanged c && onVolumeChanged c &&
  onDeviceInfoChanged c && onAvailabilityChanged c && onVoiceStarted c && onVoiceStopped c.

(** The mirror is exact for what can be queried; an available television and an open
    voice session are never missed. *)
Record agrees (m : mirror) (s : Impl) : Prop := {
  a_state : m_state m = Observers.connectionState s;
  a_on : m_on m = Observers.isOn s;
  a_app : m_app m = Observers.currentApp s;
  a_volume : m_volume m = Observers.volumeInfo s;
  a_device : m_device m = Observers.deviceInfo s;
  a_available : Observers.connectionState s = Connected -> m_available m = true;
  a_voice : forall id, voiceSessionId_ s = Some id -> m_voice m = Some id
}.

Definition informed (s : Impl) : Prop :=
  hears (callbacks_ s) = true /\ agrees (mirror_of (trace_ s)) s.

(** Everything [informed] depends on. *)
Definition facts (s : Impl) :=
  (callbacks_ s, (state_ s, isOn_ s, currentApp_ s, volumeInfo_ s, deviceInfo_ s),
   voiceSessionId_ s, mirror_of (trace_ s)).

Ltac unfold_observers :=
  unfold Observers.connectionState, Observers.isOn, Observers.currentApp,
    Observers.volumeInfo, Observers.deviceInfo in *.

Section mirror.
Implicit Types (s : Impl).

Lemma informed_facts s s' : facts s' = facts s -> informed s -> informed s'.
Proof.
  unfold facts. intros [= Hc Hst Ho Ha Hv Hd Hvs Hm] [Hh []]. split; [congruence|].
  rewrite Hm. constructor; unfold_observers; rewrite ?Hst, ?Ho, ?Ha, ?Hv, ?Hd, ?Hvs; done.
Qed.

(** A change of members that [informed] does not mention. *)
Ltac unmentioned := eapply informed_facts; [|eassumption]; reflexivity.

(** ** What says nothing *)

Definition says_nothing (e : effect) : Prop :=
  match e with Notify _ => False | _ => True end.

Lemma mirror_log t e : says_nothing e -> mirror_of (t ++ [e]) = mirror_of t.
Proof.
  intros He. unfold mirror_of, notified. rewrite omap_app. by destruct e; cbn; rewrite ?app_nil_r.
Qed.

Lemma facts_log e s : says_nothing e -> facts (log e s) = facts s.
Proof. intros He. unfold facts. cbn. by rewrite mirror_log. Qed.

Lemma facts_start op s : facts (start op s) = facts s.
Proof. unfold start. by rewrite facts_log. Qed.

Lemma facts_start_on_stream op s : facts (start_on_stream op s) = facts s.
Proof.
  unfold start_on_stream. destruct (stream_ s); [apply facts_start|by apply facts_log].
Qed.

Lemma facts_cancel t s : facts (cancel t s) = facts s.
Proof. unfold cancel. by rewrite facts_log. Qed.

Lemma facts_delay d s : facts (s <| reconnectDelay_ := d |>) = facts s.
Proof. done. Qed.

Lemma facts_user b s : facts (s <| userDisconnect_ := b |>) = facts s.
Proof. done. Qed.

Lemma facts_starting b s : facts (s <| voiceStarting_ := b |>) = facts s.
Proof. done. Qed.

Lemma facts_work b s : facts (s <| work_ := b |>) = facts s.
Proof. done. Qed.

Lemma facts_resetIdleTimer s : facts (resetIdleTimer s) = facts s.
Proof. unfold resetIdleTimer. by rewrite facts_start, facts_cancel. Qed.

Lemma facts_beginWrite s : facts (beginWrite s) = facts s.
Proof.
  unfold beginWrite. destruct (writeQueue_ s); [done|].
  destruct (negb _); [done|]. cbv zeta. by rewrite facts_start_on_stream.
Qed.

Lemma facts_queueMessage p s : facts (queueMessage p s) = facts s.
Proof.
  unfold queueMessage. destruct (negb _); [done|]. cbv zeta.
  set (s1 := log _ _). assert (facts s1 = facts s) as H1.
  { unfold s1. rewrite facts_log by done. exact (facts_resetIdleTimer s). }
  clearbody s1. destruct (negb _); [by rewrite facts_beginWrite|done].
Qed.

Lemma facts_readOneLengthByte g s : facts (readOneLengthByte g s) = facts s.
Proof. unfold readOneLengthByte. destruct (_ || _); [done|apply facts_start_on_stream]. Qed.

Lemma facts_beginReadLength g s : facts (beginReadLength g s) = facts s.
Proof.
  unfold beginReadLength. destruct (_ || _); [done|]. cbv zeta. by rewrite facts_readOneLengthByte.
Qed.

Lemma facts_voice_loop fuel data offset id s :
  facts (sendVoiceData_loop fuel data offset id s) = facts s.
Proof.
  revert offset s. induction fuel as [|fuel IH]; intros offset s; [done|]. cbn [sendVoiceData_loop].
  destruct (_ <? _); [|done]. cbv zeta. by rewrite IH, facts_queueMessage.
Qed.

Lemma facts_ensureSslContext identity s r s' :
  ensureSslContext identity s = (r, s') -> facts s' = facts s.
Proof.
  unfold ensureSslContext. destruct (sslContext_ s); [by intros [= _ <-]|].
  by destruct identity as [e|[[]|e]]; intros [= _ <-].
Qed.

(** ** What a callback tells *)

Lemma hears_all c n : hears c = true ->
  is_set c n = true \/ forall m, learn m n = m.
Proof.
  unfold hears. rewrite !andb_true_iff. intros H. destruct n; cbn; destruct_pairs; auto.
Qed.

Lemma mirror_emit n s :
  hears (callbacks_ s) = true -> mirror_of (trace_ (emit n s)) = learn (mirror_of (trace_ s)) n.
Proof.
  intros Hc. assert (mirror_of (trace_ s ++ [Notify n]) = learn (mirror_of (trace_ s)) n) as Hl.
  { unfold mirror_of, notified. rewrite omap_app, foldl_app. done. }
  unfold emit. destruct (hears_all _ n Hc) as [->|Hn]; [exact Hl|].
  destruct (is_set _ n); [exact Hl|]. by rewrite Hn.
Qed.

Lemma informed_emit n s :
  hears (callbacks_ s) = true -> agrees (learn (mirror_of (trace_ s)) n) s -> informed (emit n s).
Proof.
  intros Hc []. split; [by rewrite emit_fields|]. rewrite mirror_emit by done.
  constructor; unfold_observers; rewrite emit_fields; done.
Qed.

(** News that change nothing known. *)
Lemma informed_emit_idle n s :
  (forall m, learn m n = m) -> informed s -> informed (emit n s).
Proof. intros Hn [Hc Ha]. apply informed_emit; [done|]. by rewrite Hn. Qed.

Lemma informed_error message s : informed s -> informed (emitError message s).
Proof. by apply informed_emit_idle. Qed.

Lemma informed_setState state s :
  state <> Connected -> informed s -> informed (setState state s).
Proof.
  intros Hs [Hc []]. unfold setState. apply informed_emit; [done|]. by constructor.
Qed.

Lemma informed_unavailable s :
  state_ s <> Connected -> informed s -> informed (emitAvailability false s).
Proof.
  intros Hs [Hc []]. unfold emitAvailability. apply informed_emit; [done|]. by constructor.
Qed.

Lemma informed_forget_session s : informed s -> informed (s <| voiceSessionId_ := None |>).
Proof. intros [Hc []]. split; [done|]. by constructor. Qed.

Lemma informed_closeStream s : informed s -> informed (closeStream s).
Proof.
  intros H%informed_forget_session. unfold closeStream. cbn. destruct (stream_ s).
  - eapply informed_facts; [|exact H]. unfold facts. cbn. by rewrite mirror_log.
  - by eapply informed_facts; [|exact H].
Qed.

(** ** The handlers *)

Lemma state_closeStream s : state_ (closeStream s) = state_ s.
Proof. unfold closeStream. cbn. by destruct (stream_ s). Qed.

(** Closing a connection that was up: the unavailability is told before the new state
    in one case and after it in the other. *)
Lemma informed_loss state s :
  state <> Connected -> informed s -> informed (setState state (emitAvailability false s)).
Proof.
  intros Hs [Hc []]. unfold setState, emitAvailability.
  apply informed_emit; [cbn; by rewrite emit_fields|].
  cbn. rewrite mirror_emit by done.
  constructor; unfold_observers; cbn; rewrite ?emit_fields; try done.
Qed.

Lemma informed_handleConnectionLoss g s : informed s -> informed (handleConnectionLoss g s).
Proof.
  intros H. unfold handleConnectionLoss. destruct (negb _); [done|]. cbv zeta.
  apply informed_closeStream in H. set (s1 := closeStream s) in *. clearbody s1.
  assert (forall state, state <> Connected ->
    informed (setState state (if bool_decide (state_ s = Connected)
                              then emitAvailability false s1 else s1))) as Hset.
  { intros state Hs. destruct bool_decide; [by apply informed_loss|by apply informed_setState]. }
  set (s2 := if bool_decide (state_ s = Connected) then emitAvailability false s1 else s1) in *.
  clearbody s2. destruct (_ && _ && _); [|by apply Hset].
  eapply informed_facts; [|by apply (Hset Reconnecting)].
  by rewrite facts_delay, facts_start, facts_cancel.
Qed.

Lemma informed_connectionFailed prefix message g s :
  informed s -> informed (connectionFailed prefix message g s).
Proof.
  intros H. unfold connectionFailed. destruct (_ || _); [done|].
  by apply informed_handleConnectionLoss, informed_error.
Qed.

Lemma informed_authenticationFailed message g s :
  informed s -> informed (authenticationFailed message g s).
Proof.
  intros H. unfold authenticationFailed. destruct (_ || _); [done|]. cbv zeta.
  apply informed_emit_idle; [done|]. set (s1 := emitError _ s).
  assert (informed (setState Disconnected (closeStream s1))) as H1
    by (by apply informed_setState, informed_closeStream, informed_error).
  destruct bool_decide; [|exact H1]. apply informed_unavailable; [by rewrite state_setState|done].
Qed.

Lemma informed_beginConnect reconnecting identity s :
  informed s -> informed (beginConnect reconnecting identity s).
Proof.
  intros H. unfold beginConnect. destruct (_ || _); [done|]. cbv zeta.
  apply informed_closeStream in H. destruct (ensureSslContext identity (closeStream s)) as [r s1] eqn:E.
  apply facts_ensureSslContext in E. apply (informed_facts _ _ E) in H. clear E. destruct r as [u|e].
  - eapply informed_facts; [apply facts_start|].
    set (state := if reconnecting then Reconnecting else Connecting).
    assert (state <> Connected) as Hs by (unfold state; by destruct reconnecting).
    by eapply informed_facts; [|by apply (informed_setState state s1)].
  - by apply informed_setState, informed_error.
Qed.

Lemma informed_handleMessage message s : informed s -> informed (handleMessage message s).
Proof.
  intros H. unfold handleMessage. cbv zeta.
  apply (informed_facts _ (log (Handled (generation_ s) message) s)) in H; [|by apply facts_log].
  set (s0 := log _ s) in *. clearbody s0. destruct H as [Hc Ha]. pose proof Ha as [].
  destruct (kind _); [by split|..].
  - eapply informed_facts; [apply facts_queueMessage|].
    apply informed_emit; [done|]. by constructor.
  - eapply informed_facts; [apply facts_queueMessage|]. by split.
  - apply informed_emit; [done|]. by constructor.
  - by split.
  - apply informed_emit; [done|]. by constructor.
  - unfold setState, emitAvailability. apply informed_emit; [by rewrite !emit_fields|].
    rewrite !mirror_emit by (by rewrite ?emit_fields).
    constructor; unfold_observers; rewrite ?emit_fields; done.
  - eapply informed_facts; [apply facts_queueMessage|]. by split.
  - by apply informed_error.
  - destruct (voiceStarting_ s0); [|by split].
    set (s1 := cancel VoiceTimer _). assert (facts s1 = facts s0) as E by (unfold s1; by rewrite facts_cancel).
    assert (informed s1) as [Hc1 []] by (apply (informed_facts _ _ E); by split).
    set (id := voiceSessionId _). pose proof (facts_queueMessage (remoteVoiceBegin id)
      (s1 <| voiceSessionId_ := Some id |>)) as Eq.
    unfold facts in Eq. injection Eq as Q1 Q2 Q3 Q4 Q5 Q6 Q7 Q8. set (s2 := queueMessage _ _) in *. clearbody s2.
    apply informed_emit; [by rewrite Q1|]. rewrite Q8. constructor; unfold_observers;
      rewrite ?Q2, ?Q3, ?Q4, ?Q5, ?Q6, ?Q7; done.
Qed.

Lemma informed_on_length_byte g o s : informed s -> informed (on_length_byte g o s).
Proof.
  intros H. unfold on_length_byte. cbv zeta.
  set (s0 := match o with inr byte => s <| lengthByte_ := byte |> | inl _ => s end).
  assert (informed s0) as H0 by (unfold s0; destruct o; [done|unmentioned]).
  clearbody s0. clear H.
  destruct (negb _); [done|]. destruct o as [m|byte]; [by apply informed_connectionFailed|].
  set (s1 := _ <| readLength_ := _ |>). assert (informed s1) as H1.
  { apply (informed_facts s0); [|done]. exact (facts_log (GotBytes g [byte]) s0 I). }
  clearbody s1. clear H0. destruct (negb _).
  - assert (informed (s1 <| readShift_ := readShift_ s1 + 7 |>)) as H2 by unmentioned.
    set (s2 := _ <| readShift_ := _ |>) in *. clearbody s2. destruct (63 <? _).
    + by apply informed_handleConnectionLoss, informed_error.
    + eapply informed_facts; [apply facts_readOneLengthByte|done].
  - destruct (MaxFrameSize <? _); [by apply informed_handleConnectionLoss, informed_error|].
    assert (informed (s1 <| readBody_ := replicate (Z.to_nat (readLength_ s1)) 0 |>)) as H2 by unmentioned.
    set (s2 := _ <| readBody_ := _ |>) in *. clearbody s2. destruct (_ =? 0).
    + eapply informed_facts; [apply facts_beginReadLength|]. by apply informed_handleMessage.
    + eapply informed_facts; [apply facts_start_on_stream|done].
Qed.

Lemma informed_on_body g o s : informed s -> informed (on_body g o s).
Proof.
  intros H. unfold on_body. cbv zeta. destruct (negb _); [done|].
  destruct o as [m|body]; [by apply informed_connectionFailed|].
  eapply informed_facts; [apply facts_beginReadLength|]. apply informed_handleMessage.
  eapply informed_facts; [apply facts_resetIdleTimer|].
  apply (informed_facts s); [|done]. exact (facts_log (GotBytes g body) s I).
Qed.

Lemma informed_on_written g o s : informed s -> informed (on_written g o s).
Proof.
  intros H. unfold on_written. destruct (negb _); [done|]. destruct o; cbv zeta.
  - apply informed_connectionFailed. unmentioned.
  - eapply informed_facts; [apply facts_beginWrite|]. unmentioned.
Qed.

Lemma informed_on_handshake g o s : informed s -> informed (on_handshake g o s).
Proof.
  intros H. unfold on_handshake. destruct (negb _); [done|]. destruct o; cbv zeta.
  - by apply informed_authenticationFailed.
  - eapply informed_facts; [by rewrite facts_resetIdleTimer, facts_beginReadLength|]. unmentioned.
Qed.

Create HintDb informed.
#[local] Hint Resolve informed_error informed_connectionFailed informed_handleConnectionLoss
  informed_beginConnect informed_on_length_byte informed_on_body informed_on_written
  informed_on_handshake : informed.

Lemma informed_complete op cancelled o identity s s' :
  informed s -> complete op cancelled o identity s = Some s' -> informed s'.
Proof.
  intros H Hc.
  destruct op, o; cbn [complete] in Hc; try done;
    repeat match type of Hc with (if ?b then _ else _) = _ => destruct b; [|done] end;
    apply (inj Some) in Hc; subst s'; auto with informed;
    unfold on_resolved, on_connected, on_reconnect, on_idle, on_voice_timeout;
    repeat match goal with |- informed (if ?b then _ else _) => destruct b end;
    auto with informed;
    first [by (eapply informed_facts; [apply facts_start_on_stream|])|apply informed_error; unmentioned].
Qed.

(** ** The posted function objects *)

Create Rewrite HintDb facts.
#[local] Hint Rewrite facts_delay facts_user facts_starting facts_work facts_start facts_cancel
  facts_queueMessage facts_voice_loop : facts.

Ltac silently := eapply informed_facts; [autorewrite with facts; reflexivity|].

Lemma informed_connect identity s : informed s -> informed (connect_task identity s).
Proof. intros H. unfold connect_task. cbv zeta. apply informed_beginConnect. by silently. Qed.

Lemma informed_disconnect s : informed s -> informed (disconnect_task s).
Proof.
  intros H. unfold disconnect_task. cbv zeta.
  apply informed_unavailable; [by rewrite state_setState|].
  apply informed_setState, informed_closeStream; [done|]. by silently.
Qed.

Lemma informed_disconnectAndWait s : informed s -> informed (disconnectAndWait_task s).
Proof.
  intros H. unfold disconnectAndWait_task. cbv zeta. eapply informed_facts; [by apply facts_log|].
  apply informed_setState, informed_closeStream; [done|]. by silently.
Qed.

Lemma informed_destroy s : informed s -> informed (destroy_task s).
Proof.
  intros H. unfold destroy_task. cbv zeta. silently. apply informed_closeStream. by silently.
Qed.

Lemma informed_startVoice s : informed s -> informed (startVoice_task s).
Proof.
  intros H. unfold startVoice_task. cbv zeta. destruct (negb (voiceEnabled_ s)); [auto with informed|].
  destruct (_ || _); [auto with informed|]. destruct (negb _); [auto with informed|]. by silently.
Qed.

Lemma informed_stopVoice s : informed s -> informed (stopVoice_task s).
Proof.
  intros H. unfold stopVoice_task. cbv zeta.
  assert (informed ((cancel VoiceTimer s) <| voiceStarting_ := false |>)) as H1 by (by silently).
  set (s1 := _ <| voiceStarting_ := false |>) in *. clearbody s1.
  destruct (voiceSessionId_ s1) as [id|]; [|done].
  assert (informed (queueMessage (remoteVoiceEnd id) s1)) as H2%informed_forget_session by (by silently).
  set (s2 := _ <| voiceSessionId_ := None |>) in *.
  assert (voiceSessionId_ s2 = None) as Hnone by done.
  clearbody s2. destruct H2 as [Hc []]. unfold emitVoiceStopped. apply informed_emit; [done|].
  constructor; try done. by rewrite Hnone.
Qed.

Lemma informed_task t identity s : informed s -> informed (run_task t identity s).
Proof.
  intros H. destruct t; cbn [run_task].
  - by apply informed_connect.
  - by apply informed_disconnect.
  - by silently.
  - unfold sendText_task. by silently.
  - by apply informed_startVoice.
  - unfold sendVoiceData_task. destruct (voiceSessionId_ s); [by silently|done].
  - by apply informed_stopVoice.
  - by apply informed_disconnectAndWait.
  - by apply informed_destroy.
Qed.

(** ** Every turn *)

Lemma informed_exec c s s' :
  (forall callbacks, c <> CallSetCallbacks callbacks) ->
  informed s -> exec c s = Some s' -> informed s'.
Proof.
  intros Hc H He.
  destruct c; cbn [exec] in He; try (apply (inj Some) in He; subst s'); try unmentioned.
  - unfold sendKeyName. destruct (keyCodeFromName keyName); cbn [or_unchanged]; [unmentioned|done].
  - unfold sendText. destruct (bool_decide _); cbn [or_unchanged]; [done|unmentioned].
  - by destruct (Hc callbacks).
  - destruct (posted_ s) as [|t rest]; [done|]. apply (inj Some) in He. subst s'.
    apply informed_task. unmentioned.
  - destruct (pending_ s !! i) as [[op c]|]; [|done]. eapply informed_complete; [|exact He]. unmentioned.
Qed.

End mirror.

(** C2. An application that remembers what the callbacks told it last knows the public
    state. When the callbacks are set on a new object, then after any sequence of calls,
    posted function objects and completions (but no other [setCallbacks]) the
    connection state, the power state, the application, the volume and the device it was
    told of are those the object would answer; a television that is connected was
    announced as available, and an open voice session was announced with its number. *)
Theorem callbacks_mirror (options : Options) (callbacks : Callbacks) (cs : list choice) (s : Impl) :
  hears callbacks = true -> (forall c, CallSetCallbacks c ∉ cs) ->
  run (CallSetCallbacks callbacks :: cs) (Impl_init options) = Some s ->
  agrees (mirror_of (trace_ s)) s.
Proof.
  intros Hh Hcs Hr. cbn [run exec] in Hr.
  assert (informed (setCallbacks callbacks (Impl_init options))) as H by (by split).
  revert H Hr Hcs. generalize (setCallbacks callbacks (Impl_init options)).
  induction cs as [|c cs IH]; intros s0 H Hr Hcs; cbn [run] in Hr.
  { injection Hr as <-. apply H. }
  destruct (exec c s0) as [s1|] eqn:He; [|done].
  apply (IH s1); [|done|intros c' Hc'; by apply (Hcs c'), elem_of_cons; right].
  eapply informed_exec; [|exact H|exact He].
  intros c' ->. apply (Hcs c'), elem_of_cons. by left.
Qed.

Lemma callbacks_mirror_witness :
  mirror_of (trace_ session_end) =
    {| m_state := Connected; m_on := true; m_app := EmptyString; m_volume := VolumeInfo_init;
       m_device := DeviceInfo_init; m_available := true; m_voice := None |} /\
  agrees (mirror_of (trace_ session_end)) session_end.
Proof.
  split; [vm_compute; reflexivity|].
  apply (callbacks_mirror tv_options Callbacks_all (tail session)); [reflexivity| |vm_compute; reflexivity].
  intros c H. repeat (apply elem_of_cons in H as [H|H]; [discriminate H|]). by inversion H.
Defined.

(** The converse of [a_available] fails: [connect] on a connected object gives the
    connection up without announcing that the television is no longer available. *)
Lemma availability_lags :
  exists s, run [CallConnect; RunPosted (Ok tt)] session_end = Some s /\
    state_ s = Connecting /\ m_available (mirror_of (trace_ s)) = true.
Proof. eexists. split; [vm_compute; reflexivity|]. split; vm_compute; reflexivity. Qed.
