(* ===== verification/RemoteBehaviour.v ===== *)
(** * How the remote connection behaves

    The refinement of the abstract session of [RemoteSpec.v], and what each event of
    a connection's life does: a loss, a refused handshake, a failed attempt to
    reconnect, a voice session, a call that is rejected. *)

From S2P Require Import Prelude Wire WireSpec Types Messages MessagesSpec KeyCodes RemoteState Remote.
From S2P Require Import RemoteInv RemoteSteps RemoteSpec.

Local Open Scope Z_scope.
Local Open Scope cxx_scope.

(** ** The session *)

Definition handle_all (ms : list tv_message) (s : Impl) : Impl :=
  foldl (fun s m => handleMessage (encode [tv_field m]) s) s ms.

Lemma obs_handle_all ms s :
  Forall tv_ok ms -> stream_ s = true ->
  let '(v, out, notes) := tv_steps ms (view_of s) in observed s (handle_all ms s) v out notes.
Proof.
  intros Hms. revert s. induction Hms as [|m ms Hm Hms IH]; intros s Hs; [apply observed_refl|].
  pose proof (obs_handleMessage s [] m [] ltac:(done) ltac:(done) Hm Hs) as H1.
  rewrite app_nil_r in H1. cbn [app] in H1. cbn [handle_all foldl tv_steps].
  change (foldl _ _ ms) with (handle_all ms (handleMessage (encode [tv_field m]) s)).
  destruct (tv_step m (view_of s)) as [[v out] notes].
  set (s1 := handleMessage (encode [tv_field m]) s) in *. clearbody s1.
  assert (stream_ s1 = true) as Hs1 by (rewrite (o_stream _ _ _ _ _ H1); done).
  specialize (IH s1 Hs1). rewrite (o_view _ _ _ _ _ H1) in IH.
  destruct (tv_steps ms v) as [[v' out'] notes']. exact (observed_trans H1 IH).
Qed.

(** C5. Refinement.  Handling any sequence of well-formed messages of the television
    does what the abstract session does: the members the application can query have
    the values of [tv_steps], the answers it prescribes are queued, in order, and
    exactly its notifications are delivered, those whose callback is set. *)
Theorem session_refines (ms : list tv_message) (s : Impl) (v : view) (out : list (list Z))
    (notes : list notification) :
  Forall tv_ok ms -> stream_ s = true -> tv_steps ms (view_of s) = (v, out, notes) ->
  let s' := handle_all ms s in
  view_of s' = v /\
  queued (generation_ s) (trace_ s') = (queued (generation_ s) (trace_ s) ++ out)%list /\
  notified (trace_ s') = (notified (trace_ s) ++ List.filter (is_set (callbacks_ s)) notes)%list /\
  generation_ s' = generation_ s /\ stream_ s' = true.
Proof.
  intros Hms Hs E. pose proof (obs_handle_all ms s Hms Hs) as H. rewrite E in H.
  destruct H. cbv zeta. split_and!; congruence.
Qed.

(** A connection that is up, for the examples. *)
Definition online : Impl :=
  (Impl_init Options_init) <| stream_ := true |> <| callbacks_ := Callbacks_all |>.

Definition example_session : list tv_message :=
  [TvConfigure 623 "Model" "Vendor" "1.2"; TvSetActive; TvStart true; TvPing 7; TvVolume 30 12 false;
   TvVoiceBegin 5].

Lemma session_refines_witness :
  view_of (handle_all example_session online) = (tv_steps example_session (view_of online)).1.1.
Proof.
  destruct (tv_steps example_session (view_of online)) as [[v out] notes] eqn:E. cbn [fst].
  apply (session_refines example_session online v out notes); [|reflexivity|exact E].
  repeat constructor; vm_compute; try reflexivity; discriminate.
Defined.

(** The opening of a session: after the television's configuration, its
    [remote_set_active] and its start message the client is [Connected] and
    available, knows the device and the power state, and has queued exactly two
    answers, both announcing the features that the client offers and the television
    supports; voice is enabled exactly when both sides have it. *)
Theorem session_opens (s : Impl) (features : Z) (model vendor version : string) (on : bool) :
  stream_ s = true -> in_i32 features -> text_ok model -> text_ok vendor -> text_ok version ->
  let s' := handle_all [TvConfigure features model vendor version; TvSetActive; TvStart on] s in
  let active := Z.land (activeFeatures_ s) features in
  state_ s' = Connected /\ isOn_ s' = on /\ activeFeatures_ s' = active /\
  deviceInfo_ s' = {| manufacturer := vendor; model := model; softwareVersion := version |} /\
  (voiceEnabled_ s' = true <-> Z.land active FeatureVoice <> 0) /\
  queued (generation_ s) (trace_ s') =
    (queued (generation_ s) (trace_ s) ++
     [remoteConfigureResponse active; remoteSetActiveResponse active])%list.
Proof.
  intros Hs Hf Hm Hv Hver. cbv zeta.
  pose proof (obs_handle_all [TvConfigure features model vendor version; TvSetActive; TvStart on] s)
    as H.
  specialize (H ltac:(by repeat apply Forall_cons_2) Hs). cbn [tv_steps tv_step app] in H.
  set (s' := handle_all _ s) in *. clearbody s'. destruct H as [Hview Hq _ _ _ _].
  set (device := {| manufacturer := _ |}) in *. set (active := Z.land (activeFeatures_ s) features) in *.
  assert (view_of s' = mkView Connected device (volumeInfo_ s) (currentApp_ s) on
    (negb (Z.land active FeatureVoice =? 0)) active features (imeCounter_ s) (imeFieldCounter_ s)
    (voiceStarting_ s) (voiceSessionId_ s)) as Hv' by (rewrite Hview; reflexivity).
  clear Hview. rename Hv' into Hview.
  split_and!; [exact (f_equal v_state Hview)|exact (f_equal v_on Hview)|exact (f_equal v_active Hview)|
    exact (f_equal v_device Hview)| |exact Hq].
  rewrite (f_equal v_voiceEnabled Hview : voiceEnabled_ s' = negb (Z.land active FeatureVoice =? 0)).
  case_test; cbn; [|done]. by split.
Qed.

Lemma session_opens_witness :
  state_ (handle_all [TvConfigure 623 "Model" "Vendor" "1.2"; TvSetActive; TvStart true] online) =
  Connected.
Proof.
  apply (session_opens online 623 "Model" "Vendor" "1.2" true);
    vm_compute; try split; try reflexivity; discriminate.
Defined.

(** ** Losing the connection, and reconnecting *)

(** The delays of the reconnections that were scheduled. *)
Definition waits (t : list effect) : list Z :=
  omap (fun e => match e with Start (WaitReconnect d) => Some d | _ => None end) t.

#[global] Arguments waits : simpl never.

(** What decides about reconnecting; [closeStream] and the notifications keep it. *)
Record link := mkLink {
  l_auto : bool;
  l_user : bool;
  l_shut : bool;
  l_context : option bool;
  l_delay : Z;
  l_waits : list Z
}.

Definition link_of (s : Impl) : link :=
  mkLink (autoReconnect (options_ s)) (userDisconnect_ s) (shuttingDown_ s) (sslContext_ s)
    (reconnectDelay_ s) (waits (trace_ s)).

Section reconnecting.

Lemma waits_snoc t e :
  (forall d, e <> Start (WaitReconnect d)) -> waits (t ++ [e]) = waits t.
Proof.
  intros He. unfold waits. rewrite omap_app. destruct e as [|[]| | | | | | |]; try apply app_nil_r.
  by destruct (He delay).
Qed.

Lemma link_log e s : (forall d, e <> Start (WaitReconnect d)) -> link_of (log e s) = link_of s.
Proof. intros He. unfold link_of. cbn. by rewrite waits_snoc. Qed.

Lemma link_emit n s : link_of (emit n s) = link_of s.
Proof. unfold emit. destruct is_set; [by apply link_log|done]. Qed.

Lemma link_setState state s : link_of (setState state s) = link_of s.
Proof. unfold setState. by rewrite link_emit. Qed.

Lemma link_cancel t s : link_of (cancel t s) = link_of s.
Proof. unfold link_of. cbn. by rewrite waits_snoc. Qed.

Lemma link_closeStream s : link_of (closeStream s) = link_of s.
Proof. unfold closeStream. cbn. destruct (stream_ s); unfold link_of; cbn; by rewrite ?waits_snoc. Qed.

Lemma notified_emit n s :
  notified (trace_ (emit n s)) =
  (notified (trace_ s) ++ List.filter (is_set (callbacks_ s)) [n])%list.
Proof.
  unfold emit, notified. cbn. destruct (is_set (callbacks_ s) n); cbn; [|by rewrite app_nil_r].
  by rewrite omap_app.
Qed.

Lemma notified_setState state s :
  notified (trace_ (setState state s)) =
  (notified (trace_ s) ++ List.filter (is_set (callbacks_ s)) [ConnectionStateIs state])%list.
Proof. unfold setState. by rewrite notified_emit. Qed.

Lemma callbacks_setState state s : callbacks_ (setState state s) = callbacks_ s.
Proof. unfold setState. by rewrite emit_fields. Qed.

Lemma pending_setState state s : pending_ (setState state s) = pending_ s.
Proof. unfold setState. by rewrite emit_fields. Qed.

Lemma stream_setState state s : stream_ (setState state s) = stream_ s.
Proof. unfold setState. by rewrite emit_fields. Qed.

(** What closing keeps and what it resets; no callback hears of it. *)
Lemma closeStream_keeps s :
  callbacks_ (closeStream s) = callbacks_ s /\ pending_ (closeStream s) = pending_ s /\
  notified (trace_ (closeStream s)) = notified (trace_ s) /\ stream_ (closeStream s) = false /\
  voiceSessionId_ (closeStream s) = None /\ voiceStarting_ (closeStream s) = false /\
  writeQueue_ (closeStream s) = [].
Proof.
  unfold closeStream. cbn. destruct (stream_ s) eqn:E; cbn; split_and!; try done.
  unfold notified. rewrite omap_app. apply app_nil_r.
Qed.

(** From here on these are known by their lemmas. *)
#[local] Opaque closeStream setState emit.

Lemma link_wait s d d' :
  link_of ((start (WaitReconnect d) (cancel ReconnectTimer s)) <| reconnectDelay_ := d' |>) =
  mkLink (l_auto (link_of s)) (l_user (link_of s)) (l_shut (link_of s)) (l_context (link_of s)) d'
    (l_waits (link_of s) ++ [d])%list.
Proof.
  unfold link_of. cbn. f_equal. unfold waits. rewrite !omap_app. cbn. by rewrite app_nil_r.
Qed.

(** A loss, when the object is to reconnect. *)
Definition may_reconnect (l : link) : Prop :=
  l_auto l = true /\ l_user l = false /\ l_shut l = false /\ l_context l = Some true.

Definition lost (l : link) : link :=
  mkLink true false false (Some true) (Z.min (l_delay l * 2) 30000) (l_waits l ++ [l_delay l])%list.

Lemma link_loss s :
  may_reconnect (link_of s) ->
  link_of (handleConnectionLoss (generation_ s) s) = lost (link_of s) /\
  state_ (handleConnectionLoss (generation_ s) s) = Reconnecting.
Proof.
  intros H. unfold handleConnectionLoss. rewrite Z.eqb_refl. cbn [negb]. cbv zeta.
  set (s1 := if bool_decide _ then _ else _).
  assert (link_of s1 = link_of s) as Hl.
  { unfold s1, emitAvailability. destruct bool_decide; rewrite ?link_emit; apply link_closeStream. }
  clearbody s1. rewrite <- Hl in H |- *. clear Hl.
  destruct H as (Ha & Hu & Hs & Hc). cbn in Ha, Hu, Hs. rewrite Ha, Hu, Hs. cbn [negb andb].
  pose proof (link_setState Reconnecting s1) as Hl. pose proof (state_setState Reconnecting s1) as Hst.
  set (s2 := setState Reconnecting s1) in *. clearbody s2. rewrite <- Hl. rewrite <- Hl in Hc.
  assert (l_auto (link_of s2) = true /\ l_user (link_of s2) = false /\ l_shut (link_of s2) = false)
    as (Ha2 & Hu2 & Hs2) by (rewrite Hl; done).
  clear Hl. split; [|exact Hst]. rewrite link_wait, Ha2, Hu2, Hs2, Hc. reflexivity.
Qed.

(** How an attempt fails before there is a connection. *)
Inductive failure :=
  | NotResolved (message : string)
  | NotConnected (message : string).

(** One attempt that fails: the timer fires and the host is not resolved, or it is and the
    TCP connection fails. *)
Definition failed_attempt (identity : setup) (f : failure) (s : Impl) : Impl :=
  let s := on_reconnect None identity s in
  match f with
  | NotResolved message => on_resolved (generation_ s) (Some message) s
  | NotConnected message =>
      let s := on_resolved (generation_ s) None s in
      on_connected (generation_ s) (Some message) s
  end.

(** The first failure of the list comes first. *)
Definition failed_attempts (identity : setup) (fs : list failure) (s : Impl) : Impl :=
  foldl (fun s f => failed_attempt identity f s) s fs.

Lemma link_start op s : (forall d, op <> WaitReconnect d) -> link_of (start op s) = link_of s.
Proof. intros H. unfold link_of. cbn. rewrite waits_snoc; [done|]. intros d [= E]. by destruct (H d). Qed.

Lemma link_stream b s : link_of (s <| stream_ := b |>) = link_of s.
Proof. reflexivity. Qed.

Lemma context_closeStream s : sslContext_ (closeStream s) = sslContext_ s.
Proof.
  assert (forall s, l_context (link_of s) = sslContext_ s) as H by done.
  by rewrite <- !H, link_closeStream.
Qed.

(** [beginConnect], once the context exists. *)
Lemma beginConnect_again b reconnecting identity s :
  shuttingDown_ s = false -> userDisconnect_ s = false -> sslContext_ s = Some b ->
  beginConnect reconnecting identity s =
  let s1 := (setState (if reconnecting then Reconnecting else Connecting) (closeStream s))
              <| stream_ := true |> in
  start (Resolve (generation_ (closeStream s)) (host (options_ s1)) (apiPort (options_ s1))) s1.
Proof.
  intros Hs Hu Hc. unfold beginConnect. rewrite Hs, Hu. cbv beta iota zeta delta [orb].
  unfold ensureSslContext at 1. rewrite context_closeStream, Hc. cbv beta iota zeta. exact eq_refl.
Qed.

Lemma link_beginConnect identity s :
  may_reconnect (link_of s) -> link_of (beginConnect true identity s) = link_of s.
Proof.
  intros (_ & Hu & Hs & Hc). rewrite (beginConnect_again true) by assumption. cbv zeta.
  rewrite link_start by done. by rewrite link_stream, link_setState, link_closeStream.
Qed.

Lemma link_connectionFailed prefix message s :
  may_reconnect (link_of s) ->
  link_of (connectionFailed prefix message (generation_ s) s) = lost (link_of s) /\
  state_ (connectionFailed prefix message (generation_ s) s) = Reconnecting.
Proof.
  intros H. pose proof H as (_ & Hu & Hs & _). cbn in Hu, Hs.
  unfold connectionFailed. rewrite Z.eqb_refl, Hu, Hs. cbn [negb orb].
  unfold emitError. set (n := Error _). clearbody n.
  rewrite <- (link_emit n s) in H |- *. rewrite <- (emit_fields generation_ n s) by done.
  by apply link_loss.
Qed.

Lemma link_on_stream op s :
  (forall d, op <> WaitReconnect d) -> link_of (start_on_stream op s) = link_of s.
Proof. intros H. unfold start_on_stream. destruct (stream_ s); [by apply link_start|by apply link_log]. Qed.

Lemma link_failed_attempt identity f s :
  may_reconnect (link_of s) ->
  link_of (failed_attempt identity f s) = lost (link_of s) /\
  state_ (failed_attempt identity f s) = Reconnecting.
Proof.
  intros H. pose proof H as (_ & Hu & _). cbn in Hu. unfold failed_attempt, on_reconnect.
  rewrite Hu. cbn [negb]. pose proof (link_beginConnect identity s H) as Hl.
  set (s1 := beginConnect true identity s) in *. clearbody s1. rewrite <- Hl in H |- *.
  destruct f as [message|message]; cbv zeta; unfold on_resolved; rewrite Z.eqb_refl; cbn [negb].
  - by apply link_connectionFailed.
  - pose proof (link_on_stream (Connect (generation_ s1)) s1 ltac:(done)) as Hl2.
    set (s2 := start_on_stream _ s1) in *. clearbody s2. rewrite <- Hl2 in H |- *.
    unfold on_connected. rewrite Z.eqb_refl. cbn [negb]. by apply link_connectionFailed.
Qed.

Lemma link_refused message s :
  may_reconnect (link_of s) ->
  link_of (on_handshake (generation_ s) (Some message) s) = link_of s /\
  state_ (on_handshake (generation_ s) (Some message) s) = Disconnected.
Proof.
  intros (_ & Hu & Hs & _). cbn in Hu, Hs.
  unfold on_handshake, authenticationFailed, emitError, emitAvailability.
  rewrite Z.eqb_refl. rewrite Hu, Hs. cbn [negb orb]. cbv zeta.
  destruct (bool_decide _);
    rewrite !link_emit, link_setState, link_closeStream, link_emit, !(emit_fields state_) by done;
    by rewrite state_setState.
Qed.

Lemma backoff_step k : Z.min (Z.min (100 * 2 ^ Z.of_nat k) 30000 * 2) 30000 =
  Z.min (100 * 2 ^ Z.of_nat (S k)) 30000.
Proof. rewrite Nat2Z.inj_succ, Z.pow_succ_r by lia. lia. Qed.

(** C12. Exponential backoff, of an object that reconnects by itself, has loaded its identity,
    is neither disconnected by the user nor being destroyed, and whose delay is 100: when
    attempts fail one after the other, each because the host is not resolved or because the
    TCP connection fails, the k-th failure (from 0) schedules the next attempt after min(100 * 2^k, 30000) milliseconds, so that there is
    always a next one, and the state is [Reconnecting] in between. A handshake that succeeds
    then sets the delay back to 100 milliseconds; one that fails ends the attempts: the
    state is [Disconnected] and no other is scheduled. *)
Theorem reconnect_backoff (identity : setup) (fs : list failure) (message : string) (s : Impl) :
  may_reconnect (link_of s) -> reconnectDelay_ s = 100 ->
  let k := length fs in
  let s' := failed_attempts identity fs s in
  waits (trace_ s') =
    (waits (trace_ s) ++ map (fun i => Z.min (100 * 2 ^ Z.of_nat i) 30000) (seq 0 k))%list /\
  reconnectDelay_ s' = Z.min (100 * 2 ^ Z.of_nat k) 30000 /\
  (fs <> [] -> state_ s' = Reconnecting) /\
  reconnectDelay_ (on_handshake (generation_ s') None s') = 100 /\
  let refused := on_handshake (generation_ s') (Some message) s' in
  state_ refused = Disconnected /\ waits (trace_ refused) = waits (trace_ s').
Proof.
  intros H Hd. cbv zeta.
  assert (link_of (failed_attempts identity fs s) =
    mkLink true false false (Some true) (Z.min (100 * 2 ^ Z.of_nat (length fs)) 30000)
      (waits (trace_ s) ++ map (fun i => Z.min (100 * 2 ^ Z.of_nat i) 30000) (seq 0 (length fs)))%list /\
    (fs <> [] -> state_ (failed_attempts identity fs s) = Reconnecting)) as [Hl Hst].
  { induction fs as [|f fs [IH _]] using rev_ind.
    - split; [|done]. destruct H as (Ha & Hu & Hs & Hc). cbn in Ha, Hu, Hs, Hc.
      unfold link_of. cbn [failed_attempts foldl]. rewrite Ha, Hu, Hs, Hc, Hd. cbn. by rewrite app_nil_r.
    - unfold failed_attempts in *. rewrite foldl_snoc, length_app, Nat.add_comm. cbn [length Nat.add].
      set (s' := foldl _ s fs) in *. clearbody s'.
      destruct (link_failed_attempt identity f s') as [Hl Hst]; [by rewrite IH|].
      split; [|done]. rewrite Hl, IH. unfold lost. cbn [l_delay l_waits].
      rewrite backoff_step, seq_S, map_app, app_assoc. done. }
  set (s' := failed_attempts identity fs s) in *. clearbody s'.
  destruct (link_refused message s') as [Hr Hrs]; [by rewrite Hl|].
  split_and!; [exact (f_equal l_waits Hl)|exact (f_equal l_delay Hl)|exact Hst| |exact Hrs|
    exact (f_equal l_waits Hr)].
  unfold on_handshake, beginReadLength, readOneLengthByte, start_on_stream. rewrite Z.eqb_refl.
  cbn. rewrite Z.eqb_refl. by destruct (stream_ s').
Qed.

Definition lost_once : Impl :=
  (Impl_init Options_init) <| userDisconnect_ := false |> <| sslContext_ := Some true |>.

(** The host is unknown, then refuses the connection. *)
Definition ten_failures : list failure :=
  repeat (NotResolved "Host not found (authoritative)") 4 ++ repeat (NotConnected "Connection refused") 6.

Lemma reconnect_backoff_witness :
  waits (trace_ (failed_attempts (Ok tt) ten_failures lost_once)) =
    [100; 200; 400; 800; 1600; 3200; 6400; 12800; 25600; 30000] /\
  let s' := failed_attempts (Ok tt) ten_failures lost_once in
  state_ (on_handshake (generation_ s') (Some "certificate required") s') = Disconnected.
Proof.
  destruct (reconnect_backoff (Ok tt) ten_failures "certificate required" lost_once)
    as (H & _ & _ & _ & H' & _); [by repeat split|reflexivity|].
  split; [|exact H']. rewrite H. vm_compute. reflexivity.
Defined.

End reconnecting.

(** What the loss of a connection leaves, before the object decides what to do next. *)
Lemma loss_told (s : Impl) :
  let was := bool_decide (state_ s = Connected) in
  let s2 := if was then emitAvailability false (closeStream s) else closeStream s in
  callbacks_ s2 = callbacks_ s /\ pending_ s2 = pending_ s /\ stream_ s2 = false /\
  writeQueue_ s2 = [] /\ voiceSessionId_ s2 = None /\ link_of s2 = link_of s /\
  notified (trace_ s2) = (notified (trace_ s) ++
    List.filter (is_set (callbacks_ s)) (if was then [AvailabilityChanged false] else []))%list.
Proof.
  cbv zeta. destruct (closeStream_keeps s) as (Hcb & Hp & Hn & Hst & Hv & Hvs & Hq).
  pose proof (link_closeStream s) as Hl. set (s1 := closeStream s) in *. clearbody s1.
  unfold emitAvailability. destruct bool_decide.
  - rewrite !(emit_fields _ _ s1) by done. rewrite link_emit, notified_emit, Hcb, Hn. done.
  - rewrite app_nil_r. done.
Qed.

(** Scheduling the next attempt. *)
Lemma loss_scheduled (s : Impl) :
  let s3 := setState Reconnecting s in
  let s4 := cancel ReconnectTimer s3 in
  let s' := (start (WaitReconnect (reconnectDelay_ s4)) s4)
              <| reconnectDelay_ := Z.min (reconnectDelay_ s4 * 2) 30000 |> in
  state_ s' = Reconnecting /\ stream_ s' = stream_ s /\ writeQueue_ s' = writeQueue_ s /\
  voiceSessionId_ s' = voiceSessionId_ s /\
  notified (trace_ s') = (notified (trace_ s) ++
    List.filter (is_set (callbacks_ s)) [ConnectionStateIs Reconnecting])%list /\
  ops s' = (ops s ++ [WaitReconnect (reconnectDelay_ s)])%list.
Proof.
  cbv zeta. rewrite <- notified_setState.
  assert (reconnectDelay_ (setState Reconnecting s) = reconnectDelay_ s /\
    writeQueue_ (setState Reconnecting s) = writeQueue_ s /\
    voiceSessionId_ (setState Reconnecting s) = voiceSessionId_ s) as (Ed & Eq & Ev)
    by (unfold setState; by rewrite !emit_fields).
  pose proof (state_setState Reconnecting s) as Es. pose proof (stream_setState Reconnecting s) as Et.
  pose proof (pending_setState Reconnecting s) as Ep.
  set (s3 := setState Reconnecting s) in *. clearbody s3. rewrite <- Ed.
  split_and!; try assumption.
  - cbn. unfold notified. by rewrite !omap_app, !app_nil_r.
  - change (ops (start (WaitReconnect (reconnectDelay_ s3)) (cancel ReconnectTimer s3)) =
            (ops s ++ [WaitReconnect (reconnectDelay_ s3)])%list).
    rewrite ops_start, ops_cancel. unfold ops. by rewrite Ep.
Qed.

Lemma handleConnectionLoss_exact (s : Impl) :
  let s' := handleConnectionLoss (generation_ s) s in
  let again := autoReconnect (options_ s) && negb (userDisconnect_ s) && negb (shuttingDown_ s) in
  let state := if again then Reconnecting else Disconnected in
  state_ s' = state /\ stream_ s' = false /\ writeQueue_ s' = [] /\ voiceSessionId_ s' = None /\
  notified (trace_ s') =
    (notified (trace_ s) ++ List.filter (is_set (callbacks_ s))
       ((if bool_decide (state_ s = Connected) then [AvailabilityChanged false] else []) ++
        [ConnectionStateIs state]))%list /\
  ops s' = (ops s ++ if again then [WaitReconnect (reconnectDelay_ s)] else [])%list.
Proof.
  cbv zeta. unfold handleConnectionLoss. rewrite Z.eqb_refl. cbn [negb]. cbv zeta.
  pose proof (loss_told s) as H. cbv zeta in H.
  set (was := bool_decide (state_ s = Connected)) in *. clearbody was.
  set (s2 := if was then emitAvailability false (closeStream s) else closeStream s) in *. clearbody s2.
  destruct H as (Hcb & Hp & Hst & Hq & Hv & Hl & Hn).
  rewrite (f_equal l_auto Hl : autoReconnect (options_ s2) = autoReconnect (options_ s)),
    (f_equal l_user Hl : userDisconnect_ s2 = userDisconnect_ s),
    (f_equal l_shut Hl : shuttingDown_ s2 = shuttingDown_ s).
  rewrite List.filter_app, app_assoc, <- Hn, <- Hcb.
  rewrite <- (f_equal l_delay Hl : reconnectDelay_ s2 = reconnectDelay_ s).
  assert (ops s2 = ops s) as <- by (unfold ops; by rewrite Hp).
  destruct (_ && _ && _).
  - destruct (loss_scheduled s2) as (E1 & E2 & E3 & E4 & E5 & E6).
    rewrite Hst in E2. rewrite Hq in E3. rewrite Hv in E4. by split_and!.
  - rewrite app_nil_r, state_setState, stream_setState, notified_setState. unfold ops.
    rewrite pending_setState. unfold setState.
    rewrite !(emit_fields _ _ (s2 <| state_ := Disconnected |>)) by done. by split_and!.
Qed.

(** C11. The loss of a connection, exactly: the stream is closed, and with it the
    queue and any voice session; the callbacks hear that the television is no longer
    available if it was, then of the new state, and of nothing else (in particular
    not that a voice session ended); and the only operation in flight that is new is
    the timer of the next attempt, if there is to be one. *)
Theorem connection_lost (s : Impl) :
  let s' := handleConnectionLoss (generation_ s) s in
  let again := autoReconnect (options_ s) && negb (userDisconnect_ s) && negb (shuttingDown_ s) in
  let state := if again then Reconnecting else Disconnected in
  state_ s' = state /\ stream_ s' = false /\ writeQueue_ s' = [] /\ voiceSessionId_ s' = None /\
  notified (trace_ s') =
    (notified (trace_ s) ++ List.filter (is_set (callbacks_ s))
       ((if bool_decide (state_ s = Connected) then [AvailabilityChanged false] else []) ++
        [ConnectionStateIs state]))%list /\
  ops s' = (ops s ++ if again then [WaitReconnect (reconnectDelay_ s)] else [])%list.
Proof. intros s' again state. exact (handleConnectionLoss_exact s). Qed.

Lemma waits_emit n s : waits (trace_ (emit n s)) = waits (trace_ s).
Proof. exact (f_equal l_waits (link_emit n s)). Qed.

Lemma waits_setState state s : waits (trace_ (setState state s)) = waits (trace_ s).
Proof. exact (f_equal l_waits (link_setState state s)). Qed.

Lemma waits_closeStream s : waits (trace_ (closeStream s)) = waits (trace_ s).
Proof.
  assert (forall s, l_waits (link_of s) = waits (trace_ s)) as H by done.
  by rewrite <- !H, link_closeStream.
Qed.

(** Closing for good: what follows the error message of a refused handshake. *)
Lemma refuse (was : bool) (s : Impl) :
  let s1 := setState Disconnected (closeStream s) in
  let s' := emit AuthenticationRequired (if was then emit (AvailabilityChanged false) s1 else s1) in
  state_ s' = Disconnected /\ stream_ s' = false /\ pending_ s' = pending_ s /\
  waits (trace_ s') = waits (trace_ s) /\
  notified (trace_ s') =
    (notified (trace_ s) ++ List.filter (is_set (callbacks_ s))
       ([ConnectionStateIs Disconnected] ++ (if was then [AvailabilityChanged false] else []) ++
        [AuthenticationRequired]))%list.
Proof.
  destruct (closeStream_keeps s) as (Hcb & Hp & Hn & Hst & _).
  pose proof (waits_closeStream s) as Hw. cbv zeta.
  set (s1 := closeStream s) in *. clearbody s1. destruct was.
  - rewrite !(emit_fields state_), !(emit_fields stream_), !(emit_fields pending_), !waits_emit,
      !notified_emit, (emit_fields callbacks_) by done.
    rewrite state_setState, stream_setState, pending_setState, callbacks_setState, waits_setState,
      notified_setState, Hcb, Hn.
    split_and!; try done. by rewrite <- !app_assoc, <- !List.filter_app.
  - rewrite (emit_fields state_), (emit_fields stream_), (emit_fields pending_), waits_emit,
      notified_emit by done.
    rewrite state_setState, stream_setState, pending_setState, callbacks_setState, waits_setState,
      notified_setState, Hcb, Hn.
    split_and!; try done. by rewrite <- !app_assoc, <- !List.filter_app.
Qed.

(** A refused handshake asks for pairing and stops there: the error, the new
    state, the unavailability if there is one, and [onAuthenticationRequired] are
    reported, in this order; nothing is started, so no reconnection follows. *)
Theorem handshake_refused (message : string) (s : Impl) :
  userDisconnect_ s = false -> shuttingDown_ s = false ->
  let s' := on_handshake (generation_ s) (Some message) s in
  state_ s' = Disconnected /\ stream_ s' = false /\ pending_ s' = pending_ s /\
  waits (trace_ s') = waits (trace_ s) /\
  notified (trace_ s') =
    (notified (trace_ s) ++ List.filter (is_set (callbacks_ s))
       ([Error ("TLS authentication failed; pairing is required: " +:+ message);
         ConnectionStateIs Disconnected] ++
        (if bool_decide (state_ s = Connected) then [AvailabilityChanged false] else []) ++
        [AuthenticationRequired]))%list.
Proof.
  intros Hu Hs. cbv zeta. unfold on_handshake, authenticationFailed.
  rewrite Z.eqb_refl, Hu, Hs. cbn [negb orb]. cbv zeta. unfold emitError, emitAvailability.
  set (e := Error _). clearbody e.
  rewrite (emit_fields state_ e) by done.
  destruct (refuse (bool_decide (state_ s = Connected)) (emit e s)) as (-> & -> & -> & -> & ->).
  rewrite notified_emit, waits_emit, (emit_fields pending_), (emit_fields callbacks_) by done.
  split_and!; try done. by rewrite <- app_assoc, <- List.filter_app.
Qed.

Definition shaking : Impl :=
  (Impl_init Options_init) <| userDisconnect_ := false |> <| callbacks_ := Callbacks_all |>.

Lemma handshake_refused_witness :
  notified (trace_ (on_handshake (generation_ shaking) (Some "certificate required") shaking)) =
  [Error "TLS authentication failed; pairing is required: certificate required";
   ConnectionStateIs Disconnected; AuthenticationRequired].
Proof.
  destruct (handshake_refused "certificate required" shaking) as (_ & _ & _ & _ & H);
    [reflexivity|reflexivity|].
  rewrite H. vm_compute. reflexivity.
Defined.
