(* ===== verification/RemoteRaces.v ===== *)
(** * Commands and timers that come at the wrong moment

    A command that is sent while the connection is being opened is written at once, on
    a stream that cannot carry it yet.  A wait that had already expired when it was
    cancelled still succeeds, and the handlers of the reconnection and voice timers do
    not know that it belongs to the past. *)

From S2P Require Import Prelude Wire WireSpec Types Messages MessagesSpec MessagesProps KeyCodes RemoteState Remote.
From S2P Require Import RemoteInv RemoteSteps RemoteSpec RemoteProps RemoteBehaviour.

Local Open Scope Z_scope.
Local Open Scope cxx_scope.

Section races.

(** [queueMessage] on an idle stream, exactly: the waits apart, the write of this message
    is what is new in flight. *)
Lemma queueMessage_idle p s :
  stream_ s = true -> writeQueue_ s = [] -> writeInProgress_ s = false ->
  let s' := queueMessage p s in
  ops s' = (ops s ++ [WaitIdle (generation_ s); Write (generation_ s) (frame p)])%list /\
  notified (trace_ s') = notified (trace_ s) /\
  (generation_ s', state_ s', userDisconnect_ s', shuttingDown_ s', options_ s', callbacks_ s', reconnectDelay_ s') =
  (generation_ s, state_ s, userDisconnect_ s, shuttingDown_ s, options_ s, callbacks_ s, reconnectDelay_ s).
Proof.
  intros Hs Hq Hw. cbv zeta. pose proof (observed_queueMessage s p Hs) as [_ _ Hn _ _ _].
  rewrite Hn, app_nil_r. split; [|split; [done|]].
  - unfold queueMessage, beginWrite, start_on_stream. rewrite Hs. cbn. rewrite Hw, Hq. cbn.
    rewrite Hs. unfold ops. cbn. rewrite !map_app, map_map. cbn. rewrite <- app_assoc. f_equal.
    apply map_ext. intros [op c]. by case_bool_decide.
  - unfold queueMessage, beginWrite, start_on_stream. rewrite Hs. cbn. rewrite Hw, Hq. cbn.
    by rewrite Hs.
Qed.

(** The last operation in flight completes. *)
Lemma exec_last s l op o identity s' :
  ops s = (l ++ [op])%list ->
  (forall c, complete op c o identity (s <| pending_ := delete (length l) (pending_ s) |>) = Some s') ->
  exec (Complete (length l) o identity) s = Some s'.
Proof.
  intros E H. cbn [exec]. assert (ops s !! length l = Some op) as Hop
    by (rewrite E; by rewrite lookup_app_r, Nat.sub_diag).
  unfold ops in Hop. rewrite list_lookup_fmap in Hop.
  destruct (pending_ s !! length l) as [[op' c]|]; [|done]. injection Hop as ->. apply H.
Qed.

Lemma ops_delete_last s l op :
  ops s = (l ++ [op])%list -> ops (s <| pending_ := delete (length l) (pending_ s) |>) = l.
Proof.
  intros E. unfold ops in *. cbn. rewrite ops_delete, E, delete_middle, app_nil_r. done.
Qed.

(** A write that fails gives the connection up. *)
Lemma on_written_fails message s :
  userDisconnect_ s = false -> shuttingDown_ s = false -> state_ s <> Connected ->
  let s' := on_written (generation_ s) (Some message) s in
  let state := if autoReconnect (options_ s) then Reconnecting else Disconnected in
  state_ s' = state /\ stream_ s' = false /\ writeQueue_ s' = [] /\
  notified (trace_ s') = (notified (trace_ s) ++ List.filter (is_set (callbacks_ s))
    [Error ("write failed: " +:+ message); ConnectionStateIs state])%list /\
  ops s' = (ops s ++ if autoReconnect (options_ s) then [WaitReconnect (reconnectDelay_ s)] else [])%list.
Proof.
  intros Hu Hs Hst. cbv zeta. unfold on_written, connectionFailed. rewrite Z.eqb_refl. cbn [negb]. cbv zeta.
  set (s1 := s <| writeInProgress_ := false |>).
  assert (generation_ s1 = generation_ s /\ userDisconnect_ s1 = false /\ shuttingDown_ s1 = false /\
    state_ s1 <> Connected /\ options_ s1 = options_ s /\ callbacks_ s1 = callbacks_ s /\
    notified (trace_ s1) = notified (trace_ s) /\ reconnectDelay_ s1 = reconnectDelay_ s /\
    ops s1 = ops s) as (<- & Hu1 & Hs1 & Hst1 & <- & <- & <- & <- & <-) by done.
  clearbody s1. rewrite Z.eqb_refl, Hu1, Hs1. cbn [negb orb].
  unfold emitError. set (e := Error _). rewrite <- (emit_fields generation_ e s1) by done.
  destruct (handleConnectionLoss_exact (emit e s1)) as (E1 & E2 & E3 & _ & E5 & E6).
  rewrite notified_emit, <- app_assoc in E5.
  rewrite (emit_fields options_ e), (emit_fields userDisconnect_ e), (emit_fields shuttingDown_ e),
    Hu1, Hs1 in * by done.
  rewrite (emit_fields state_ e), (bool_decide_eq_false_2 _ Hst1), (emit_fields callbacks_ e) in E5 by done.
  rewrite (emit_fields reconnectDelay_ e) in E6 by done.
  cbn [negb] in *. rewrite !andb_true_r, <- List.filter_app in *.
  unfold ops at 2 in E6. rewrite (emit_fields pending_ e s1) in E6 by done. by split_and!.
Qed.

(** The operations that open a connection, up to the handshake. *)
Definition opens (g : Z) (op : operation) : bool :=
  match op with
  | Resolve g' _ _ | Connect g' | Handshake g' => g' =? g
  | _ => false
  end.

Lemma opens_only g op l :
  op ∈ l -> opens g op = true -> length (chain_ops g l) = 1%nat -> chain_ops g l = [op].
Proof.
  intros Hl Ho H1. assert (op ∈ chain_ops g l) as Hop.
  { apply list_elem_of_omap. exists op. split; [done|]. by destruct op; cbn in *; rewrite ?Ho. }
  destruct (chain_ops g l) as [|op' [|]]; [done| |done]. by apply list_elem_of_singleton in Hop as ->.
Qed.

End races.

(** C24. A command while connecting. Take an object that is not being destroyed, whose state
    is [Connecting], with nothing posted and nothing in the write queue, and whose
    resolution, TCP connection or TLS handshake is in flight. A key that is sent then is
    given to the stream in the next turn, while that operation is still in flight, the only
    one of the chain; and when the write fails (on a socket that is not connected yet
    it cannot do otherwise) the attempt is given up, with an error, the new state and, if
    the object is to reconnect, one timer; the key is lost, and the operation that was
    opening the connection is left to complete for nothing. *)
Theorem command_while_connecting (options : Options) (key : Z) (d : Direction) (message : string)
    (identity : setup) (op : operation) (s : Impl) :
  reachable options s -> shuttingDown_ s = false -> state_ s = Connecting ->
  op ∈ ops s -> opens (generation_ s) op = true ->
  posted_ s = [] -> writeQueue_ s = [] ->
  let state := if autoReconnect (options_ s) then Reconnecting else Disconnected in
  exists s1 s2,
    run [CallSendKey key d; RunPosted identity] s = Some s1 /\
    ops s1 = (ops s ++ [WaitIdle (generation_ s); Write (generation_ s) (frame (remoteKey key d))])%list /\
    chain_ops (generation_ s) (ops s1) = [op] /\
    exec (Complete (S (length (ops s))) (Failed message) identity) s1 = Some s2 /\
    state_ s2 = state /\ stream_ s2 = false /\ writeQueue_ s2 = [] /\
    notified (trace_ s2) = (notified (trace_ s) ++ List.filter (is_set (callbacks_ s))
      [Error ("write failed: " +:+ message); ConnectionStateIs state])%list /\
    ops s2 = (ops s ++ [WaitIdle (generation_ s)] ++
      if autoReconnect (options_ s) then [WaitReconnect (reconnectDelay_ s)] else [])%list.
Proof.
  intros (n & [] & Hn)%reachable_inv Hsh Hc Hin Hop Hp Hq. cbv zeta.
  assert (stream_ s = true) as Hst by (specialize (i_state Hsh); unfold state_ok in i_state; by rewrite Hc in i_state).
  assert (userDisconnect_ s = false) as Hu.
  { apply not_true_iff_false. intros E. destruct (i_user E) as [E' _]. congruence. }
  assert (writeInProgress_ s = false) as Hw.
  { destruct i_write as (_ & Hb & _). apply not_true_iff_false. intros E. by apply Hb. }
  destruct i_chain as (_ & _ & Hch). specialize (Hch Hsh Hst).
  set (s0 := (sendKey key d s) <| posted_ := [] |>).
  destruct (queueMessage_idle (remoteKey key d) s0 Hst Hq Hw) as (Ho & Hno & Hf).
  assert (ops s0 = ops s /\ generation_ s0 = generation_ s /\ notified (trace_ s0) = notified (trace_ s)) as
    (Eo & Eg & En) by done. rewrite Eo, Eg in Ho. rewrite En in Hno.
  exists (queueMessage (remoteKey key d) s0). set (s1 := queueMessage _ s0) in *.
  assert (run [CallSendKey key d; RunPosted identity] s = Some s1) as Hrun.
  { cbn [run exec]. unfold sendKey, postMessage, post. cbn [posted_ update]. rewrite Hp. exact eq_refl. }
  assert ((generation_ s1, state_ s1, userDisconnect_ s1, shuttingDown_ s1, options_ s1, callbacks_ s1, reconnectDelay_ s1) =
    (generation_ s, state_ s, userDisconnect_ s, shuttingDown_ s, options_ s, callbacks_ s, reconnectDelay_ s))
    as [= Fg Fst Fu Fs Fo Fc Fd] by exact Hf.
  clearbody s1. clear Hf.
  pose proof (ops_delete_last s1 (ops s ++ [WaitIdle (generation_ s)])
    (Write (generation_ s) (frame (remoteKey key d)))) as Hdel.
  rewrite <- app_assoc, length_app, Nat.add_comm in Hdel. specialize (Hdel Ho).
  cbn [length Nat.add] in Hdel.
  set (s2 := s1 <| pending_ := delete (S (length (ops s))) (pending_ s1) |>) in *.
  destruct (on_written_fails message s2) as (R1 & R2 & R3 & R4 & R5); [by etrans|by etrans|by cbn; rewrite Fst, Hc|].
  rewrite Hdel, <- app_assoc in R5.
  exists (on_written (generation_ s2) (Some message) s2).
  assert (options_ s2 = options_ s /\ callbacks_ s2 = callbacks_ s /\ reconnectDelay_ s2 = reconnectDelay_ s /\
    notified (trace_ s2) = notified (trace_ s)) as (Go & Gc & Gd & Gn) by (by split_and!).
  rewrite Go in *. rewrite Gc, Gn in R4. rewrite Gd in R5. split_and!; try assumption.
  - rewrite Ho, chain_ops_app, app_nil_r. by apply opens_only.
  - pose proof (exec_last s1 (ops s ++ [WaitIdle (generation_ s)]) (Write (generation_ s) (frame (remoteKey key d)))
      (Failed message) identity (on_written (generation_ s2) (Some message) s2)) as He.
    rewrite <- app_assoc, length_app, Nat.add_comm in He. apply He; [exact Ho|].
    intros c. cbn [complete]. f_equal. f_equal. exact (eq_sym Fg).
Qed.

(** The first lines of the usage example: [connect] and at once a key. *)
Definition connecting_session : list choice :=
  [CallSetCallbacks Callbacks_all; CallConnect; RunPosted (Ok tt)].

Definition connecting_now : Impl :=
  default (Impl_init tv_options) (run connecting_session (Impl_init tv_options)).

Lemma command_while_connecting_witness :
  exists s1 s2,
    run [CallSendKey (KeyCode_value Home) Short; RunPosted (Ok tt)] connecting_now = Some s1 /\
    ops s1 = [Resolve 1 "tv" 6466; WaitIdle 1; Write 1 (frame (remoteKey 3 Short))] /\
    chain_ops 1 (ops s1) = [Resolve 1 "tv" 6466] /\
    exec (Complete 2 (Failed "uninitialized") (Ok tt)) s1 = Some s2 /\
    notified (trace_ s2) = [ConnectionStateIs Connecting; Error "write failed: uninitialized";
      ConnectionStateIs Reconnecting].
Proof.
  destruct (command_while_connecting tv_options 3 Short "uninitialized" (Ok tt) (Resolve 1 "tv" 6466)
    connecting_now) as (s1 & s2 & H1 & H2 & Hc & H3 & _ & _ & _ & H4 & _).
  - exists connecting_session. split; vm_compute; reflexivity.
  - vm_compute. reflexivity.
  - vm_compute. reflexivity.
  - apply (list_elem_of_lookup_2 _ 0). vm_compute. reflexivity.
  - vm_compute. reflexivity.
  - vm_compute. reflexivity.
  - vm_compute. reflexivity.
  - exists s1, s2. split_and!; [exact H1|rewrite H2; vm_compute; reflexivity|exact Hc|exact H3|].
    rewrite H4. vm_compute. reflexivity.
Defined.

Section late.

Lemma ensure_loaded s :
  exists s', ensureSslContext (Ok tt) s = (Ok tt, s') /\
    pending_ s' = pending_ s /\ writeQueue_ s' = writeQueue_ s /\
    voiceSessionId_ s' = voiceSessionId_ s /\ generation_ s' = generation_ s /\
    options_ s' = options_ s /\ callbacks_ s' = callbacks_ s /\ trace_ s' = trace_ s.
Proof. unfold ensureSslContext. destruct (sslContext_ s); eexists; by split. Qed.

(** The end of [beginConnect]. *)
Lemma resolve_exact state g s :
  let s1 := (setState state s) <| stream_ := true |> in
  let s' := start (Resolve g (host (options_ s1)) (apiPort (options_ s1))) s1 in
  state_ s' = state /\ stream_ s' = true /\ writeQueue_ s' = writeQueue_ s /\
  voiceSessionId_ s' = voiceSessionId_ s /\ generation_ s' = generation_ s /\
  notified (trace_ s') = (notified (trace_ s) ++
    List.filter (is_set (callbacks_ s)) [ConnectionStateIs state])%list /\
  ops s' = (ops s ++ [Resolve g (host (options_ s)) (apiPort (options_ s))])%list.
Proof.
  cbv zeta. rewrite <- notified_setState. pose proof (state_setState state s) as E.
  pose proof (pending_setState state s) as Ep.
  assert (writeQueue_ (setState state s) = writeQueue_ s /\ voiceSessionId_ (setState state s) = voiceSessionId_ s /\
    generation_ (setState state s) = generation_ s /\ options_ (setState state s) = options_ s)
    as (<- & <- & <- & <-) by (unfold setState; by rewrite !emit_fields).
  set (s1 := setState state s) in *. clearbody s1. unfold ops. rewrite <- Ep. cbn.
  rewrite map_app. split_and!; try done. unfold notified. rewrite omap_app. apply app_nil_r.
Qed.

(** A new attempt, exactly. *)
Lemma beginConnect_exact (reconnecting : bool) s :
  shuttingDown_ s = false -> userDisconnect_ s = false ->
  let s' := beginConnect reconnecting (Ok tt) s in
  let state := if reconnecting then Reconnecting else Connecting in
  state_ s' = state /\ stream_ s' = true /\ writeQueue_ s' = [] /\ voiceSessionId_ s' = None /\
  generation_ s' = u64 (generation_ s + 1) /\
  notified (trace_ s') = (notified (trace_ s) ++
    List.filter (is_set (callbacks_ s)) [ConnectionStateIs state])%list /\
  ops s' = (ops s ++ [Resolve (generation_ s') (host (options_ s)) (apiPort (options_ s))])%list.
Proof.
  intros Hs Hu. cbv zeta. unfold beginConnect. rewrite Hs, Hu. cbn [orb]. cbv zeta.
  destruct (closeStream_keeps s) as (Hcb & Hp & Hn & _ & Hv & _ & Hq).
  assert (generation_ (closeStream s) = u64 (generation_ s + 1) /\ options_ (closeStream s) = options_ s)
    as [Hg Ho] by (unfold closeStream; cbn; by destruct (stream_ s)).
  set (s1 := closeStream s) in *. clearbody s1.
  destruct (ensure_loaded s1) as (s2 & -> & Ep & Eq & Ev & Eg & Eo & Ec & Et).
  set (state := if reconnecting then Reconnecting else Connecting).
  destruct (resolve_exact state (generation_ s1) s2) as (R1 & R2 & R3 & R4 & R5 & R6 & R7).
  rewrite Eg in R5. rewrite R5. rewrite Ec, Et, Hcb, Hn in R6. unfold ops in R7 at 2.
  rewrite Ep, Hp, Eo, Ho in R7. unfold ops at 2. rewrite Eq, Hq in R3. rewrite Ev, Hv in R4.
  rewrite <- Hg. by split_and!.
Qed.

Lemma notified_log e s : (forall n, e <> Notify n) -> notified (trace_ (log e s)) = notified (trace_ s).
Proof.
  intros He. unfold notified. cbn. rewrite omap_app. destruct e; cbn; rewrite ?app_nil_r; try done.
  by destruct (He n).
Qed.

End late.


(** A connection is lost, and [connect] is called when the timer has just expired. *)
Definition late_session : list choice := (session ++
  [Complete 4 (Failed "reset") (Ok tt); CallConnect; RunPosted (Ok tt);
   Complete 5 Succeeded (Ok tt); Complete 5 Succeeded (Ok tt); Complete 5 Succeeded (Ok tt);
   Complete 5 (ReadByte 5) (Ok tt); Complete 6 (ReadBytes tv_start) (Ok tt)])%list.

Definition late_end : Impl := default session_end (run late_session (Impl_init tv_options)).

(** A start of voice is called off and asked for again, when two seconds have just passed. *)
Definition tv_hello : list Z := encode [tv_field (TvConfigure 623 "Model" "Vendor" "1")].

Definition voice_session : list choice := (opening ++
  [Complete 0 (ReadByte (size tv_hello)) (Ok tt); Complete 1 (ReadBytes tv_hello) (Ok tt);
   Complete 4 (ReadByte 5) (Ok tt); Complete 4 (ReadBytes tv_start) (Ok tt); CallStartVoice;
   RunPosted (Ok tt); CallStopVoice; CallStartVoice; RunPosted (Ok tt); RunPosted (Ok tt)])%list.

Definition voice_end : Impl := default session_end (run voice_session (Impl_init tv_options)).

