(* ===== verification/RemoteAtoms.v ===== *)
(** * Every turn is a sequence of small steps

    [atom] lists what a handler can do to the object: an effect, an operation started, a
    timer cancelled, a message received or queued (which resets the idle timer), the delay
    of the next attempt changed as it may be, or members assigned that are of no interest
    here. [exec_flows]: every turn is made of these, so that what each of them keeps, every
    turn keeps. *)

From S2P Require Import Prelude Wire Types Messages KeyCodes RemoteState Remote.
From S2P Require Import RemoteInv RemoteSteps.

Local Open Scope Z_scope.
Local Open Scope cxx_scope.

(** What resets the idle timer of a connection: a message that is not empty was received,
    or one was queued.  An empty message is handled too, but [on_length_byte] does not
    reset the timer for it. *)
Definition idle_reset_of (e : effect) : option Z :=
  match e with
  | Queued g _ | Handled g (_ :: _) => Some g
  | _ => None
  end.

Definition resets_idle (e : effect) : Prop := idle_reset_of e <> None.

#[export] Instance task_eq_dec : EqDecision task.
Proof. solve_decision. Defined.

(** What the thread of [io_] does by itself. *)
Definition io_turn (c : choice) : bool :=
  match c with RunPosted _ | Complete _ _ _ => true | _ => false end.

(** The promises of [disconnectAndWait] that were kept. *)
Definition is_promise (e : effect) : bool := match e with PromiseSet => true | _ => false end.

Definition promises_set (t : list effect) : nat := length (List.filter is_promise t).

#[global] Arguments promises_set : simpl never.

(** An effect that is neither. *)
Definition plain (e : effect) : bool :=
  match idle_reset_of e with Some _ => false | None => negb (is_promise e) end.

(** The members that only [atom_start] and the like change. *)
Definition core (s : Impl) :=
  (pending_ s, trace_ s, posted_ s, (options_ s, callbacks_ s, shuttingDown_ s), reconnectDelay_ s).

Inductive atom (s : Impl) : Impl -> Prop :=
  | atom_log e : plain e = true -> atom s (log e s)
  | atom_start op :
      (forall d, op = WaitReconnect d -> d = reconnectDelay_ s) -> atom s (start op s)
  | atom_cancel t : atom s (cancel t s)
  | atom_delay d :
      d = 100 \/ d = Z.min (reconnectDelay_ s * 2) 30000 -> atom s (s <| reconnectDelay_ := d |>)
  | atom_set s' : core s' = core s -> atom s s'
  | atom_handled message : atom s (log (Handled (generation_ s) message) (resetIdleTimer s))
  | atom_queued payload queue :
      atom s (log (Queued (generation_ s) payload) ((resetIdleTimer s) <| writeQueue_ := queue |>)).

Definition flows : Impl -> Impl -> Prop := rtc atom.

Section flows.
Implicit Types (s : Impl).

Lemma flows_refl s : flows s s.
Proof. apply rtc_refl. Qed.

Lemma flows_atom s s1 s2 : flows s s1 -> atom s1 s2 -> flows s s2.
Proof. intros H1 H2. by eapply rtc_r. Qed.

Lemma flows_set s s1 s2 : flows s s1 -> core s2 = core s1 -> flows s s2.
Proof. intros H1 H2. eapply flows_atom; [exact H1|by apply atom_set]. Qed.

Lemma flows_log e s s' : plain e = true -> flows s s' -> flows s (log e s').
Proof. intros He H. eapply flows_atom; [exact H|by apply atom_log]. Qed.

Lemma flows_start op s s' : (forall d, op <> WaitReconnect d) -> flows s s' -> flows s (start op s').
Proof. intros Ho H. eapply flows_atom; [exact H|apply atom_start]. intros d E. by destruct (Ho d). Qed.

Lemma flows_cancel t s s' : flows s s' -> flows s (cancel t s').
Proof. intros H. eapply flows_atom; [exact H|apply atom_cancel]. Qed.

Lemma flows_delay s s' : flows s s' -> flows s (s' <| reconnectDelay_ := 100 |>).
Proof. intros H. eapply flows_atom; [exact H|apply atom_delay]. by left. Qed.

Lemma flows_wait s s' :
  flows s s' ->
  flows s ((start (WaitReconnect (reconnectDelay_ s')) s')
             <| reconnectDelay_ := Z.min (reconnectDelay_ s' * 2) 30000 |>).
Proof.
  intros H. apply (flows_atom s (start (WaitReconnect (reconnectDelay_ s')) s')).
  - eapply flows_atom; [exact H|]. apply atom_start. intros d E. by injection E.
  - apply (atom_delay (start (WaitReconnect (reconnectDelay_ s')) s')). by right.
Qed.

Lemma flows_emit n s s' : flows s s' -> flows s (emit n s').
Proof. intros H. unfold emit. destruct (is_set _ _); [by apply flows_log|done]. Qed.

(** Members of their own. *)
Lemma flows_stream b s s' : flows s s' -> flows s (s' <| stream_ := b |>).
Proof. intros H. by eapply flows_set. Qed.

Lemma flows_session o s s' : flows s s' -> flows s (s' <| voiceSessionId_ := o |>).
Proof. intros H. by eapply flows_set. Qed.

Lemma flows_starting b s s' : flows s s' -> flows s (s' <| voiceStarting_ := b |>).
Proof. intros H. by eapply flows_set. Qed.

Lemma flows_user b s s' : flows s s' -> flows s (s' <| userDisconnect_ := b |>).
Proof. intros H. by eapply flows_set. Qed.

Lemma flows_work b s s' : flows s s' -> flows s (s' <| work_ := b |>).
Proof. intros H. by eapply flows_set. Qed.

(** The operations that a handler starts; only a loss starts the wait for an attempt. *)
Definition other (op : operation) : Prop := forall d, op <> WaitReconnect d.

Lemma flows_on_stream op s s' : other op -> flows s s' -> flows s (start_on_stream op s').
Proof.
  intros Ho H. unfold start_on_stream. destruct (stream_ s'); [by apply flows_start|by apply flows_log].
Qed.

Lemma flows_resetIdleTimer s s' : flows s s' -> flows s (resetIdleTimer s').
Proof. intros H. unfold resetIdleTimer. cbv zeta. apply flows_start; [done|]. by apply flows_cancel. Qed.

Lemma flows_beginWrite s s' : flows s s' -> flows s (beginWrite s').
Proof.
  intros H. unfold beginWrite. destruct (writeQueue_ s'); [by eapply flows_set|].
  destruct (negb _); [by eapply flows_set|]. cbv zeta. apply flows_on_stream; [done|].
  by eapply flows_set.
Qed.

Lemma flows_queueMessage p s s' : flows s s' -> flows s (queueMessage p s').
Proof.
  intros H. unfold queueMessage. destruct (negb _); [done|]. cbv zeta.
  set (s2 := log _ _). assert (flows s s2) as H2
    by exact (flows_atom s s' _ H (atom_queued s' p (writeQueue_ s' ++ [frame p])%list)).
  clearbody s2. destruct (negb _); [by apply flows_beginWrite|done].
Qed.

Lemma flows_setState state s s' : flows s s' -> flows s (setState state s').
Proof. intros H. unfold setState. apply flows_emit. by eapply flows_set. Qed.

Lemma flows_closeStream s s' : flows s s' -> flows s (closeStream s').
Proof.
  intros H. unfold closeStream. cbn. destruct (stream_ s'); [|by eapply flows_set].
  apply (flows_log CloseSocket) in H; [|reflexivity]. by eapply flows_set.
Qed.

Lemma flows_handleConnectionLoss g s s' : flows s s' -> flows s (handleConnectionLoss g s').
Proof.
  intros H. unfold handleConnectionLoss, emitAvailability. destruct (negb _); [done|]. cbv zeta.
  apply flows_closeStream in H. set (s1 := closeStream s') in *. clearbody s1.
  set (s2 := if bool_decide (state_ s' = Connected) then emit (AvailabilityChanged false) s1 else s1).
  assert (flows s s2) as H2 by (unfold s2; destruct bool_decide; [by apply flows_emit|done]).
  clearbody s2. destruct (_ && _ && _); [|by apply flows_setState].
  apply (flows_setState Reconnecting), (flows_cancel ReconnectTimer) in H2.
  set (s3 := cancel _ _) in *. clearbody s3. exact (flows_wait s s3 H2).
Qed.

Lemma flows_connectionFailed prefix message g s s' :
  flows s s' -> flows s (connectionFailed prefix message g s').
Proof.
  intros H. unfold connectionFailed. destruct (_ || _); [done|]. cbv zeta.
  by apply flows_handleConnectionLoss, flows_emit.
Qed.

Lemma flows_authenticationFailed message g s s' :
  flows s s' -> flows s (authenticationFailed message g s').
Proof.
  intros H. unfold authenticationFailed, emitError, emitAvailability. destruct (_ || _); [done|]. cbv zeta.
  apply flows_emit. destruct bool_decide; [apply flows_emit|];
    by apply flows_setState, flows_closeStream, flows_emit.
Qed.

Lemma flows_ensure identity s s1 r s2 :
  ensureSslContext identity s1 = (r, s2) -> flows s s1 -> flows s s2.
Proof.
  unfold ensureSslContext. intros E H. destruct (sslContext_ s1); [by injection E as _ <-|].
  by destruct identity as [e|[[]|e]]; injection E as _ <-; [|eapply flows_set..].
Qed.

Lemma flows_beginConnect reconnecting identity s s' :
  flows s s' -> flows s (beginConnect reconnecting identity s').
Proof.
  intros H. unfold beginConnect, emitError. destruct (_ || _); [done|]. cbv zeta.
  destruct (ensureSslContext identity (closeStream s')) as [r s1] eqn:E.
  apply (flows_ensure _ s) in E; [|by apply flows_closeStream].
  destruct r; [|by apply flows_setState, flows_emit]. apply flows_start; [done|].
  by apply flows_stream, flows_setState.
Qed.

Lemma flows_readOneLengthByte g s s' : flows s s' -> flows s (readOneLengthByte g s').
Proof. intros H. unfold readOneLengthByte. destruct (_ || _); [done|by apply flows_on_stream]. Qed.

Lemma flows_beginReadLength g s s' : flows s s' -> flows s (beginReadLength g s').
Proof.
  intros H. unfold beginReadLength. destruct (_ || _); [done|]. cbv zeta.
  apply flows_readOneLengthByte. by eapply flows_set.
Qed.

(** A message, once it is noted that it is handled. *)
Lemma flows_handle message s s' :
  flows s (log (Handled (generation_ s') message) s') -> flows s (handleMessage message s').
Proof.
  intros H. unfold handleMessage, emitError, emitAvailability. cbv zeta.
  set (s0 := log _ _) in *. clearbody s0.
  assert (forall s1, core s1 = core s0 -> flows s s1) as Hset by (intros; by eapply flows_set).
  destruct (kind _); [done|..].
  - by apply flows_queueMessage, flows_emit, Hset.
  - by apply flows_queueMessage.
  - by apply flows_emit, Hset.
  - by apply Hset.
  - by apply flows_emit, Hset.
  - by apply flows_emit, flows_emit, flows_setState, Hset.
  - by apply flows_queueMessage.
  - by apply flows_emit.
  - destruct (voiceStarting_ s0); [|done].
    by apply flows_emit, flows_queueMessage, flows_session, flows_cancel, Hset.
Qed.

(** An empty one does not reset the idle timer; another comes after the timer was reset. *)
Lemma flows_handle_empty s s' : flows s s' -> flows s (handleMessage [] s').
Proof. intros H. by apply flows_handle, flows_log. Qed.

Lemma flows_handle_reset message s s' : flows s s' -> flows s (handleMessage message (resetIdleTimer s')).
Proof. intros H. apply flows_handle. exact (flows_atom s s' _ H (atom_handled s' message)). Qed.

Lemma flows_on_length_byte g o s s' : flows s s' -> flows s (on_length_byte g o s').
Proof.
  intros H. unfold on_length_byte, emitError. cbv zeta.
  set (s0 := match o with inr byte => s' <| lengthByte_ := byte |> | inl _ => s' end).
  assert (flows s s0) as H0 by (unfold s0; destruct o; [done|by eapply flows_set]). clearbody s0. clear H.
  destruct (negb _); [done|]. destruct o as [m|byte]; [by apply flows_connectionFailed|].
  apply (flows_log (GotBytes g [byte])) in H0; [|reflexivity].
  set (s1 := _ <| readLength_ := _ |>). assert (flows s s1) as H1 by (by eapply flows_set).
  clearbody s1. clear H0. destruct (negb _).
  - assert (flows s (s1 <| readShift_ := readShift_ s1 + 7 |>)) as H2 by (by eapply flows_set).
    set (s2 := _ <| readShift_ := _ |>) in *. clearbody s2.
    destruct (63 <? _); [by apply flows_handleConnectionLoss, flows_emit|by apply flows_readOneLengthByte].
  - destruct (MaxFrameSize <? _); [by apply flows_handleConnectionLoss, flows_emit|].
    assert (flows s (s1 <| readBody_ := replicate (Z.to_nat (readLength_ s1)) 0 |>)) as H2
      by (by eapply flows_set).
    set (s2 := _ <| readBody_ := _ |>) in *. clearbody s2.
    destruct (_ =? 0); [|by apply flows_on_stream].
    by apply flows_beginReadLength, flows_handle_empty.
Qed.

Lemma flows_on_body g o s s' : flows s s' -> flows s (on_body g o s').
Proof.
  intros H. unfold on_body. destruct (negb _); [done|]. destruct o as [m|body]; cbv zeta;
    [by apply flows_connectionFailed|].
  apply (flows_log (GotBytes g body)) in H; [|reflexivity].
  set (s1 := log _ _) in *. clearbody s1. apply flows_beginReadLength.
  apply flows_handle_reset. by eapply flows_set.
Qed.

Lemma flows_on_written g o s s' : flows s s' -> flows s (on_written g o s').
Proof.
  intros H. unfold on_written. destruct (negb _); [done|]. destruct o; cbv zeta.
  - apply flows_connectionFailed. by eapply flows_set.
  - apply flows_beginWrite. by eapply flows_set.
Qed.

Lemma flows_on_handshake g o s s' : flows s s' -> flows s (on_handshake g o s').
Proof.
  intros H. unfold on_handshake. destruct (negb _); [done|]. destruct o; cbv zeta.
  - by apply flows_authenticationFailed.
  - by apply flows_resetIdleTimer, flows_beginReadLength, flows_delay.
Qed.

Lemma flows_complete op cancelled o identity s s1 s2 :
  flows s s1 -> complete op cancelled o identity s1 = Some s2 -> flows s s2.
Proof.
  intros H Hc.
  destruct op, o; cbn [complete] in Hc; try done;
    repeat match type of Hc with (if ?b then _ else _) = _ => destruct b; [|done] end;
    apply (inj Some) in Hc; subst s2;
    auto using flows_on_length_byte, flows_on_body, flows_on_written, flows_on_handshake;
    unfold on_resolved, on_connected, on_reconnect, on_idle, on_voice_timeout, emitError;
    repeat match goal with |- flows _ (if ?b then _ else _) => destruct b end;
    try (by apply flows_on_stream);
    auto using flows_connectionFailed, flows_beginConnect,
      flows_handleConnectionLoss, flows_emit, flows_starting.
Qed.

Lemma flows_voice_loop fuel data offset id s s' :
  flows s s' -> flows s (sendVoiceData_loop fuel data offset id s').
Proof.
  revert offset s'. induction fuel as [|fuel IH]; intros offset s' H; [done|]. cbn [sendVoiceData_loop].
  destruct (_ <? _); [|done]. by apply IH, flows_queueMessage.
Qed.

Lemma flows_startVoice s s' : flows s s' -> flows s (startVoice_task s').
Proof.
  intros H. unfold startVoice_task, emitError. destruct (negb (voiceEnabled_ s')); [by apply flows_emit|].
  destruct (_ || _); [by apply flows_emit|]. destruct (negb _); [by apply flows_emit|]. cbv zeta.
  apply flows_start; [done|]. by apply flows_cancel, flows_queueMessage, flows_starting.
Qed.

Lemma flows_stopVoice s s' : flows s s' -> flows s (stopVoice_task s').
Proof.
  intros H. unfold stopVoice_task, emitVoiceStopped. cbv zeta.
  assert (flows s ((cancel VoiceTimer s') <| voiceStarting_ := false |>)) as H1
    by (by apply flows_starting, flows_cancel).
  set (s1 := _ <| voiceStarting_ := false |>) in *. clearbody s1. destruct (voiceSessionId_ s1); [|done].
  by apply flows_emit, flows_session, flows_queueMessage.
Qed.

Lemma flows_task t identity s s' :
  t <> TDisconnectAndWait -> flows s s' -> flows s (run_task t identity s').
Proof.
  intros Ht H. destruct t; cbn [run_task]; try done.
  - unfold connect_task. cbv zeta. by apply flows_beginConnect, flows_delay, flows_cancel, flows_user.
  - unfold disconnect_task, emitAvailability. cbv zeta.
    by apply flows_emit, flows_setState, flows_closeStream, flows_cancel, flows_cancel, flows_cancel, flows_user.
  - by apply flows_queueMessage.
  - by apply flows_queueMessage.
  - by apply flows_startVoice.
  - unfold sendVoiceData_task. destruct (voiceSessionId_ s'); [by apply flows_voice_loop|done].
  - by apply flows_stopVoice.
  - unfold destroy_task. cbv zeta.
    by apply flows_work, flows_cancel, flows_cancel, flows_cancel, flows_closeStream, flows_user.
Qed.

(** [disconnectAndWait] keeps its promise at the end. *)
Lemma flows_disconnectAndWait s s' :
  flows s s' -> exists s1, flows s s1 /\ disconnectAndWait_task s' = log PromiseSet s1.
Proof.
  intros H. unfold disconnectAndWait_task. cbv zeta. eexists. split; [|reflexivity].
  by apply flows_setState, flows_closeStream, flows_cancel, flows_cancel, flows_cancel, flows_user.
Qed.

(** Every turn of the thread of [io_], up to the promise. *)
Lemma exec_flows c s s' :
  io_turn c = true -> exec c s = Some s' ->
  exists s0 s1, flows s0 s1 /\ (s' = s1 \/ s' = log PromiseSet s1) /\
    (options_ s0, callbacks_ s0, shuttingDown_ s0, reconnectDelay_ s0, trace_ s0) =
    (options_ s, callbacks_ s, shuttingDown_ s, reconnectDelay_ s, trace_ s) /\
    (forall x, x ∈ pending_ s0 -> x ∈ pending_ s).
Proof.
  intros Hc He. destruct c; try done; cbn [exec] in He.
  - destruct (posted_ s) as [|t rest]; [done|]. apply (inj Some) in He. subst s'.
    set (s0 := s <| posted_ := rest |>). exists s0.
    destruct (decide (t = TDisconnectAndWait)) as [->|Ht].
    + cbn [run_task]. destruct (flows_disconnectAndWait s0 s0 (flows_refl s0)) as (s1 & H1 & ->).
      exists s1. auto.
    + eexists. split; [apply flows_task; [exact Ht|apply flows_refl]|]. auto.
  - destruct (pending_ s !! i) as [[op c]|]; [|done].
    exists (s <| pending_ := delete i (pending_ s) |>), s'.
    split; [eapply flows_complete; [apply flows_refl|exact He]|]. split; [by left|]. split; [done|].
    intros x. apply elem_of_delete_list.
Qed.

End flows.
