(* ===== verification/RemotePace.v ===== *)
(** * The pace of a handler

    What a handler leaves of the operations in flight, the posted function objects and the
    trace: operations stay and others follow them, a message that is received or queued
    resets the idle timer, and nothing is posted ([acc]). Every small step is so, hence
    every turn ([flows_acc], [exec_flight]). *)

From S2P Require Import Prelude Wire Types Messages KeyCodes RemoteState Remote.
From S2P Require Import RemoteInv RemoteSteps RemoteAtoms.

Local Open Scope Z_scope.
Local Open Scope cxx_scope.

(** ** What a handler does to the waits *)

(** From [p] to [q] an operation may be cancelled; when [reset], a wait of the idle timer is. *)
Definition carried (reset : bool) (p q : operation * bool) : Prop :=
  q.1 = p.1 /\ (p.2 = true -> q.2 = true) /\
  (reset = true -> timer_of p.1 = Some IdleTimer -> q.2 = true).

(** Between [s] and [s']: the operations in flight stay and others follow them; when a
    message was received that is not empty, or one queued, the idle timer was reset. *)
Definition flight (s : Impl) (reset : bool) (s' : Impl) : Prop :=
  exists old new done,
    pending_ s' = (old ++ new)%list /\ Forall2 (carried reset) (pending_ s) old /\
    trace_ s' = (trace_ s ++ done)%list /\ (reset = false -> Forall (fun e => ~ resets_idle e) done) /\
    (forall op c, (op, c) ∈ new -> Start op ∈ done).

(** And nothing was posted, and no promise kept. *)
Definition acc (s : Impl) (reset : bool) (s' : Impl) : Prop :=
  flight s reset s' /\ posted_ s' = posted_ s /\
  promises_set (trace_ s') = promises_set (trace_ s).

Ltac no_traffic := by (intros Htraffic; destruct (Htraffic eq_refl)).

Section pace.
Implicit Types (s : Impl) (b : bool).

Lemma carried_refl p : carried false p p.
Proof. by split_and!. Qed.

Lemma plain_spec e : plain e = true -> ~ resets_idle e /\ is_promise e = false.
Proof. unfold plain, resets_idle. destruct (idle_reset_of e); [done|]. intros H%negb_true_iff. split; [auto|done]. Qed.

Lemma promises_snoc e t : is_promise e = false -> promises_set (t ++ [e]) = promises_set t.
Proof. intros He. unfold promises_set. rewrite List.filter_app. cbn. by rewrite He, app_nil_r. Qed.

Lemma acc_refl s : acc s false s.
Proof.
  split; [|done]. exists (pending_ s), [], []. rewrite !app_nil_r. split_and!; try done.
  - apply Forall_Forall2_diag, Forall_true. apply carried_refl.
  - intros op c H. by inversion H.
Qed.

Lemma acc_set s b s1 s2 :
  acc s b s1 -> pending_ s2 = pending_ s1 -> trace_ s2 = trace_ s1 -> posted_ s2 = posted_ s1 ->
  acc s b s2.
Proof.
  intros [(old & new & dn & H1 & H2 & H3 & H4 & H5) [Hp Hk]] E1 E2 E3.
  split; [|rewrite E2, E3; by split]. exists old, new, dn. rewrite E1, E2. by split_and!.
Qed.

Lemma flight_log e s b s' : (resets_idle e -> b = true) -> flight s b s' -> flight s b (log e s').
Proof.
  intros He (old & new & dn & H1 & H2 & H3 & H4 & H5). exists old, new, (dn ++ [e])%list. cbn.
  rewrite H3, app_assoc. split_and!; try done.
  - intros Hb. apply Forall_app. split; [auto|]. constructor; [|done]. intros H%He. congruence.
  - intros op c Hop. apply elem_of_app. left. by eapply H5.
Qed.

Lemma acc_log e s b s' :
  is_promise e = false -> (resets_idle e -> b = true) -> acc s b s' -> acc s b (log e s').
Proof.
  intros Hp He [Hf [Hq Hk]]. split_and!; [by apply flight_log|done|]. cbn. by rewrite promises_snoc.
Qed.

Lemma acc_start op s b s' : acc s b s' -> acc s b (start op s').
Proof.
  intros [(old & new & dn & H1 & H2 & H3 & H4 & H5) [Hp Hk]].
  split_and!; [|done|cbn; by rewrite promises_snoc].
  exists old, (new ++ [(op, false)])%list, (dn ++ [Start op])%list. cbn.
  rewrite H1, H3, !app_assoc. split_and!; try done.
  - intros Hb. apply Forall_app. split; [auto|]. constructor; [no_traffic|done].
  - intros op' c [Hop|Hop]%elem_of_app; apply elem_of_app; [left; by eapply H5|right].
    apply list_elem_of_singleton in Hop. injection Hop as -> _. by apply list_elem_of_singleton.
Qed.

Lemma acc_cancel t s b s' :
  acc s b s' -> acc s (b || bool_decide (t = IdleTimer)) (cancel t s').
Proof.
  intros [(old & new & dn & H1 & H2 & H3 & H4 & H5) [Hp Hk]].
  split_and!; [|done|cbn; by rewrite promises_snoc].
  set (f := fun '(op, c) => if bool_decide (timer_of op = Some t) then (op, true) else (op, c)).
  assert (forall p : operation * bool, (f p).1 = p.1 /\ (p.2 = true -> (f p).2 = true) /\
    (timer_of p.1 = Some t -> (f p).2 = true)) as Hf.
  { intros [op c]. cbn. case_bool_decide; by split_and!. }
  exists (map f old), (map f new), (dn ++ [Cancel t])%list. cbn.
  rewrite H1, H3, map_app, app_assoc. split_and!; try done.
  - apply Forall2_fmap_r. eapply Forall2_impl; [|exact H2]. intros p q (E & Hm & Hr). cbn [compose].
    destruct (Hf q) as (F1 & F2 & F3). split_and!; [congruence|auto|].
    intros [Hb|Hb%bool_decide_eq_true]%orb_true_iff Ht; [auto|]. apply F3. congruence.
  - intros [Hb _]%orb_false_iff. apply Forall_app. split; [auto|]. constructor; [no_traffic|done].
  - intros op c (p & E & Hop)%list_elem_of_fmap. destruct (Hf p) as (F1 & _).
    rewrite <- E in F1. cbn in F1. apply elem_of_app. left. destruct p as [op' c']. cbn in F1. subst op'.
    by eapply H5.
Qed.

Lemma acc_reset s b s' : acc s b s' -> acc s true (resetIdleTimer s').
Proof.
  intros H. unfold resetIdleTimer. cbv zeta. apply acc_start.
  rewrite <- (orb_true_r b), <- (bool_decide_eq_true_2 (IdleTimer = IdleTimer) eq_refl).
  by apply acc_cancel.
Qed.

Lemma acc_atom s b s1 s2 : acc s b s1 -> atom s1 s2 -> exists b', acc s b' s2.
Proof.
  intros H Ha. destruct Ha as [e He|op _|t|d _|s2 E|message|payload queue].
  - apply plain_spec in He as [He Hp]. exists b. by apply acc_log.
  - exists b. by apply acc_start.
  - eexists. by apply acc_cancel.
  - exists b. by eapply acc_set.
  - injection E as Ep Et Eq _ _ _ _. exists b. by eapply acc_set.
  - exists true. apply acc_log; [done|done|]. by eapply acc_reset.
  - exists true. apply acc_log; [done|done|]. eapply acc_set; [by eapply acc_reset|done..].
Qed.

Lemma flows_acc s s' : flows s s' -> exists b, acc s b s'.
Proof.
  revert s'. apply (rtc_ind_r (fun s' => exists b, acc s b s')); [exists false; apply acc_refl|].
  intros s1 s2 _ Ha [b H]. by eapply acc_atom.
Qed.

(** A posted function object posts nothing, and only one kind keeps a promise. *)
Lemma task_promises t identity s :
  posted_ (run_task t identity s) = posted_ s /\
  promises_set (trace_ (run_task t identity s)) =
    (promises_set (trace_ s) + if decide (t = TDisconnectAndWait) then 1 else 0)%nat.
Proof.
  destruct (decide (t = TDisconnectAndWait)) as [->|Ht].
  - cbn [run_task]. destruct (flows_disconnectAndWait s s (flows_refl s)) as (s1 & Hf & ->).
    destruct (flows_acc _ _ Hf) as [b (_ & E1 & E2)].
    cbn. split; [done|]. unfold promises_set in *. rewrite List.filter_app, length_app. cbn. lia.
  - destruct (flows_acc _ _ (flows_task t identity s s Ht (flows_refl s))) as [b (_ & E1 & E2)].
    split; [done|lia].
Qed.

Lemma complete_promises op cancelled o identity s s' :
  complete op cancelled o identity s = Some s' ->
  posted_ s' = posted_ s /\ promises_set (trace_ s') = promises_set (trace_ s).
Proof.
  intros H. by destruct (flows_acc _ _ (flows_complete _ _ _ _ s s s' (flows_refl s) H)) as [b (_ & ? & ?)].
Qed.

(** The operations in flight when the turn begins. *)
Definition opened (c : choice) (s : Impl) : Impl :=
  match c with
  | Complete i _ _ => s <| pending_ := delete i (pending_ s) |>
  | _ => s
  end.

Lemma flight_same s s' : pending_ s' = pending_ s -> trace_ s' = trace_ s -> flight s false s'.
Proof.
  intros E1 E2. destruct (acc_refl s) as [(old & new & dn & H1 & H2 & H3 & H4 & H5) _].
  exists old, new, dn. rewrite E1, E2. by split_and!.
Qed.

(** Every turn, whatever it posts. *)
Lemma exec_flight c s s' : exec c s = Some s' -> exists reset, flight (opened c s) reset s'.
Proof.
  intros He.
  destruct c; cbn [exec opened] in *; try (apply (inj Some) in He; subst s');
    try (exists false; by apply flight_same).
  - unfold sendKeyName. destruct (keyCodeFromName keyName); exists false; by apply flight_same.
  - unfold sendText. destruct (bool_decide _); exists false; by apply flight_same.
  - destruct (posted_ s) as [|t rest]; [done|]. apply (inj Some) in He. subst s'.
    set (s0 := s <| posted_ := rest |>).
    assert (forall b s', flight s0 b s' -> exists reset, flight s reset s') as Hs by (intros b s' H; by exists b).
    destruct (decide (t = TDisconnectAndWait)) as [->|Ht].
    + cbn [run_task]. destruct (flows_disconnectAndWait s0 s0 (flows_refl s0)) as (s1 & H & ->).
      destruct (flows_acc _ _ H) as [b [Hf _]]. apply (Hs b), flight_log; [no_traffic|done].
    + destruct (flows_acc _ _ (flows_task t identity s0 s0 Ht (flows_refl s0))) as [b [Hf _]].
      by apply (Hs b).
  - destruct (pending_ s !! i) as [[op c]|]; [|done].
    destruct (flows_acc _ _ (flows_complete _ _ _ _ _ _ _ (flows_refl _) He)) as [b [Hf _]]. by exists b.
Qed.

Lemma run_trace cs s s' : run cs s = Some s' -> exists done, trace_ s' = (trace_ s ++ done)%list.
Proof.
  revert s. induction cs as [|c cs IH]; intros s H; cbn [run] in H.
  { injection H as <-. exists []. by rewrite app_nil_r. }
  destruct (exec c s) as [s1|] eqn:E; [|done].
  destruct (exec_flight _ _ _ E) as (b & old & new & dn & _ & _ & H1 & _).
  destruct (IH s1 H) as [dn' H2]. exists (dn ++ dn')%list.
  rewrite H2, H1, app_assoc. by destruct c.
Qed.

End pace.
