(* ===== verification/RemoteCalls.v ===== *)
(** * Asynchronous calls and the thread of [io_]

    The asynchronous operations only post a function object. That commutes with whatever
    the thread of [io_] is doing: a call may be made before a turn, after it, or anywhere
    inside it (from a callback, or from another thread), and the result is the same. *)

From S2P Require Import Prelude Wire Types Messages KeyCodes RemoteState Remote.
From S2P Require Import RemoteInv RemoteSteps RemoteProps RemoteAtoms RemotePace.

Local Open Scope Z_scope.
Local Open Scope cxx_scope.

(** The object with other function objects to run. *)
Definition having (p : list task) (s : Impl) : Impl := s <| posted_ := p |>.

(** A handler that neither reads nor writes [posted_]. *)
Class Unposting (f : Impl -> Impl) := unposting : forall p s, f (having p s) = having p (f s).

#[local] Typeclasses Opaque log start cancel start_on_stream emit emitError emitAvailability
  emitVoiceStopped setState closeStream resetIdleTimer handleConnectionLoss connectionFailed
  authenticationFailed beginWrite queueMessage handleMessage readOneLengthByte beginReadLength
  beginConnect sendVoiceData_loop.

(** One step of the proof that a handler is one: a member that it reads, an assignment to a
    member, or a call of another. The state it leaves is generalised, so that the terms
    stay small. *)
Ltac member f :=
  match goal with |- context [f (having ?p ?s)] =>
    is_var s; rewrite (((fun r => eq_refl) : forall r, f (having p r) = f r) s) end.

Ltac through := first
  [ member generation_ | member stream_ | member state_ | member options_ | member callbacks_
  | member userDisconnect_ | member shuttingDown_ | member reconnectDelay_ | member writeQueue_
  | member writeInProgress_ | member readLength_ | member readShift_ | member lengthByte_
  | member readBody_ | member voiceStarting_ | member voiceSessionId_ | member voiceEnabled_
  | member activeFeatures_ | member supportedFeatures_ | member sslContext_ | member imeCounter_
  | member imeFieldCounter_ | member pending_ | member trace_
  | match goal with |- context [@update Impl ?T ?f ?i ?u (having ?p ?s)] =>
      is_var s;
      rewrite (((fun r => eq_refl) :
        forall r, @update Impl T f i u (having p r) = having p (@update Impl T f i u r)) s);
      generalize (@update Impl T f i u s); intros ? end
  | match goal with |- context [?f (having ?p ?s)] =>
      is_var s; let H := constr:(_ : Unposting f) in
      rewrite (H p s : f (having p s) = having p (f s)); generalize (f s); intros ? end ].

Ltac commute := cbv zeta; repeat first
  [ through
  | match goal with |- context [if ?b then _ else _] =>
      lazymatch b with context [having] => fail | _ => destruct b end end ];
  try exact eq_refl.

Section handlers.
Implicit Types (p : list task) (s : Impl).

#[export] Instance log_unposting e : Unposting (log e).
Proof. done. Qed.

#[export] Instance start_unposting op : Unposting (start op).
Proof. done. Qed.

#[export] Instance cancel_unposting t : Unposting (cancel t).
Proof. done. Qed.

#[export] Instance on_stream_unposting op : Unposting (start_on_stream op).
Proof. intros p s. unfold start_on_stream. commute. Qed.

#[export] Instance emit_unposting n : Unposting (emit n).
Proof. intros p s. unfold emit. commute. Qed.

#[export] Instance setState_unposting state : Unposting (setState state).
Proof. intros p s. unfold setState. commute. Qed.

#[export] Instance closeStream_unposting : Unposting closeStream.
Proof. intros p s. unfold closeStream, having. cbn. by destruct (stream_ s). Qed.

#[export] Instance resetIdleTimer_unposting : Unposting resetIdleTimer.
Proof. done. Qed.

#[export] Instance loss_unposting g : Unposting (handleConnectionLoss g).
Proof. intros p s. unfold handleConnectionLoss, emitAvailability. commute. Qed.

#[export] Instance failed_unposting prefix m g : Unposting (connectionFailed prefix m g).
Proof. intros p s. unfold connectionFailed, emitError. commute. Qed.

#[export] Instance refused_unposting m g : Unposting (authenticationFailed m g).
Proof. intros p s. unfold authenticationFailed, emitError, emitAvailability. commute. Qed.

#[export] Instance beginWrite_unposting : Unposting beginWrite.
Proof. intros p s. unfold beginWrite. member writeQueue_. destruct (writeQueue_ s); commute. Qed.

#[export] Instance queueMessage_unposting m : Unposting (queueMessage m).
Proof. intros p s. unfold queueMessage. commute. Qed.

#[export] Instance handleMessage_unposting message : Unposting (handleMessage message).
Proof.
  intros p s. unfold handleMessage, emitError, emitAvailability.
  cbv zeta. repeat through. destruct (kind (parseRemote message)); commute.
Qed.

#[export] Instance readOne_unposting g : Unposting (readOneLengthByte g).
Proof. intros p s. unfold readOneLengthByte. commute. Qed.

#[export] Instance beginRead_unposting g : Unposting (beginReadLength g).
Proof. intros p s. unfold beginReadLength. commute. Qed.

#[export] Instance length_byte_unposting g o : Unposting (on_length_byte g o).
Proof. intros p s. unfold on_length_byte, emitError. destruct o; commute. Qed.

#[export] Instance body_unposting g o : Unposting (on_body g o).
Proof. intros p s. unfold on_body. destruct o; commute. Qed.

#[export] Instance beginConnect_unposting reconnecting identity : Unposting (beginConnect reconnecting identity).
Proof.
  intros p s. unfold beginConnect, ensureSslContext, emitError. cbv zeta. repeat through.
  destruct (_ || _); [done|].
  repeat through. match goal with |- context [sslContext_ ?r] => destruct (sslContext_ r) end; [by commute|].
  destruct identity as [e|[[]|e]]; by commute.
Qed.

#[export] Instance handshake_unposting g o : Unposting (on_handshake g o).
Proof. intros p s. unfold on_handshake. destruct o; commute. Qed.

#[export] Instance resolved_unposting g o : Unposting (on_resolved g o).
Proof. intros p s. unfold on_resolved. destruct o; commute. Qed.

#[export] Instance connected_unposting g o : Unposting (on_connected g o).
Proof. intros p s. unfold on_connected. destruct o; commute. Qed.

#[export] Instance written_unposting g o : Unposting (on_written g o).
Proof. intros p s. unfold on_written. destruct o; commute. Qed.

#[export] Instance idle_unposting g o : Unposting (on_idle g o).
Proof. intros p s. unfold on_idle, emitError. destruct o; commute. Qed.

#[export] Instance reconnect_unposting o identity : Unposting (on_reconnect o identity).
Proof. intros p s. unfold on_reconnect. destruct o; commute. Qed.

#[export] Instance voice_timeout_unposting o : Unposting (on_voice_timeout o).
Proof. intros p s. unfold on_voice_timeout, emitError. destruct o; commute. Qed.

#[export] Instance voice_loop_unposting fuel data offset id : Unposting (sendVoiceData_loop fuel data offset id).
Proof.
  revert offset. induction fuel as [|fuel IH]; intros offset p s; [done|]. cbn [sendVoiceData_loop].
  destruct (_ <? _); [|done]. cbv zeta. rewrite queueMessage_unposting. apply IH.
Qed.

#[export] Instance task_unposting t identity : Unposting (run_task t identity).
Proof.
  intros p s. destruct t; cbn [run_task].
  - unfold connect_task. commute.
  - unfold disconnect_task, emitAvailability. commute.
  - commute.
  - unfold sendText_task. commute.
  - unfold startVoice_task, emitError. commute.
  - unfold sendVoiceData_task. member voiceSessionId_. destruct (voiceSessionId_ s); commute.
  - unfold stopVoice_task, emitVoiceStopped. cbv zeta. repeat through.
    match goal with |- context [voiceSessionId_ ?r] => destruct (voiceSessionId_ r) end; commute.
  - unfold disconnectAndWait_task. commute.
  - unfold destroy_task. commute.
Qed.

Lemma complete_unposting op c o identity p s :
  complete op c o identity (having p s) = option_map (having p) (complete op c o identity s).
Proof.
  destruct op, o; cbn [complete option_map]; try done;
    repeat match goal with |- context [if ?b then _ else _] => destruct b; cbn [option_map]; try done end;
    f_equal; apply unposting.
Qed.

End handlers.

(** ** Calls and turns *)

(** The asynchronous operations, as the application or a callback calls them. *)
Definition posts (c : choice) : bool :=
  match c with
  | CallDestroy | CallSetCallbacks _ | RunPosted _ | Complete _ _ _ => false
  | _ => true
  end.

Section calls.
Implicit Types (s : Impl) (l : list task).

(** More function objects to run after those that are there. *)
Definition with_more l s : Impl := having (posted_ s ++ l) s.

Lemma with_more_nil s : with_more [] s = s.
Proof. unfold with_more. rewrite app_nil_r. by destruct s. Qed.

Lemma with_more_app l1 l2 s : with_more l2 (with_more l1 s) = with_more (l1 ++ l2) s.
Proof. unfold with_more, having. cbn. by rewrite app_assoc. Qed.

Lemma call_posts c : posts c = true -> exists l, forall s, exec c s = Some (with_more l s).
Proof.
  destruct c; cbn [posts]; intros Hc; try done; try (by eexists [_]; intros s).
  - destruct (keyCodeFromName keyName) as [key|] eqn:E.
    + exists [TQueueMessage (remoteKey key direction)]. intros s. cbn [exec]. unfold sendKeyName. by rewrite E.
    + exists []. intros s. cbn [exec]. unfold sendKeyName. by rewrite E, with_more_nil.
  - destruct (decide (text = "")) as [E|E].
    + exists []. intros s. cbn [exec]. unfold sendText. by rewrite bool_decide_eq_true_2, with_more_nil.
    + exists [TSendText text]. intros s. cbn [exec]. unfold sendText. by rewrite bool_decide_eq_false_2.
Qed.

Lemma calls_post calls :
  forallb posts calls = true -> exists l, forall s, run calls s = Some (with_more l s).
Proof.
  induction calls as [|c calls IH]; cbn [forallb]; intros H.
  { exists []. intros s. cbn [run]. by rewrite with_more_nil. }
  apply andb_true_iff in H as [Hc H]. destruct (call_posts c Hc) as [l1 E1], (IH H) as [l2 E2].
  exists (l1 ++ l2)%list. intros s. cbn [run]. by rewrite E1, E2, with_more_app.
Qed.

Lemma turn_with_more c l s s' :
  io_turn c = true -> exec c s = Some s' -> exec c (with_more l s) = Some (with_more l s').
Proof.
  destruct c; cbn [io_turn exec]; intros Hc He; try done.
  - destruct (posted_ s) as [|t rest] eqn:Ep; [done|]. apply (inj Some) in He. subst s'.
    unfold with_more. change (posted_ (having (posted_ s ++ l) s)) with (posted_ s ++ l)%list.
    rewrite Ep. cbn [app]. f_equal.
    change ((having (t :: rest ++ l) s) <| posted_ := rest ++ l |>)
      with (having (rest ++ l) (having rest s)).
    change (s <| posted_ := rest |>) with (having rest s).
    destruct (task_promises t identity (having rest s)) as [-> _]. apply unposting.
  - change (pending_ (with_more l s)) with (pending_ s). destruct (pending_ s !! i) as [[op c]|]; [|done].
    set (s0 := s <| pending_ := delete i (pending_ s) |>) in *.
    change ((with_more l s) <| pending_ := delete i (pending_ s) |>) with (having (posted_ s0 ++ l) s0).
    rewrite complete_unposting, He. unfold with_more. cbn [option_map].
    by destruct (complete_promises _ _ _ _ _ _ He) as [-> _].
Qed.

Lemma turns_with_more turns l s s' :
  forallb io_turn turns = true -> run turns s = Some s' -> run turns (with_more l s) = Some (with_more l s').
Proof.
  revert s. induction turns as [|c turns IH]; intros s Ht Hr; cbn [run] in *; [by injection Hr as <-|].
  cbn [forallb] in Ht. apply andb_true_iff in Ht as [Hc Ht].
  destruct (exec c s) as [s1|] eqn:E; [|done]. rewrite (turn_with_more _ _ _ _ Hc E). by apply IH.
Qed.

Lemma run_app cs1 cs2 s : run (cs1 ++ cs2) s = run cs1 s ≫= run cs2.
Proof.
  revert s. induction cs1 as [|c cs1 IH]; intros s; cbn [app run]; [done|].
  by destruct (exec c s); [apply IH|].
Qed.

End calls.

(** C6. The moment of a call does not matter. Any number of asynchronous calls, made before
    any turns of the thread of [io_] that it can make without them, have the effect they
    have when they are made after: the state and the trace are the same. *)
Theorem calls_commute (calls turns : list choice) (s s' : Impl) :
  forallb posts calls = true -> forallb io_turn turns = true -> run turns s = Some s' ->
  exists l, run (calls ++ turns) s = Some (s' <| posted_ := (posted_ s' ++ l)%list |>) /\
    run (turns ++ calls) s = Some (s' <| posted_ := (posted_ s' ++ l)%list |>).
Proof.
  intros Hc Ht Hr. destruct (calls_post calls Hc) as [l E]. exists l. rewrite !run_app, E, Hr. cbn [mbind option_bind].
  split; [by apply turns_with_more|apply E].
Qed.

(** A key and a text while the session is being opened. *)
Lemma calls_commute_witness :
  let calls := [CallSendKeyName "HOME" Short; CallSendText "hello"] in
  let turns := tail (tail session) in
  exists s s', run [CallSetCallbacks Callbacks_all; CallConnect] (Impl_init tv_options) = Some s /\
    run (calls ++ turns) s = Some s' /\ run (turns ++ calls) s = Some s'.
Proof.
  cbv zeta. set (calls := [CallSendKeyName _ _; _]). set (turns := tail (tail session)).
  set (before := default (Impl_init tv_options)
    (run [CallSetCallbacks Callbacks_all; CallConnect] (Impl_init tv_options))).
  assert (run [CallSetCallbacks Callbacks_all; CallConnect] (Impl_init tv_options) = Some before) as Hb
    by (vm_compute; reflexivity).
  assert (run turns before = Some session_end) as Hr by (vm_compute; reflexivity).
  destruct (calls_commute calls turns before session_end eq_refl ltac:(vm_compute; reflexivity) Hr)
    as (l & H1 & H2).
  exists before. eexists. split; [exact Hb|]. split; [exact H1|exact H2].
Defined.
