(* ===== verification/RemoteClock.v ===== *)
(** * Time

    The timers of the remote connection, on a clock. A timed state adds to the object
    when each operation in flight was started and when its wait was cancelled, and the
    time of everything that was done; a wait succeeds only when its time was up before it
    was cancelled, if it was. [timed_inv] is what a timed run keeps. *)

From S2P Require Import Prelude Wire Types Messages KeyCodes RemoteState Remote.
From S2P Require Import RemoteInv RemoteSteps RemoteProps RemoteAtoms RemotePace.

Local Open Scope Z_scope.
Local Open Scope cxx_scope.

(** In milliseconds. *)
Definition VoiceStartTimeout : Z := 2000.
Definition IdleTimeout : Z := 16000.

(** The argument of [expires_after] at each of the three waits, and the wait of each
    operation. *)
Definition reconnect_expiry (delay : Z) : Z := delay.
Definition idle_expiry : Z := IdleTimeout.
Definition voice_expiry : Z := VoiceStartTimeout.

Definition duration (op : operation) : option Z :=
  match op with
  | WaitReconnect delay => Some (reconnect_expiry delay)
  | WaitIdle _ => Some idle_expiry
  | WaitVoice => Some voice_expiry
  | _ => None
  end.

(** When an operation was started and when its wait was cancelled. *)
Record stamp := mkStamp { began : Z; cancelled_at : option Z }.

Record timed := mkTimed {
  now : Z;
  impl : Impl;
  stamps : list stamp;
  history : list (Z * effect)
}.

Definition timed_init (options : Options) : timed := mkTimed 0 (Impl_init options) [] [].

(** After a turn at [t] that leaves [pending]: the new operations have begun now, and the
    waits that are cancelled and were not before were cancelled now. *)
Fixpoint restamp (t : Z) (old : list stamp) (pending : list (operation * bool)) : list stamp :=
  match pending with
  | [] => []
  | (_, cancelled) :: pending =>
      match old with
      | st :: old =>
          mkStamp (began st) (if (cancelled : bool) then Some (default t (cancelled_at st)) else None)
            :: restamp t old pending
      | [] => mkStamp t (if cancelled then Some t else None) :: restamp t [] pending
      end
  end.

(** Whether the [i]-th operation may complete so at [t]. *)
Definition due (t : Z) (i : nat) (o : outcome) (k : timed) : bool :=
  match o, pending_ (impl k) !! i, stamps k !! i with
  | Succeeded, Some (op, _), Some st =>
      match duration op with
      | Some d => began st + d <=? default t (cancelled_at st)
      | None => true
      end
  | _, _, _ => true
  end.

(** One turn at time [t]. *)
Definition tick (t : Z) (c : choice) (k : timed) : option timed :=
  if t <? now k then None else
  let '(allowed, old) := match c with
    | Complete i o _ => (due t i o k, delete i (stamps k))
    | _ => (true, stamps k)
    end in
  if allowed then
    match exec c (impl k) with
    | Some s => Some (mkTimed t s (restamp t old (pending_ s))
        (history k ++ map (pair t) (drop (length (trace_ (impl k))) (trace_ s)))%list)
    | None => None
    end
  else None.

Fixpoint timed_run (cs : list (Z * choice)) (k : timed) : option timed :=
  match cs with
  | [] => Some k
  | (t, c) :: cs => match tick t c k with Some k => timed_run cs k | None => None end
  end.

(** ** Timed runs *)

(** What is known of an operation in flight: when it was started, and that what
    resets the idle timer cancelled it since, if it is a wait of that timer. *)
Record stamped (k : timed) (op : operation) (c : bool) (st : stamp) : Prop := {
  st_began : began st <= now k;
  st_start : (began st, Start op) ∈ history k;
  st_live : c = false -> cancelled_at st = None;
  st_cancelled : c = true -> exists t, cancelled_at st = Some t /\ t <= now k;
  st_traffic : timer_of op = Some IdleTimer -> forall t e, (t, e) ∈ history k -> resets_idle e ->
    began st < t -> exists tc, cancelled_at st = Some tc /\ tc <= t
}.

Record timed_inv (k : timed) : Prop := {
  t_length : length (stamps k) = length (pending_ (impl k));
  t_trace : map snd (history k) = trace_ (impl k);
  t_past : forall t e, (t, e) ∈ history k -> t <= now k;
  t_stamps : forall i op c st, pending_ (impl k) !! i = Some (op, c) -> stamps k !! i = Some st ->
    stamped k op c st
}.

Section clock.

Lemma delete_same_length {A B} i (l1 : list A) (l2 : list B) :
  length l1 = length l2 -> length (delete i l1) = length (delete i l2).
Proof.
  revert i l2. induction l1 as [|x l1 IH]; intros [|i] [|y l2] H; cbn in *; auto; try lia.
Qed.

Lemma restamp_length t old pending : length (restamp t old pending) = length pending.
Proof.
  revert old. induction pending as [|[op c] pending IH]; intros [|st old]; cbn; auto.
Qed.

Lemma restamp_lookup t old pending i op c :
  pending !! i = Some (op, c) ->
  restamp t old pending !! i = Some (match old !! i with
    | Some st => mkStamp (began st) (if (c : bool) then Some (default t (cancelled_at st)) else None)
    | None => mkStamp t (if c then Some t else None)
    end).
Proof.
  revert old i. induction pending as [|[op' c'] pending IH]; intros old [|i] H; cbn in H; try done.
  - injection H as -> ->. by destruct old.
  - destruct old as [|st old]; cbn; [|by apply IH]. specialize (IH [] i H). by rewrite lookup_nil in IH.
Qed.

(** A turn leaves exactly its effects on the history. *)
Lemma history_turn (h : list (Z * effect)) (t : Z) (before done : list effect) :
  (h ++ map (pair t) (drop (length before) (before ++ done)))%list = (h ++ map (pair t) done)%list.
Proof. by rewrite drop_app_length. Qed.

Lemma elem_of_turn h (t : Z) (done : list effect) t' e :
  (t', e) ∈ (h ++ map (pair t) done)%list -> (t', e) ∈ h \/ (t' = t /\ e ∈ done).
Proof.
  intros [H|H]%elem_of_app; [by left|right]. apply list_elem_of_fmap in H as (e' & [= -> ->] & H). done.
Qed.

(** What one turn does to an operation that stays in flight. *)
Lemma stamped_carried k k' (done : list effect) reset op c c' st :
  stamped k op c st -> timed_inv k -> now k <= now k' ->
  history k' = (history k ++ map (pair (now k')) done)%list ->
  (c = true -> c' = true) -> (reset = true -> timer_of op = Some IdleTimer -> c' = true) ->
  (reset = false -> Forall (fun e => ~ resets_idle e) done) ->
  stamped k' op c' (mkStamp (began st) (if (c' : bool) then Some (default (now k') (cancelled_at st)) else None)).
Proof.
  intros [Hb Hst Hl Hc Ht] [_ _ Hp _] Hn Hh Hm Hr Hd. constructor; cbn.
  - lia.
  - rewrite Hh. apply elem_of_app. by left.
  - by intros ->.
  - intros ->. eexists. split; [done|]. destruct c; [|rewrite (Hl eq_refl); cbn; lia].
    destruct (Hc eq_refl) as (tc & -> & ?). cbn. lia.
  - intros Hi t e He Htr Hlt. rewrite Hh in He. apply elem_of_turn in He as [He|[-> He]].
    + destruct (Ht Hi t e He Htr Hlt) as (tc & E & Htc). destruct c; [|by rewrite (Hl eq_refl) in E].
      rewrite (Hm eq_refl), E. by exists tc.
    + destruct reset; [|by destruct (proj1 (Forall_forall _ _) (Hd eq_refl) _ (proj1 (list_elem_of_In _ _) He))].
      rewrite (Hr eq_refl Hi). eexists. split; [done|]. destruct c; [|rewrite (Hl eq_refl); cbn; lia].
      destruct (Hc eq_refl) as (tc & -> & ?). cbn. lia.
Qed.

Lemma timed_inv_turn k s0 old s' t :
  now k <= t -> timed_inv k -> length old = length (pending_ s0) -> trace_ s0 = trace_ (impl k) ->
  (forall i op c st, pending_ s0 !! i = Some (op, c) -> old !! i = Some st -> stamped k op c st) ->
  (exists reset, flight s0 reset s') ->
  timed_inv (mkTimed t s' (restamp t old (pending_ s'))
    (history k ++ map (pair t) (drop (length (trace_ (impl k))) (trace_ s')))%list).
Proof.
  intros Hn Hk Hlen Htr Hst (reset & kept & new & done & H1 & H2 & H3 & H4 & H5).
  rewrite Htr in H3. rewrite H3, history_turn. set (k' := mkTimed _ _ _ _).
  pose proof (Forall2_length H2) as Hl2.
  constructor.
  - apply restamp_length.
  - cbn. rewrite map_app, map_map, map_id, (t_trace _ Hk). done.
  - cbn. intros t' e [He|[-> _]]%elem_of_turn; [|lia]. apply (t_past _ Hk) in He. lia.
  - cbn. intros i op c st Hi Hsti. rewrite (restamp_lookup _ _ _ _ _ _ Hi) in Hsti.
    injection Hsti as <-. rewrite H1 in Hi. apply lookup_app_Some in Hi as [Hi|[Hge Hi]].
    + destruct (Forall2_lookup_r _ _ _ _ _ H2 Hi) as ([op0 c0] & Hi0 & (E & Hm & Hr)).
      cbn in E, Hm, Hr. subst op0.
      destruct (lookup_lt_is_Some_2 old i) as [st Hsti];
        [rewrite Hlen; by eapply lookup_lt_Some|]. rewrite Hsti.
      apply (stamped_carried k k' done reset op c0 c st); [by eapply Hst|exact Hk|exact Hn|reflexivity|exact Hm|exact Hr|exact H4].
    + rewrite (lookup_ge_None_2 old i) by lia. apply list_elem_of_lookup_2, H5 in Hi.
      constructor; cbn; [lia| |by intros ->|intros ->; by exists t|].
      * apply elem_of_app. right. apply list_elem_of_fmap. by eexists.
      * intros _ t' e [He|[-> _]]%elem_of_turn; [apply (t_past _ Hk) in He|]; lia.
Qed.

Lemma tick_inv t c k k' : timed_inv k -> tick t c k = Some k' -> timed_inv k'.
Proof.
  intros Hk Ht. unfold tick in Ht. destruct (Z.ltb_spec t (now k)); [done|].
  assert (forall old, length old = length (pending_ (opened c (impl k))) ->
    (forall i op c' st, pending_ (opened c (impl k)) !! i = Some (op, c') -> old !! i = Some st ->
      stamped k op c' st) ->
    match exec c (impl k) with
    | Some s => Some (mkTimed t s (restamp t old (pending_ s))
        (history k ++ map (pair t) (drop (length (trace_ (impl k))) (trace_ s)))%list)
    | None => None
    end = Some k' -> timed_inv k') as Hturn.
  { intros old Hlen Hst He. destruct (exec c (impl k)) as [s|] eqn:E; [|done]. injection He as <-.
    eapply timed_inv_turn; [lia|done|exact Hlen| |exact Hst|by apply exec_flight]. by destruct c. }
  destruct Hk as [Hlen Htr Hp Hst].
  destruct c; try (apply (Hturn (stamps k)); [exact Hlen|exact Hst|exact Ht]).
  destruct (due t i o k); [|done]. apply (Hturn (delete i (stamps k))); [| |exact Ht].
  - by apply delete_same_length.
  - intros j op c' st. cbn. rewrite !list_lookup_delete. case_decide; apply Hst.
Qed.

Lemma timed_run_inv cs k k' : timed_inv k -> timed_run cs k = Some k' -> timed_inv k'.
Proof.
  revert k. induction cs as [|[t c] cs IH]; intros k Hk Hr; cbn [timed_run] in Hr; [by injection Hr as <-|].
  destruct (tick t c k) as [k1|] eqn:E; [|done]. eapply IH; [|exact Hr]. by eapply tick_inv.
Qed.

Lemma timed_init_inv options : timed_inv (timed_init options).
Proof. constructor; [done|done|by intros ?? H; inversion H|done]. Qed.

End clock.

(** C9. The idle timer closes a connection only after silence. When its handler runs without
    an error for the connection there is, at a time that the clock allows, then 16 seconds
    have gone by - from a moment at which the timer was set to a moment not after now -
    in which no message was received that is not empty, and none was queued. (Empty
    messages are not counted, because they do not reset the timer.) *)
Theorem idle_after_silence (options : Options) (cs : list (Z * choice)) (k k' : timed)
    (t : Z) (i : nat) (identity : setup) (c : bool) :
  timed_run cs (timed_init options) = Some k ->
  pending_ (impl k) !! i = Some (WaitIdle (generation_ (impl k)), c) ->
  tick t (Complete i Succeeded identity) k = Some k' ->
  exists t0, (t0, Start (WaitIdle (generation_ (impl k)))) ∈ history k' /\ t0 + IdleTimeout <= t /\
    forall t' e, (t', e) ∈ history k' -> resets_idle e -> t' <= t0 \/ t0 + IdleTimeout <= t'.
Proof.
  intros Hr Hi Ht. pose proof (timed_run_inv _ _ _ (timed_init_inv options) Hr) as Hk.
  pose proof (tick_inv _ _ _ _ Hk Ht) as Hk'.
  destruct (lookup_lt_is_Some_2 (stamps k) i) as [st Hst];
    [rewrite (t_length _ Hk); by eapply lookup_lt_Some|].
  destruct (t_stamps _ Hk _ _ _ _ Hi Hst) as [Hb Hs Hl Hc Htr].
  unfold tick in Ht. destruct (Z.ltb_spec t (now k)) as [|Hn]; [done|].
  unfold due in Ht. rewrite Hi, Hst in Ht. cbn [duration] in Ht. unfold idle_expiry in Ht.
  destruct (Z.leb_spec (began st + IdleTimeout) (default t (cancelled_at st))) as [Hdue|]; [|done].
  destruct (exec _ _) as [s|]; [|done]. injection Ht as <-. cbn [history].
  assert (default t (cancelled_at st) <= t) as Hle.
  { destruct c; [|by rewrite (Hl eq_refl)]. destruct (Hc eq_refl) as (tc & -> & ?). cbn. lia. }
  exists (began st). split_and!; [apply elem_of_app; by left|lia|].
  intros t' e [He|(e' & [= -> ->] & _)%list_elem_of_fmap]%elem_of_app Htraffic; [|lia].
  destruct (Z.le_gt_cases t' (began st)); [by left|right].
  destruct (Htr eq_refl t' e He Htraffic ltac:(lia)) as (tc & E & ?). rewrite E in Hdue. cbn in Hdue. lia.
Qed.

(** A session that is left alone: a second for each turn, then sixteen of silence. *)
Definition quiet_session : list (Z * choice) :=
  combine (map (fun n => 1000 * Z.of_nat n) (seq 0 (length session))) session.

Definition quiet_end : timed :=
  default (timed_init tv_options) (timed_run quiet_session (timed_init tv_options)).

Lemma idle_after_silence_witness :
  now quiet_end = 10000 /\ stamps quiet_end !! 2%nat = Some (mkStamp 10000 None) /\
  tick 25999 (Complete 2 Succeeded (Ok tt)) quiet_end = None /\
  exists k', tick 26000 (Complete 2 Succeeded (Ok tt)) quiet_end = Some k' /\
    state_ (impl k') = Reconnecting /\
    exists t0, (t0, Start (WaitIdle 1)) ∈ history k' /\ t0 + 16000 <= 26000 /\
    forall t' e, (t', e) ∈ history k' -> resets_idle e -> t' <= t0 \/ t0 + 16000 <= t'.
Proof.
  split_and!; [vm_compute; reflexivity|vm_compute; reflexivity|vm_compute; reflexivity|].
  destruct (tick 26000 (Complete 2 Succeeded (Ok tt)) quiet_end) as [k'|] eqn:E;
    [|vm_compute in E; discriminate E].
  exists k'. split; [reflexivity|]. split.
  - apply (f_equal (option_map (fun k => state_ (impl k)))) in E. vm_compute in E. by injection E.
  - apply (idle_after_silence tv_options quiet_session quiet_end k' 26000 2 (Ok tt) false);
      [vm_compute; reflexivity|vm_compute; reflexivity|exact E].
Defined.
