(* ===== verification/RemoteWatch.v ===== *)
(** * The idle timer watches every open connection

    As long as a read of the connection is in flight, a wait of the idle timer for it is in
    flight too, and not cancelled. [Stable] is what the predicates that the proof follows
    through a handler have in common. *)

From S2P Require Import Prelude Wire Types Messages KeyCodes RemoteState Remote.
From S2P Require Import RemoteInv RemoteSteps RemoteSpec RemoteProps RemoteBehaviour RemoteAtoms RemotePace RemoteClock.

Local Open Scope Z_scope.
Local Open Scope cxx_scope.

Definition reads (g : Z) (op : operation) : bool :=
  match op with ReadLength g' | ReadBody g' _ => g' =? g | _ => false end.

Definition is_read (op : operation) : bool :=
  match op with ReadLength _ | ReadBody _ _ => true | _ => false end.

(** No read of that generation is in flight; a wait for the connection there is, is. *)
Definition no_reads (g : Z) (s : Impl) : Prop :=
  forall op c, (op, c) ∈ pending_ s -> reads g op = false.

Definition watched (s : Impl) : Prop := (WaitIdle (generation_ s), false) ∈ pending_ s.

Definition idle_armed (s : Impl) : Prop := watched s \/ no_reads (generation_ s) s.

(** What does not concern the idle timer keeps [P], and so does setting it. *)
Class Stable (P : Impl -> Prop) := {
  st_same : forall s s', P s -> pending_ s' = pending_ s -> generation_ s' = generation_ s -> P s';
  st_cancel : forall t s, t <> IdleTimer -> P s -> P (cancel t s);
  st_reset : forall s, P s -> P (resetIdleTimer s);
  st_start : forall op s, is_read op = false -> P s -> P (start op s)
}.

(** In a handler of generation [g]: before the connection is closed ([open]), with the
    timer set as it should be ([armed]) or surely set ([alert]); and after ([lost]). *)
Record open (g : Z) (s : Impl) : Prop := {
  o_generation : generation_ s = g;
  o_next : no_reads (u64 (g + 1)) s
}.

Record armed (g : Z) (s : Impl) : Prop := { a_open : open g s; a_armed : idle_armed s }.

Record alert (g : Z) (s : Impl) : Prop := { l_open : open g s; l_watched : watched s }.

Record lost (g : Z) (s : Impl) : Prop := {
  x_generation : generation_ s = u64 (g + 1);
  x_reads : no_reads (u64 (g + 1)) s
}.

Section effects.
Implicit Types (g : Z) (s : Impl).

Lemma reads_is_read g op : is_read op = false -> reads g op = false.
Proof. by destruct op. Qed.

Lemma pending_cancel t s op c :
  (op, c) ∈ pending_ (cancel t s) -> exists c', (op, c') ∈ pending_ s.
Proof.
  cbn. intros ([op' c'] & E & H)%list_elem_of_fmap. exists c'. by case_bool_decide; injection E as -> _.
Qed.

Lemma no_reads_same g s s' : pending_ s' = pending_ s -> no_reads g s -> no_reads g s'.
Proof. unfold no_reads. by intros ->. Qed.

Lemma no_reads_cancel g t s : no_reads g s -> no_reads g (cancel t s).
Proof. intros H op c [c' Hop]%pending_cancel. by eapply H. Qed.

Lemma no_reads_start g op s : reads g op = false -> no_reads g s -> no_reads g (start op s).
Proof.
  intros Ho H op' c. cbn. rewrite elem_of_app, list_elem_of_singleton. intros [|[= -> _]]; [by eapply H|done].
Qed.

Lemma no_reads_reset g s : no_reads g s -> no_reads g (resetIdleTimer s).
Proof. intros H. by apply no_reads_start, no_reads_cancel. Qed.

Lemma watched_same s s' :
  pending_ s' = pending_ s -> generation_ s' = generation_ s -> watched s -> watched s'.
Proof. unfold watched. by intros -> ->. Qed.

Lemma watched_cancel t s : t <> IdleTimer -> watched s -> watched (cancel t s).
Proof. intros Ht H. apply (live_cancel t s (WaitIdle (generation_ s))); [cbn; congruence|done]. Qed.

Lemma watched_reset s : watched (resetIdleTimer s).
Proof. unfold watched, resetIdleTimer. cbn. apply elem_of_app. right. by apply list_elem_of_singleton. Qed.

Lemma watched_start op s : watched s -> watched (start op s).
Proof. intros H. unfold watched. cbn. apply elem_of_app. by left. Qed.

#[global] Instance open_stable g : Stable (open g).
Proof.
  constructor.
  - intros s s' [<- H] Hp Hg. split; [done|by eapply no_reads_same].
  - intros t s _ [<- H]. split; [done|by apply no_reads_cancel].
  - intros s [<- H]. split; [done|by apply no_reads_reset].
  - intros op s Ho [<- H]. split; [done|]. apply no_reads_start; [by apply reads_is_read|done].
Qed.

#[global] Instance alert_stable g : Stable (alert g).
Proof.
  constructor.
  - intros s s' [H1 H2] Hp Hg. split; [by eapply st_same|by eapply watched_same].
  - intros t s Ht [H1 H2]. split; [by apply st_cancel|by apply watched_cancel].
  - intros s [H1 H2]. split; [by apply st_reset|apply watched_reset].
  - intros op s Ho [H1 H2]. split; [by apply st_start|by apply watched_start].
Qed.

#[global] Instance lost_stable g : Stable (lost g).
Proof.
  constructor.
  - intros s s' [E H] Hp Hg. split; [congruence|by eapply no_reads_same].
  - intros t s _ [E H]. split; [done|by apply no_reads_cancel].
  - intros s [E H]. split; [done|by apply no_reads_reset].
  - intros op s Ho [E H]. split; [done|]. apply no_reads_start; [by apply reads_is_read|done].
Qed.

#[global] Instance armed_stable g : Stable (armed g).
Proof.
  constructor.
  - intros s s' [H1 H2] Hp Hg. split; [by eapply st_same|]. unfold idle_armed. rewrite Hg.
    destruct H2; [left; by eapply watched_same|right; by eapply no_reads_same].
  - intros t s Ht [H1 H2]. split; [by apply st_cancel|].
    destruct H2; [left; by apply watched_cancel|right; by apply no_reads_cancel].
  - intros s [H1 H2]. split; [by apply st_reset|]. left. apply watched_reset.
  - intros op s Ho [H1 H2]. split; [by apply st_start|].
    destruct H2; [left; by apply watched_start|right; apply no_reads_start; [by apply reads_is_read|done]].
Qed.

Lemma alert_armed g s : alert g s -> armed g s.
Proof. intros [H1 H2]. split; [done|by left]. Qed.

Lemma next_differs g : g <> u64 (g + 1).
Proof.
  unfold wrap. intros E. pose proof (Z.mod_pos_bound (g + 1) (2 ^ 64) ltac:(done)) as Hb.
  rewrite <- E in Hb. destruct (Z.eq_dec g (2 ^ 64 - 1)) as [Hg|Hg]; [by rewrite Hg in E|].
  rewrite Z.mod_small in E by lia. lia.
Qed.

(** A read may be started when the timer is set. *)
Lemma alert_read g op s : op_generation op = Some g -> alert g s -> alert g (start op s).
Proof.
  intros Ho [[E H] Hw]. split; [|by apply watched_start]. split; [done|].
  apply no_reads_start; [|done].
  destruct op; cbn in Ho |- *; try done; injection Ho as ->; apply Z.eqb_neq, next_differs.
Qed.

End effects.

(** ** What every handler of the television's messages keeps *)
Section stable.
Context (P : Impl -> Prop) {HP : Stable P}.
Implicit Types (s : Impl).

Lemma stable_log e s : P s -> P (log e s).
Proof. intros H. by eapply st_same. Qed.

Lemma stable_emit n s : P s -> P (emit n s).
Proof. unfold emit. destruct (is_set _ _); [by apply stable_log|done]. Qed.

Lemma stable_setState state s : P s -> P (setState state s).
Proof. intros H. apply stable_emit. by eapply st_same. Qed.

Lemma stable_on_stream op s : is_read op = false -> P s -> P (start_on_stream op s).
Proof. intros Ho H. unfold start_on_stream. destruct (stream_ s); [by apply st_start|by apply stable_log]. Qed.

Lemma stable_beginWrite s : P s -> P (beginWrite s).
Proof.
  intros H. unfold beginWrite. destruct (writeQueue_ s); [by eapply st_same|].
  destruct (negb _); [by eapply st_same|]. cbv zeta. apply stable_on_stream; [done|]. by eapply st_same.
Qed.

Lemma stable_queueMessage p s : P s -> P (queueMessage p s).
Proof.
  intros H. unfold queueMessage. destruct (negb _); [done|]. cbv zeta. apply st_reset in H.
  set (s1 := resetIdleTimer s) in *. clearbody s1. set (s2 := log _ _).
  assert (P s2) as H2 by (by eapply st_same). clearbody s2. destruct (negb _); [by apply stable_beginWrite|done].
Qed.

Lemma stable_session o s : P s -> P (s <| voiceSessionId_ := o |>).
Proof. intros H. by eapply st_same. Qed.

Lemma stable_starting b s : P s -> P (s <| voiceStarting_ := b |>).
Proof. intros H. by eapply st_same. Qed.

Lemma stable_delay d s : P s -> P (s <| reconnectDelay_ := d |>).
Proof. intros H. by eapply st_same. Qed.

Lemma stable_stream b s : P s -> P (s <| stream_ := b |>).
Proof. intros H. by eapply st_same. Qed.

Lemma stable_user b s : P s -> P (s <| userDisconnect_ := b |>).
Proof. intros H. by eapply st_same. Qed.

Lemma stable_work b s : P s -> P (s <| work_ := b |>).
Proof. intros H. by eapply st_same. Qed.

Lemma stable_handleMessage message s : P s -> P (handleMessage message s).
Proof.
  intros H. unfold handleMessage, emitError, emitAvailability. cbv zeta.
  apply (stable_log (Handled (generation_ s) message)) in H. set (s0 := log _ _) in *. clearbody s0.
  assert (forall s1, pending_ s1 = pending_ s0 -> generation_ s1 = generation_ s0 -> P s1) as Hset
    by (intros; by eapply st_same).
  destruct (kind _); [done|..].
  - by apply stable_queueMessage, stable_emit, Hset.
  - by apply stable_queueMessage.
  - by apply stable_emit, Hset.
  - by apply Hset.
  - by apply stable_emit, Hset.
  - by apply stable_emit, stable_emit, stable_setState, Hset.
  - by apply stable_queueMessage.
  - by apply stable_emit.
  - destruct (voiceStarting_ s0); [|done].
    apply stable_emit, stable_queueMessage, stable_session, st_cancel; [done|by apply stable_starting].
Qed.

Lemma stable_voice_loop fuel data offset id s : P s -> P (sendVoiceData_loop fuel data offset id s).
Proof.
  revert offset s. induction fuel as [|fuel IH]; intros offset s H; [done|]. cbn [sendVoiceData_loop].
  destruct (_ <? _); [|done]. by apply IH, stable_queueMessage.
Qed.

Lemma stable_startVoice s : P s -> P (startVoice_task s).
Proof.
  intros H. unfold startVoice_task, emitError. destruct (negb (voiceEnabled_ s)); [by apply stable_emit|].
  destruct (_ || _); [by apply stable_emit|]. destruct (negb _); [by apply stable_emit|]. cbv zeta.
  apply st_start, st_cancel; [done|done|]. by apply stable_queueMessage, stable_starting.
Qed.

Lemma stable_stopVoice s : P s -> P (stopVoice_task s).
Proof.
  intros H. unfold stopVoice_task, emitVoiceStopped. cbv zeta.
  apply (st_cancel VoiceTimer), (stable_starting false) in H; [|done].
  set (s1 := _ <| voiceStarting_ := false |>) in *. clearbody s1. destruct (voiceSessionId_ s1); [|done].
  by apply stable_emit, stable_session, stable_queueMessage.
Qed.

End stable.

(** ** The handlers *)
Definition after (g : Z) (s : Impl) : Prop := armed g s \/ lost g s.

Section handlers.
Implicit Types (g : Z) (s : Impl).

Create HintDb watch.
Lemma armed_after g s : armed g s -> after g s.
Proof. by left. Qed.

Lemma lost_after g s : lost g s -> after g s.
Proof. by right. Qed.

#[local] Hint Resolve armed_after lost_after alert_armed : watch.

Lemma open_cancel g t s : open g s -> open g (cancel t s).
Proof. intros [E H]. split; [done|by apply no_reads_cancel]. Qed.

Lemma lost_cancel g t s : lost g s -> lost g (cancel t s).
Proof. intros [E H]. split; [done|by apply no_reads_cancel]. Qed.

Lemma open_read g op s : op_generation op = Some g -> open g s -> open g (start op s).
Proof.
  intros Ho [E H]. split; [done|]. apply no_reads_start; [|done].
  destruct op; cbn in Ho |- *; try done; injection Ho as ->; apply Z.eqb_neq, next_differs.
Qed.

Lemma open_reset g s : open g s -> alert g (resetIdleTimer s).
Proof. intros H. split; [by apply st_reset|apply watched_reset]. Qed.

Lemma closeStream_lost g s : open g s -> lost g (closeStream s).
Proof. intros [E H]. unfold closeStream. cbn. rewrite E. by destruct (stream_ s). Qed.

Lemma loss_lost g s : open g s -> lost g (handleConnectionLoss g s).
Proof.
  intros H. unfold handleConnectionLoss, emitAvailability. rewrite (o_generation _ _ H), Z.eqb_refl.
  cbv beta iota zeta delta [negb]. apply closeStream_lost in H.
  set (s1 := closeStream s) in *. clearbody s1.
  set (s2 := if bool_decide (state_ s = Connected) then emit (AvailabilityChanged false) s1 else s1).
  assert (lost g s2) as H2 by (unfold s2; destruct bool_decide; [by apply (stable_emit _)|done]).
  clearbody s2. destruct (_ && _ && _); [|by apply (stable_setState _)].
  by apply (stable_delay _), st_start, st_cancel, (stable_setState _).
Qed.

Lemma failed_after prefix message g s : armed g s -> after g (connectionFailed prefix message g s).
Proof.
  intros H. unfold connectionFailed. destruct (_ || _); [eauto with watch|]. cbv zeta.
  apply lost_after, loss_lost. apply (stable_emit (open g)). by apply H.
Qed.

Lemma refused_after message g s : armed g s -> after g (authenticationFailed message g s).
Proof.
  intros H. unfold authenticationFailed, emitError, emitAvailability.
  destruct (_ || _); [eauto with watch|]. cbv zeta. apply lost_after, (stable_emit _).
  set (s1 := closeStream _). assert (lost g s1) as H1
    by (apply closeStream_lost, (stable_emit (open g)); apply H).
  clearbody s1. destruct bool_decide; [apply (stable_emit _)|]; by apply (stable_setState _).
Qed.

Lemma ensure_same identity s r s' :
  ensureSslContext identity s = (r, s') -> pending_ s' = pending_ s /\ generation_ s' = generation_ s.
Proof.
  unfold ensureSslContext. intros E. destruct (sslContext_ s); [by injection E as _ <-|].
  by destruct identity as [e|[[]|e]]; injection E as _ <-.
Qed.

Lemma beginConnect_after reconnecting identity g s :
  armed g s -> after g (beginConnect reconnecting identity s).
Proof.
  intros H. unfold beginConnect, emitError. destruct (_ || _); [eauto with watch|]. cbv zeta.
  destruct (ensureSslContext identity (closeStream s)) as [r s1] eqn:E.
  apply ensure_same in E as [E1 E2]. apply lost_after.
  assert (lost g s1) as H1 by (eapply st_same; [apply closeStream_lost; apply H|done|done]).
  destruct r; [|by apply (stable_setState _), (stable_emit _)]. apply st_start; [done|].
  by apply (stable_stream _), (stable_setState _).
Qed.

Lemma read_alert g op s : op_generation op = Some g -> alert g s -> alert g (start_on_stream op s).
Proof.
  intros Ho H. unfold start_on_stream. destruct (stream_ s); [by apply alert_read|by apply (stable_log _)].
Qed.

Lemma readOne_alert g s : alert g s -> alert g (readOneLengthByte g s).
Proof. intros H. unfold readOneLengthByte. destruct (_ || _); [done|by apply read_alert]. Qed.

Lemma beginRead_alert g s : alert g s -> alert g (beginReadLength g s).
Proof.
  intros H. unfold beginReadLength. destruct (_ || _); [done|]. cbv zeta.
  apply readOne_alert. by eapply st_same.
Qed.

Lemma readOne_open g s : open g s -> open g (readOneLengthByte g s).
Proof.
  intros H. unfold readOneLengthByte, start_on_stream. destruct (_ || _); [done|].
  destruct (stream_ s); [by apply open_read|by apply (stable_log _)].
Qed.

Lemma beginRead_open g s : open g s -> open g (beginReadLength g s).
Proof.
  intros H. unfold beginReadLength. destruct (_ || _); [done|]. cbv zeta.
  apply readOne_open. by eapply st_same.
Qed.

Lemma length_byte_after g g' o s :
  armed g s -> (g' = g -> alert g s) -> after g (on_length_byte g' o s).
Proof.
  intros Ha H. unfold on_length_byte, emitError. cbv zeta.
  set (s0 := match o with inr byte => s <| lengthByte_ := byte |> | inl _ => s end).
  assert (pending_ s0 = pending_ s /\ generation_ s0 = generation_ s) as [E1 E2]
    by (unfold s0; by destruct o).
  assert (armed g s0) as Ha0 by (by eapply st_same).
  assert (g' = g -> alert g s0) as H0 by (intros E; eapply st_same; [by apply H|done|done]). clearbody s0.
  destruct (Z.eqb_spec g' (generation_ s0)) as [E|]; cbn [negb]; [|eauto with watch].
  rewrite (o_generation _ _ (a_open _ _ Ha0)) in E. subst g'. specialize (H0 eq_refl).
  destruct o as [m|byte]; [by apply failed_after|].
  apply (stable_log _ (GotBytes g [byte])) in H0.
  set (s1 := _ <| readLength_ := _ |>). assert (alert g s1) as H1 by (by eapply st_same).
  clearbody s1. clear H0.
  assert (forall e, lost g (handleConnectionLoss g (emit e s1))) as Hloss.
  { intros e. apply loss_lost, (stable_emit _). apply H1. }
  destruct (negb _).
  - set (s2 := _ <| readShift_ := _ |>). assert (alert g s2) as H2 by (by eapply st_same). clearbody s2.
    destruct (63 <? _); [|by apply armed_after, alert_armed, readOne_alert].
    apply lost_after, loss_lost, (stable_emit _). apply H2.
  - destruct (MaxFrameSize <? _); [by apply lost_after|].
    set (s2 := _ <| readBody_ := _ |>). assert (alert g s2) as H2 by (by eapply st_same). clearbody s2.
    apply armed_after, alert_armed. destruct (_ =? 0); [|by apply read_alert].
    by apply beginRead_alert, (stable_handleMessage _).
Qed.

Lemma body_after g g' o s : armed g s -> (g' = g -> alert g s) -> after g (on_body g' o s).
Proof.
  intros Ha H. unfold on_body. destruct (Z.eqb_spec g' (generation_ s)) as [E|]; cbn [negb]; [|eauto with watch].
  rewrite (o_generation _ _ (a_open _ _ Ha)) in E. subst g'. specialize (H eq_refl).
  destruct o as [m|body]; [by apply failed_after|]. cbv zeta.
  apply armed_after, alert_armed, beginRead_alert, (stable_handleMessage _), st_reset.
  by eapply (st_same (log (GotBytes g body) s)); [apply (stable_log _)|..].
Qed.

Lemma resolved_after g g' o s : armed g s -> after g (on_resolved g' o s).
Proof.
  intros H. unfold on_resolved. destruct (Z.eqb_spec g' (generation_ s)) as [E|]; cbn [negb]; [|eauto with watch].
  rewrite (o_generation _ _ (a_open _ _ H)) in E. subst g'. destruct o; [by apply failed_after|].
  by apply armed_after, (stable_on_stream _).
Qed.

Lemma connected_after g g' o s : armed g s -> after g (on_connected g' o s).
Proof.
  intros H. unfold on_connected. destruct (Z.eqb_spec g' (generation_ s)) as [E|]; cbn [negb]; [|eauto with watch].
  rewrite (o_generation _ _ (a_open _ _ H)) in E. subst g'. destruct o; [by apply failed_after|].
  by apply armed_after, (stable_on_stream _).
Qed.

Lemma handshake_after g g' o s : armed g s -> after g (on_handshake g' o s).
Proof.
  intros H. unfold on_handshake. destruct (Z.eqb_spec g' (generation_ s)) as [E|]; cbn [negb]; [|eauto with watch].
  rewrite (o_generation _ _ (a_open _ _ H)) in E. subst g'. destruct o; [by apply refused_after|]. cbv zeta.
  apply armed_after, alert_armed, open_reset, beginRead_open. eapply st_same; [apply H|done|done].
Qed.

Lemma written_after g g' o s : armed g s -> after g (on_written g' o s).
Proof.
  intros H. unfold on_written. destruct (Z.eqb_spec g' (generation_ s)) as [E|]; cbn [negb]; [|eauto with watch].
  rewrite (o_generation _ _ (a_open _ _ H)) in E. subst g'. destruct o; cbv zeta.
  - apply failed_after. by eapply st_same.
  - apply armed_after, (stable_beginWrite _). by eapply st_same.
Qed.

(** The wait of the idle timer that was counted on is the one that ended. *)
Lemma idle_after g g' s :
  open g s -> (g' <> g -> armed g s) -> (userDisconnect_ s = true -> no_reads g s) ->
  after g (on_idle g' None s).
Proof.
  intros Ho Ha Hu. unfold on_idle, emitError. destruct (userDisconnect_ s) eqn:E; cbn [negb andb].
  { left. split; [done|]. right. rewrite (o_generation _ _ Ho). auto. }
  destruct (Z.eqb_spec g' (generation_ s)) as [Eg|Eg]; rewrite (o_generation _ _ Ho) in Eg.
  - subst g'. apply lost_after, loss_lost. by apply (stable_emit _).
  - apply armed_after. auto.
Qed.

(** ** One turn *)

Lemma task_after t identity g s : armed g s -> after g (run_task t identity s).
Proof.
  intros H. pose proof (a_open _ _ H) as Ho. destruct t; cbn [run_task].
  - unfold connect_task. cbv zeta.
    by apply beginConnect_after, (stable_delay _), st_cancel, (stable_user _).
  - unfold disconnect_task, emitAvailability. cbv zeta.
    by apply lost_after, (stable_emit _), (stable_setState _), closeStream_lost, open_cancel, open_cancel,
      open_cancel, (stable_user _).
  - by apply armed_after, (stable_queueMessage _).
  - by apply armed_after, (stable_queueMessage _).
  - by apply armed_after, (stable_startVoice _).
  - unfold sendVoiceData_task. apply armed_after.
    destruct (voiceSessionId_ s); [by apply (stable_voice_loop _)|done].
  - by apply armed_after, (stable_stopVoice _).
  - unfold disconnectAndWait_task. cbv zeta.
    by apply lost_after, (stable_log _), (stable_setState _), closeStream_lost, open_cancel, open_cancel,
      open_cancel, (stable_user _).
  - unfold destroy_task. cbv zeta.
    by apply lost_after, (stable_work _), lost_cancel, lost_cancel, lost_cancel, closeStream_lost, (stable_user _).
Qed.

Lemma inv_open n s : inv n s -> n + 1 < 2 ^ 64 -> open (generation_ s) s.
Proof.
  intros H Hn. destruct (i_base _ _ _ _ H) as [Hg Hold _ _ _ _ _ _ _]. split; [done|].
  unfold wrap. rewrite Z.mod_small by lia. intros op c Hop.
  assert (op ∈ ops s) as Ho by (apply list_elem_of_fmap; by exists (op, c)).
  destruct op; try done; cbn; apply Z.eqb_neq; specialize (Hold _ _ Ho eq_refl); lia.
Qed.

Lemma inv_no_reads n s : inv n s -> stream_ s = false -> no_reads (generation_ s) s.
Proof.
  intros H Hs op c Hop. destruct (i_chain _ _ _ _ H) as (_ & Hc & _).
  apply Hc, length_zero_iff_nil in Hs.
  assert (op ∈ ops s) as Ho by (apply list_elem_of_fmap; by exists (op, c)).
  pose proof (chain_ops_stale _ _ Hs _ Ho) as E. by destruct op.
Qed.

Lemma no_reads_take i g s : no_reads g s -> no_reads g (take_op i s).
Proof. intros H op c Hop. eapply H, elem_of_delete_list, Hop. Qed.

(** Any operation but the wait that is counted on may end. *)
Lemma take_armed i op c g s :
  armed g s -> pending_ s !! i = Some (op, c) -> (op, c) <> (WaitIdle g, false) ->
  armed g (take_op i s) /\ (reads g op = true -> alert g (take_op i s)).
Proof.
  intros [[<- Hn] Ha] Hi Hne.
  assert (watched s -> alert (generation_ s) (take_op i s)) as Hw.
  { intros Hw. split; [split; [done|by apply no_reads_take]|]. eapply elem_of_delete_other; [exact Hw|exact Hi|]. by intros E; apply Hne. }
  destruct Ha as [Ha|Ha]; [by auto using alert_armed|]. split.
  - split; [split; [done|by apply no_reads_take]|]. right. by apply no_reads_take.
  - intros Hr. apply list_elem_of_lookup_2, Ha in Hi. congruence.
Qed.

Lemma complete_after n i op c o identity s s' :
  inv n s -> n + 1 < 2 ^ 64 -> idle_armed s -> pending_ s !! i = Some (op, c) ->
  complete op c o identity (take_op i s) = Some s' -> after (generation_ s) s'.
Proof.
  intros H Hn Ha Hi Hc. pose proof (inv_open _ _ H Hn) as Ho.
  assert (open (generation_ s) (take_op i s)) as Ho1 by (split; [done|by apply no_reads_take, Ho]).
  destruct (decide ((op, c) = (WaitIdle (generation_ s), false))) as [[= -> ->]|Hne].
  - destruct o; try done. apply (inj Some) in Hc. subst s'. apply idle_after; [done|done|].
    intros Hu. apply no_reads_take, (inv_no_reads n); [done|]. by apply (i_user _ _ _ _ H).
  - destruct (take_armed i op c _ s (Build_armed _ _ Ho Ha) Hi Hne) as [Ht Hr].
    destruct op as [g h p|g|g|g|g k|g b|d|g|]; destruct o; try done; cbn [complete] in Hc;
      repeat match type of Hc with (if ?b then _ else _) = _ => destruct b eqn:? ; [|done] end;
      apply (inj Some) in Hc; subst s'.
    1-2: by apply resolved_after.
    1-2: by apply connected_after.
    1-2: by apply handshake_after.
    1-2: apply length_byte_after; [done|intros ->; apply Hr; apply Z.eqb_refl].
    1-2: apply body_after; [done|intros ->; apply Hr; apply Z.eqb_refl].
    1-2: by apply written_after.
    + unfold on_reconnect. destruct (negb _); [by apply beginConnect_after|by left].
    + by left.
    + apply idle_after; [done|done|].
      intros Hu. apply no_reads_take, (inv_no_reads n); [done|]. by apply (i_user _ _ _ _ H).
    + by left.
    + unfold on_voice_timeout, emitError. left.
      destruct (voiceStarting_ _); [by apply (stable_emit _), (stable_starting _)|done].
    + by left.
Qed.

Lemma after_armed g s : after g s -> idle_armed s.
Proof. intros [H|H]; [by apply H|]. right. rewrite (x_generation _ _ H). apply H. Qed.

Lemma exec_armed n c s s' :
  inv n s -> n + 1 < 2 ^ 64 -> idle_armed s -> exec c s = Some s' -> idle_armed s'.
Proof.
  intros H Hn Ha He. pose proof (inv_open _ _ H Hn) as Ho.
  assert (forall s1, pending_ s1 = pending_ s -> generation_ s1 = generation_ s -> idle_armed s1) as Hsame
    by (intros; eapply a_armed, (st_same s); [by split|done|done]).
  destruct c; cbn [exec] in He; try (apply (inj Some) in He; subst s'; by apply Hsame).
  - apply (inj Some) in He. subst s'. unfold sendKeyName. destruct (keyCodeFromName keyName); by apply Hsame.
  - apply (inj Some) in He. subst s'. unfold sendText. destruct (bool_decide _); by apply Hsame.
  - destruct (posted_ s) as [|t rest]; [done|]. apply (inj Some) in He. subst s'.
    eapply after_armed, task_after. split; [by eapply st_same|by apply Hsame].
  - destruct (pending_ s !! i) as [[op c]|] eqn:Hi; [|done]. eapply after_armed. by eapply complete_after.
Qed.

Lemma run_armed n cs s s' :
  inv n s -> n + size cs < 2 ^ 64 -> idle_armed s -> run cs s = Some s' -> idle_armed s'.
Proof.
  revert n s. induction cs as [|c cs IH]; intros n s H Hn Ha Hr; cbn [run] in Hr; [by injection Hr as <-|].
  assert (size (c :: cs) = 1 + size cs) as E by zlia. pose proof (size_nonneg cs). rewrite E in Hn.
  destruct (exec c s) as [s1|] eqn:He; [|done].
  apply (IH (n + 1) s1); [by eapply exec_inv; [exact H|lia|]|lia| |done].
  eapply exec_armed; [exact H|lia|done|done].
Qed.

Lemma reachable_armed options s : reachable options s -> idle_armed s.
Proof.
  intros (cs & Hr & Hs). eapply (run_armed 0 cs); [apply init_inv|lia| |exact Hr].
  right. by intros op c H%elem_of_nil.
Qed.

End handlers.

(** ** On the clock *)
Section watch.

(** The connection is given up, and the callbacks hear why. *)
Lemma idle_gives_up s :
  userDisconnect_ s = false ->
  let s' := on_idle (generation_ s) None s in
  let state := if autoReconnect (options_ s) && negb (shuttingDown_ s) then Reconnecting else Disconnected in
  stream_ s' = false /\ state_ s' = state /\
  notified (trace_ s') = (notified (trace_ s) ++ List.filter (is_set (callbacks_ s))
    ([Error "closing idle Android TV connection after 16 seconds without traffic"] ++
     (if bool_decide (state_ s = Connected) then [AvailabilityChanged false] else []) ++
     [ConnectionStateIs state]))%list.
Proof.
  intros Hu. unfold on_idle, emitError. rewrite Hu, Z.eqb_refl. cbn [negb andb]. cbv zeta.
  set (e := Error _). rewrite <- (emit_fields generation_ e s) by done.
  destruct (handleConnectionLoss_exact (emit e s)) as (E1 & E2 & _ & _ & E3 & _).
  rewrite (emit_fields options_ e), (emit_fields userDisconnect_ e), (emit_fields shuttingDown_ e), Hu,
    andb_true_r in E1, E3 by done.
  rewrite (emit_fields state_ e), (emit_fields callbacks_ e), notified_emit, <- app_assoc,
    <- List.filter_app in E3 by done.
  by split_and!.
Qed.

Lemma timed_run_run cs k k' :
  timed_run cs k = Some k' -> run (map snd cs) (impl k) = Some (impl k').
Proof.
  revert k. induction cs as [|[t c] cs IH]; intros k Hr; cbn [timed_run] in Hr; [by injection Hr as <-|].
  destruct (tick t c k) as [k1|] eqn:E; [|done]. cbn [map snd run]. unfold tick in E.
  destruct (t <? now k); [done|].
  destruct (match c with Complete i o _ => _ | _ => _ end) as [[] old]; [|done].
  destruct (exec c (impl k)) as [s|]; [|done]. injection E as <-. exact (IH _ Hr).
Qed.

End watch.

(** C10. Silence is noticed. Whenever a connection is being read, the idle timer watches it: a
    wait for it is in flight, not cancelled, that was set at a moment after which no
    message was received that is not empty, and none was queued (empty messages do not
    reset the timer and may have been received). Sixteen seconds after that moment, and no
    sooner, its handler can run; and it gives the connection up and says so. *)
Theorem silence_noticed (options : Options) (cs : list (Z * choice)) (k : timed) (op : operation) (c : bool) :
  timed_run cs (timed_init options) = Some k -> size cs < 2 ^ 64 - 1 ->
  (op, c) ∈ pending_ (impl k) -> reads (generation_ (impl k)) op = true ->
  let s := impl k in
  let state := if autoReconnect (options_ s) && negb (shuttingDown_ s) then Reconnecting else Disconnected in
  exists i t0,
    pending_ s !! i = Some (WaitIdle (generation_ s), false) /\
    t0 <= now k /\ (t0, Start (WaitIdle (generation_ s))) ∈ history k /\
    (forall t e, (t, e) ∈ history k -> resets_idle e -> t <= t0) /\
    forall t identity, now k <= t ->
      if t0 + IdleTimeout <=? t
      then exists k', tick t (Complete i Succeeded identity) k = Some k' /\
        stream_ (impl k') = false /\ state_ (impl k') = state /\
        notified (trace_ (impl k')) = (notified (trace_ s) ++ List.filter (is_set (callbacks_ s))
          ([Error "closing idle Android TV connection after 16 seconds without traffic"] ++
           (if bool_decide (state_ s = Connected) then [AvailabilityChanged false] else []) ++
           [ConnectionStateIs state]))%list
      else tick t (Complete i Succeeded identity) k = None.
Proof.
  intros Hr Hs Hop Hread. cbv zeta.
  pose proof (timed_run_inv _ _ _ (timed_init_inv options) Hr) as Hk.
  assert (reachable options (impl k)) as Hreach.
  { exists (map snd cs). split; [exact (timed_run_run _ _ _ Hr)|]. unfold size in *. by rewrite length_map. }
  destruct (reachable_inv _ _ Hreach) as (n & Hinv & Hn).
  destruct (reachable_armed _ _ Hreach) as [Hw|Hno]; [|specialize (Hno _ _ Hop); congruence].
  assert (userDisconnect_ (impl k) = false) as Hu.
  { apply not_true_iff_false. intros Hu. destruct (i_user _ _ _ _ Hinv Hu) as [Hst _].
    pose proof (inv_no_reads _ _ Hinv Hst _ _ Hop). congruence. }
  apply list_elem_of_lookup in Hw as [i Hi].
  destruct (lookup_lt_is_Some_2 (stamps k) i) as [st Hst];
    [rewrite (t_length _ Hk); by eapply lookup_lt_Some|].
  destruct (t_stamps _ Hk _ _ _ _ Hi Hst) as [Hb Hstart Hl _ Htr]. specialize (Hl eq_refl).
  exists i, (began st). split_and!; [done|done|done| |].
  - intros t e He Ht. destruct (Z.le_gt_cases t (began st)); [done|].
    destruct (Htr eq_refl t e He Ht ltac:(lia)) as (tc & E & _). congruence.
  - intros t identity Ht. unfold tick. rewrite (proj2 (Z.ltb_ge _ _) Ht).
    unfold due. rewrite Hi, Hst. cbn [duration]. unfold idle_expiry. rewrite Hl. cbn [default].
    destruct (began st + IdleTimeout <=? t); [|done]. cbn [exec]. rewrite Hi. cbn [complete].
    eexists. split; [reflexivity|]. cbn [impl].
    exact (idle_gives_up (take_op i (impl k)) Hu).
Qed.

Lemma silence_noticed_witness :
  (ReadLength 1, false) ∈ pending_ (impl quiet_end) /\
  exists i t0, pending_ (impl quiet_end) !! i = Some (WaitIdle 1, false) /\ t0 <= 10000 /\
    forall t e, (t, e) ∈ history quiet_end -> resets_idle e -> t <= t0.
Proof.
  assert ((ReadLength 1, false) ∈ pending_ (impl quiet_end)) as H
    by (apply (list_elem_of_lookup_2 _ 4); vm_compute; reflexivity).
  split; [exact H|].
  destruct (silence_noticed tv_options quiet_session quiet_end (ReadLength 1) false)
    as (i & t0 & H1 & H2 & _ & H3 & _).
  - vm_compute. reflexivity.
  - vm_compute. reflexivity.
  - exact H.
  - vm_compute. reflexivity.
  - exists i, t0. split; [exact H1|]. split; [exact H2|exact H3].
Defined.
