(* ===== verification/RemoteReconnect.v ===== *)
(** * The next attempt comes

    Every wait for an attempt lasts between a tenth of a second and half a minute, because
    every small step of a handler keeps the delay between these bounds ([delays_ok]); and
    while the object is waiting for one, its timer is running. *)

From S2P Require Import Prelude Wire Types Messages KeyCodes RemoteState Remote.
From S2P Require Import RemoteInv RemoteSteps RemoteSpec RemoteProps RemoteBehaviour RemoteRaces.
From S2P Require Import RemoteAtoms RemotePace RemoteClock RemoteWatch.

Local Open Scope Z_scope.
Local Open Scope cxx_scope.

Record delays_ok (s : Impl) : Prop := {
  d_next : 100 <= reconnectDelay_ s <= 30000;
  d_waits : forall d c, (WaitReconnect d, c) ∈ pending_ s -> 100 <= d <= 30000
}.

Section delays.
Implicit Types (s : Impl).

Lemma delays_same s s' :
  delays_ok s -> pending_ s' = pending_ s -> reconnectDelay_ s' = reconnectDelay_ s -> delays_ok s'.
Proof. intros [Hn Hw] Ep Ed. split; [by rewrite Ed|by rewrite Ep]. Qed.

Lemma delays_cancel t s : delays_ok s -> delays_ok (cancel t s).
Proof. intros [Hn Hw]. split; [done|]. intros d c [c' H]%pending_cancel. by eapply Hw. Qed.

Lemma delays_start op s :
  (forall d, op = WaitReconnect d -> d = reconnectDelay_ s) -> delays_ok s -> delays_ok (start op s).
Proof.
  intros Hop [Hn Hw]. split; [done|]. intros d c. cbn. rewrite elem_of_app, list_elem_of_singleton.
  intros [H|[= <- _]]; [by eapply Hw|]. by rewrite (Hop d eq_refl).
Qed.

Lemma delays_reset s : delays_ok s -> delays_ok (resetIdleTimer s).
Proof. intros H. apply delays_start; [done|by apply delays_cancel]. Qed.

Lemma atom_delays s s' : atom s s' -> delays_ok s -> delays_ok s'.
Proof.
  intros Ha H. destruct Ha as [e _|op Hop|t|d Hd|s' E|message|payload queue].
  - by eapply delays_same.
  - by apply delays_start.
  - by apply delays_cancel.
  - destruct H as [Hn Hw]. split; [cbn; lia|done].
  - injection E as Ep _ _ _ _ _ Ed. by eapply delays_same.
  - by eapply delays_same; [apply delays_reset|..].
  - by eapply delays_same; [apply delays_reset|..].
Qed.

Lemma flows_delays s s' : flows s s' -> delays_ok s -> delays_ok s'.
Proof. induction 1; eauto using atom_delays. Qed.

Lemma exec_delays c s s' : exec c s = Some s' -> delays_ok s -> delays_ok s'.
Proof.
  intros He Hs. destruct (io_turn c) eqn:Hc.
  - destruct (exec_flows c s s' Hc He) as (s0 & s1 & Hf & Hs' & [= _ _ _ Ed _] & Hp).
    assert (delays_ok s1) as H1.
    { eapply flows_delays; [exact Hf|]. destruct Hs as [Hn Hw]. split; [by rewrite Ed|].
      intros d c' H. by eapply Hw, Hp. }
    destruct Hs' as [->| ->]; [done|by eapply delays_same].
  - destruct c; try done; cbn [exec] in He; apply (inj Some) in He; subst s'; try (destruct Hs; by split).
    + unfold sendKeyName. destruct (keyCodeFromName keyName); destruct Hs; by split.
    + unfold sendText. destruct (bool_decide _); destruct Hs; by split.
Qed.

Lemma run_delays cs s s' : run cs s = Some s' -> delays_ok s -> delays_ok s'.
Proof.
  revert s. induction cs as [|c cs IH]; intros s Hr Hs; cbn [run] in Hr; [by injection Hr as <-|].
  destruct (exec c s) as [s1|] eqn:E; [|done]. eapply IH; [exact Hr|]. by eapply exec_delays.
Qed.

Lemma init_delays options : delays_ok (Impl_init options).
Proof. split; [cbn; lia|]. by intros d c H%elem_of_nil. Qed.

End delays.

(** C13. The next attempt comes. Whenever the object is reconnecting, has no connection and
    is not being destroyed, a wait of at least 100 and at most 30000 milliseconds for the next attempt is in flight
    and not cancelled. When it is over, and no sooner, its handler can run; with an identity
    that can be loaded it begins an attempt, and says so. *)
Theorem next_attempt (options : Options) (cs : list (Z * choice)) (k : timed) :
  timed_run cs (timed_init options) = Some k -> size cs < 2 ^ 64 - 1 ->
  let s := impl k in
  state_ s = Reconnecting -> stream_ s = false -> shuttingDown_ s = false ->
  exists i d t0,
    pending_ s !! i = Some (WaitReconnect d, false) /\ 100 <= d <= 30000 /\
    t0 <= now k /\ (t0, Start (WaitReconnect d)) ∈ history k /\
    forall t, now k <= t ->
      if t0 + d <=? t
      then exists k', tick t (Complete i Succeeded (Ok tt)) k = Some k' /\
        stream_ (impl k') = true /\ state_ (impl k') = Reconnecting /\
        notified (trace_ (impl k')) =
          (notified (trace_ s) ++ List.filter (is_set (callbacks_ s)) [ConnectionStateIs Reconnecting])%list /\
        ops (impl k') = (delete i (ops s) ++
          [Resolve (generation_ (impl k')) (host (options_ s)) (apiPort (options_ s))])%list
      else tick t (Complete i Succeeded (Ok tt)) k = None.
Proof.
  intros Hr Hs. cbv zeta. intros Hst Hno Hsh.
  pose proof (timed_run_inv _ _ _ (timed_init_inv options) Hr) as Hk.
  pose proof (timed_run_run _ _ _ Hr) as Hrun.
  destruct (reachable_inv options (impl k)) as (n & Hinv & Hn).
  { exists (map snd cs). split; [exact Hrun|]. unfold size in *. by rewrite length_map. }
  pose proof (i_state _ _ _ _ Hinv Hsh) as Hok. unfold state_ok in Hok. rewrite Hst, Hno in Hok.
  destruct Hok as [|[d Hd]]; [done|].
  assert (userDisconnect_ (impl k) = false) as Hu.
  { apply not_true_iff_false. intros Hu. destruct (i_user _ _ _ _ Hinv Hu) as [_ Hd'].
    rewrite (Hd' Hsh) in Hst. done. }
  pose proof (d_waits _ (run_delays _ _ _ Hrun (init_delays options)) _ _ Hd) as Hdd.
  apply list_elem_of_lookup in Hd as [i Hi].
  destruct (lookup_lt_is_Some_2 (stamps k) i) as [st Hi'];
    [rewrite (t_length _ Hk); by eapply lookup_lt_Some|].
  destruct (t_stamps _ Hk _ _ _ _ Hi Hi') as [Hb Hstart Hl _ _]. specialize (Hl eq_refl).
  exists i, d, (began st). split_and!; [done|lia..|done|].
  intros t Ht. unfold tick. rewrite (proj2 (Z.ltb_ge _ _) Ht).
  unfold due. rewrite Hi, Hi'. cbn [duration]. unfold reconnect_expiry. rewrite Hl. cbn [default].
  destruct (began st + d <=? t); [|done]. cbn [exec]. rewrite Hi. cbn [complete].
  set (s0 := (impl k) <| pending_ := delete i (pending_ (impl k)) |>).
  eexists. split; [reflexivity|]. cbn [impl]. unfold on_reconnect.
  change (userDisconnect_ s0) with (userDisconnect_ (impl k)). rewrite Hu. cbn [negb].
  destruct (beginConnect_exact true s0 Hsh Hu) as (R1 & R2 & _ & _ & _ & R3 & R4).
  assert (ops s0 = delete i (ops (impl k))) as <- by exact (ops_delete i (pending_ (impl k))).
  by split_and!.
Qed.

(** The session, and then silence: after sixteen seconds the object reconnects. *)
Definition reconnecting_session : list (Z * choice) :=
  (quiet_session ++ [(26000, Complete 2 Succeeded (Ok tt))])%list.

Definition reconnecting_end : timed :=
  default (timed_init tv_options) (timed_run reconnecting_session (timed_init tv_options)).

Lemma next_attempt_witness :
  state_ (impl reconnecting_end) = Reconnecting /\
  exists i d t0, pending_ (impl reconnecting_end) !! i = Some (WaitReconnect d, false) /\
    100 <= d <= 30000 /\ t0 <= 26000.
Proof.
  split; [vm_compute; reflexivity|].
  destruct (next_attempt tv_options reconnecting_session reconnecting_end) as (i & d & t0 & H1 & H2 & H3 & _);
    [vm_compute; reflexivity..|].
  exists i, d, t0. split; [exact H1|]. split; [exact H2|exact H3].
Defined.
