(* ===== verification/PairingThreads.v ===== *)
(** * Pairing from several threads ([src/android_tv_remote.cpp])

    [startPairing] and [finishPairing] step by step: the function object they wait for, the
    session they create, [pairingMutex_] and the pointer it protects. Any number of threads
    make these calls while the thread of [io_] goes on; what a session says to the
    television is one step here (it is in [Pairing.v]), which may return, throw, or not
    come to an end. A session is known by a number. *)

From S2P Require Import Prelude Types Messages KeyCodes RemoteState Remote RemoteInv RemoteSteps RemoteAtoms RemotePace.

Local Open Scope cxx_scope.

Definition thread := nat.

(** The thread of [io_], on which the callbacks run. *)
Definition io : thread := 0%nat.

(** Where a call is: the next thing it does. *)
Inductive place :=
  | Posting                          (* [disconnectAndWait]: [asio::post] *)
  | Waiting (ticket : nat)           (* [future.get()], for the promise of that number *)
  | Starting (session : nat)         (* [session->start()] *)
  | LockingStart (session : nat)     (* the lock of [startPairing] *)
  | Assigning (session : nat)        (* [pairing_ = std::move(session)] *)
  | LockingFinish                    (* the lock of [finishPairing] *)
  | Checking                         (* [if (!pairing_) throw] *)
  | Finishing (session : nat)        (* [pairing_->finish(code)] *)
  | Resetting                        (* [pairing_.reset()] *)
  | Unlocking.                       (* the end of the scope of the lock *)

Record system := mkSystem {
  remote : Impl;
  pairingMutex_ : option thread;
  pairing_ : option nat;
  sessions : gset nat;
  next : nat;
  calls : gmap thread place
}.

#[export] Instance system_settable : Settable system := fun s =>
  mkSystem (remote s) (pairingMutex_ s) (pairing_ s) (sessions s) (next s) (calls s).

Definition system_init (options : Options) : system :=
  mkSystem (Impl_init options) None None ∅ 0 ∅.

Definition goto (tid : thread) (p : place) (s : system) : system :=
  s <| calls := <[tid := p]> (calls s) |>.

Definition leave (tid : thread) (s : system) : system := s <| calls := delete tid (calls s) |>.

(** Destruction of the session that is no longer pointed to. *)
Definition destroy_old (old : option nat) (l : gset nat) : gset nat :=
  match old with Some id => l ∖ {[id]} | None => l end.

Definition posted_waits (l : list task) : nat :=
  length (List.filter (fun t => bool_decide (t = TDisconnectAndWait)) l).

#[global] Arguments posted_waits : simpl never.

(** How many promises were made; the next one has this number. *)
Definition tickets (r : Impl) : nat := (promises_set (trace_ r) + posted_waits (posted_ r))%nat.

(** What other threads may call meanwhile (the object is not being destroyed). *)
Definition async_call (c : choice) : bool :=
  match c with
  | CallDisconnectAndWait | CallDestroy | RunPosted _ | Complete _ _ _ => false
  | _ => true
  end.

Inductive step (s : system) : system -> Prop :=
  | step_call_start tid :
      calls s !! tid = None -> step s (goto tid Posting s)
  | step_call_finish tid :
      calls s !! tid = None -> step s (goto tid LockingFinish s)
  (* disconnectAndWait *)
  | step_post tid :
      calls s !! tid = Some Posting ->
      step s (goto tid (Waiting (tickets (remote s)))
                (s <| remote := disconnectAndWait (remote s) |>))
  | step_wait tid ticket :
      calls s !! tid = Some (Waiting ticket) -> (ticket < promises_set (trace_ (remote s)))%nat ->
      step s (goto tid (Starting (next s))
                ((s <| sessions := {[next s]} ∪ sessions s |>) <| next := S (next s) |>))
  (* the new session *)
  | step_started tid id :
      calls s !! tid = Some (Starting id) -> step s (goto tid (LockingStart id) s)
  | step_start_throws tid id :
      calls s !! tid = Some (Starting id) ->
      step s (leave tid (s <| sessions := sessions s ∖ {[id]} |>))
  | step_lock_start tid id :
      calls s !! tid = Some (LockingStart id) -> pairingMutex_ s = None ->
      step s (goto tid (Assigning id) (s <| pairingMutex_ := Some tid |>))
  | step_assign tid id :
      calls s !! tid = Some (Assigning id) ->
      step s (goto tid Unlocking
                ((s <| sessions := destroy_old (pairing_ s) (sessions s) |>) <| pairing_ := Some id |>))
  (* finishPairing *)
  | step_lock_finish tid :
      calls s !! tid = Some LockingFinish -> pairingMutex_ s = None ->
      step s (goto tid Checking (s <| pairingMutex_ := Some tid |>))
  | step_check_throws tid :
      calls s !! tid = Some Checking -> pairing_ s = None -> step s (goto tid Unlocking s)
  | step_check tid id :
      calls s !! tid = Some Checking -> pairing_ s = Some id -> step s (goto tid (Finishing id) s)
  | step_finish_throws tid id :
      calls s !! tid = Some (Finishing id) -> step s (goto tid Unlocking s)
  | step_finished tid id :
      calls s !! tid = Some (Finishing id) -> step s (goto tid Resetting s)
  | step_reset tid :
      calls s !! tid = Some Resetting ->
      step s (goto tid Unlocking
                ((s <| sessions := destroy_old (pairing_ s) (sessions s) |>) <| pairing_ := None |>))
  | step_unlock tid :
      calls s !! tid = Some Unlocking -> step s (leave tid (s <| pairingMutex_ := None |>))
  (* everybody else *)
  | step_io c r :
      calls s !! io = None -> io_turn c = true -> exec c (remote s) = Some r ->
      step s (s <| remote := r |>)
  | step_async c r :
      async_call c = true -> exec c (remote s) = Some r -> step s (s <| remote := r |>).

Definition reaches (options : Options) (s : system) : Prop := rtc step (system_init options) s.

(** ** The invariant *)

(** The places between lock and unlock, and those that own a session not yet shared. *)
Definition holds (p : place) : bool :=
  match p with Assigning _ | Checking | Finishing _ | Resetting | Unlocking => true | _ => false end.

Definition owned (p : place) : option nat :=
  match p with Starting id | LockingStart id | Assigning id => Some id | _ => None end.

Record sys_inv (s : system) : Prop := {
  x_holds : forall tid p, calls s !! tid = Some p -> holds p = true -> pairingMutex_ s = Some tid;
  x_owner : forall tid, pairingMutex_ s = Some tid ->
    exists p, calls s !! tid = Some p /\ holds p = true;
  x_finishing : forall tid id, calls s !! tid = Some (Finishing id) -> pairing_ s = Some id;
  x_pairing : forall id, pairing_ s = Some id -> id ∈ sessions s;
  x_owned : forall tid p id, calls s !! tid = Some p -> owned p = Some id ->
    id ∈ sessions s /\ pairing_ s <> Some id;
  x_unique : forall tid1 tid2 p1 p2 id, calls s !! tid1 = Some p1 -> calls s !! tid2 = Some p2 ->
    owned p1 = Some id -> owned p2 = Some id -> tid1 = tid2;
  x_session : forall id, id ∈ sessions s -> (id < next s)%nat /\
    (pairing_ s = Some id \/ exists tid p, calls s !! tid = Some p /\ owned p = Some id);
  x_ticket : forall tid ticket, calls s !! tid = Some (Waiting ticket) ->
    (ticket < tickets (remote s))%nat;
  x_io : forall ticket, calls s !! io = Some (Waiting ticket) ->
    (promises_set (trace_ (remote s)) <= ticket)%nat
}.

(** ** The promises *)
Section promises.
Implicit Types (r : Impl).

Lemma tickets_post t r :
  tickets (post t r) = (tickets r + if decide (t = TDisconnectAndWait) then 1 else 0)%nat.
Proof.
  unfold tickets, posted_waits, post. cbn. rewrite List.filter_app, length_app. cbn.
  destruct (decide _) as [->|Ht]; [by rewrite bool_decide_eq_true_2; cbn; try lia|].
  rewrite bool_decide_eq_false_2 by done. cbn. lia.
Qed.

(** A turn of the thread of [io_] keeps the promises it was to keep. *)
Lemma tickets_io c r r' :
  io_turn c = true -> exec c r = Some r' ->
  tickets r' = tickets r /\ (promises_set (trace_ r) <= promises_set (trace_ r'))%nat.
Proof.
  intros Hc He. unfold tickets. destruct c; try done; cbn [exec] in He.
  - destruct (posted_ r) as [|t rest] eqn:Ep; [done|]. apply (inj Some) in He. subst r'.
    destruct (task_promises t identity (r <| posted_ := rest |>)) as [E1 E2]. rewrite E1, E2. cbn.
    unfold posted_waits. cbn. destruct (decide (t = TDisconnectAndWait)) as [->|Ht].
    + rewrite bool_decide_eq_true_2 by done. cbn. lia.
    + rewrite bool_decide_eq_false_2 by done. lia.
  - destruct (pending_ r !! i) as [[op c]|]; [|done].
    apply complete_promises in He as [-> ->]. cbn. lia.
Qed.

Lemma tickets_async c r r' :
  async_call c = true -> exec c r = Some r' -> tickets r' = tickets r /\ trace_ r' = trace_ r.
Proof.
  intros Hc He. destruct c; try done; cbn [exec] in He; apply (inj Some) in He; subst r';
    try (split; [|done]; etrans; [apply tickets_post|]; by rewrite decide_False, Nat.add_0_r).
  - unfold sendKeyName. destruct (keyCodeFromName keyName); cbn [or_unchanged]; [|done].
    split; [|done]. etrans; [apply tickets_post|]. by rewrite decide_False, Nat.add_0_r.
  - unfold sendText. destruct (bool_decide _); cbn [or_unchanged]; [done|].
    split; [|done]. etrans; [apply tickets_post|]. by rewrite decide_False, Nat.add_0_r.
  - by split.
Qed.

End promises.

(** ** The invariant is kept *)
Section invariant.
Implicit Types (s : system).

(** A change that leaves the lock, the pointer and the sessions alone. *)
Lemma moved_inv s tid p r :
  sys_inv s ->
  (forall q, calls s !! tid = Some q -> holds q = holds p /\ owned q = owned p) ->
  (calls s !! tid = None -> holds p = false /\ owned p = None) ->
  (forall id, p = Finishing id -> pairing_ s = Some id) ->
  (forall t, p = Waiting t -> (t < tickets r)%nat /\ (promises_set (trace_ r) <= t)%nat) ->
  (tickets (remote s) <= tickets r)%nat ->
  (calls s !! io <> None -> promises_set (trace_ r) = promises_set (trace_ (remote s))) ->
  sys_inv (goto tid p (s <| remote := r |>)).
Proof.
  intros [] Hsame Hnew Hfin Hwait Htick Hprom. set (l := <[tid := p]> (calls s)).
  assert (forall t q, l !! t = Some q ->
    (exists q0, calls s !! t = Some q0 /\ holds q0 = holds q /\ owned q0 = owned q) \/
    holds q = false /\ owned q = None) as Hback.
  { intros t q [[<- <-]|[Hne Hq]]%lookup_insert_Some; [|left; by exists q].
    destruct (calls s !! tid) as [q0|]; [left; exists q0; by destruct (Hsame q0 eq_refl)|right; auto]. }
  assert (forall t q0, calls s !! t = Some q0 ->
    exists q, l !! t = Some q /\ holds q = holds q0 /\ owned q = owned q0) as Hforth.
  { intros t q0 Hq. destruct (decide (t = tid)) as [->|Hne].
    - exists p. unfold l. rewrite lookup_insert_eq. by destruct (Hsame q0 Hq).
    - exists q0. unfold l. by rewrite lookup_insert_ne. }
  constructor; cbn; fold l.
  - intros t q Hq E. destruct (Hback t q Hq) as [(q0 & ? & ? & ?)|[? ?]]; [|congruence].
    apply (x_holds0 t q0); congruence.
  - intros t E. destruct (x_owner0 t E) as (q0 & Hq & Ho).
    destruct (Hforth t q0 Hq) as (q & ? & ? & ?). exists q. split; congruence.
  - intros t id [[<- Ep]|[Hne Hq]]%lookup_insert_Some; eauto.
  - done.
  - intros t q id Hq E. destruct (Hback t q Hq) as [(q0 & ? & ? & ?)|[? ?]]; [|congruence].
    apply (x_owned0 t q0); congruence.
  - intros t1 t2 p1 p2 id H1 H2 E1 E2.
    destruct (Hback t1 p1 H1) as [(q1 & ? & ? & ?)|[? ?]]; [|congruence].
    destruct (Hback t2 p2 H2) as [(q2 & ? & ? & ?)|[? ?]]; [|congruence].
    apply (x_unique0 t1 t2 q1 q2 id); congruence.
  - intros id Hid. destruct (x_session0 id Hid) as [Hlt [Hp|(t & q0 & Hq & E)]]; split; auto.
    right. destruct (Hforth t q0 Hq) as (q & ? & ? & ?). exists t, q. split; congruence.
  - intros t n [[<- E]|[Hne Hq]]%lookup_insert_Some; [by apply Hwait|]. apply x_ticket0 in Hq. lia.
  - intros n [[-> E]|[Hne Hq]]%lookup_insert_Some; [by apply Hwait|].
    rewrite Hprom by congruence. by apply x_io0.
Qed.

Lemma remote_same s : s <| remote := remote s |> = s.
Proof. by destruct s. Qed.

(** A thread that goes on, when nothing else changes. *)
Lemma goes_inv s tid q p :
  sys_inv s -> calls s !! tid = Some q -> holds q = holds p -> owned q = owned p ->
  (forall id, p = Finishing id -> pairing_ s = Some id) -> (forall t, p <> Waiting t) ->
  sys_inv (goto tid p s).
Proof.
  intros H Hq Hh Ho Hf Hw. rewrite <- (remote_same s) at 1. apply moved_inv; try done; try congruence.
  intros q' Hq'. by simplify_eq.
Qed.

Lemma call_inv s tid p :
  sys_inv s -> calls s !! tid = None -> holds p = false -> owned p = None ->
  (forall t, p <> Waiting t) -> (forall id, p <> Finishing id) -> sys_inv (goto tid p s).
Proof.
  intros H Hn Hh Ho Hw Hf. rewrite <- (remote_same s) at 1. apply moved_inv; try done; try congruence.
Qed.

Lemma remote_inv s r :
  sys_inv s -> tickets r = tickets (remote s) ->
  (calls s !! io <> None -> promises_set (trace_ r) = promises_set (trace_ (remote s))) ->
  sys_inv (s <| remote := r |>).
Proof.
  intros [] Ht Hp. constructor; cbn; try done.
  - intros t n Hn. rewrite Ht. by eapply x_ticket0.
  - intros n Hn. rewrite Hp by congruence. by apply x_io0.
Qed.

Lemma lock_inv s tid q p :
  sys_inv s -> calls s !! tid = Some q -> holds q = false -> pairingMutex_ s = None ->
  holds p = true -> owned q = owned p -> (forall id, p <> Finishing id) ->
  sys_inv (goto tid p (s <| pairingMutex_ := Some tid |>)).
Proof.
  intros [] Hq Hh Hm Hp Ho Hf.
  constructor; cbn.
  - intros t q' [[<- <-]|[Hne Hq']]%lookup_insert_Some E; [done|].
    apply x_holds0 in Hq'; [congruence|done].
  - intros t [= <-]. exists p. by rewrite lookup_insert_eq.
  - intros t id [[<- Ep]|[Hne Hq']]%lookup_insert_Some; [by destruct (Hf id)|eauto].
  - done.
  - intros t q' id [[<- <-]|[Hne Hq']]%lookup_insert_Some E; [|by eapply x_owned0].
    eapply x_owned0; [exact Hq|congruence].
  - intros t1 t2 p1 p2 id [[<- <-]|[Hne1 H1]]%lookup_insert_Some [[<- <-]|[Hne2 H2]]%lookup_insert_Some E1 E2;
      [done|rewrite <- Ho in E1|rewrite <- Ho in E2|]; by eapply x_unique0.
  - intros id Hid. destruct (x_session0 id Hid) as [Hlt [Hpa|(t & q' & Hq' & E)]]; split; auto.
    right. destruct (decide (t = tid)) as [->|Hne].
    + exists tid, p. rewrite lookup_insert_eq. simplify_eq. split; congruence.
    + exists t, q'. by rewrite lookup_insert_ne.
  - intros t n [[<- ->]|[Hne Hq']]%lookup_insert_Some; [done|eauto].
  - intros n [[-> ->]|[Hne Hq']]%lookup_insert_Some; [done|eauto].
Qed.

(** The owner of the lock sets the pointer, to its own session or to none. *)
Lemma assign_inv s tid q :
  sys_inv s -> calls s !! tid = Some q -> holds q = true -> (forall id, q <> Finishing id) ->
  sys_inv (goto tid Unlocking
    ((s <| sessions := destroy_old (pairing_ s) (sessions s) |>) <| pairing_ := owned q |>)).
Proof.
  assert (forall id, id ∈ destroy_old (pairing_ s) (sessions s) <->
    id ∈ sessions s /\ pairing_ s <> Some id) as Hold.
  { intros id. unfold destroy_old. destruct (pairing_ s); set_solver. }
  intros [] Hq Hh Hf. pose proof (x_holds0 tid q Hq Hh) as Hm.
  constructor; cbn.
  - intros t q' [[<- <-]|[Hne Hq']]%lookup_insert_Some E; [done|eauto].
  - intros t E. rewrite Hm in E. injection E as <-. exists Unlocking. by rewrite lookup_insert_eq.
  - intros t id [[<- Ep]|[Hne Hq']]%lookup_insert_Some; [done|].
    pose proof (x_holds0 _ _ Hq' eq_refl). congruence.
  - intros id E. apply Hold. by eapply x_owned0.
  - intros t q' id [[<- <-]|[Hne Hq']]%lookup_insert_Some E; [done|].
    split; [apply Hold; by eapply x_owned0|]. intros E'. apply Hne. by eapply x_unique0.
  - intros t1 t2 p1 p2 id [[<- <-]|[Hne1 H1]]%lookup_insert_Some [[<- <-]|[Hne2 H2]]%lookup_insert_Some E1 E2;
      [done..|]. by eapply x_unique0.
  - intros id [Hid Hne]%Hold. destruct (x_session0 id Hid) as [Hlt [Hpa|(t & q' & Hq' & E)]]; [done|].
    split; [done|]. destruct (decide (t = tid)) as [->|Hnt]; [left; by simplify_eq|right].
    exists t, q'. by rewrite lookup_insert_ne.
  - intros t n [[<- E]|[Hne Hq']]%lookup_insert_Some; [done|eauto].
  - intros n [[-> E]|[Hne Hq']]%lookup_insert_Some; [done|eauto].
Qed.

Lemma unlock_inv s tid :
  sys_inv s -> calls s !! tid = Some Unlocking -> sys_inv (leave tid (s <| pairingMutex_ := None |>)).
Proof.
  intros [] Hq. pose proof (x_holds0 tid _ Hq eq_refl) as Hm. constructor; cbn.
  - intros t q [Hne Hq']%lookup_delete_Some E. apply x_holds0 in Hq'; [congruence|done].
  - done.
  - intros t id [Hne Hq']%lookup_delete_Some. eauto.
  - done.
  - intros t q id [Hne Hq']%lookup_delete_Some E. by eapply x_owned0.
  - intros t1 t2 p1 p2 id [? H1]%lookup_delete_Some [? H2]%lookup_delete_Some. by apply x_unique0.
  - intros id Hid. destruct (x_session0 id Hid) as [Hlt [Hpa|(t & q & Hq' & E)]]; split; auto.
    right. exists t, q. split; [|done]. apply lookup_delete_Some. split; [|done]. by intros <-; simplify_eq.
  - intros t n [Hne Hq']%lookup_delete_Some. eauto.
  - intros n [Hne Hq']%lookup_delete_Some. eauto.
Qed.

(** A session is made, and may be given up. *)
Lemma create_inv s tid n :
  sys_inv s -> calls s !! tid = Some (Waiting n) ->
  sys_inv (goto tid (Starting (next s))
    ((s <| sessions := {[next s]} ∪ sessions s |>) <| next := S (next s) |>)).
Proof.
  intros [] Hq.
  assert (next s ∉ sessions s) as Hfresh by (intros [Hlt _]%x_session0; lia).
  constructor; cbn.
  - intros t q [[<- <-]|[Hne Hq']]%lookup_insert_Some E; [done|eauto].
  - intros t E. destruct (x_owner0 t E) as (q & Hq' & Hh). exists q.
    rewrite lookup_insert_ne; [done|]. intros <-. by simplify_eq.
  - intros t id [[<- Ep]|[Hne Hq']]%lookup_insert_Some; [done|eauto].
  - intros id E%x_pairing0. set_solver.
  - intros t q id [[<- <-]|[Hne Hq']]%lookup_insert_Some E.
    + injection E as <-. split; [set_solver|]. intros E%x_pairing0. done.
    + destruct (x_owned0 t q id Hq' E). set_solver.
  - intros t1 t2 p1 p2 id [[<- <-]|[Hne1 H1]]%lookup_insert_Some [[<- <-]|[Hne2 H2]]%lookup_insert_Some E1 E2.
    + done.
    + injection E1 as <-. by destruct (x_owned0 _ _ _ H2 E2).
    + injection E2 as <-. by destruct (x_owned0 _ _ _ H1 E1).
    + by eapply x_unique0.
  - intros id [->%elem_of_singleton|Hid]%elem_of_union.
    + split; [lia|]. right. exists tid, (Starting (next s)). by rewrite lookup_insert_eq.
    + destruct (x_session0 id Hid) as [Hlt [Hpa|(t & q & Hq' & E)]]; (split; [lia|]); [by left|].
      right. exists t, q. rewrite lookup_insert_ne; [done|]. intros <-. by simplify_eq.
  - intros t m [[<- E]|[Hne Hq']]%lookup_insert_Some; [done|eauto].
  - intros m [[-> E]|[Hne Hq']]%lookup_insert_Some; [done|eauto].
Qed.

Lemma abandon_session_inv s tid id :
  sys_inv s -> calls s !! tid = Some (Starting id) ->
  sys_inv (leave tid (s <| sessions := sessions s ∖ {[id]} |>)).
Proof.
  intros [] Hq. destruct (x_owned0 _ _ id Hq eq_refl) as [Hin Hnot]. constructor; cbn.
  - intros t q [Hne Hq']%lookup_delete_Some E. eauto.
  - intros t E. destruct (x_owner0 t E) as (q & Hq' & Hh). exists q. split; [|done].
    apply lookup_delete_Some. split; [|done]. intros <-. by simplify_eq.
  - intros t id' [Hne Hq']%lookup_delete_Some. eauto.
  - intros id' E. apply elem_of_difference. split; [auto|]. intros ->%elem_of_singleton. done.
  - intros t q id' [Hne Hq']%lookup_delete_Some E. destruct (x_owned0 _ _ _ Hq' E). split; [|done].
    apply elem_of_difference. split; [done|]. intros ->%elem_of_singleton. apply Hne. by eapply x_unique0.
  - intros t1 t2 p1 p2 id' [? H1]%lookup_delete_Some [? H2]%lookup_delete_Some. by apply x_unique0.
  - intros id' [Hid Hne]%elem_of_difference.
    destruct (x_session0 id' Hid) as [Hlt [Hpa|(t & q & Hq' & E)]]; split; auto.
    right. exists t, q. split; [|done]. apply lookup_delete_Some. split; [|done].
    intros <-. simplify_eq. cbn in E. set_solver.
  - intros t n [Hne Hq']%lookup_delete_Some. eauto.
  - intros n [Hne Hq']%lookup_delete_Some. eauto.
Qed.

Lemma step_inv s s' : sys_inv s -> step s s' -> sys_inv s'.
Proof.
  intros H Hs. destruct Hs.
  - by apply call_inv.
  - by apply call_inv.
  - unfold disconnectAndWait. apply moved_inv; try done; [by intros q Hq; simplify_eq|..].
    + intros t [= <-]. rewrite tickets_post, decide_True by done. unfold tickets. cbn. lia.
    + rewrite tickets_post. lia.
  - by eapply create_inv.
  - by eapply goes_inv.
  - by apply abandon_session_inv.
  - by eapply lock_inv.
  - by apply (assign_inv s tid (Assigning id)).
  - by eapply lock_inv.
  - by eapply goes_inv.
  - eapply goes_inv; try done. by intros ? [= <-].
  - by eapply goes_inv.
  - by eapply goes_inv.
  - by apply (assign_inv s tid Resetting).
  - by apply unlock_inv.
  - destruct (tickets_io _ _ _ H1 H2). by apply remote_inv.
  - destruct (tickets_async _ _ _ H0 H1) as [? E]. apply remote_inv; [done|done|by rewrite E].
Qed.

Lemma init_sys_inv options : sys_inv (system_init options).
Proof. constructor; cbn; try done; intros; set_solver. Qed.

Lemma steps_inv s s' : sys_inv s -> rtc step s s' -> sys_inv s'.
Proof. intros H Hs. induction Hs; eauto using step_inv. Qed.

End invariant.

(** ** No deadlock *)
Section progress.
Implicit Types (s : system).

(** How far a call is from its end. *)
Definition rank (p : place) : nat :=
  match p with
  | Posting => 7 | Waiting _ => 6 | Starting _ => 5 | LockingStart _ => 4 | Assigning _ => 3
  | LockingFinish => 4 | Checking => 3 | Finishing _ => 2 | Resetting => 1 | Unlocking => 0
  end.

(** The lock is free for [tid]. *)
Definition free_for (tid : thread) s : Prop :=
  pairingMutex_ s = None \/ pairingMutex_ s = Some tid.

(** The thread of [io_] runs everything that was posted. *)
Lemma drain s :
  calls s !! io = None ->
  exists r, rtc step s (s <| remote := r |>) /\ posted_ r = [].
Proof.
  remember (length (posted_ (remote s))) as n eqn:En. revert s En.
  induction n as [|n IH]; intros s En Hio.
  { exists (remote s). rewrite remote_same. split; [apply rtc_refl|].
    by apply length_zero_iff_nil. }
  destruct (posted_ (remote s)) as [|t rest] eqn:Ep; [done|].
  set (r := run_task t (Ok tt) ((remote s) <| posted_ := rest |>)).
  assert (exec (RunPosted (Ok tt)) (remote s) = Some r) as He by (cbn [exec]; by rewrite Ep).
  destruct (task_promises t (Ok tt) ((remote s) <| posted_ := rest |>)) as [Er _].
  destruct (IH (s <| remote := r |>)) as (r' & Hs & Hr); [|done|].
  { cbn [remote update]. change (n = length (posted_ r)). unfold r. rewrite Er. cbn in *. lia. }
  exists r'. split; [|done]. eapply rtc_l; [by apply (step_io s (RunPosted (Ok tt)) r)|]. exact Hs.
Qed.

(** A call that has the lock free before it takes another step, or returns. *)
Lemma advance s tid p :
  sys_inv s -> calls s !! io = None -> calls s !! tid = Some p -> free_for tid s ->
  exists s', rtc step s s' /\ free_for tid s' /\
    (calls s' = delete tid (calls s) /\ pairingMutex_ s' = None \/
     exists p', (rank p' < rank p)%nat /\ calls s' = <[tid := p']> (calls s)).
Proof.
  intros H Hio Hp Hfree.
  assert (holds p = false -> pairingMutex_ s = None) as Hnone.
  { intros Hh. destruct Hfree as [E|E]; [done|].
    destruct (x_owner _ H _ E) as (q & Hq & Ho). rewrite Hp in Hq. injection Hq as <-. congruence. }
  assert (forall p' s', step s s' -> calls s' = <[tid := p']> (calls s) -> free_for tid s' ->
    (rank p' < rank p)%nat -> exists s', rtc step s s' /\ free_for tid s' /\
    (calls s' = delete tid (calls s) /\ pairingMutex_ s' = None \/
     exists p', (rank p' < rank p)%nat /\ calls s' = <[tid := p']> (calls s))) as Hgo.
  { intros p' s' Hs Hc Hf Hr. exists s'. split; [by apply rtc_once|]. split; [done|]. right. by exists p'. }
  destruct p as [|n|id|id|id| | |id| |].
  - eapply Hgo; [by apply step_post|reflexivity|exact Hfree|cbn; lia].
  - destruct (drain s Hio) as (r & Hs & Hr).
    assert (sys_inv (s <| remote := r |>)) as H1 by (by eapply steps_inv).
    pose proof (x_ticket _ H1 tid n Hp) as Ht. unfold tickets in Ht. cbn in Ht. rewrite Hr in Ht.
    cbn in Ht. eexists. split; [eapply rtc_r; [exact Hs|eapply step_wait; [exact Hp|cbn; unfold posted_waits in Ht; cbn in Ht; lia]]|].
    split; [exact Hfree|]. right. eexists. split; [|reflexivity]. cbn. lia.
  - eapply Hgo; [by apply (step_started s tid id)|reflexivity|exact Hfree|cbn; lia].
  - eapply Hgo; [apply (step_lock_start s tid id); auto|reflexivity|by right|cbn; lia].
  - eapply Hgo; [by apply (step_assign s tid id)|reflexivity|exact Hfree|cbn; lia].
  - eapply Hgo; [apply (step_lock_finish s tid); auto|reflexivity|by right|cbn; lia].
  - destruct (pairing_ s) as [id|] eqn:E.
    + eapply Hgo; [by apply (step_check s tid id)|reflexivity|exact Hfree|cbn; lia].
    + eapply Hgo; [by apply (step_check_throws s tid)|reflexivity|exact Hfree|cbn; lia].
  - eapply Hgo; [by apply (step_finished s tid id)|reflexivity|exact Hfree|cbn; lia].
  - eapply Hgo; [by apply (step_reset s tid)|reflexivity|exact Hfree|cbn; lia].
  - exists (leave tid (s <| pairingMutex_ := None |>)). split; [by apply rtc_once, step_unlock|].
    split; [by left|]. by left.
Qed.

(** It returns, with the lock free. *)
Lemma returns s tid p :
  sys_inv s -> calls s !! io = None -> calls s !! tid = Some p -> free_for tid s ->
  exists s', rtc step s s' /\ calls s' = delete tid (calls s) /\ pairingMutex_ s' = None.
Proof.
  remember (rank p) as n eqn:En. revert s p En. induction n as [n IH] using lt_wf_ind.
  intros s p -> H Hio Hp Hfree.
  destruct (advance s tid p H Hio Hp Hfree) as (s1 & Hs & Hf & [[Hc Hm]|(p' & Hr & Hc)]); [by exists s1|].
  assert (io <> tid) as Hne by (intros <-; congruence).
  destruct (IH (rank p') Hr s1 p') as (s' & Hs' & Hc' & Hm'); [done|by eapply steps_inv|..].
  - by rewrite Hc, lookup_insert_ne.
  - by rewrite Hc, lookup_insert_eq.
  - done.
  - exists s'. split; [by etrans|]. split; [|done]. by rewrite Hc', Hc, delete_insert_eq.
Qed.

End progress.

(** C16. The lock does its work. Whatever threads call [startPairing] and [finishPairing], and
    whatever goes on beside: at most one of them is between lock and unlock; the session on
    which a thread is in [finish] is the one [pairing_] points to, and it exists; and the
    sessions that exist are exactly that one and those that one call each still owns, so
    that none is used after its destruction, destroyed twice or leaked. *)
Theorem pairing_exclusive (options : Options) (s : system) :
  reaches options s ->
  (forall tid1 tid2 p1 p2, calls s !! tid1 = Some p1 -> calls s !! tid2 = Some p2 ->
     holds p1 = true -> holds p2 = true -> tid1 = tid2) /\
  (forall tid id, calls s !! tid = Some (Finishing id) -> pairing_ s = Some id /\ id ∈ sessions s) /\
  (forall id, id ∈ sessions s <->
     pairing_ s = Some id \/ exists tid p, calls s !! tid = Some p /\ owned p = Some id) /\
  (forall tid1 tid2 p1 p2 id, calls s !! tid1 = Some p1 -> calls s !! tid2 = Some p2 ->
     owned p1 = Some id -> owned p2 = Some id -> tid1 = tid2 /\ pairing_ s <> Some id).
Proof.
  intros Hr. destruct (steps_inv _ _ (init_sys_inv options) Hr). split_and!.
  - intros t1 t2 p1 p2 H1 H2 E1 E2. pose proof (x_holds0 _ _ H1 E1). pose proof (x_holds0 _ _ H2 E2).
    congruence.
  - intros tid id Hf. pose proof (x_finishing0 _ _ Hf). auto.
  - intros id. split; [by intros []%x_session0|]. intros [E|(tid & p & Hp & E)]; [auto|].
    by eapply x_owned0.
  - intros t1 t2 p1 p2 id H1 H2 E1 E2. split; [by eapply x_unique0|]. by eapply x_owned0.
Qed.

(** C17. No deadlock. As long as no pairing call was made on the thread of [io_], every call
    that was made can return, whatever was posted, whoever has the lock and however the
    calls got where they are - provided that the television answers. *)
Theorem pairing_calls_return (options : Options) (s : system) :
  reaches options s -> calls s !! io = None ->
  exists s', rtc step s s' /\ calls s' = ∅ /\ pairingMutex_ s' = None.
Proof.
  intros Hr Hio. pose proof (steps_inv _ _ (init_sys_inv options) Hr) as H. clear Hr.
  remember (base.size (calls s)) as n eqn:En. revert s En H Hio.
  induction n as [n IH] using lt_wf_ind. intros s -> H Hio.
  destruct (decide (calls s = ∅)) as [E|Hne].
  { exists s. split_and!; [apply rtc_refl|done|].
    destruct (pairingMutex_ s) as [tid|] eqn:Em; [|done].
    destruct (x_owner _ H _ Em) as (p & Hp & _). by rewrite E, lookup_empty in Hp. }
  assert (exists tid p, calls s !! tid = Some p /\ free_for tid s) as (tid & p & Hp & Hf).
  { destruct (pairingMutex_ s) as [tid|] eqn:Em.
    - destruct (x_owner _ H _ Em) as (p & Hp & _). exists tid, p. split; [done|by right].
    - apply map_choose in Hne as (tid & p & Hp). exists tid, p. split; [done|by left]. }
  destruct (returns s tid p H Hio Hp Hf) as (s1 & Hs & Hc & _).
  destruct (IH (base.size (calls s1))) with (s := s1) as (s' & Hs' & E & Em); [|done|by eapply steps_inv|..].
  - rewrite Hc. pose proof (map_size_delete_Some tid (calls s) (ex_intro _ p Hp)).
    assert (base.size (calls s) <> 0%nat) by (by rewrite map_size_non_empty_iff). lia.
  - rewrite Hc, lookup_delete_None. by right.
  - exists s'. split; [by etrans|done].
Qed.

(** What the thread of [io_] waits for does not come while it waits. *)
Lemma frozen_step s s' n :
  calls s !! io = Some (Waiting n) -> (promises_set (trace_ (remote s)) <= n)%nat -> step s s' ->
  calls s' !! io = Some (Waiting n) /\ trace_ (remote s') = trace_ (remote s) /\
  forall tid m, (n <= m)%nat -> calls s !! tid = Some (Waiting m) -> calls s' !! tid = Some (Waiting m).
Proof.
  intros Hio Hn Hs.
  assert (forall tid q s', calls s !! tid = q -> calls s' !! io = calls s !! io \/ tid = io ->
    (forall m, (n <= m)%nat -> q <> Some (Waiting m)) -> trace_ (remote s') = trace_ (remote s) ->
    (forall t, t <> tid -> calls s' !! t = calls s !! t) ->
    calls s' !! io = Some (Waiting n) /\ trace_ (remote s') = trace_ (remote s) /\
    forall tid m, (n <= m)%nat -> calls s !! tid = Some (Waiting m) -> calls s' !! tid = Some (Waiting m))
    as Hone.
  { intros tid q s1 Hq _ Hne Ht Hother. split_and!; [|done|].
    - destruct (decide (io = tid)) as [<-|Hd]; [|by rewrite Hother].
      rewrite Hio in Hq. by destruct (Hne n (Nat.le_refl n)).
    - intros t m Hm Hw. destruct (decide (t = tid)) as [->|Hd]; [|by rewrite Hother].
      rewrite Hw in Hq. by destruct (Hne m Hm). }
  destruct Hs;
    try (match goal with H : calls s !! ?tid = ?q |- _ =>
      apply (Hone tid q); [exact H| |by intros ??| |];
        [cbn; destruct (decide (tid = io)); [by right|left; rewrite ?lookup_insert_ne, ?lookup_delete_ne; done]
        |reflexivity
        |intros; cbn; rewrite ?lookup_insert_ne, ?lookup_delete_ne; done] end).
  - apply (Hone tid (Some (Waiting ticket))); [done| |intros m Hm [= ->]; lia|done|].
    + cbn. destruct (decide (tid = io)); [by right|left; by rewrite lookup_insert_ne].
    + intros. cbn. by rewrite lookup_insert_ne.
  - congruence.
  - destruct (tickets_async _ _ _ H H0) as [_ E]. by split_and!.
Qed.

(** C27. A callback must not pair. When [startPairing] is called on the thread of [io_] - in
    a callback - it never returns: whatever happens after, its promise is not kept, nothing
    that was posted runs and no operation completes, and every other [startPairing] that
    waits for a later promise waits for ever too. *)
Theorem callback_deadlock (s s' : system) :
  calls s !! io = Some Posting ->
  let n := tickets (remote s) in
  rtc step (goto io (Waiting n) (s <| remote := disconnectAndWait (remote s) |>)) s' ->
  calls s' !! io = Some (Waiting n) /\ trace_ (remote s') = trace_ (remote s) /\
  forall s'' tid m, (n <= m)%nat -> calls s' !! tid = Some (Waiting m) -> rtc step s' s'' ->
    calls s'' !! tid = Some (Waiting m).
Proof.
  intros Hio n.
  assert (promises_set (trace_ (remote s)) <= n)%nat as Hn by (unfold n, tickets; lia).
  assert (forall s1 s2, rtc step s1 s2 -> calls s1 !! io = Some (Waiting n) ->
    trace_ (remote s1) = trace_ (remote s) ->
    calls s2 !! io = Some (Waiting n) /\ trace_ (remote s2) = trace_ (remote s) /\
    forall tid m, (n <= m)%nat -> calls s1 !! tid = Some (Waiting m) -> calls s2 !! tid = Some (Waiting m))
    as Hsteps.
  { induction 1 as [s1|s1 s2 s3 Hs _ IH]; intros Hw Ht; [by split_and!|].
    destruct (frozen_step s1 s2 n Hw) as (Hw2 & Ht2 & Ho); [by rewrite Ht|done|].
    destruct (IH Hw2) as (Hw3 & Ht3 & Ho3); [congruence|]. split_and!; [done..|]. auto. }
  intros Hr. destruct (Hsteps _ _ Hr) as (Hw & Ht & _); [cbn; by rewrite lookup_insert_eq|done|].
  split_and!; [done..|]. intros s'' tid m Hm Hw' Hr'. by eapply (Hsteps s' s'').
Qed.

(** ** Two threads *)

(** The steps of a pairing, up to the code, of thread 1; then thread 2 begins another. *)
Definition fresh : system := system_init Options_init.

Definition disconnected : Impl :=
  default (Impl_init Options_init) (exec (RunPosted (Ok tt)) (disconnectAndWait (Impl_init Options_init))).

Definition paired : system :=
  mkSystem disconnected None (Some 0%nat) {[0%nat]} 1 ∅.

Definition finishing : system :=
  goto 2 Posting (goto 1 (Finishing 0) (goto 1 Checking (goto 1 LockingFinish paired <| pairingMutex_ := Some 1%nat |>))).

Lemma paired_reachable : exists s, reaches Options_init s /\ s = paired.
Proof.
  eexists. split.
  - eapply rtc_l; [apply (step_call_start fresh 1); reflexivity|].
    eapply rtc_l; [apply (step_post _ 1); reflexivity|].
    eapply rtc_l; [eapply (step_io _ (RunPosted (Ok tt))); [reflexivity|reflexivity|vm_compute; reflexivity]|].
    eapply rtc_l; [apply (step_wait _ 1 0); [reflexivity|vm_compute; lia]|].
    eapply rtc_l; [apply (step_started _ 1 0); reflexivity|].
    eapply rtc_l; [apply (step_lock_start _ 1 0); reflexivity|].
    eapply rtc_l; [apply (step_assign _ 1 0); reflexivity|].
    eapply rtc_l; [apply (step_unlock _ 1); reflexivity|]. apply rtc_refl.
  - vm_compute. reflexivity.
Qed.

Lemma finishing_reachable : reaches Options_init finishing.
Proof.
  destruct paired_reachable as (s & Hs & ->). unfold reaches.
  etrans; [exact Hs|]. eapply rtc_l; [apply (step_call_finish _ 1); reflexivity|].
  eapply rtc_l; [apply (step_lock_finish _ 1); reflexivity|].
  eapply rtc_l; [apply (step_check _ 1 0); reflexivity|].
  eapply rtc_l; [apply (step_call_start _ 2); reflexivity|]. apply rtc_refl.
Qed.

Lemma pairing_exclusive_witness :
  calls finishing !! 1%nat = Some (Finishing 0) /\ pairing_ finishing = Some 0%nat /\ 0%nat ∈ sessions finishing.
Proof.
  split; [reflexivity|].
  destruct (pairing_exclusive Options_init finishing finishing_reachable) as (_ & H & _).
  apply (H 1%nat 0%nat). reflexivity.
Defined.

Lemma pairing_calls_return_witness :
  calls finishing !! 2%nat = Some Posting /\ exists s', rtc step finishing s' /\ calls s' = ∅ /\ pairingMutex_ s' = None.
Proof.
  split; [reflexivity|]. apply (pairing_calls_return Options_init finishing finishing_reachable). reflexivity.
Defined.

(** [startPairing] from a callback, and from thread 1 after that. *)
Definition in_callback : system := goto io Posting fresh.
Definition stuck_callback : system :=
  goto io (Waiting 0) (in_callback <| remote := disconnectAndWait (remote in_callback) |>).
Definition stuck_thread : system :=
  let s := goto 1 Posting stuck_callback in
  goto 1 (Waiting 1) (s <| remote := disconnectAndWait (remote s) |>).

Lemma callback_deadlock_witness :
  calls stuck_thread !! io = Some (Waiting 0) /\
  (forall s'', rtc step stuck_thread s'' ->
    calls s'' !! io = Some (Waiting 0) /\ calls s'' !! 1%nat = Some (Waiting 1)).
Proof.
  assert (rtc step stuck_callback stuck_thread) as Hs.
  { eapply rtc_l; [apply (step_call_start _ 1); reflexivity|].
    eapply rtc_l; [apply (step_post _ 1); reflexivity|]. apply rtc_refl. }
  destruct (callback_deadlock in_callback stuck_thread eq_refl Hs) as (H0 & _ & H1).
  split; [exact H0|]. intros s'' Hr. split.
  - destruct (callback_deadlock in_callback s'' eq_refl (transitivity Hs Hr)) as [H _]. exact H.
  - apply (H1 s'' 1%nat 1%nat); [vm_compute; lia|reflexivity|exact Hr].
Defined.
