(* ===== verification/RemoteCommands.v ===== *)
(** * Commands: keys, voice, and a connection without an identity

    What a call of the application becomes on the wire. *)

From S2P Require Import Prelude Wire WireSpec Types Messages MessagesSpec MessagesProps KeyCodes.
From S2P Require Import RemoteState Remote RemoteInv RemoteSteps RemoteSpec RemoteBehaviour.

Local Open Scope Z_scope.
Local Open Scope cxx_scope.

(** ** Voice data *)
Section voice.

(** The pieces the samples are cut into, all of them full but the last, which is not
    empty; and the chunks made of them, the last one with silence after it. *)
Definition pieces (samples : list Z) (full : list (list Z)) (last : list Z) : Prop :=
  samples = (concat full ++ last)%list /\
  Forall (fun piece => size piece = VoiceChunkSize) full /\ 1 <= size last <= VoiceChunkSize.

Definition chunks_of (full : list (list Z)) (last : list Z) : list (list Z) :=
  (full ++ [last ++ replicate (Z.to_nat (VoiceMinimumChunkSize - size last)) 0])%list.

Lemma pad_chunk_eq chunk :
  pad_chunk chunk = (chunk ++ replicate (Z.to_nat (VoiceMinimumChunkSize - size chunk)) 0)%list.
Proof.
  unfold pad_chunk. destruct (Z.ltb_spec (size chunk) VoiceMinimumChunkSize); [done|].
  replace (Z.to_nat (VoiceMinimumChunkSize - size chunk)) with 0%nat by lia.
  by rewrite app_nil_r.
Qed.

Definition chunked (samples : list Z) (chunks : list (list Z)) : Prop :=
  (samples = [] /\ chunks = []) \/
  exists full last, pieces samples full last /\ chunks = chunks_of full last.

Lemma chunked_nil chunks : chunked [] chunks -> chunks = [].
Proof.
  intros [[_ ->]|(full & last & (E & _ & Hl) & _)]; [done|]. symmetry in E.
  apply app_eq_nil in E as [_ ->]. unfold size in Hl. cbn in Hl. lia.
Qed.

Lemma chunked_last samples :
  1 <= size samples <= VoiceChunkSize -> chunked samples [pad_chunk samples].
Proof.
  intros H. right. exists [], samples. split; [by split; [|split]|]. unfold chunks_of.
  by rewrite pad_chunk_eq.
Qed.

Lemma chunked_cons piece samples chunks :
  size piece = VoiceChunkSize -> samples <> [] -> chunked samples chunks ->
  chunked (piece ++ samples) (pad_chunk piece :: chunks).
Proof.
  intros Hp Hs [[? _]|(full & last & (-> & Hf & Hl) & ->)]; [done|]. right.
  exists (piece :: full), last. split.
  - split; [cbn; by rewrite <- app_assoc|]. split; [by apply Forall_cons_2|done].
  - rewrite pad_chunk_eq, Hp.
    change (Z.to_nat (VoiceMinimumChunkSize - VoiceChunkSize)) with 0%nat. cbn [replicate].
    by rewrite app_nil_r.
Qed.

Lemma sendVoiceData_loop_obs fuel data offset sessionId s :
  stream_ s = true -> 0 <= offset -> size data - offset < Z.of_nat fuel ->
  exists chunks, chunked (drop (Z.to_nat offset) data) chunks /\
    observed s (sendVoiceData_loop fuel data offset sessionId s) (view_of s)
      (map (remoteVoicePayload sessionId) chunks) [].
Proof.
  revert offset s. induction fuel as [|fuel IH]; intros offset s Hs Ho Hf.
  { exists []. split; [left; split; [apply drop_ge; zlia|done]|apply observed_refl]. }
  cbn [sendVoiceData_loop]. destruct (Z.ltb_spec offset (size data)).
  2: { exists []. split; [left; split; [apply drop_ge; zlia|done]|apply observed_refl]. }
  set (chunk0 := take _ _).
  pose proof (observed_queueMessage s (remoteVoicePayload sessionId (pad_chunk chunk0)) Hs) as H1.
  set (s1 := queueMessage _ s) in *. clearbody s1.
  destruct (IH (offset + VoiceChunkSize) s1) as (chunks & Hc & H2);
    [by rewrite (o_stream _ _ _ _ _ H1)|unfold VoiceChunkSize; lia..|].
  rewrite (o_view _ _ _ _ _ H1) in H2.
  exists (pad_chunk chunk0 :: chunks). split; [|exact (observed_trans H1 H2)].
  replace (Z.to_nat (offset + VoiceChunkSize))
    with (Z.to_nat offset + Z.to_nat VoiceChunkSize)%nat in Hc by (unfold VoiceChunkSize; lia).
  rewrite <- drop_drop in Hc.
  assert (size (drop (Z.to_nat offset) data) = size data - offset) as Hsize
    by (unfold size in *; rewrite length_drop; lia).
  set (samples := drop (Z.to_nat offset) data) in *. clearbody samples.
  assert (chunk0 = take (Z.to_nat VoiceChunkSize) samples) as ->.
  { unfold chunk0. rewrite <- Hsize. destruct (Z.le_gt_cases (size samples) VoiceChunkSize).
    - rewrite Z.min_r by lia. rewrite !take_ge by zlia. done.
    - by rewrite Z.min_l by lia. }
  destruct (Z.le_gt_cases (size samples) VoiceChunkSize) as [Hlast|Hmore].
  - rewrite drop_ge in Hc by zlia. rewrite (chunked_nil _ Hc), take_ge by zlia.
    apply chunked_last. lia.
  - rewrite <- (take_drop (Z.to_nat VoiceChunkSize) samples) at 1. apply chunked_cons; [| |done].
    + unfold size, VoiceChunkSize in *. rewrite length_take. lia.
    + intros E. apply (f_equal size) in E. unfold size, VoiceChunkSize in *. rewrite length_drop in E.
      cbn in E. lia.
Qed.

End voice.

(** C36. Voice data: when there is a session, the samples passed to one call are cut into
    pieces of 20 KiB and a last one that is not empty and at most as long, in order and
    nothing lost; each piece is queued as one voice payload of the session, as it is but for
    the last, which is completed with zeros to 8 KiB if, and only if, it is shorter than
    that. Nothing is queued for no samples, what the application can read does not change,
    and without a session nothing happens. (There is a stream.) *)
Theorem voice_data_chunked (data : list Z) (sessionId : Z) (s : Impl) :
  stream_ s = true ->
  (voiceSessionId_ s = Some sessionId ->
   view_of (sendVoiceData_task data s) = view_of s /\
   (data = [] ->
    queued (generation_ s) (trace_ (sendVoiceData_task data s)) = queued (generation_ s) (trace_ s)) /\
   (data <> [] -> exists full last,
     data = (concat full ++ last)%list /\
     Forall (fun piece => size piece = VoiceChunkSize) full /\ 1 <= size last <= VoiceChunkSize /\
     queued (generation_ s) (trace_ (sendVoiceData_task data s)) =
       (queued (generation_ s) (trace_ s) ++ map (remoteVoicePayload sessionId)
          (full ++ [last ++ replicate (Z.to_nat (VoiceMinimumChunkSize - size last)) 0]))%list)) /\
  (voiceSessionId_ s = None -> sendVoiceData_task data s = s).
Proof.
  intros Hs. unfold sendVoiceData_task. split; intros Hv; rewrite Hv; [|done].
  destruct (sendVoiceData_loop_obs (S (length data)) data 0 sessionId s Hs) as (chunks & Hc & Hobs);
    [done|unfold size; lia|].
  rewrite drop_0 in Hc. split; [apply Hobs|]. rewrite (o_queued _ _ _ _ _ Hobs).
  split; intros Hd.
  - subst data. by rewrite (chunked_nil _ Hc), app_nil_r.
  - destruct Hc as [[? _]|(full & last & (E & Hf & Hl) & ->)]; [done|]. by exists full, last.
Qed.

Definition talking : Impl :=
  (Impl_init Options_init) <| stream_ := true |> <| voiceSessionId_ := Some 7 |>.

Lemma voice_data_chunked_witness :
  exists full last,
    replicate 300 1 = (concat full ++ last)%list /\ 1 <= size last <= VoiceChunkSize /\
    Forall (fun piece => size piece = VoiceChunkSize) full.
Proof.
  destruct (voice_data_chunked (replicate 300 1) 7 talking) as [H _]; [reflexivity|].
  destruct (H eq_refl) as (_ & _ & Hd). destruct Hd as (full & last & E & Hf & Hl & _); [discriminate|].
  exists full, last. split; [exact E|]. split; [exact Hl|exact Hf].
Defined.

(** ** Voice sessions *)

Section sessions.

Lemma queued_start g op t : (forall b, op <> Write g b) -> queued g (t ++ [Start op]) = queued g t.
Proof. intros _. unfold queued. rewrite omap_app. apply app_nil_r. Qed.

Lemma queued_cancel g tm t : queued g (t ++ [Cancel tm]) = queued g t.
Proof. unfold queued. rewrite omap_app. apply app_nil_r. Qed.

Lemma observed_starting s b :
  observed s (s <| voiceStarting_ := b |>) ((view_of s) <| v_starting := b |>) [] [].
Proof. constructor; rewrite ?app_nil_r; done. Qed.

Lemma observed_session s o :
  observed s (s <| voiceSessionId_ := o |>) ((view_of s) <| v_session := o |>) [] [].
Proof. constructor; rewrite ?app_nil_r; done. Qed.

Lemma observed_voice s : observed s (start WaitVoice s) (view_of s) [] [].
Proof.
  constructor; rewrite ?app_nil_r; try done; cbn;
    [unfold queued; rewrite omap_app; apply app_nil_r|unfold notified; rewrite omap_app; apply app_nil_r].
Qed.

End sessions.

(** Whether a voice session may be asked for. *)
Definition voice_ready (v : view) : Prop :=
  v_voiceEnabled v = true /\ v_starting v = false /\ v_session v = None /\ v_state v = Connected.

#[export] Instance voice_ready_dec v : Decision (voice_ready v).
Proof. unfold voice_ready. apply _. Defined.

Lemma startVoice_obs s :
  stream_ s = true -> voice_ready (view_of s) ->
  observed s (startVoice_task s) ((view_of s) <| v_starting := true |>)
    [remoteKey (KeyCode_value Search) Short] [].
Proof.
  intros Hs (He & Hst & Hse & Hc). cbn in He, Hst, Hse, Hc.
  unfold Observers.isVoiceEnabled in He. unfold Observers.connectionState in Hc. unfold startVoice_task.
  rewrite He, Hst, Hse, Hc. cbn [negb orb]. cbv zeta.
  rewrite (bool_decide_eq_false_2 (is_Some None)) by (by intros [? ?]).
  rewrite (bool_decide_eq_true_2 (Connected = Connected)) by done. cbn [negb].
  set (p := remoteKey _ _).
  pose proof (observed_starting s true) as H1.
  assert (stream_ (s <| voiceStarting_ := true |>) = true) as Hs1 by done.
  set (s1 := s <| voiceStarting_ := true |>) in *. clearbody s1.
  pose proof (observed_queueMessage s1 p Hs1) as H2. rewrite (o_view _ _ _ _ _ H1) in H2.
  pose proof (observed_trans H1 H2) as H3. set (s2 := queueMessage p s1) in *. clearbody s2.
  pose proof (observed_cancel s2 VoiceTimer) as H4. rewrite (o_view _ _ _ _ _ H3) in H4.
  pose proof (observed_trans H3 H4) as H5. set (s3 := cancel VoiceTimer s2) in *. clearbody s3.
  pose proof (observed_voice s3) as H6. rewrite (o_view _ _ _ _ _ H5) in H6.
  exact (observed_trans H5 H6).
Qed.

Lemma stopVoice_obs s id :
  stream_ s = true -> voiceSessionId_ s = Some id ->
  observed s (stopVoice_task s) (((view_of s) <| v_starting := false |>) <| v_session := None |>)
    [remoteVoiceEnd id] [VoiceStopped].
Proof.
  intros Hs Hid. unfold stopVoice_task. cbv zeta.
  pose proof (observed_cancel s VoiceTimer) as H1.
  assert (stream_ (cancel VoiceTimer s) = true /\ voiceSessionId_ (cancel VoiceTimer s) = Some id)
    as [Hs1 Hid1] by done.
  set (s1 := cancel VoiceTimer s) in *. clearbody s1.
  pose proof (observed_starting s1 false) as H2. rewrite (o_view _ _ _ _ _ H1) in H2.
  pose proof (observed_trans H1 H2) as H3.
  assert (stream_ (s1 <| voiceStarting_ := false |>) = true /\
    voiceSessionId_ (s1 <| voiceStarting_ := false |>) = Some id) as [Hs2 Hid2] by done.
  set (s2 := s1 <| voiceStarting_ := false |>) in *. clearbody s2. rewrite Hid2.
  pose proof (observed_queueMessage s2 (remoteVoiceEnd id) Hs2) as H4.
  rewrite (o_view _ _ _ _ _ H3) in H4. pose proof (observed_trans H3 H4) as H5.
  set (s3 := queueMessage _ s2) in *. clearbody s3.
  pose proof (observed_session s3 None) as H6. rewrite (o_view _ _ _ _ _ H5) in H6.
  pose proof (observed_trans H5 H6) as H7.
  set (s4 := s3 <| voiceSessionId_ := None |>) in *. clearbody s4.
  pose proof (observed_emit s4 VoiceStopped) as H8. rewrite (o_view _ _ _ _ _ H7) in H8.
  exact (observed_trans H7 H8).
Qed.

Lemma voice_begin_obs id s :
  in_i32 id -> stream_ s = true ->
  let '(v, out, notes) := tv_step (TvVoiceBegin id) (view_of s) in
  observed s (handleMessage (encode [tv_field (TvVoiceBegin id)]) s) v out notes.
Proof.
  intros Hi Hs. pose proof (obs_handleMessage s [] (TvVoiceBegin id) [] ltac:(done) ltac:(done) Hi Hs) as H.
  by rewrite app_nil_r in H.
Qed.

(** The life of a voice session, against the television: on a connection that
    is ready for it, [startVoice] queues the search key and waits; the television's
    voice-begin message opens the session, is answered and reported once (a second
    one, not asked for, is ignored); [stopVoice] queues the end of that session and
    reports it; afterwards the object is ready again.  When it is not ready,
    [startVoice] only reports an error. *)
Theorem voice_session_cycle (session other : Z) (s : Impl) :
  stream_ s = true -> in_i32 session -> in_i32 other ->
  (voice_ready (view_of s) ->
   let begin id := handleMessage (encode [tv_field (TvVoiceBegin id)]) in
   let s' := stopVoice_task (begin other (begin session (startVoice_task s))) in
   view_of s' = view_of s /\
   queued (generation_ s) (trace_ s') =
     (queued (generation_ s) (trace_ s) ++
      [remoteKey (KeyCode_value Search) Short; remoteVoiceBegin session; remoteVoiceEnd session])%list /\
   notified (trace_ s') =
     (notified (trace_ s) ++ List.filter (is_set (callbacks_ s)) [VoiceStarted session; VoiceStopped])%list) /\
  (~ voice_ready (view_of s) -> exists message, startVoice_task s = emitError message s).
Proof.
  intros Hs Hi Ho. split.
  - intros Hr. cbv beta zeta. pose proof (startVoice_obs s Hs Hr) as H1.
    set (s1 := startVoice_task s) in *. clearbody s1.
    assert (stream_ s1 = true) as Hs1 by (by rewrite (o_stream _ _ _ _ _ H1)).
    pose proof (voice_begin_obs session s1 Hi Hs1) as H2. rewrite (o_view _ _ _ _ _ H1) in H2.
    cbn [tv_step v_starting update] in H2.
    set (s2 := handleMessage _ s1) in *. clearbody s2. pose proof (observed_trans H1 H2) as H3.
    assert (stream_ s2 = true) as Hs2 by (by rewrite (o_stream _ _ _ _ _ H3)).
    pose proof (voice_begin_obs other s2 Ho Hs2) as H4. rewrite (o_view _ _ _ _ _ H3) in H4.
    cbn [tv_step v_starting update] in H4.
    set (s3 := handleMessage _ s2) in *. clearbody s3. pose proof (observed_trans H3 H4) as H5.
    assert (stream_ s3 = true) as Hs3 by (by rewrite (o_stream _ _ _ _ _ H5)).
    assert (voiceSessionId_ s3 = Some session) as Hid
      by exact (f_equal v_session (o_view _ _ _ _ _ H5)).
    pose proof (stopVoice_obs s3 session Hs3 Hid) as H6. rewrite (o_view _ _ _ _ _ H5) in H6.
    set (s4 := stopVoice_task s3) in *. clearbody s4. pose proof (observed_trans H5 H6) as H7.
    split_and!; [rewrite (o_view _ _ _ _ _ H7)|exact (o_queued _ _ _ _ _ H7)|
      exact (o_notified _ _ _ _ _ H7)].
    destruct Hr as (_ & Hst & Hse & _). destruct (view_of s). cbn in Hst, Hse |- *. by subst.
  - intros Hr. unfold startVoice_task, voice_ready in *. cbn in Hr.
    unfold Observers.isVoiceEnabled, Observers.connectionState in Hr.
    destruct (voiceEnabled_ s); cbn [negb]; [|by eexists].
    destruct (voiceStarting_ s); cbn [orb]; [by eexists|].
    case_bool_decide; [by eexists|]. case_bool_decide; cbn [negb]; [|by eexists].
    exfalso. apply Hr. split_and!; [done..| |done]. by destruct (voiceSessionId_ s); [destruct H; eexists|].
Qed.

Definition ready : Impl :=
  (Impl_init Options_init) <| stream_ := true |> <| voiceEnabled_ := true |> <| state_ := Connected |>.

Lemma voice_session_cycle_witness :
  exists s', view_of s' = view_of ready /\
    queued 0 (trace_ s') = [remoteKey 84 Short; remoteVoiceBegin 5; remoteVoiceEnd 5].
Proof.
  destruct (voice_session_cycle 5 6 ready) as [H _]; [reflexivity|vm_compute; by split|vm_compute; by split|].
  destruct H as (Hv & Hq & _); [by repeat split|].
  eexists. split; [exact Hv|exact Hq].
Defined.

(** ** Commands *)

(** What is posted and taken from the queue again leaves the object as it was. *)
Lemma posted_dropped t s : posted_ s = [] -> (post t s) <| posted_ := [] |> = s.
Proof. intros Hp. destruct s. cbn in *. by subst. Qed.

Lemma queueMessage_dropped payload s : stream_ s = false -> queueMessage payload s = s.
Proof. intros Hs. unfold queueMessage. by rewrite Hs. Qed.

(** C37. From the call to the wire, when nothing else is posted: with a stream, a known key
    name, in any case and with or without its prefixes, is queued by the next turn of the
    I/O thread as one message that carries exactly its code and direction, and a text that
    is not empty (and shorter than 2^60) as one message that carries it together with the counters of the last
    batch edit of the television; without a stream that turn drops the key or the text and
    changes nothing. An unknown name throws [std::invalid_argument] with the name in its
    message, and so does an empty text; nothing is posted then, with or without a stream. *)
Theorem commands_delivered (identity : setup) (name text : string) (d : Direction) (s : Impl) :
  posted_ s = [] -> text_ok text ->
  (stream_ s = true -> forall code, keyCodeFromName name = Some code ->
   exists s2 payload body,
     run [CallSendKeyName name d; RunPosted identity] s = Some s2 /\
     queued (generation_ s) (trace_ s2) = (queued (generation_ s) (trace_ s) ++ [payload])%list /\
     findBytes payload 10 = Some body /\ findVarint body 1 = Some (u32 code) /\
     findVarint body 2 = Some (Direction_value d)) /\
  (stream_ s = true -> text <> ""%string ->
   exists s2 payload body info object,
     run [CallSendText text; RunPosted identity] s = Some s2 /\
     queued (generation_ s) (trace_ s2) = (queued (generation_ s) (trace_ s) ++ [payload])%list /\
     findBytes payload 21 = Some body /\ findVarint body 1 = Some (u32 (imeCounter_ s)) /\
     findVarint body 2 = Some (u32 (imeFieldCounter_ s)) /\
     findBytes body 3 = Some info /\ findBytes info 2 = Some object /\
     findBytes object 3 = Some (bytes_of_string text)) /\
  (stream_ s = false ->
   (keyCodeFromName name <> None -> run [CallSendKeyName name d; RunPosted identity] s = Some s) /\
   (text <> ""%string -> run [CallSendText text; RunPosted identity] s = Some s)) /\
  (keyCodeFromName name = None ->
   sendKeyName name d s = Throw (invalid_argument ("unknown Android key name: " +:+ name)) /\
   exec (CallSendKeyName name d) s = Some s) /\
  sendText "" s = Throw (invalid_argument "text cannot be empty") /\
  exec (CallSendText "") s = Some s.
Proof.
  intros Hp Ht.
  assert (forall t, stream_ s = true -> stream_ ((post t s) <| posted_ := [] |>) = true) as Hs1 by done.
  assert (forall t, posted_ (post t s) = [t]) as Hpost by (intros t; cbn; by rewrite Hp).
  split_and!.
  - intros Hs code Hk.
    exists (queueMessage (remoteKey code d) ((post (TQueueMessage (remoteKey code d)) s) <| posted_ := [] |>)).
    exists (remoteKey code d).
    pose proof (observed_queueMessage _ (remoteKey code d) (Hs1 (TQueueMessage (remoteKey code d)) Hs)) as Ho.
    assert (in_u64 (Direction_value d)) by (destruct d; cbn; zlia).
    eexists. split_and!; [|exact (o_queued _ _ _ _ _ Ho)|rewrite remoteKey_eq; by lookups|by lookups..].
    cbn [run exec]. unfold sendKeyName. rewrite Hk. cbn [or_unchanged].
    unfold sendKey, postMessage. rewrite Hpost. reflexivity.
  - intros Hs Hne.
    exists (queueMessage (remoteText text (imeCounter_ s) (imeFieldCounter_ s))
              ((post (TSendText text) s) <| posted_ := [] |>)).
    exists (remoteText text (imeCounter_ s) (imeFieldCounter_ s)).
    pose proof (observed_queueMessage _ (remoteText text (imeCounter_ s) (imeFieldCounter_ s))
      (Hs1 (TSendText text) Hs)) as Ho.
    eexists _, _, _. split; [|split; [exact (o_queued _ _ _ _ _ Ho)|]].
    + cbn [run exec]. unfold sendText. rewrite bool_decide_eq_false_2 by done. cbn [or_unchanged].
      rewrite Hpost. reflexivity.
    + rewrite remoteText_eq by done.
      split; [lookups; reflexivity|]. split; [lookups; reflexivity|].
      split; [lookups; reflexivity|]. split; [lookups; reflexivity|].
      split; [lookups; reflexivity|]. by lookups.
  - intros Hs. split; intros Hne; cbn [run exec].
    + unfold sendKeyName. destruct (keyCodeFromName name) as [code|]; [|done]. cbn [or_unchanged].
      unfold sendKey, postMessage. rewrite Hpost, posted_dropped by done. cbn [run_task].
      by rewrite queueMessage_dropped.
    + unfold sendText. rewrite bool_decide_eq_false_2 by done. cbn [or_unchanged].
      rewrite Hpost, posted_dropped by done. cbn [run_task]. unfold sendText_task.
      by rewrite queueMessage_dropped.
  - intros Hk. cbn [exec]. unfold sendKeyName. by rewrite Hk.
  - reflexivity.
  - reflexivity.
Qed.

Lemma commands_delivered_witness :
  exists s2 payload body,
    run [CallSendKeyName "keycode_volume_up" Short; RunPosted (Ok tt)] ready = Some s2 /\
    findBytes payload 10 = Some body /\ findVarint body 1 = Some 24.
Proof.
  destruct (commands_delivered (Ok tt) "keycode_volume_up" "hi" Short ready) as (H & _);
    [reflexivity|vm_compute; reflexivity|].
  destruct (H eq_refl 24) as (s2 & payload & body & Hr & _ & Hb & Hc & _); [vm_compute; reflexivity|].
  by exists s2, payload, body.
Defined.

(** ** The client's identity *)

Section identity.

(** What a callback of this object hears. *)
Definition tells (s s' : Impl) (notes : list notification) : Prop :=
  callbacks_ s' = callbacks_ s /\
  notified (trace_ s') = (notified (trace_ s) ++ List.filter (is_set (callbacks_ s)) notes)%list.

Lemma tells_trans s1 s2 s3 l1 l2 : tells s1 s2 l1 -> tells s2 s3 l2 -> tells s1 s3 (l1 ++ l2).
Proof.
  intros [C1 N1] [C2 N2]. split; [congruence|]. by rewrite N2, N1, C1, List.filter_app, app_assoc.
Qed.

Lemma tells_emit n s : tells s (emit n s) [n].
Proof. split; [by apply emit_fields|apply notified_emit]. Qed.

Lemma tells_setState state s : tells s (setState state s) [ConnectionStateIs state].
Proof. split; [apply callbacks_setState|apply notified_setState]. Qed.

Lemma tells_closeStream s : tells s (closeStream s) [].
Proof. destruct (closeStream_keeps s) as (Hc & _ & Hn & _). split; [done|]. by rewrite app_nil_r. Qed.

Lemma tells_same s s' : callbacks_ s' = callbacks_ s -> notified (trace_ s') = notified (trace_ s) -> tells s s' [].
Proof. intros Hc Hn. split; [done|]. by rewrite app_nil_r. Qed.

Lemma tells_start op s : tells s (start op s) [].
Proof. apply tells_same; [done|]. unfold notified. cbn. rewrite omap_app. apply app_nil_r. Qed.

(** The state [connect] hands to [beginConnect]. *)
Lemma connect_ready s :
  shuttingDown_ s = false ->
  exists s0, (forall identity, connect_task identity s = beginConnect false identity s0) /\
    shuttingDown_ s0 = false /\ userDisconnect_ s0 = false /\ sslContext_ s0 = sslContext_ s /\
    options_ s0 = options_ s /\ tells s s0 [].
Proof.
  intros Hs.
  exists ((cancel ReconnectTimer (s <| userDisconnect_ := false |>)) <| reconnectDelay_ := 100 |>).
  split_and!; [done..|]. apply tells_same; [done|]. unfold notified. cbn. rewrite omap_app. apply app_nil_r.
Qed.

Lemma options_closeStream s : options_ (closeStream s) = options_ s.
Proof. unfold closeStream. cbn. by destruct (stream_ s). Qed.

Lemma shut_closed s : shuttingDown_ (closeStream s) = shuttingDown_ s.
Proof. unfold closeStream. cbn. by destruct (stream_ s). Qed.

Lemma setState_fields {T} (f : Impl -> T) state s :
  (forall s t, f (s <| trace_ := t |>) = f s) ->
  (forall s st, f (s <| state_ := st |>) = f s) -> f (setState state s) = f s.
Proof. intros Ht Hst. unfold setState. by rewrite emit_fields. Qed.

#[local] Opaque closeStream setState emit.

(** The end of an attempt that could not begin. *)
Lemma gives_up_fields n s :
  let s1 := setState Disconnected (emit n s) in
  (state_ s1, stream_ s1, sslContext_ s1, shuttingDown_ s1, options_ s1) =
  (Disconnected, stream_ s, sslContext_ s, shuttingDown_ s, options_ s) /\
  tells s s1 [n; ConnectionStateIs Disconnected].
Proof.
  cbv zeta. split; [|exact (tells_trans _ _ _ _ _ (tells_emit n s) (tells_setState Disconnected (emit n s)))].
  rewrite state_setState, stream_setState, !setState_fields by done. by rewrite !emit_fields.
Qed.

Lemma context_set s b :
  let s1 := s <| sslContext_ := b |> in
  (stream_ s1, sslContext_ s1, shuttingDown_ s1, options_ s1) = (stream_ s, b, shuttingDown_ s, options_ s) /\
  tells s s1 [].
Proof. cbv zeta. split; [done|by apply tells_same]. Qed.

Lemma beginConnect_throws e s :
  shuttingDown_ s = false -> userDisconnect_ s = false -> sslContext_ s = None ->
  let s1 := beginConnect false (Throw e) s in
  state_ s1 = Disconnected /\ stream_ s1 = false /\ sslContext_ s1 = Some false /\
  shuttingDown_ s1 = false /\ options_ s1 = options_ s /\
  tells s s1 [Error ("unable to load TLS certificate/key: " +:+ what e); ConnectionStateIs Disconnected].
Proof.
  intros Hs Hu Hc. cbv zeta. unfold beginConnect. rewrite Hs, Hu. cbv beta iota zeta delta [orb].
  unfold ensureSslContext. rewrite context_closeStream, Hc. cbv beta iota zeta.
  destruct (closeStream_keeps s) as (_ & _ & _ & Hst & _).
  pose proof (options_closeStream s) as Ho. pose proof (shut_closed s) as Hsh.
  pose proof (tells_closeStream s) as Ht.
  set (s1 := closeStream s) in *. clearbody s1. unfold emitError. set (n := Error _). clearbody n.
  destruct (context_set s1 (Some false)) as [E Ht2]. cbv zeta in E, Ht2.
  set (s2 := s1 <| sslContext_ := Some false |>) in *. clearbody s2. injection E as E1 E2 E3 E4.
  pose proof (tells_trans _ _ _ _ _ Ht Ht2) as Ht3.
  destruct (gives_up_fields n s2) as [E Ht4]. cbv zeta in E, Ht4.
  pose proof (tells_trans _ _ _ _ _ Ht3 Ht4) as Ht5.
  set (s3 := setState Disconnected (emit n s2)) in *. clearbody s3. injection E as F1 F2 F3 F4 F5.
  split_and!; congruence || exact Ht5.
Qed.

Lemma connecting_fields s :
  let s1 := setState Connecting (closeStream s) in
  state_ s1 = Connecting /\ sslContext_ s1 = sslContext_ s /\ options_ s1 = options_ s.
Proof.
  cbv zeta. rewrite state_setState, !setState_fields by done.
  by rewrite context_closeStream, options_closeStream.
Qed.

Lemma resolve_fields g h p s :
  let s1 := start (Resolve g h p) (s <| stream_ := true |>) in
  state_ s1 = state_ s /\ stream_ s1 = true /\ sslContext_ s1 = sslContext_ s /\
  list.last (trace_ s1) = Some (Start (Resolve g h p)).
Proof. cbv zeta. split_and!; [done..|]. cbn. by rewrite last_snoc. Qed.

Lemma beginConnect_resolves b identity s :
  shuttingDown_ s = false -> userDisconnect_ s = false -> sslContext_ s = Some b ->
  let s1 := beginConnect false identity s in
  state_ s1 = Connecting /\ stream_ s1 = true /\ sslContext_ s1 = Some b /\
  (exists g, list.last (trace_ s1) = Some (Start (Resolve g (host (options_ s)) (apiPort (options_ s))))) /\
  tells s s1 [ConnectionStateIs Connecting].
Proof.
  intros Hs Hu Hc. cbv zeta. rewrite (beginConnect_again b) by done. cbv zeta.
  generalize (connecting_fields s)
    (tells_trans _ _ _ _ _ (tells_closeStream s) (tells_setState Connecting (closeStream s))). cbv zeta.
  generalize (generation_ (closeStream s)) (setState Connecting (closeStream s)).
  intros g s1 (E1 & E2 & E3) Ht.
  change (options_ (s1 <| stream_ := true |>)) with (options_ s1). rewrite E3.
  assert (tells s (s1 <| stream_ := true |>) [ConnectionStateIs Connecting]) as Ht1 by exact Ht.
  pose proof (tells_trans _ _ _ _ _ Ht1
    (tells_start (Resolve g (host (options_ s)) (apiPort (options_ s))) (s1 <| stream_ := true |>))) as Ht2.
  destruct (resolve_fields g (host (options_ s)) (apiPort (options_ s)) s1) as (-> & -> & -> & ->).
  split_and!; [done|done|congruence|by exists g|exact Ht2].
Qed.

End identity.

#[local] Opaque closeStream setState emit.

(** C40. A certificate that cannot be loaded stops only the first [connect] (of an object that
    has no TLS context yet and is not being destroyed): what the callbacks hear of it is the error and then [Disconnected], where it ends; but the
    context without an identity is kept, so that the next [connect], whatever loading the
    identity would come to, tells nothing but [Connecting], does not load it, and goes on
    to connect without one. *)
Theorem identity_error_forgotten (e : exn) (identity : setup) (s : Impl) :
  sslContext_ s = None -> shuttingDown_ s = false ->
  let s1 := connect_task (Throw e) s in
  let s2 := connect_task identity s1 in
  state_ s1 = Disconnected /\ stream_ s1 = false /\
  notified (trace_ s1) = (notified (trace_ s) ++ List.filter (is_set (callbacks_ s))
    [Error ("unable to load TLS certificate/key: " +:+ what e); ConnectionStateIs Disconnected])%list /\
  state_ s2 = Connecting /\ stream_ s2 = true /\ sslContext_ s2 = Some false /\
  notified (trace_ s2) = (notified (trace_ s1) ++
    List.filter (is_set (callbacks_ s)) [ConnectionStateIs Connecting])%list /\
  exists g, list.last (trace_ s2) = Some (Start (Resolve g (host (options_ s)) (apiPort (options_ s)))).
Proof.
  intros Hc Hs. cbv zeta.
  destruct (connect_ready s Hs) as (s0 & -> & Hs0 & Hu0 & Hc0 & Ho0 & Ht0). rewrite Hc in Hc0.
  destruct (beginConnect_throws e s0 Hs0 Hu0 Hc0) as (Hst1 & Hstr1 & Hc1 & Hsh1 & Ho1 & Ht1).
  destruct (tells_trans _ _ _ _ _ Ht0 Ht1) as [Hcb Hn].
  set (s1 := beginConnect false (Throw e) s0) in *. clearbody s1. rewrite Ho0 in Ho1.
  split; [done|]. split; [done|]. split; [exact Hn|].
  destruct (connect_ready s1 Hsh1) as (s3 & -> & Hs3 & Hu3 & Hc3 & Ho3 & Ht3). rewrite Hc1 in Hc3.
  rewrite <- Ho1, <- Ho3, <- Hcb.
  destruct (beginConnect_resolves false identity s3 Hs3 Hu3 Hc3) as (R1 & R2 & R3 & R4 & Ht4).
  destruct (tells_trans _ _ _ _ _ Ht3 Ht4) as [_ Hn4]. by split_and!.
Qed.

Lemma identity_error_forgotten_witness :
  let s0 := setCallbacks Callbacks_all (Impl_init Options_init) in
  let s1 := connect_task (Throw (runtime_error "cannot read certificate: c.pem")) s0 in
  notified (trace_ s1) =
    [Error "unable to load TLS certificate/key: cannot read certificate: c.pem";
     ConnectionStateIs Disconnected] /\
  state_ (connect_task (Ok tt) s1) = Connecting.
Proof.
  destruct (identity_error_forgotten (runtime_error "cannot read certificate: c.pem") (Ok tt)
    (setCallbacks Callbacks_all (Impl_init Options_init))) as (_ & _ & H1 & H2 & _);
    [reflexivity|reflexivity|].
  split; [rewrite H1; reflexivity|exact H2].
Defined.
