(* ===== verification/PairingClient.v ===== *)
(** * Pairing as the public interface offers it ([src/android_tv_remote.cpp])

    The operations of [AndroidTvRemote::Impl] that use certificates and pairing. *)

From S2P Require Import Prelude Types Effects OpenSSL World Certificate RemoteState Remote Pairing.

Local Open Scope Z_scope.
Local Open Scope cxx_scope.

Section client.
Context {ssl : OpenSSL}.

(** The rest of [AndroidTvRemote::Impl], and its member [pairing_]. *)
Record Client := mkClient {
  remote_ : RemoteState.Impl;
  pairing_ : option PairingSession.Impl
}.

#[global] Instance Client_settable : Settable Client := fun c =>
  mkClient (remote_ c) (pairing_ c).

Abbreviation method := (M (Client * World)).

Definition options : method Options := gets (fun '(c, _) => options_ (remote_ c)).

(** How many posted function objects the turns of the thread of [io_] run. *)
Definition tasks_run (turns : list choice) : nat :=
  length (List.filter (fun c => match c with RunPosted _ => true | _ => false end) turns).

(** [disconnectAndWait]: the function object is posted, and the thread of [io_] goes on
    by [turns] until it has run it, which is when all that were posted before have run.
    If it does not get so far, the call is still waiting. *)
Definition disconnectAndWait (turns : list choice) : method unit := fun '(c, w) =>
  let before := length (posted_ (remote_ c)) in
  match run turns (Remote.disconnectAndWait (remote_ c)) with
  | Some remote =>
      let c := c <| remote_ := remote |> in
      if (before <? tasks_run turns)%nat then Returns tt (c, w) else Blocks (c, w)
  | None => Blocks (c, w)
  end.

Definition generateCertificateIfMissing : method bool :=
  o ← options;
  outside (Certificate.generateCertificateIfMissing (certificateFile o) (privateKeyFile o)
             (clientName o)).

(** The destructor of a session. *)
Definition destroy_session (s : PairingSession.Impl) : M World unit :=
  _ ← with_local s PairingSession.destroy;
  mret tt.

(** Assignment to [pairing_]. *)
Definition assign_pairing (new : option PairingSession.Impl) : method unit :=
  old ← gets (fun '(c, _) => pairing_ c);
  modify (fun '(c, w) => (c <| pairing_ := new |>, w)) ;;
  match old with
  | Some old => outside (destroy_session old)
  | None => mret tt
  end.

(** [pairing_->m()] *)
Definition on_pairing {A} (m : M (PairingSession.Impl * World) A) : method A :=
  zoom (fun '(c, w) => match pairing_ c with Some s => Some (s, w) | None => None end)
       (fun '(s, w) '(c, _) => (c <| pairing_ := Some s |>, w)) m.

Definition startPairing (turns : list choice) : method unit :=
  disconnectAndWait turns ;;
  o ← options;
  let session := PairingSession.make (clientName o) (certificateFile o) (privateKeyFile o)
                   (host o) (pairingPort o) in
  '(_, session) ← outside (with_local session
                    (unwind PairingSession.start PairingSession.destroy));
  assign_pairing (Some session).

Definition finishPairing (code : string) : method unit :=
  current ← gets (fun '(c, _) => pairing_ c);
  match current with
  | None => throw (runtime_error "finishPairing called before startPairing")
  | Some _ =>
      on_pairing (PairingSession.finish code) ;;
      assign_pairing None
  end.

Definition getNameAndMac : method DeviceIdentity :=
  o ← options;
  let session := PairingSession.make (clientName o) (certificateFile o) (privateKeyFile o)
                   (host o) (pairingPort o) in
  '(identity, _) ← outside (with_local session
                     (scope PairingSession.getNameAndMac PairingSession.destroy));
  mret identity.

End client.
