(* ===== verification/PairingRuns.v ===== *)
(** * What the pairing operations do, exactly

    Runs of the operations on a connection that is up, as equations. *)

From S2P Require Import Prelude Types Wire WireSpec Framing Messages Effects OpenSSL World Certificate CertificateInv CertificateFiles Pairing.

Local Open Scope Z_scope.
Local Open Scope cxx_scope.

Section runs.
Context {ssl : OpenSSL}.

(** A connection to [peer]. *)
Definition up (context : SSL_CTX) (peer : Peer) : SyncTls.SyncTlsConnection :=
  {| SyncTls.context_ := context; SyncTls.stream_ := Some (SyncTls.Attached peer) |}.

(** The same, when [bytes] are still to come. *)
Definition to_come (context : SSL_CTX) (peer : Peer) (bytes : list Z) : SyncTls.SyncTlsConnection :=
  up context (peer <| incoming := bytes |>).

(** All has been read and more is asked for. *)
Definition exhausted {A} (context : SSL_CTX) (peer : Peer) (w : World) :
    Outcome (SyncTls.SyncTlsConnection * World) A :=
  match ending peer with
  | Some message => Throws (system_error message) (to_come context peer [], w)
  | None => Blocks (to_come context peer [], w)
  end.

Context (context : SSL_CTX) (peer : Peer) (w : World).
Abbreviation coming := (to_come context peer).
Abbreviation starved := (exhausted context peer w).

Lemma read_eq n bytes :
  SyncTls.read n (coming bytes, w) =
  if (n <=? length bytes)%nat then Returns (take n bytes) (coming (drop n bytes), w) else starved.
Proof.
  unfold SyncTls.read, SyncTls.attached, SyncTls.get_socket, SyncTls.set_socket, mbind, M_bind, modify.
  cbn. destruct (n <=? length bytes)%nat; [done|].
  unfold exhausted. by destruct (ending peer).
Qed.

(** The length, read byte by byte, is the one the batch decoder finds. *)
Lemma receive_length_eq fuel bytes value shift prefix :
  (1 <= fuel)%nat -> shift = 70 - 7 * Z.of_nat fuel ->
  SyncTls.receive_length fuel value shift (coming bytes, w) =
  match decodeVarintPrefix_loop bytes value prefix shift with
  | (true, n, k) => Returns n (coming (drop (k - prefix) bytes), w)
  | (false, _, _) =>
      if (fuel <=? length bytes)%nat then
        Throws (runtime_error "invalid protobuf frame length") (coming (drop fuel bytes), w)
      else starved
  end.
Proof.
  revert bytes value shift prefix. induction fuel as [|fuel IH]; intros bytes value shift prefix Hf Hs; [lia|].
  cbn [SyncTls.receive_length]. unfold mbind, M_bind at 1. rewrite read_eq.
  destruct bytes as [|byte bytes]; cbn [length Nat.leb take drop decodeVarintPrefix_loop].
  { unfold exhausted. by destruct (ending peer). }
  change (take 0 bytes) with (@nil Z). change (drop 0 bytes) with bytes.
  destruct (Z.ltb_spec 63 shift); [lia|]. cbv beta iota zeta.
  destruct (Z.land byte 0x80 =? 0).
  { unfold mret, M_ret. replace (S prefix - prefix)%nat with 1%nat by lia. done. }
  destruct (Z.ltb_spec 63 (shift + 7)).
  - assert (fuel = 0%nat) as -> by lia. unfold throw.
    destruct bytes as [|byte' bytes]; cbn [decodeVarintPrefix_loop]; [done|].
    destruct (Z.ltb_spec 63 (shift + 7)); [done|lia].
  - rewrite (IH _ _ _ (S prefix)) by lia.
    destruct (decodeVarintPrefix_loop bytes _ (S prefix) (shift + 7)) as [[[|] n] k] eqn:E; [|done].
    apply decode_loop_length in E. replace (k - prefix)%nat with (S (k - S prefix)) by lia. done.
Qed.

(** The limit of [receive]. *)
Definition frame_limit : Z := 4 * 1024 * 1024.

Lemma receive_eq bytes :
  SyncTls.receive (coming bytes, w) =
  match decodeVarintPrefix bytes with
  | (true, n, k) =>
      let rest := drop k bytes in
      if frame_limit <? n then
        Throws (runtime_error "protobuf frame exceeds safety limit") (coming rest, w)
      else if n <=? size rest then
        Returns (take (Z.to_nat n) rest) (coming (drop (Z.to_nat n) rest), w)
      else starved
  | (false, _, _) =>
      if (10 <=? length bytes)%nat then
        Throws (runtime_error "invalid protobuf frame length") (coming (drop 10 bytes), w)
      else starved
  end.
Proof.
  unfold SyncTls.receive, mbind, M_bind at 1. rewrite (receive_length_eq 10 bytes 0 0 0) by lia.
  unfold decodeVarintPrefix.
  destruct (decodeVarintPrefix_loop bytes 0 0 0) as [[[|] n] k] eqn:E.
  - rewrite Nat.sub_0_r. apply decodeVarintPrefix_range in E as Hn. cbv zeta.
    unfold frame_limit. destruct (_ <? n); [done|].
    destruct (Z.ltb_spec 0 n) as [Hp|Hp].
    + rewrite read_eq. by destruct (Nat.leb_spec (Z.to_nat n) (length (drop k bytes))),
        (Z.leb_spec n (size (drop k bytes))); try zlia.
    + assert (n = 0) as -> by lia. rewrite (proj2 (Z.leb_le _ _)) by apply size_nonneg. done.
  - destruct (10 <=? length bytes)%nat; [done|].
    unfold exhausted. by destruct (ending peer).
Qed.

(** A frame that is there is received. *)
Lemma receive_frame message rest :
  size message <= frame_limit ->
  SyncTls.receive (coming (frame message ++ rest), w) = Returns message (coming rest, w).
Proof.
  intros Hm. assert (deframe (frame message ++ rest) = Some (message, rest)) as H.
  { apply (dec_enc (enc := frame)). unfold frame_limit in Hm. lia. }
  unfold deframe in H.
  rewrite receive_eq. destruct (decodeVarintPrefix _) as [[[|] n] k]; [|done]. cbn [andb] in H. cbv zeta.
  destruct (n <=? size (drop k (frame message ++ rest))) eqn:En; [|done]. apply Z.leb_le in En.
  injection H as Ht Hd. assert (size message = n \/ n < 0) as Hn.
  { rewrite <- Ht. unfold size in *. rewrite length_take. lia. }
  destruct (Z.ltb_spec frame_limit n); [unfold frame_limit in *; lia|]. by rewrite Ht, Hd.
Qed.

(** [accepting] is empty: every write goes out. *)
Lemma send_eq payload bytes :
  accepting peer = [] ->
  SyncTls.send payload (coming bytes, w) =
  Returns tt (coming bytes, w <| net_ := (net_ w ++ [Wrote (frame payload)])%list |>).
Proof.
  intros Ha. unfold SyncTls.send, SyncTls.write, SyncTls.attached, SyncTls.get_socket, mbind, M_bind.
  cbn. rewrite Ha. done.
Qed.

End runs.

(** ** The dialogue *)

(** What the client answers to a message of the television, and whether it ends the
    negotiation. *)
Definition answer (message : list Z) : option (list Z) :=
  if hasPairingRequestAck message then Some pairingOptions
  else if hasPairingOptions message then Some pairingConfiguration
  else None.

Definition configures (message : list Z) : bool :=
  negb (hasPairingRequestAck message) && negb (hasPairingOptions message) &&
  hasConfigurationAck message.

(** A message that the client goes on after. *)
Definition accepted (message : list Z) : Prop :=
  pairingStatus message = Some 200 /\ size message <= frame_limit.

Definition stream_of (messages : list (list Z)) (rest : list Z) : list Z :=
  (concat (map frame messages) ++ rest)%list.

Section dialogue.
Context {ssl : OpenSSL}.

(** The world after frames of these messages have been written. *)
Definition wrote (messages : list (list Z)) (w : World) : World :=
  w <| net_ := (net_ w ++ map (fun m => Wrote (frame m)) messages)%list |>.

Lemma wrote_nil w : wrote [] w = w.
Proof. unfold wrote. cbn [map]. rewrite app_nil_r. by destruct w. Qed.

Lemma wrote_app ms1 ms2 w : wrote ms2 (wrote ms1 w) = wrote (ms1 ++ ms2) w.
Proof. unfold wrote. cbn. by rewrite map_app, app_assoc. Qed.

Context (context : SSL_CTX) (peer : Peer).
Abbreviation coming := (to_come context peer).

Lemma receive_message message messages rest w :
  size message <= frame_limit ->
  SyncTls.receive (coming (stream_of (message :: messages) rest), w) =
  Returns message (coming (stream_of messages rest), w).
Proof.
  intros Hm. unfold stream_of. cbn [map concat]. rewrite <- app_assoc. by apply receive_frame.
Qed.

Lemma status_ok {S} message (s : S) :
  pairingStatus message = Some 200 -> requirePairingStatusOk message s = Returns tt s.
Proof. intros H. unfold requirePairingStatusOk. by rewrite bool_decide_eq_true_2. Qed.

(** One round of either loop: the message is there and its status is good. *)
Lemma round {A} (k : list Z -> M (SyncTls.SyncTlsConnection * World) A) message messages rest w :
  accepted message ->
  (message ← SyncTls.receive; requirePairingStatusOk message ;; k message)
    (coming (stream_of (message :: messages) rest), w) =
  k message (coming (stream_of messages rest), w).
Proof.
  intros [Hs Hm]. erewrite bind_returns; [|by apply receive_message].
  erewrite bind_returns; [|by apply status_ok]. done.
Qed.

Lemma send_wrote payload bytes w :
  accepting peer = [] ->
  SyncTls.send payload (coming bytes, w) = Returns tt (coming bytes, wrote [payload] w).
Proof. intros Ha. by apply send_eq. Qed.

Lemma negotiate_runs steps messages final rest w :
  accepting peer = [] ->
  Forall (fun m => accepted m /\ configures m = false) messages -> (length messages < steps)%nat ->
  accepted final -> configures final = true ->
  PairingSession.negotiate steps (coming (stream_of (messages ++ [final]) rest), w) =
  Returns true (coming rest, wrote (omap answer messages) w).
Proof.
  intros Ha Hms Hl Hf Hc. revert steps w Hl. induction Hms as [|m messages [Hm Hcm] _ IH];
    intros [|steps] w Hl; cbn [length] in Hl; try lia; cbn [app PairingSession.negotiate]; rewrite round by done.
  - unfold configures in Hc. rewrite !andb_true_iff, !negb_true_iff in Hc.
    destruct Hc as [[-> ->] ->]. cbn [omap list_omap]. by rewrite wrote_nil.
  - assert (length messages < steps)%nat as Hl' by lia. specialize (IH steps).
    assert (omap answer (m :: messages) = default [] ((fun a => [a]) <$> answer m) ++ omap answer messages)%list
      as -> by (cbn; by destruct (answer m)).
    rewrite <- wrote_app. destruct (answer m) as [reply|] eqn:Em; unfold answer in Em; unfold configures in Hcm.
    + destruct (hasPairingRequestAck m), (hasPairingOptions m); try done; injection Em as <-;
        (erewrite bind_returns; [|by apply send_wrote]); by apply IH.
    + destruct (hasPairingRequestAck m), (hasPairingOptions m); try done.
      cbn in Hcm. rewrite Hcm. cbn. rewrite wrote_nil. by apply IH.
Qed.

Lemma await_ack_runs steps messages final rest w :
  Forall (fun m => accepted m /\ hasSecretAck m = false) messages -> (length messages < steps)%nat ->
  accepted final -> hasSecretAck final = true ->
  PairingSession.await_ack steps (coming (stream_of (messages ++ [final]) rest), w) =
  Returns true (coming rest, w).
Proof.
  intros Hms Hl Hf Hc. revert steps Hl. induction Hms as [|m messages [Hm Hcm] _ IH];
    intros [|steps] Hl; cbn [length] in Hl; try lia; cbn [app PairingSession.await_ack]; rewrite round by done.
  - by rewrite Hc.
  - rewrite Hcm. apply IH. lia.
Qed.

(** Four answers without the acknowledgement. *)
Lemma await_ack_gives_up steps messages rest w :
  Forall (fun m => accepted m /\ hasSecretAck m = false) messages -> length messages = steps ->
  PairingSession.await_ack steps (coming (stream_of messages rest), w) =
  Returns false (coming rest, w).
Proof.
  intros Hms <-. induction Hms as [|m messages [Hm Hcm] _ IH]; [done|].
  cbn [length PairingSession.await_ack]. rewrite round by done. by rewrite Hcm, IH.
Qed.

(** An error status is thrown from the loop. *)
Lemma await_ack_error steps messages final rest w :
  Forall (fun m => accepted m /\ hasSecretAck m = false) messages -> (length messages < steps)%nat ->
  size final <= frame_limit -> pairingStatus final <> Some 200 ->
  PairingSession.await_ack steps (coming (stream_of (messages ++ [final]) rest), w) =
  Throws (runtime_error "Android TV pairing protocol returned an error status") (coming rest, w).
Proof.
  intros Hms Hl Hf Hc. revert steps Hl. induction Hms as [|m messages [Hm Hcm] _ IH];
    intros [|steps] Hl; cbn [length] in Hl; try lia; cbn [app PairingSession.await_ack].
  - erewrite bind_returns; [|by apply receive_message].
    erewrite bind_throws; [|unfold requirePairingStatusOk; by rewrite bool_decide_eq_false_2].
    done.
  - rewrite round by done. rewrite Hcm. apply IH. lia.
Qed.

End dialogue.
