(* ===== verification/PairingDialogue.v ===== *)
(** * The pairing dialogue with a television that answers

    Sessions whose identity is on the disk, up to the secret and beyond. *)

From S2P Require Import Prelude Types Wire Messages Effects OpenSSL World Certificate CertificateInv CertificateFiles Pairing PairingRuns.

Local Open Scope Z_scope.
Local Open Scope cxx_scope.

Section dialogue.
Context {ssl : OpenSSL}.

(** A certificate and a key can be read from the two files, and TLS takes them. *)
Definition identity_on_disk (certificateFile privateKeyFile : string) (certificate : X509)
    (w : World) : Prop :=
  exists key certPem keyPem,
    usable certificate key /\ pem_certificate certPem certificate /\ pem_key keyPem key /\
    files_ w !! certificateFile = Some (RegularFile certPem) /\
    files_ w !! privateKeyFile = Some (RegularFile keyPem) /\
    reading (disk_ w) certificateFile = Readable /\ reading (disk_ w) privateKeyFile = Readable.

Lemma identity_quiet certificateFile privateKeyFile certificate w w' :
  files_ w' = files_ w -> disk_ w' = disk_ w ->
  identity_on_disk certificateFile privateKeyFile certificate w ->
  identity_on_disk certificateFile privateKeyFile certificate w'.
Proof. unfold identity_on_disk. by intros -> ->. Qed.

Lemma make_returns certificateFile privateKeyFile certificate w :
  identity_on_disk certificateFile privateKeyFile certificate w ->
  exists context st, SyncTls.make certificateFile privateKeyFile w =
    Returns (SyncTls.mkConnection context (Some SyncTls.Idle)) (w <| openssl_ := st |>).
Proof.
  intros (key & certPem & keyPem & Hu & Hc & Hk & Fc & Fk & Rc & Rk).
  destruct (Hu (openssl_ w)) as (context & st & E & Ha & Hi).
  destruct (loadClientIdentity_returns certificateFile privateKeyFile certificate key certPem keyPem
    context (w <| openssl_ := st |>)) as (st1 & context' & st' & Hin & E'); [done..|].
  destruct (Hi _ _ _ Hin) as [st'' E''].
  exists context', st''. unfold SyncTls.make.
  erewrite bind_returns; [|apply call_returns, E]. cbn [of_result].
  rewrite (bind_returns (mret context) _ _ context _ eq_refl).
  erewrite bind_returns; [|apply local_returns, E']. cbv beta iota.
  erewrite bind_returns; [|apply call_returns, E'']. done.
Qed.

Lemma loadCertificate_returns certificateFile privateKeyFile certificate w :
  identity_on_disk certificateFile privateKeyFile certificate w ->
  exists st, loadCertificate certificateFile w = Returns certificate (w <| openssl_ := st |>).
Proof.
  intros (key & certPem & keyPem & _ & Hc & _ & Fc & _ & Rc & _).
  destruct (Hc (openssl_ w)) as (bio & st1 & E1 & H). destruct (H st1) as [st2 E2].
  exists st2. unfold loadCertificate.
  erewrite (bind_returns (read_stream certificateFile)); [|unfold read_stream; by rewrite Fc, Rc].
  cbv beta iota. erewrite bind_returns; [|apply call_returns, E1]. cbv beta iota.
  erewrite bind_returns; [|apply call_returns, E2]. done.
Qed.

(** A peer that accepts the connection and everything written to it, and lets it be
    shut down. *)
Record cooperative (peer : Peer) : Prop := {
  will_resolve : resolving peer = Completes;
  will_connect : connecting peer = Completes;
  will_handshake : handshaking peer = Completes;
  will_accept : accepting peer = [];
  will_shut : shutting peer = true
}.

Lemma to_come_all context peer : to_come context peer (incoming peer) = up context peer.
Proof. by destruct peer. Qed.

Lemma connect_returns context peer dials host port w :
  cooperative peer -> dials_ w = peer :: dials ->
  SyncTls.connect host port (SyncTls.mkConnection context (Some SyncTls.Idle), w) =
  Returns tt (up context peer,
    w <| net_ := (net_ w ++ [Dialled host port])%list |> <| dials_ := dials |>).
Proof.
  intros [Hr Hc Hh _ _] Hd. unfold SyncTls.connect.
  erewrite (bind_returns SyncTls.get_socket); [|done].
  erewrite bind_returns; [|by apply outside_returns].
  erewrite bind_returns; [|apply outside_returns; unfold SyncTls.next_dial; cbn; by rewrite Hd].
  rewrite Hr, Hc, Hh. done.
Qed.

(** ** A session *)

Lemma on_connection_returns {A} (m : M (SyncTls.SyncTlsConnection * World) A) s c w a c' w' :
  PairingSession.connection_ s = Some c -> m (c, w) = Returns a (c', w') ->
  PairingSession.on_connection m (s, w) =
  Returns a (s <| PairingSession.connection_ := Some c' |>, w').
Proof. intros Hc E. unfold PairingSession.on_connection, zoom. by rewrite Hc, E. Qed.

Lemma on_connection_throws {A} (m : M (SyncTls.SyncTlsConnection * World) A) s c w e c' w' :
  PairingSession.connection_ s = Some c -> m (c, w) = Throws e (c', w') ->
  PairingSession.on_connection m (s, w) =
  Throws e (s <| PairingSession.connection_ := Some c' |>, w').
Proof. intros Hc E. unfold PairingSession.on_connection, zoom. by rewrite Hc, E. Qed.

Definition with_connection (c : option SyncTls.SyncTlsConnection) (s : PairingSession.Impl) :
    PairingSession.Impl := s <| PairingSession.connection_ := c |>.

Lemma with_connection_same s : with_connection (PairingSession.connection_ s) s = s.
Proof. by destruct s. Qed.

(** The connection is given up: a cooperative peer lets it be closed. *)
Lemma assign_connection_returns new s context peer w :
  PairingSession.connection_ s = Some (up context peer) -> shutting peer = true ->
  PairingSession.assign_connection new (s, w) =
  Returns tt (with_connection new s, w <| net_ := (net_ w ++ [Closed])%list |>).
Proof.
  intros Hc Hs. unfold PairingSession.assign_connection, mbind, M_bind, gets, modify. cbn.
  rewrite Hc. unfold PairingSession.destroy_connection, outside, zoom, with_local, mbind, M_bind. cbn.
  by rewrite Hs.
Qed.

(** What a television that pairs sends during [start]: messages that the client goes on
    after, then the acknowledgement of the configuration. *)
Definition greets (messages : list (list Z)) (final : list Z) : Prop :=
  Forall (fun m => accepted m /\ configures m = false) messages /\ (length messages < 8)%nat /\
  accepted final /\ configures final = true.

(** The world after [start]. *)
Definition started (s : PairingSession.Impl) (messages : list (list Z)) (dials : list Peer)
    (st : OSSL) (w : World) : World :=
  wrote (pairingRequest (PairingSession.clientName_ s) :: omap answer messages)
    (w <| openssl_ := st |>
       <| net_ := (net_ w ++ [Dialled (PairingSession.host_ s) (PairingSession.port_ s)])%list |>
       <| dials_ := dials |>).

Lemma start_runs s certificate peer dials messages final rest w :
  PairingSession.connection_ s = None ->
  identity_on_disk (PairingSession.certificateFile_ s) (PairingSession.privateKeyFile_ s) certificate w ->
  dials_ w = peer :: dials -> cooperative peer ->
  greets messages final -> incoming peer = stream_of (messages ++ [final]) rest ->
  exists context st, PairingSession.start (s, w) =
    Returns tt (with_connection (Some (to_come context peer rest)) s, started s messages dials st w).
Proof.
  intros Hs Hid Hd Hp (Hms & Hl & Hf & Hc) Hin.
  destruct (make_returns _ _ _ _ Hid) as (context & st & E).
  exists context, st. unfold PairingSession.start.
  rewrite (bind_returns (gets fst) _ (s, w) s (s, w) eq_refl).
  erewrite bind_returns; [|apply outside_returns, E].
  erewrite (bind_returns (PairingSession.assign_connection _)); [|
    unfold PairingSession.assign_connection, mbind, M_bind, gets, modify; cbn; rewrite Hs; done].
  erewrite bind_returns; [|eapply on_connection_returns; [done|by apply connect_returns]].
  rewrite <- (to_come_all context peer), Hin.
  erewrite bind_returns; [|eapply on_connection_returns; [done|apply send_wrote, Hp]].
  erewrite bind_returns; [|eapply on_connection_returns; [done|]].
  2: { apply negotiate_runs; [apply Hp|done..]. }
  rewrite wrote_app. done.
Qed.

(** The rest of [finish], once the secret is known. *)
Definition confirm (secret : list Z) : M (PairingSession.Impl * World) unit :=
  PairingSession.on_connection (SyncTls.send (Messages.pairingSecret secret)) ;;
  acknowledged ← PairingSession.on_connection (PairingSession.await_ack 4);
  PairingSession.assign_connection None ;;
  if (acknowledged : bool) then mret tt
  else throw (runtime_error "Android TV did not acknowledge the pairing secret").

(** Two certificates with RSA keys, and the digest. *)
Record key_pair (client server : X509) (nC eC nS eS : Z) : Prop := {
  client_key : rsa_certificate client nC eC;
  server_key : rsa_certificate server nS eS;
  keys_nonzero : nC <> 0 /\ eC <> 0 /\ nS <> 0 /\ eS <> 0
}.

Context {bignums : BignumLaws ssl} (sha256 : list Z -> list Z) {digest : DigestLaws ssl sha256}.

(** [finish] up to the secret: a code that is refused is refused with the session and its
    surroundings as they were. *)
Lemma finish_secret s client server nC eC nS eS context peer bytes code w :
  heap_wf w ->
  PairingSession.connection_ s = Some (to_come context peer bytes) ->
  identity_on_disk (PairingSession.certificateFile_ s) (PairingSession.privateKeyFile_ s) client w ->
  presented peer = Some server -> key_pair client server nC eC nS eS ->
  exists w', cert_inv w w' /\
    PairingSession.finish code (s, w) =
    match secret_spec sha256 nC eC nS eS code with
    | Ok secret => confirm secret (s, w')
    | Throw e => Throws e (s, w')
    end.
Proof using bignums digest.
  intros Hwf Hc Hid Hp [HC HS (? & ? & ? & ?)].
  destruct (loadCertificate_returns _ _ _ _ Hid) as [st E].
  set (w1 := w <| openssl_ := st |>) in *.
  assert (heap_wf w1) as Hwf1 by by apply heap_wf_ignores.
  destruct (pairingSecret_runs sha256 client server nC eC nS eS code w1) as (w2 & [Hwf2 Hq] & Es);
    [done..|].
  exists w2. split; [by split|]. unfold PairingSession.finish.
  rewrite (bind_returns (gets fst) _ (s, w) s (s, w) eq_refl). rewrite Hc.
  erewrite bind_returns; [|apply outside_returns, E].
  erewrite bind_returns; [|eapply on_connection_returns; [done|]].
  2: { unfold SyncTls.peerCertificate, SyncTls.get_socket, mbind, M_bind. cbn. by rewrite Hp. }
  cbv beta iota. change (s <| PairingSession.connection_ := Some (to_come context peer bytes) |>)
    with (with_connection (Some (to_come context peer bytes)) s).
  rewrite <- Hc, with_connection_same.
  destruct (secret_spec sha256 nC eC nS eS code) as [secret|e]; unfold of_result in Es.
  - erewrite bind_returns; [|apply outside_returns, Es]. done.
  - erewrite bind_throws; [|apply outside_throws, Es]. done.
Qed.

(** The acknowledgement comes within four messages. *)
Definition acknowledges (messages : list (list Z)) (final : list Z) : Prop :=
  Forall (fun m => accepted m /\ hasSecretAck m = false) messages /\ (length messages < 4)%nat /\
  accepted final /\ hasSecretAck final = true.

Definition confirmed (secret : list Z) (w : World) : World :=
  let w := wrote [Messages.pairingSecret secret] w in
  w <| net_ := (net_ w ++ [Closed])%list |>.

Lemma confirm_runs secret s context peer messages final rest w :
  cooperative peer ->
  PairingSession.connection_ s = Some (to_come context peer (stream_of (messages ++ [final]) rest)) ->
  acknowledges messages final ->
  confirm secret (s, w) = Returns tt (with_connection None s, confirmed secret w).
Proof using.
  intros Hp Hc (Hms & Hl & Hf & Ha). unfold confirm.
  erewrite bind_returns; [|eapply on_connection_returns; [exact Hc|apply send_wrote, Hp]].
  erewrite bind_returns; [|eapply on_connection_returns; [done|by apply await_ack_runs]].
  erewrite bind_returns; [|eapply assign_connection_returns; [done|apply Hp]]. done.
Qed.

(** No acknowledgement in four messages: the connection is given up. *)
Lemma confirm_gives_up secret s context peer messages rest w :
  cooperative peer ->
  PairingSession.connection_ s = Some (to_come context peer (stream_of messages rest)) ->
  Forall (fun m => accepted m /\ hasSecretAck m = false) messages -> length messages = 4%nat ->
  confirm secret (s, w) =
  Throws (runtime_error "Android TV did not acknowledge the pairing secret")
    (with_connection None s, confirmed secret w).
Proof using.
  intros Hp Hc Hms Hl. unfold confirm.
  erewrite bind_returns; [|eapply on_connection_returns; [exact Hc|apply send_wrote, Hp]].
  erewrite bind_returns; [|eapply on_connection_returns; [done|by apply await_ack_gives_up]].
  erewrite bind_returns; [|eapply assign_connection_returns; [done|apply Hp]]. done.
Qed.

(** An error status before the acknowledgement: the connection stays. *)
Lemma confirm_error secret s context peer messages final rest w :
  cooperative peer ->
  PairingSession.connection_ s = Some (to_come context peer (stream_of (messages ++ [final]) rest)) ->
  Forall (fun m => accepted m /\ hasSecretAck m = false) messages -> (length messages < 4)%nat ->
  size final <= frame_limit -> pairingStatus final <> Some 200 ->
  confirm secret (s, w) =
  Throws (runtime_error "Android TV pairing protocol returned an error status")
    (with_connection (Some (to_come context peer rest)) s, wrote [Messages.pairingSecret secret] w).
Proof using.
  intros Hp Hc Hms Hl Hf Hst. unfold confirm.
  erewrite bind_returns; [|eapply on_connection_returns; [exact Hc|apply send_wrote, Hp]].
  erewrite bind_throws; [|eapply on_connection_throws; [done|by apply await_ack_error]]. done.
Qed.

End dialogue.
