(* ===== verification/PairingInv.v ===== *)
(** * What every certificate and pairing operation keeps

    Whatever OpenSSL, the disk, the network and the television do: no null or dangling
    pointer is used, no buffer overrun, and no big number leaks. *)

From S2P Require Import Prelude Types Wire Messages Effects OpenSSL World Certificate CertificateInv CertificateFiles.
From S2P Require Import RemoteState Remote Pairing PairingClient.

Local Open Scope Z_scope.
Local Open Scope cxx_scope.

Section inv.
Context {ssl : OpenSSL}.

(** The stream of a connection whose constructor has run is there. *)
Definition connection_wf (c : SyncTls.SyncTlsConnection) : Prop := is_Some (SyncTls.stream_ c).

Definition session_wf (s : PairingSession.Impl) : Prop :=
  forall c, PairingSession.connection_ s = Some c -> connection_wf c.

Definition client_wf (c : Client) : Prop := forall s, pairing_ c = Some s -> session_wf s.

(** With the heap beside it. *)
Definition beside {X} (P : X -> Prop) (s : X * World) : Prop := P s.1 /\ heap_wf s.2.

Abbreviation safe P m := (keeps (beside P) (beside P) m).
Abbreviation safe_world m := (keeps heap_wf heap_wf m).

(** ** The certificate functions *)

Lemma safe_outside {X A} (P : X -> Prop) (m : M World A) : safe_world m -> safe P (outside m).
Proof.
  intros Hm. apply (keeps_zoom _ _ heap_wf heap_wf); [done| |by intros ?? []..].
  intros s [_ Hs]. eauto.
Qed.

Lemma safe_pairingSecret client server code :
  BufferLaws ssl -> safe_world (Certificate.pairingSecret client server code).
Proof.
  intros Hb w Hw. eapply wp_mono; [apply (keeps_pairingSecret w heap_wf); [done|by split]|by intros ?? []..|done].
Qed.

Lemma heap_wf_frame w w' :
  bignums_ w' = bignums_ w -> next_ w' = next_ w -> nHolder w' = nHolder w -> eHolder w' = eHolder w ->
  heap_wf w -> heap_wf w'.
Proof.
  intros Hb Hn Hh He [H1 H2 H3|a b n e H1 H2 Hab Ha Hb' H3].
  - apply heap_unused; congruence.
  - apply (heap_used _ a b n e); congruence || lia.
Qed.

Lemma heap_wf_local w w' : local_to_disk w w' -> heap_wf w -> heap_wf w'.
Proof. intros (? & ? & ? & ? & _). by apply heap_wf_frame. Qed.

Lemma safe_generate certificateFile privateKeyFile commonName :
  safe_world (Certificate.generateCertificateIfMissing certificateFile privateKeyFile commonName).
Proof.
  intros w Hw. eapply wp_mono; [by apply wp_generate, made_anyhow| | |done].
  - intros [] w' H; [|by destruct H as [-> _]].
    destruct H as (_ & _ & [_ Hl] & _). by eapply heap_wf_local.
  - intros e w' [_ Hl]. by eapply heap_wf_local.
Qed.

Lemma safe_read_stream path : safe_world (read_stream path).
Proof.
  intros w Hw. unfold wp, read_stream.
  by destruct (files_ w !! path) as [[]|], (reading (disk_ w) path).
Qed.

Lemma safe_readFile path : safe_world (readFile path).
Proof. apply keeps_bind; [apply safe_read_stream|]. intros []; eauto with keeps. Qed.

Lemma safe_on_context f : safe (is_Some (A := SSL_CTX)) (on_context f).
Proof.
  intros [[context|] w] [Hc Hw]; [|by destruct Hc]. unfold wp, on_context.
  destruct (f context (openssl_ w)) as [[ok context'] st].
  split; [by eexists|by apply heap_wf_ignores].
Qed.

Lemma safe_loadClientIdentity certificateFile privateKeyFile :
  safe (is_Some (A := SSL_CTX)) (loadClientIdentity certificateFile privateKeyFile).
Proof.
  assert (forall A (f : OSSL -> A * OSSL), safe (is_Some (A := SSL_CTX)) (outside (call f))) as Hcall.
  { intros. by apply safe_outside, keeps_call, heap_wf_ignores. }
  assert (forall A prefix, safe (is_Some (A := SSL_CTX)) (outside (throw_last (A := A) prefix))) as Hthrow.
  { intros. by apply safe_outside, keeps_throw_last, heap_wf_ignores. }
  apply keeps_bind; [eauto with keeps|]. intros [|]; [|eauto with keeps].
  do 2 (apply keeps_bind; [apply safe_outside, safe_readFile|intros ?]).
  do 2 (apply keeps_bind; [apply Hcall|intros [|]]); try apply Hthrow.
  do 2 (apply keeps_bind; [apply Hcall|intros [|]]); try apply Hthrow.
  apply keeps_bind; [apply safe_on_context|intros ok1].
  apply keeps_bind; [destruct ok1; [apply safe_on_context|apply keeps_ret]|intros ok2].
  apply keeps_bind; [destruct ok2; [apply safe_on_context|apply keeps_ret]|intros ok3].
  destruct ok3; [apply keeps_ret|apply Hthrow].
Qed.

Lemma safe_nameEntry name nid : safe_world (nameEntry name nid).
Proof.
  unfold nameEntry. destruct (_ <? 0); [apply keeps_ret|].
  destruct (X509_NAME_get_entry _ _); [|apply keeps_ret].
  apply keeps_bind; [by apply keeps_call, heap_wf_ignores|]. intros []; apply keeps_ret.
Qed.

Lemma safe_parseDeviceIdentity certificate : safe_world (parseDeviceIdentity certificate).
Proof.
  destruct certificate; [|apply keeps_ret].
  do 2 (apply keeps_bind; [apply safe_nameEntry|intros ?]). apply keeps_ret.
Qed.

Lemma safe_loadCertificate path : safe_world (loadCertificate path).
Proof.
  apply keeps_bind; [apply safe_read_stream|]. intros [|]; [|apply keeps_throw].
  apply keeps_bind; [by apply keeps_call, heap_wf_ignores|]. intros [|]; [|apply keeps_throw].
  apply keeps_bind; [by apply keeps_call, heap_wf_ignores|]. intros []; eauto with keeps.
Qed.

(** ** The connection *)

(** What [wp] asks of a constructor. *)
Lemma safe_make certificateFile privateKeyFile w :
  heap_wf w ->
  wp (SyncTls.make certificateFile privateKeyFile)
    (fun c w => connection_wf c /\ heap_wf w) (fun _ => heap_wf) heap_wf w.
Proof.
  intros Hw. apply wp_bind, wp_call. intros [context|e] st _; [|by apply heap_wf_ignores].
  apply wp_bind. unfold of_result, mret, M_ret, wp at 1. apply wp_bind, wp_local.
  pose proof (safe_loadClientIdentity certificateFile privateKeyFile
    (Some context, w <| openssl_ := st |>)) as H.
  assert (wp (loadClientIdentity certificateFile privateKeyFile) (fun _ => beside is_Some)
    (fun _ => beside is_Some) (beside is_Some) (Some context, w <| openssl_ := st |>)) as H'.
  { apply H. split; [by eexists|by apply heap_wf_ignores]. }
  clear H. unfold wp in H'.
  destruct (loadClientIdentity _ _ _) as [? [c w']|? [c w']|[c w']|]; [|by destruct H'..].
  destruct H' as [[context' Hc] Hw']. cbn in *. subst c.
  apply wp_bind, wp_call. intros [[]|e] st' _; [|by apply heap_wf_ignores].
  unfold wp. split; [by eexists|by apply heap_wf_ignores].
Qed.

Abbreviation safe_connection m := (safe connection_wf m).

Lemma safe_wait {S} (I : S -> Prop) p : keeps I I (wait p).
Proof. intros s Hs. by destruct p. Qed.

Lemma safe_get_socket : safe_connection SyncTls.get_socket.
Proof.
  intros [c w] [Hc Hw]. unfold wp, SyncTls.get_socket. destruct Hc as [s Hs]; cbn in Hs.
  rewrite Hs. split; [by eexists|done].
Qed.

Lemma safe_set_socket s : safe_connection (SyncTls.set_socket s).
Proof. intros [c w] [Hc Hw]. split; [by eexists|done]. Qed.

Lemma safe_attached : safe_connection SyncTls.attached.
Proof. apply keeps_bind; [apply safe_get_socket|]. intros []; eauto with keeps. Qed.

Lemma safe_observe e : safe_world (observe e).
Proof. apply keeps_modify. intros w. by apply heap_wf_frame. Qed.

Lemma safe_next_dial : safe_world SyncTls.next_dial.
Proof.
  intros w Hw. unfold wp, SyncTls.next_dial. destruct (dials_ w) as [|p rest]; [done|].
  by apply (heap_wf_frame w).
Qed.

Lemma safe_connect host port : safe_connection (SyncTls.connect host port).
Proof.
  apply keeps_bind; [apply safe_get_socket|intros _].
  apply keeps_bind; [apply safe_outside, safe_observe|intros _].
  apply keeps_bind; [apply safe_outside, safe_next_dial|intros peer].
  do 2 (apply keeps_bind; [apply safe_wait|intros _]).
  apply keeps_bind; [apply safe_set_socket|intros _]. apply safe_wait.
Qed.

Lemma safe_send payload : safe_connection (SyncTls.send payload).
Proof.
  apply keeps_bind; [apply safe_attached|intros peer].
  destruct (accepting peer) as [|answer rest]; [apply safe_outside, safe_observe|].
  apply keeps_bind; [apply safe_set_socket|intros _].
  apply keeps_bind; [apply safe_wait|intros _]. apply safe_outside, safe_observe.
Qed.

(** A read gives what was asked for. *)
Lemma wp_read n c w (Q : list Z -> SyncTls.SyncTlsConnection * World -> Prop) :
  beside connection_wf (c, w) ->
  (forall bytes s, length bytes = n -> beside connection_wf s -> Q bytes s) ->
  wp (SyncTls.read n) Q (fun _ => beside connection_wf) (beside connection_wf) (c, w).
Proof.
  intros Hs HQ. apply wp_bind. eapply wp_mono; [by apply safe_attached| |done|done].
  intros peer s1 H1. destruct (Nat.leb_spec n (length (incoming peer))) as [Hn|Hn].
  - apply wp_bind. eapply wp_mono; [by apply safe_set_socket| |done|done].
    intros ? s2 H2. apply HQ; [|done]. rewrite length_take. lia.
  - apply wp_bind. eapply wp_mono; [by apply safe_set_socket| |done|done].
    intros ? s2 H2. by destruct (ending peer).
Qed.

Lemma safe_read n : safe_connection (SyncTls.read n).
Proof. intros [c w] Hs. by apply wp_read. Qed.

Lemma safe_receive_length fuel length shift :
  (1 <= fuel)%nat -> 70 <= shift + 7 * Z.of_nat fuel ->
  safe_connection (SyncTls.receive_length fuel length shift).
Proof.
  revert length shift. induction fuel as [|fuel IH]; intros length shift Hf Hs; [lia|].
  intros [c w] Hw. apply wp_bind, wp_read; [done|]. intros [|byte [|]] s Hl H1; cbn in Hl; [lia| |lia].
  cbv zeta. destruct (_ =? 0); [done|].
  destruct (Z.ltb_spec 63 (shift + 7)); [by apply keeps_throw|]. apply IH; [lia|lia|done].
Qed.

Lemma safe_receive : safe_connection SyncTls.receive.
Proof.
  apply keeps_bind; [apply safe_receive_length; lia|intros length].
  destruct (_ <? _); [apply keeps_throw|].
  destruct (_ <? _); [apply safe_read|apply keeps_ret].
Qed.

Lemma safe_peerCertificate : safe_connection SyncTls.peerCertificate.
Proof. apply keeps_bind; [apply safe_get_socket|]. intros []; apply keeps_ret. Qed.

Lemma safe_status message : safe_connection (requirePairingStatusOk message).
Proof. unfold requirePairingStatusOk. destruct (bool_decide _); eauto with keeps. Qed.

(** A destructor does not throw. *)
Lemma wp_close c w :
  beside connection_wf (c, w) ->
  wp SyncTls.close (fun _ => beside connection_wf) (fun _ _ => False) (beside connection_wf) (c, w).
Proof.
  intros [Hc Hw]. unfold wp, SyncTls.close. destruct (SyncTls.stream_ c) as [[|peer]|]; [done| |done].
  destruct (shutting peer); [|done]. split; [done|]. by apply (heap_wf_frame w).
Qed.

Lemma safe_negotiate steps : safe_connection (PairingSession.negotiate steps).
Proof.
  induction steps as [|steps IH]; [apply keeps_ret|].
  apply keeps_bind; [apply safe_receive|intros message].
  apply keeps_bind; [apply safe_status|intros _].
  destruct (hasPairingRequestAck message); [by apply keeps_bind; [apply safe_send|]|].
  destruct (hasPairingOptions message); [by apply keeps_bind; [apply safe_send|]|].
  destruct (hasConfigurationAck message); [apply keeps_ret|done].
Qed.

Lemma safe_await_ack steps : safe_connection (PairingSession.await_ack steps).
Proof.
  induction steps as [|steps IH]; [apply keeps_ret|].
  apply keeps_bind; [apply safe_receive|intros message].
  apply keeps_bind; [apply safe_status|intros _].
  destruct (hasSecretAck message); [apply keeps_ret|done].
Qed.

(** ** The session *)

Abbreviation safe_session m := (safe session_wf m).

(** Sessions whose connection is there. *)
Definition connected_wf (s : PairingSession.Impl) : Prop :=
  exists c, PairingSession.connection_ s = Some c /\ connection_wf c.

Lemma connected_session s : connected_wf s -> session_wf s.
Proof. intros (c & E & Hc) c' E'. congruence. Qed.

Lemma beside_connected s : beside connected_wf s -> beside session_wf s.
Proof. intros [H Hw]. split; [by apply connected_session|done]. Qed.

Lemma safe_on_connection {A} (m : M (SyncTls.SyncTlsConnection * World) A) :
  safe_connection m -> safe connected_wf (PairingSession.on_connection m).
Proof.
  intros Hm. apply (keeps_zoom _ _ (beside connection_wf) (beside connection_wf)); [done|..].
  - intros [s w] [(c & E & Hc) Hw]. exists (c, w). cbn in E. by rewrite E.
  - intros [s w] [c w'] _ [Hc Hw]. split; [by eexists|done].
  - intros [s w] [c w'] _ [Hc Hw]. split; [by eexists|done].
Qed.

Lemma wp_destroy_connection c w :
  connection_wf c -> heap_wf w ->
  wp (PairingSession.destroy_connection c) (fun _ => heap_wf) (fun _ _ => False) heap_wf w.
Proof.
  intros Hc Hw. apply wp_bind, wp_local. pose proof (wp_close c w (conj Hc Hw)) as H. unfold wp in H.
  by destruct (SyncTls.close (c, w)) as [? s|? s|s|]; destruct H.
Qed.

Lemma wp_assign_connection new s w :
  session_wf s -> heap_wf w ->
  wp (PairingSession.assign_connection new)
    (fun _ s' => PairingSession.connection_ s'.1 = new /\ heap_wf s'.2) (fun _ _ => False)
    (fun s' => PairingSession.connection_ s'.1 = new /\ heap_wf s'.2) (s, w).
Proof.
  intros Hs Hw. unfold PairingSession.assign_connection. apply wp_bind. unfold gets, wp at 1.
  apply wp_bind. unfold modify, wp at 1. cbn [fst].
  destruct (PairingSession.connection_ s) as [old|] eqn:E; [|done].
  apply (wp_zoom _ _ _ _ _ _ _ w); [done|].
  pose proof (wp_destroy_connection old w (Hs old E) Hw) as H. unfold wp in H.
  by destruct (PairingSession.destroy_connection old w).
Qed.

(** The destructor of a session. *)
Lemma wp_destroy s w :
  session_wf s -> heap_wf w ->
  wp PairingSession.destroy (fun _ => beside session_wf) (fun _ _ => False) (beside session_wf) (s, w).
Proof.
  intros Hs Hw. eapply wp_mono; [by apply wp_assign_connection| |done|].
  - intros _ s' [E H]. split; [|done]. intros c. by rewrite E.
  - intros s' [E H]. split; [|done]. intros c. by rewrite E.
Qed.

(** A call that keeps [connected_wf], in a session method. *)
Local Tactic Notation "connected_step" uconstr(L) :=
  apply wp_bind; eapply wp_mono; [by apply L| |auto using beside_connected..].

Lemma safe_start : safe_session PairingSession.start.
Proof.
  intros [s w] [Hs Hw]. unfold PairingSession.start. apply wp_bind. unfold gets, wp at 1. cbn [fst].
  apply wp_bind, (wp_zoom _ _ _ _ _ _ _ w); [done|].
  pose proof (safe_make (PairingSession.certificateFile_ s) (PairingSession.privateKeyFile_ s) w Hw)
    as H. unfold wp in H. destruct (SyncTls.make _ _ w) as [c w'|? w'|w'|]; [|by split..|done].
  destruct H as [Hc Hw']. cbn [fst].
  apply wp_bind. eapply wp_mono; [by apply wp_assign_connection| |done|].
  2: { intros s' [E H]. split; [|done]. intros c'. rewrite E. by intros [= <-]. }
  intros ? s1 [E1 H1].
  assert (beside connected_wf s1) as Hs1 by (split; [by eexists|done]). clear E1 H1.
  connected_step (safe_on_connection _ (safe_connect _ _)).
  intros ? s2 H2. connected_step (safe_on_connection _ (safe_send _)).
  intros ? s3 H3. connected_step (safe_on_connection _ (safe_negotiate _)).
  intros [] [s4 w4] H4; [by apply beside_connected|]. apply beside_connected in H4 as [H4 Hw4].
  apply wp_bind. eapply wp_mono; [by apply wp_destroy|by intros|done|done].
Qed.

Lemma safe_finish code : BufferLaws ssl -> safe_session (PairingSession.finish code).
Proof.
  intros Hb [s w] [Hs Hw]. unfold PairingSession.finish. apply wp_bind. unfold gets, wp at 1.
  cbn [fst]. destruct (PairingSession.connection_ s) as [c|] eqn:E; [|by split].
  assert (beside connected_wf (s, w)) as H0 by (split; [eexists; split; [done|by apply Hs]|done]).
  connected_step (safe_outside connected_wf _ (safe_loadCertificate _)).
  intros client s1 H1. connected_step (safe_on_connection _ safe_peerCertificate).
  intros [server|] s2 H2; [|by apply beside_connected].
  connected_step (safe_outside connected_wf _ (safe_pairingSecret _ _ _ Hb)).
  intros secret s3 H3. connected_step (safe_on_connection _ (safe_send _)).
  intros ? s4 H4. connected_step (safe_on_connection _ (safe_await_ack _)).
  intros ok [s5 w5] [H5 Hw5]%beside_connected.
  apply wp_bind. eapply wp_mono; [by apply wp_destroy| |done|done].
  intros ? s6 H6. by destruct ok.
Qed.

Lemma safe_identify host port :
  safe_connection (SyncTls.connect host port ;;
    certificate ← SyncTls.peerCertificate;
    match certificate with
    | None => throw (runtime_error "Android TV did not present a TLS certificate")
    | Some certificate => outside (parseDeviceIdentity (Some certificate))
    end).
Proof.
  apply keeps_bind; [apply safe_connect|intros _].
  apply keeps_bind; [apply safe_peerCertificate|intros []]; [|apply keeps_throw].
  apply safe_outside, safe_parseDeviceIdentity.
Qed.

Lemma safe_getNameAndMac : safe_session PairingSession.getNameAndMac.
Proof.
  intros [s w] [Hs Hw]. unfold PairingSession.getNameAndMac. apply wp_bind. unfold gets, wp at 1.
  cbn [fst]. apply wp_bind, (wp_zoom _ _ _ _ _ _ _ w); [done|].
  pose proof (safe_make (PairingSession.certificateFile_ s) (PairingSession.privateKeyFile_ s) w Hw)
    as H. unfold wp in H. destruct (SyncTls.make _ _ w) as [c w'|? w'|w'|]; [|by split..|done].
  destruct H as [Hc Hw'].
  apply wp_bind, (wp_zoom _ _ _ _ _ _ _ w'); [done|].
  assert (safe_connection (scope (SyncTls.connect (PairingSession.host_ s) (PairingSession.port_ s) ;;
    certificate ← SyncTls.peerCertificate;
    match certificate with
    | None => throw (runtime_error "Android TV did not present a TLS certificate")
    | Some certificate => outside (parseDeviceIdentity (Some certificate))
    end) SyncTls.close)) as Hm.
  { apply keeps_scope; [apply safe_identify|]. intros [] ?. by apply wp_close. }
  specialize (Hm (c, w') (conj Hc Hw')). unfold wp in Hm. unfold with_local.
  by destruct (scope _ _ (c, w')) as [? [? ?]|? [? ?]|[? ?]|]; destruct Hm.
Qed.

(** ** The public interface *)

Abbreviation safe_client m := (safe client_wf m).

Lemma safe_options : safe_client options.
Proof. apply keeps_gets. Qed.

Lemma safe_disconnectAndWait turns : safe_client (disconnectAndWait turns).
Proof.
  intros [c w] [Hc Hw]. unfold wp, disconnectAndWait.
  destruct (run turns _); [|done]. by destruct (_ <? _)%nat.
Qed.

Lemma wp_destroy_session s w :
  session_wf s -> heap_wf w ->
  wp (destroy_session s) (fun _ => heap_wf) (fun _ _ => False) heap_wf w.
Proof.
  intros Hs Hw. apply wp_bind, wp_local. pose proof (wp_destroy s w Hs Hw) as H. unfold wp in H.
  by destruct (PairingSession.destroy (s, w)) as [? s'|? s'|s'|]; destruct H.
Qed.

Lemma safe_assign_pairing new :
  (forall s, new = Some s -> session_wf s) -> safe_client (assign_pairing new).
Proof.
  intros Hn [c w] [Hc Hw]. unfold assign_pairing. apply wp_bind. unfold gets, wp at 1.
  apply wp_bind. unfold modify, wp at 1.
  destruct (pairing_ c) as [old|] eqn:E; [|by split].
  apply (wp_zoom _ _ _ _ _ _ _ w); [done|].
  pose proof (wp_destroy_session old w (Hc old E) Hw) as H. unfold wp in H.
  by destruct (destroy_session old w).
Qed.

(** A session that lives during the call. *)
Lemma safe_local_session {A} s (m : M (PairingSession.Impl * World) A) w :
  session_wf s -> heap_wf w -> safe_session m ->
  wp (with_local s m) (fun r w => session_wf r.2 /\ heap_wf w) (fun _ => heap_wf) heap_wf w.
Proof.
  intros Hs Hw Hm. apply wp_local. specialize (Hm (s, w) (conj Hs Hw)). unfold wp in Hm.
  by destruct (m (s, w)) as [? s'|? s'|s'|]; [destruct Hm..|].
Qed.

Lemma session_wf_make clientName certificateFile privateKeyFile host port :
  session_wf (PairingSession.make clientName certificateFile privateKeyFile host port).
Proof. by intros c [=]. Qed.

Lemma safe_startPairing turns : safe_client (startPairing turns).
Proof.
  apply keeps_bind; [apply safe_disconnectAndWait|intros _].
  apply keeps_bind; [apply safe_options|intros o]. intros [c w] [Hc Hw].
  apply wp_bind, (wp_zoom _ _ _ _ _ _ _ w); [done|].
  pose proof (safe_local_session (PairingSession.make (clientName o) (certificateFile o)
    (privateKeyFile o) (host o) (pairingPort o))
    (unwind PairingSession.start PairingSession.destroy) w (session_wf_make _ _ _ _ _) Hw) as H.
  unfold wp at 1 in H. destruct (with_local _ _ w) as [[? s] w'|? w'|w'|]; cbn [fst] in *.
  - destruct H as [Hs Hw']; [|by apply safe_assign_pairing; [intros ? [= <-]|]].
    apply keeps_unwind; [apply safe_start|]. intros [] []. by apply wp_destroy.
  - split; [done|]. apply H, keeps_unwind; [apply safe_start|]. intros [] []. by apply wp_destroy.
  - split; [done|]. apply H, keeps_unwind; [apply safe_start|]. intros [] []. by apply wp_destroy.
  - apply H, keeps_unwind; [apply safe_start|]. intros [] []. by apply wp_destroy.
Qed.

Lemma safe_finishPairing code : BufferLaws ssl -> safe_client (finishPairing code).
Proof.
  intros Hb [c w] [Hc Hw]. unfold finishPairing. apply wp_bind. unfold gets, wp at 1.
  destruct (pairing_ c) as [s|] eqn:E; [|by split].
  apply wp_bind, (wp_zoom _ _ _ _ _ _ _ (s, w)); [by rewrite E|].
  pose proof (safe_finish code Hb (s, w) (conj (Hc s E) Hw)) as H. unfold wp in H.
  destruct (PairingSession.finish code (s, w)) as [? [s' w']|? [s' w']|[s' w']|]; [|..|done];
    destruct H as [Hs' Hw'].
  - apply safe_assign_pairing; [done|]. split; [by intros ? [= <-]|done].
  - split; [by intros ? [= <-]|done].
  - split; [by intros ? [= <-]|done].
Qed.

Lemma safe_client_getNameAndMac : safe_client getNameAndMac.
Proof.
  apply keeps_bind; [apply safe_options|intros o]. intros [c w] [Hc Hw].
  apply wp_bind, (wp_zoom _ _ _ _ _ _ _ w); [done|].
  assert (safe_session (scope PairingSession.getNameAndMac PairingSession.destroy)) as Hm.
  { apply keeps_scope; [apply safe_getNameAndMac|]. intros [] []. by apply wp_destroy. }
  pose proof (safe_local_session (PairingSession.make (clientName o) (certificateFile o)
    (privateKeyFile o) (host o) (pairingPort o)) _ w (session_wf_make _ _ _ _ _) Hw Hm) as H.
  unfold wp in H. by destruct (with_local _ _ w) as [[? s] w'|? w'|w'|]; [destruct H|..].
Qed.

Lemma safe_client_generate : safe_client generateCertificateIfMissing.
Proof.
  apply keeps_bind; [apply safe_options|intros o]. apply safe_outside, safe_generate.
Qed.

End inv.
