(* ===== verification/Interface.v ===== *)
(** * The public interface ([include/androidtvremote/android_tv_remote.hpp])

    [Api.AndroidTvRemote] is the class of that name, for any type of objects: what an
    application may do with one. [SafeApi] is what it can count on, and [Client] of
    [PairingClient.v] is the implementation: it forwards every call to [Impl]. *)

From S2P Require Import Prelude Types Effects OpenSSL World Certificate CertificateInv.
From S2P Require Import KeyCodes RemoteState Remote RemoteInv RemoteSteps RemoteAtoms RemotePace Pairing PairingClient PairingInv.

Local Open Scope Z_scope.
Local Open Scope cxx_scope.

Local Abbreviation safe P m := (keeps (beside P) (beside P) m).

Module Api.
Section api.
Context {ssl : OpenSSL}.

(** [elapse] is not an operation: it is the thread of [io_] that goes on by the turns given
    to it. [startPairing] takes the turns that are made while it waits for that thread. *)
Class AndroidTvRemote (Object : Type) := {
  construct : Options -> Object;
  destruct : M (Object * World) unit;
  setCallbacks : Callbacks -> M (Object * World) unit;
  generateCertificateIfMissing : M (Object * World) bool;
  startPairing : list choice -> M (Object * World) unit;
  finishPairing : string -> M (Object * World) unit;
  getNameAndMac : M (Object * World) DeviceIdentity;
  connect : M (Object * World) unit;
  disconnect : M (Object * World) unit;
  connectionState : M (Object * World) ConnectionState;
  sendKeyCode : KeyCode -> Direction -> M (Object * World) unit;
  sendKey : Z -> Direction -> M (Object * World) unit;
  sendKeyName : string -> Direction -> M (Object * World) unit;
  sendText : string -> M (Object * World) unit;
  launchApp : string -> M (Object * World) unit;
  startVoice : M (Object * World) unit;
  sendVoiceData : list Z -> M (Object * World) unit;
  stopVoice : M (Object * World) unit;
  isVoiceEnabled : M (Object * World) bool;
  isOn : M (Object * World) bool;
  currentApp : M (Object * World) string;
  deviceInfo : M (Object * World) DeviceInfo;
  volumeInfo : M (Object * World) VolumeInfo;
  elapse : list choice -> M (Object * World) (list effect)
}.

(** What an application can count on: with a well-formed object and heap, every call leaves
    them so, however it ends, and does nothing undefined. *)
Class SafeApi (Object : Type) {api : AndroidTvRemote Object} (wf : Object -> Prop) := {
  api_construct : forall o, wf (construct o);
  api_destruct : forall s, beside wf s ->
    wp destruct (fun _ => beside wf) (fun _ _ => False) (beside wf) s;
  api_setCallbacks : forall c, safe wf (setCallbacks c);
  api_generate : safe wf generateCertificateIfMissing;
  api_startPairing : forall turns, safe wf (startPairing turns);
  api_finishPairing : forall code, safe wf (finishPairing code);
  api_getNameAndMac : safe wf getNameAndMac;
  api_connect : safe wf connect;
  api_disconnect : safe wf disconnect;
  api_connectionState : safe wf connectionState;
  api_sendKeyCode : forall key d, safe wf (sendKeyCode key d);
  api_sendKey : forall key d, safe wf (sendKey key d);
  api_sendKeyName : forall name d, safe wf (sendKeyName name d);
  api_sendText : forall text, safe wf (sendText text);
  api_launchApp : forall appLink, safe wf (launchApp appLink);
  api_startVoice : safe wf startVoice;
  api_sendVoiceData : forall pcm, safe wf (sendVoiceData pcm);
  api_stopVoice : safe wf stopVoice;
  api_isVoiceEnabled : safe wf isVoiceEnabled;
  api_isOn : safe wf isOn;
  api_currentApp : safe wf currentApp;
  api_deviceInfo : safe wf deviceInfo;
  api_volumeInfo : safe wf volumeInfo;
  api_elapse : forall turns, safe wf (elapse turns)
}.

End api.
End Api.

Section implementation.
Context {ssl : OpenSSL}.

(** The forwarding calls: [impl_->m()]. *)
Definition on_impl (f : Impl -> Impl) : M (Client * World) unit :=
  modify (fun '(c, w) => (c <| remote_ := f (remote_ c) |>, w)).

Definition on_impl_throws (f : Impl -> result Impl) : M (Client * World) unit :=
  r ← gets (fun '(c, _) => f (remote_ c));
  match r with
  | Ok remote => modify (fun '(c, w) => (c <| remote_ := remote |>, w))
  | Throw e => throw e
  end.

Definition of_impl {A} (f : Impl -> A) : M (Client * World) A :=
  gets (fun '(c, _) => f (remote_ c)).

(** The destructor: that of [Impl], and of its member [pairing_]. *)
Definition destroy_client : M (Client * World) unit :=
  on_impl Remote.destroy ;; assign_pairing None.

(** The effects of the turns; turns that are not possible are not made. *)
Definition let_elapse (turns : list choice) : M (Client * World) (list effect) :=
  before ← of_impl trace_;
  on_impl (fun s => default s (if forallb io_turn turns then run turns s else None)) ;;
  after ← of_impl trace_;
  mret (drop (length before) after).

Definition Client_api : Api.AndroidTvRemote Client := {|
  Api.construct o := mkClient (Impl_init o) None;
  Api.destruct := destroy_client;
  Api.setCallbacks callbacks := on_impl (Remote.setCallbacks callbacks);
  Api.generateCertificateIfMissing := PairingClient.generateCertificateIfMissing;
  Api.startPairing := PairingClient.startPairing;
  Api.finishPairing := PairingClient.finishPairing;
  Api.getNameAndMac := PairingClient.getNameAndMac;
  Api.connect := on_impl Remote.connect;
  Api.disconnect := on_impl Remote.disconnect;
  Api.connectionState := of_impl Observers.connectionState;
  Api.sendKeyCode key direction := on_impl (Remote.sendKeyCode key direction);
  Api.sendKey key direction := on_impl (Remote.sendKey key direction);
  Api.sendKeyName name direction := on_impl_throws (Remote.sendKeyName name direction);
  Api.sendText text := on_impl_throws (Remote.sendText text);
  Api.launchApp appLink := on_impl (Remote.launchApp appLink);
  Api.startVoice := on_impl Remote.startVoice;
  Api.sendVoiceData pcm := on_impl (Remote.sendVoiceData pcm);
  Api.stopVoice := on_impl Remote.stopVoice;
  Api.isVoiceEnabled := of_impl Observers.isVoiceEnabled;
  Api.isOn := of_impl Observers.isOn;
  Api.currentApp := of_impl Observers.currentApp;
  Api.deviceInfo := of_impl Observers.deviceInfo;
  Api.volumeInfo := of_impl Observers.volumeInfo;
  Api.elapse := let_elapse
|}.
#[global] Existing Instance Client_api.

(** ** The implementation keeps the promises *)

Lemma safe_on_impl f : safe client_wf (on_impl f).
Proof. apply keeps_modify. by intros [c w] [Hc Hw]. Qed.

Lemma safe_of_impl {A} (f : Impl -> A) : safe client_wf (of_impl f).
Proof. apply keeps_gets. Qed.

Lemma safe_on_impl_throws f : safe client_wf (on_impl_throws f).
Proof.
  apply keeps_bind; [apply keeps_gets|intros [remote|e]]; [|apply keeps_throw].
  apply keeps_modify. by intros [c w] [Hc Hw].
Qed.

Lemma safe_elapse turns : safe client_wf (let_elapse turns).
Proof.
  apply keeps_bind; [apply safe_of_impl|intros before].
  apply keeps_bind; [apply safe_on_impl|intros _].
  apply keeps_bind; [apply safe_of_impl|intros after]. apply keeps_ret.
Qed.

(** A destructor does not throw. *)
Lemma safe_destroy_client s :
  beside client_wf s ->
  wp destroy_client (fun _ => beside client_wf) (fun _ _ => False) (beside client_wf) s.
Proof.
  intros Hs. apply wp_bind. unfold on_impl, modify, wp at 1. destruct s as [c w].
  destruct Hs as [Hc Hw]. unfold assign_pairing. apply wp_bind. unfold gets, wp at 1.
  apply wp_bind. unfold modify, wp at 1. cbn [pairing_ update].
  destruct (pairing_ c) as [old|] eqn:E; [|by split].
  apply (wp_zoom _ _ _ _ _ _ _ w); [done|].
  pose proof (wp_destroy_session old w (Hc old E) Hw) as H. unfold wp in H.
  by destruct (destroy_session old w).
Qed.

#[global] Instance Client_safe : BufferLaws ssl -> Api.SafeApi Client client_wf.
Proof.
  intros Hb. constructor; cbn; intros; try apply safe_elapse; try apply safe_on_impl; try apply safe_of_impl;
    try apply safe_on_impl_throws.
  - by intros s [=].
  - by apply safe_destroy_client.
  - apply safe_client_generate.
  - apply safe_startPairing.
  - by apply safe_finishPairing.
  - apply safe_client_getNameAndMac.
Qed.

End implementation.
