(* ===== verification/PairingProps.v ===== *)
(** * The properties of pairing *)

From S2P Require Import Prelude Types Wire WireSpec Messages MessagesSpec MessagesProps Effects OpenSSL World Certificate CertificateInv CertificateFiles ExampleSSL.
From S2P Require Import RemoteState Remote Pairing PairingClient PairingInv PairingRuns PairingDialogue.

Local Open Scope Z_scope.
Local Open Scope cxx_scope.

(** ** The calls of the public interface, in any order *)

Inductive sync_call :=
  | GenerateCertificateIfMissing
  | StartPairing (turns : list choice)
  | FinishPairing (code : string)
  | GetNameAndMac.

Section calls.
Context {ssl : OpenSSL}.

Definition perform (call : sync_call) : M (Client * World) unit :=
  match call with
  | GenerateCertificateIfMissing => _ ← generateCertificateIfMissing; mret tt
  | StartPairing turns => startPairing turns
  | FinishPairing code => finishPairing code
  | GetNameAndMac => _ ← getNameAndMac; mret tt
  end.

(** The caller catches what is thrown and goes on; a call that blocks does not come
    back.  [None] is undefined behaviour. *)
Fixpoint perform_all (calls : list sync_call) (s : Client * World) : option (Client * World) :=
  match calls with
  | [] => Some s
  | call :: calls =>
      match perform call s with
      | Returns _ s' | Throws _ s' => perform_all calls s'
      | Blocks s' => Some s'
      | Undefined => None
      end
  end.

Lemma safe_perform call :
  BufferLaws ssl -> keeps (beside client_wf) (beside client_wf) (perform call).
Proof.
  intros Hb. destruct call; cbn [perform].
  - apply keeps_bind; [apply safe_client_generate|intros; apply keeps_ret].
  - apply safe_startPairing.
  - by apply safe_finishPairing.
  - apply keeps_bind; [apply safe_client_getNameAndMac|intros; apply keeps_ret].
Qed.

(** C19. However certificates and pairing are used - any sequence of calls, whatever
    OpenSSL, the disk, the network and the television do - no null or dangling pointer
    is used, no buffer overrun, every session has a well-formed connection, and the
    big numbers that are allocated are exactly those in the thread's holders. *)
Theorem synchronous_calls_safe (calls : list sync_call) (o : Options) (w : World) :
  BufferLaws ssl -> heap_wf w ->
  exists c' w', perform_all calls (mkClient (Impl_init o) None, w) = Some (c', w') /\
    client_wf c' /\ heap_wf w'.
Proof.
  intros Hb Hw. assert (client_wf (mkClient (Impl_init o) None)) as Hc by by intros s [=].
  revert Hw Hc. generalize (mkClient (Impl_init o) None) as c. revert w.
  induction calls as [|call calls IH]; intros w c Hw Hc; [by exists c, w|].
  pose proof (safe_perform call Hb (c, w) (conj Hc Hw)) as H. unfold wp in H. cbn [perform_all].
  destruct (perform call (c, w)) as [? [c' w']|? [c' w']|[c' w']|]; [| | |done]; destruct H as [Hc' Hw'].
  - by apply IH.
  - by apply IH.
  - by exists c', w'.
Qed.

(** ** The frames *)

(** C20. [receive] is the batch decoder on what the television sends: it returns the
    frame whose length comes first, leaving the bytes after it; a length of more than
    4 MiB or of more than ten bytes is refused as soon as it is known; and if the frame
    is not complete, the end of the stream is reported, or waited for. *)
Theorem receive_decodes (context : SSL_CTX) (peer : Peer) (w : World) (bytes : list Z) :
  SyncTls.receive (to_come context peer bytes, w) =
  match decodeVarintPrefix bytes with
  | (true, n, k) =>
      let rest := drop k bytes in
      if 4194304 <? n then
        Throws (runtime_error "protobuf frame exceeds safety limit") (to_come context peer rest, w)
      else if n <=? size rest then
        Returns (take (Z.to_nat n) rest) (to_come context peer (drop (Z.to_nat n) rest), w)
      else exhausted context peer w
  | (false, _, _) =>
      if (10 <=? length bytes)%nat then
        Throws (runtime_error "invalid protobuf frame length")
          (to_come context peer (drop 10 bytes), w)
      else exhausted context peer w
  end.
Proof. apply receive_eq. Qed.

End calls.

Lemma synchronous_calls_safe_witness :
  exists c' w', perform_all (ssl := small_ssl)
    [FinishPairing "000000"; GenerateCertificateIfMissing; StartPairing []; GetNameAndMac]
    (mkClient (Impl_init Options_init) None, small_world ∅ []) = Some (c', w') /\
    client_wf c' /\ heap_wf w'.
Proof.
  apply (synchronous_calls_safe (ssl := small_ssl)); [apply _|]. by apply heap_unused.
Defined.

(** ** Pairing *)
Section pairing.
Context {ssl : OpenSSL}.

(** Codes that are refused one after the other, each with [std::invalid_argument]. *)
Fixpoint refused_each (codes : list string) (s : Client * World) : option (Client * World) :=
  match codes with
  | [] => Some s
  | code :: codes =>
      match finishPairing code s with
      | Throws (invalid_argument _) s' => refused_each codes s'
      | _ => None
      end
  end.

Lemma on_pairing_eq {A} (m : M (PairingSession.Impl * World) A) c s w :
  pairing_ c = Some s ->
  on_pairing m (c, w) =
  match m (s, w) with
  | Returns a (s', w') => Returns a (c <| pairing_ := Some s' |>, w')
  | Throws e (s', w') => Throws e (c <| pairing_ := Some s' |>, w')
  | Blocks (s', w') => Blocks (c <| pairing_ := Some s' |>, w')
  | Undefined => Undefined
  end.
Proof.
  intros E. unfold on_pairing, zoom. rewrite E.
  by destruct (m (s, w)) as [? []|? []|[]|].
Qed.

Definition with_pairing (s : option PairingSession.Impl) (c : Client) : Client :=
  c <| pairing_ := s |>.

Lemma with_pairing_same c s : pairing_ c = Some s -> with_pairing (Some s) c = c.
Proof. destruct c. cbn. by intros ->. Qed.

Lemma finishPairing_eq code c s w :
  pairing_ c = Some s ->
  finishPairing code (c, w) =
  match PairingSession.finish code (s, w) with
  | Returns _ (s', w') => assign_pairing None (with_pairing (Some s') c, w')
  | Throws e (s', w') => Throws e (with_pairing (Some s') c, w')
  | Blocks (s', w') => Blocks (with_pairing (Some s') c, w')
  | Undefined => Undefined
  end.
Proof.
  intros E. unfold finishPairing. unfold mbind at 1, M_bind at 1, gets. rewrite E.
  unfold mbind, M_bind. rewrite (on_pairing_eq _ c s w E).
  by destruct (PairingSession.finish code (s, w)) as [? []|? []|[]|].
Qed.

(** Dropping a session that has no connection. *)
Lemma assign_pairing_idle new c old w :
  pairing_ c = old -> (forall s, old = Some s -> PairingSession.connection_ s = None) ->
  assign_pairing new (c, w) = Returns tt (with_pairing new c, w).
Proof.
  intros E Hs. unfold assign_pairing, mbind, M_bind, gets, modify. cbn. rewrite E.
  destruct old as [s|]; [|done].
  unfold destroy_session, PairingSession.destroy, PairingSession.assign_connection, outside, zoom,
    with_local, mbind, M_bind, gets, modify. cbn. by rewrite (Hs s).
Qed.

Lemma hexToBytes_invalid code e :
  hexToBytes code = Throw e -> exists m, e = invalid_argument m.
Proof.
  unfold hexToBytes. destruct (negb _); [intros [= <-]; by eexists|].
  assert (forall fuel code out, (String.length code < fuel)%nat -> hexToBytes_loop code out = Throw e ->
    exists m, e = invalid_argument m) as H.
  { clear code. induction fuel as [|fuel IH]; intros code out Hl H; [lia|].
    destruct code as [|a [|b code]]; cbn [hexToBytes_loop] in H; [done|done|].
    unfold nibble in H.
    repeat match type of H with
    | context [if ?t then _ else _] => destruct t; cbn [rbind] in H
    end; try (injection H as <-; by eexists); (eapply IH; [|exact H]; cbn in Hl |- *; lia). }
  apply (H (S (String.length code))). lia.
Qed.

Lemma secret_spec_invalid sha256 nC eC nS eS code e :
  secret_spec sha256 nC eC nS eS code = Throw e -> exists m, e = invalid_argument m.
Proof.
  unfold secret_spec. destruct (negb _); [intros [= <-]; by eexists|].
  destruct (hexToBytes code) eqn:E; cbn [rbind].
  - destruct (bool_decide _); [done|]. intros [= <-]. by eexists.
  - intros [= <-]. by eapply hexToBytes_invalid.
Qed.

(** The thread of [io_] runs the function object that [disconnectAndWait] posts, and
    gets from [remote] to [remote']. *)
Definition disconnects (turns : list choice) (remote remote' : RemoteState.Impl) : Prop :=
  run turns (Remote.disconnectAndWait remote) = Some remote' /\
  (length (posted_ remote) < tasks_run turns)%nat.

(** A session with the options' values. *)
Definition session_of (o : Options) : PairingSession.Impl :=
  PairingSession.make (clientName o) (certificateFile o) (privateKeyFile o) (host o) (pairingPort o).

(** The identity [client] is on the disk; the television [peer] answers the next attempt
    to connect, shows [server], greets, acknowledges with [final], and has [later] to
    send after that. *)
Record television (o : Options) (w : World) (client server : X509) (peer : Peer)
    (dials : list Peer) (greeting : list (list Z)) (final later : list Z) : Prop := {
  tv_identity : identity_on_disk (certificateFile o) (privateKeyFile o) client w;
  tv_dialled : dials_ w = peer :: dials;
  tv_cooperative : cooperative peer;
  tv_certificate : presented peer = Some server;
  tv_greets : greets greeting final;
  tv_sends : incoming peer = stream_of (greeting ++ [final]) later
}.

Lemma startPairing_runs turns c remote client server peer dials greeting final later w :
  disconnects turns (remote_ c) remote -> pairing_ c = None ->
  let o := options_ remote in
  television o w client server peer dials greeting final later ->
  exists context st, startPairing turns (c, w) =
    Returns tt
      (mkClient remote (Some (with_connection (Some (to_come context peer later)) (session_of o))),
       started (session_of o) greeting dials st w).
Proof.
  intros [Hrun Htasks] Hp o [Hid Hd Hco _ Hg Hin].
  destruct (start_runs (session_of o) client peer dials greeting final later w) as (context & st & E);
    [done..|].
  exists context, st. unfold startPairing.
  erewrite (bind_returns (disconnectAndWait turns)).
  2: { unfold disconnectAndWait. rewrite Hrun. by rewrite (proj2 (Nat.ltb_lt _ _) Htasks). }
  erewrite (bind_returns options); [|done]. cbv zeta. cbn [remote_ update].
  fold o. change (PairingSession.make _ _ _ _ _) with (session_of o).
  erewrite bind_returns; [|apply outside_returns, local_returns; unfold unwind; rewrite E; done].
  cbv beta iota. erewrite (assign_pairing_idle _ _ None); [|exact Hp|done]. done.
Qed.

Context {bignums : BignumLaws ssl} (sha256 : list Z -> list Z) {digest : DigestLaws ssl sha256}.

Definition refused_code (nC eC nS eS : Z) (code : string) : Prop :=
  exists e, secret_spec sha256 nC eC nS eS code = Throw e.

(** Refused codes leave the session as it is. *)
Lemma refused_runs codes c s client server nC eC nS eS context peer bytes w :
  Forall (refused_code nC eC nS eS) codes -> heap_wf w ->
  pairing_ c = Some s -> PairingSession.connection_ s = Some (to_come context peer bytes) ->
  identity_on_disk (PairingSession.certificateFile_ s) (PairingSession.privateKeyFile_ s) client w ->
  presented peer = Some server -> key_pair client server nC eC nS eS ->
  exists w', cert_inv w w' /\ refused_each codes (c, w) = Some (c, w').
Proof using bignums digest.
  intros Hcodes Hw Hp Hc Hid Hs Hk. revert w Hw Hid.
  induction Hcodes as [|code codes [e He] _ IH]; intros w Hw Hid; [by exists w|].
  destruct (finish_secret sha256 s client server nC eC nS eS context peer bytes code w)
    as (w1 & [Hw1 Hq1] & E); [done..|].
  destruct (IH w1 Hw1) as (w2 & [Hw2 Hq2] & E2).
  { destruct Hq1 as (? & ? & _). by eapply identity_quiet. }
  exists w2. split; [split; [done|by eapply quiet_trans]|].
  cbn [refused_each]. rewrite (finishPairing_eq code c s w Hp), E, He, with_pairing_same by done.
  destruct (secret_spec_invalid _ _ _ _ _ _ _ He) as [m ->]. done.
Qed.

(** The dialogue, from the first call to the last. *)
Lemma pairing_runs (turns : list choice) (c : Client) (remote : RemoteState.Impl)
    (client server : X509) (nC eC nS eS : Z) (peer : Peer) (dials : list Peer)
    (greeting more : list (list Z)) (configured acknowledged rest : list Z)
    (mistyped : list string) (code : string) (secret : list Z) (w : World) :
  heap_wf w -> key_pair client server nC eC nS eS ->
  disconnects turns (remote_ c) remote -> pairing_ c = None ->
  let o := options_ remote in
  television o w client server peer dials greeting configured
    (stream_of (more ++ [acknowledged]) rest) ->
  acknowledges more acknowledged ->
  Forall (refused_code nC eC nS eS) mistyped ->
  secret_spec sha256 nC eC nS eS code = Ok secret ->
  exists c1 w1 w2 w3,
    startPairing turns (c, w) = Returns tt (c1, w1) /\
    refused_each mistyped (c1, w1) = Some (c1, w2) /\ net_ w2 = net_ w1 /\
    finishPairing code (c1, w2) = Returns tt (mkClient remote None, w3) /\
    heap_wf w3 /\ files_ w3 = files_ w /\
    net_ w3 = (net_ w ++ [Dialled (host o) (pairingPort o)] ++
      map (fun m => Wrote (frame m))
        (pairingRequest (clientName o) :: omap answer greeting ++ [Messages.pairingSecret secret]) ++
      [Closed])%list.
Proof using bignums digest.
  intros Hw Hk Hdis Hp o Htv Hack Hmis Hcode.
  destruct (startPairing_runs turns c remote client server peer dials greeting configured _ w Hdis Hp Htv)
    as (context & st & E1). fold o in E1.
  set (s := with_connection _ (session_of o)) in E1.
  set (w1 := started _ _ _ _ _) in E1. set (c1 := mkClient remote (Some s)) in E1.
  assert (heap_wf w1) as Hw1 by by apply (heap_wf_frame w).
  assert (identity_on_disk (certificateFile o) (privateKeyFile o) client w1) as Hid1
    by by eapply identity_quiet, (tv_identity _ _ _ _ _ _ _ _ _ Htv).
  destruct (refused_runs mistyped c1 s client server nC eC nS eS context peer _ w1 Hmis Hw1
    eq_refl eq_refl Hid1 (tv_certificate _ _ _ _ _ _ _ _ _ Htv) Hk) as (w2 & [Hw2 Hq2] & E2).
  assert (identity_on_disk (certificateFile o) (privateKeyFile o) client w2) as Hid2
    by (destruct Hq2 as (? & ? & _); by eapply identity_quiet).
  destruct (finish_secret sha256 s client server nC eC nS eS context peer _ code w2 Hw2 eq_refl Hid2
    (tv_certificate _ _ _ _ _ _ _ _ _ Htv) Hk) as (w3 & [Hw3 Hq3] & E3).
  exists c1, w1, w2, (confirmed secret w3). split_and!; [done|done|apply Hq2| |by apply (heap_wf_frame w3)|..].
  - rewrite (finishPairing_eq code c1 s w2 eq_refl), E3, Hcode.
    rewrite (confirm_runs secret s context peer more acknowledged rest w3); [|by eapply tv_cooperative|done|done].
    by erewrite assign_pairing_idle; [|done|by intros ? [= <-]].
  - change (files_ w3 = files_ w). destruct Hq3 as [-> _], Hq2 as [-> _]. done.
  - destruct Hq3 as (_ & _ & _ & Hn3), Hq2 as (_ & _ & _ & Hn2). cbn. rewrite Hn3, Hn2. cbn.
    rewrite map_app, <- !app_assoc. cbn. done.
Qed.

(** C14. A whole pairing.  With an identity on the disk that TLS takes and a television that
    greets and acknowledges, [startPairing] sends the request and answers every greeting; every code
    that is mistyped is refused with [std::invalid_argument] and changes nothing, so that
    the next can be tried; and the right code sends the secret, closes the connection
    and ends the session.  The frames on the wire are exactly these, in this order. *)
Theorem pairing_succeeds (turns : list choice) (c : Client) (remote : RemoteState.Impl)
    (client server : X509) (nC eC nS eS : Z) (peer : Peer) (dials : list Peer)
    (greeting more : list (list Z)) (configured acknowledged rest : list Z)
    (mistyped : list string) (code : string) (secret : list Z) (w : World) :
  heap_wf w -> key_pair client server nC eC nS eS ->
  disconnects turns (remote_ c) remote -> pairing_ c = None ->
  let o := options_ remote in
  television o w client server peer dials greeting configured
    (stream_of (more ++ [acknowledged]) rest) ->
  acknowledges more acknowledged ->
  Forall (refused_code nC eC nS eS) mistyped ->
  secret_spec sha256 nC eC nS eS code = Ok secret ->
  exists c1 w1 w2 w3,
    startPairing turns (c, w) = Returns tt (c1, w1) /\
    refused_each mistyped (c1, w1) = Some (c1, w2) /\ net_ w2 = net_ w1 /\
    finishPairing code (c1, w2) = Returns tt (mkClient remote None, w3) /\
    heap_wf w3 /\ files_ w3 = files_ w /\
    net_ w3 = (net_ w ++ [Dialled (host o) (pairingPort o)] ++
      map (fun m => Wrote (frame m))
        (pairingRequest (clientName o) :: omap answer greeting ++ [Messages.pairingSecret secret]) ++
      [Closed])%list.
Proof using bignums digest. intros. by eapply pairing_runs. Qed.

(** C25. A secret that is not confirmed. When four messages with the status 200 bring no
    acknowledgement, [finishPairing] throws and closes the connection, but the session
    stays, so that the next [finishPairing] claims that it was called before
    [startPairing]. When one of the first four messages has another status, or none, and
    those before it brought no acknowledgement, it throws and leaves the connection open,
    whatever else the message says. *)
Theorem unconfirmed_secret (c : Client) (s : PairingSession.Impl) (context : SSL_CTX)
    (client server : X509) (nC eC nS eS : Z) (peer : Peer) (more : list (list Z))
    (final rest : list Z) (code : string) (secret : list Z) (w : World) :
  heap_wf w -> key_pair client server nC eC nS eS ->
  pairing_ c = Some s ->
  PairingSession.connection_ s = Some (to_come context peer (stream_of (more ++ [final]) rest)) ->
  identity_on_disk (PairingSession.certificateFile_ s) (PairingSession.privateKeyFile_ s) client w ->
  cooperative peer -> presented peer = Some server ->
  secret_spec sha256 nC eC nS eS code = Ok secret ->
  Forall (fun m => accepted m /\ hasSecretAck m = false) more -> (length more < 4)%nat ->
  size final <= frame_limit ->
  (pairingStatus final <> Some 200 -> exists w', heap_wf w' /\
     finishPairing code (c, w) =
       Throws (runtime_error "Android TV pairing protocol returned an error status")
         (with_pairing (Some (with_connection (Some (to_come context peer rest)) s)) c, w') /\
     net_ w' = (net_ w ++ [Wrote (frame (Messages.pairingSecret secret))])%list) /\
  (pairingStatus final = Some 200 -> hasSecretAck final = false -> length more = 3%nat ->
   exists w', heap_wf w' /\
     let c' := with_pairing (Some (with_connection None s)) c in
     finishPairing code (c, w) =
       Throws (runtime_error "Android TV did not acknowledge the pairing secret") (c', w') /\
     net_ w' = (net_ w ++ [Wrote (frame (Messages.pairingSecret secret)); Closed])%list /\
     forall code, finishPairing code (c', w') =
       Throws (runtime_error "finishPairing called before startPairing") (c', w')).
Proof using bignums digest.
  intros Hw Hk Hp Hc Hid Hco Hcert Hcode Hmore Hl Hf.
  destruct (finish_secret sha256 s client server nC eC nS eS context peer _ code w Hw Hc Hid Hcert Hk)
    as (w1 & [Hw1 (_ & _ & _ & Hn)] & E). rewrite Hcode in E. split.
  - intros Hst. exists (wrote [Messages.pairingSecret secret] w1). split; [by apply (heap_wf_frame w1)|].
    rewrite (finishPairing_eq code c s w Hp), E.
    rewrite (confirm_error secret s context peer more final rest w1) by done.
    split; [done|]. cbn. by rewrite Hn.
  - intros Hst Hack H3. exists (confirmed secret w1). split; [by apply (heap_wf_frame w1)|].
    cbv zeta. rewrite (finishPairing_eq code c s w Hp), E.
    rewrite (confirm_gives_up secret s context peer (more ++ [final]) rest w1).
    + split_and!; [done|cbn; by rewrite Hn, <- app_assoc|]. intros code'.
      by rewrite (finishPairing_eq code' _ (with_connection None s)).
    + done.
    + done.
    + apply Forall_app. split; [done|]. by repeat constructor.
    + rewrite length_app, H3. done.
Qed.

End pairing.

(** ** A pairing with the example implementation *)
Section example.

Definition reply (n : Z) : list Z := encode (pairing_reply 200 n []).

(** The television acknowledges the request, gives its options and acknowledges the
    configuration; then it acknowledges the secret. *)
Definition example_peer (last : list Z) : Peer (ssl := small_ssl) := {|
  resolving := Completes; connecting := Completes; handshaking := Completes;
  presented := Some "tv/aa:bb"; ending := None; accepting := []; shutting := true;
  incoming := stream_of ([reply 11; reply 20] ++ [reply 31]) (stream_of [last] []) |}.

Definition example_options : Options :=
  {| clientName := "me"; certificateFile := "cert.pem"; privateKeyFile := "key.pem";
     host := "tv"; apiPort := 6466; pairingPort := 6467; enableIme := true;
     enableVoice := false; autoReconnect := true |}.

Definition example_world (last : list Z) : World := small_world (small_files "me") [example_peer last].

Definition example_client : Client := mkClient (Impl_init example_options) None.

Definition example_turns : list choice := [RunPosted (Ok tt)].

Definition example_remote : RemoteState.Impl :=
  default (Impl_init example_options)
    (run example_turns (Remote.disconnectAndWait (Impl_init example_options))).

Definition example_secret : list Z := 254 :: repeat 255 31.

Lemma example_identity w :
  files_ w = small_files "me" -> disk_ w = small_disk ->
  identity_on_disk "cert.pem" "key.pem" "me" w.
Proof.
  intros Hf Hd. exists "key", "Cme", "Kkey". rewrite Hf, Hd. split_and!; try reflexivity.
  - apply small_usable.
  - intros []. exists "Cme", tt. split; [done|]. intros []. by exists tt.
  - intros []. exists "Kkey", tt. split; [done|]. intros []. by exists tt.
Defined.

Lemma example_keys : key_pair "me" "tv/aa:bb" (text_number "me") 65537 (text_number "tv/aa:bb") 65537.
Proof. split; [apply small_rsa|apply small_rsa|]. split_and!; by vm_compute. Defined.

Lemma example_cooperative last : cooperative (example_peer last).
Proof. by split. Defined.

Lemma example_accepted n : In n [11; 20; 31; 41; 42] -> accepted (reply n).
Proof.
  intros Hn. split.
  - by repeat destruct Hn as [<-|Hn]; [vm_compute; reflexivity..|destruct Hn].
  - by repeat destruct Hn as [<-|Hn]; [vm_compute; discriminate..|destruct Hn].
Defined.

Lemma example_greets : greets [reply 11; reply 20] (reply 31).
Proof.
  split; [repeat constructor; (try by apply example_accepted; cbn; tauto); by vm_compute|].
  split; [cbn; lia|]. split; [apply example_accepted; cbn; tauto|by vm_compute].
Defined.

Lemma example_television last :
  television example_options (example_world last) "me" "tv/aa:bb" (example_peer last) []
    [reply 11; reply 20] (reply 31) (stream_of [last] []).
Proof.
  split; [by apply example_identity|done|apply example_cooperative|done|apply example_greets|done].
Defined.

End example.

Lemma pairing_succeeds_witness :
  exists c1 w1 w2 w3,
    startPairing example_turns (example_client, example_world (reply 41)) = Returns tt (c1, w1) /\
    refused_each ["12"; "xyz000"; "000000"] (c1, w1) = Some (c1, w2) /\
    finishPairing "FE0000" (c1, w2) = Returns tt (mkClient example_remote None, w3).
Proof.
  destruct (pairing_succeeds small_digest example_turns example_client example_remote
    "me" "tv/aa:bb" (text_number "me") 65537 (text_number "tv/aa:bb") 65537
    (example_peer (reply 41)) [] [reply 11; reply 20] [] (reply 31) (reply 41) []
    ["12"; "xyz000"; "000000"] "FE0000" example_secret (example_world (reply 41)))
    as (c1 & w1 & w2 & w3 & H1 & H2 & _ & H3 & _).
  - by apply heap_unused.
  - apply example_keys.
  - split; [reflexivity|cbn; lia].
  - done.
  - apply example_television.
  - split; [constructor|]. split; [cbn; lia|]. split; [apply example_accepted; cbn; tauto|by vm_compute].
  - repeat constructor; by eexists; vm_compute.
  - by vm_compute.
  - exists c1, w1, w2, w3. split_and!; [exact H1|exact H2|exact H3].
Defined.

Definition example_session : PairingSession.Impl (ssl := small_ssl) :=
  with_connection
    (Some (to_come "" (example_peer [])
             (stream_of ([reply 42; reply 42; reply 42] ++ [reply 42]) [])))
    (session_of example_options).

Lemma unconfirmed_secret_witness :
  exists c' w',
    finishPairing "FE0000" (mkClient (Impl_init example_options) (Some example_session), example_world []) =
      Throws (runtime_error "Android TV did not acknowledge the pairing secret") (c', w') /\
    finishPairing "FE0000" (c', w') =
      Throws (runtime_error "finishPairing called before startPairing") (c', w').
Proof.
  destruct (unconfirmed_secret small_digest
    (mkClient (Impl_init example_options) (Some example_session)) example_session ""
    "me" "tv/aa:bb" (text_number "me") 65537 (text_number "tv/aa:bb") 65537 (example_peer [])
    [reply 42; reply 42; reply 42] (reply 42) [] "FE0000" example_secret (example_world []))
    as [_ H].
  - by apply heap_unused.
  - apply example_keys.
  - done.
  - done.
  - by apply example_identity.
  - apply example_cooperative.
  - done.
  - by vm_compute.
  - repeat constructor; (try by apply example_accepted; cbn; tauto); by vm_compute.
  - cbn. lia.
  - apply example_accepted; cbn; tauto.
  - destruct H as (w' & _ & H1 & _ & H2); [by vm_compute..|]. eexists _, w'. split; [exact H1|apply H2].
Defined.
