(* ===== verification/Cli.v ===== *)
(** * The command-line tool ([examples/remote_cli.cpp])

    [main] against the public interface, whatever implements it; the console is what it
    reads and writes. The first [sleep_for] is given the turns that the thread of [io_]
    makes meanwhile, and so is the second. *)

From S2P Require Import Prelude Types Messages Effects OpenSSL World Certificate CertificateInv.
From S2P Require Import KeyCodes RemoteState Remote RemoteInv RemoteSteps RemoteAtoms RemotePace Pairing PairingClient PairingInv Interface.

Local Open Scope Z_scope.
Local Open Scope cxx_scope.

Record Console := mkConsole { input : string; output : string; errors : string }.

#[export] Instance Console_settable : Settable Console := fun k =>
  mkConsole (input k) (output k) (errors k).

Definition endl : string := String "010" EmptyString.

(** [dir / file], for a file name that is not absolute. *)
Fixpoint ends_with_slash (path : string) : bool :=
  match path with
  | EmptyString => false
  | String c EmptyString => bool_decide (c = "/"%char)
  | String _ path => ends_with_slash path
  end.

Definition path_append (dir file : string) : string :=
  if bool_decide (dir = EmptyString) || ends_with_slash dir then dir +:+ file
  else dir +:+ "/" +:+ file.

(** [std::cin >> word]: the white space is skipped, and what follows it is left. *)
Definition is_space (c : ascii) : bool :=
  let n := N_of_ascii c in (n =? 32)%N || ((9 <=? n)%N && (n <=? 13)%N).

Fixpoint skip_spaces (s : string) : string :=
  match s with
  | String c rest => if is_space c then skip_spaces rest else s
  | EmptyString => s
  end.

Fixpoint take_word (s : string) : string * string :=
  match s with
  | String c rest =>
      if is_space c then (EmptyString, s)
      else let '(word, rest) := take_word rest in (String c word, rest)
  | EmptyString => (EmptyString, s)
  end.

(** The two callbacks it sets, and what they print. *)
Definition cli_callbacks : Callbacks :=
  {| onConnectionState := true; onPowerChanged := false; onCurrentAppChanged := false;
     onVolumeChanged := false; onDeviceInfoChanged := false; onAvailabilityChanged := false;
     onAuthenticationRequired := false; onVoiceStarted := false; onVoiceStopped := false;
     onError := true |}.

Definition tell (e : effect) (k : Console) : Console :=
  match e with
  | Notify (ConnectionStateIs Connected) => k <| output := output k +:+ "Connected" +:+ endl |>
  | Notify (Error error) => k <| errors := errors k +:+ "Error: " +:+ error +:+ endl |>
  | _ => k
  end.

Definition cli_options (host dir : string) : Options :=
  {| clientName := "libandroidtvremote"; certificateFile := path_append dir "cert.pem";
     privateKeyFile := path_append dir "key.pem"; RemoteState.host := host; apiPort := 6466;
     pairingPort := 6467; enableIme := true; enableVoice := true; autoReconnect := true |}.

(** [try { m } catch (const std::exception& error) { h }] *)
Definition catch {S A} (m : M S A) (h : exn -> M S A) : M S A := fun s =>
  match m s with Throws e s' => h e s' | o => o end.

Section cli.
Context {ssl : OpenSSL} {Object : Type} {api : Api.AndroidTvRemote Object}.

Abbreviation program := (M (Object * (Console * World))).

(** A call of [remote]. *)
Definition on_remote {A} (m : M (Object * World) A) : program A :=
  zoom (fun '(o, (k, w)) => Some (o, w)) (fun '(o, w) '(_, (k, _)) => (o, (k, w))) m.

Definition on_console (f : Console -> Console) : program unit :=
  modify (fun '(o, (k, w)) => (o, (f k, w))).

Definition cout (text : string) : program unit :=
  on_console (fun k => k <| output := output k +:+ text |>).

Definition cerr (text : string) : program unit :=
  on_console (fun k => k <| errors := errors k +:+ text |>).

Definition cin_word : program string :=
  word ← gets (fun '(_, (k, _)) => (take_word (skip_spaces (input k))).1);
  on_console (fun k => k <| input := (take_word (skip_spaces (input k))).2 |>) ;;
  mret word.

Definition sleep_for (turns : list choice) : program unit :=
  effects ← on_remote (Api.elapse turns);
  on_console (fun k => foldl (fun k e => tell e k) k effects).

(** The body of the [try]. *)
Definition cli_body (waiting connecting sending : list choice) (command : string)
    (rest : list string) : program Z :=
  generated ← on_remote Api.generateCertificateIfMissing;
  if bool_decide (command = "pair") then
    on_remote (Api.startPairing waiting) ;;
    cout "Pairing code displayed by Android TV: " ;;
    code ← cin_word;
    on_remote (Api.finishPairing code) ;;
    cout ("Pairing complete" +:+ endl) ;;
    mret 0
  else if (generated : bool) then
    cerr ("A new certificate was generated; pair the device first." +:+ endl) ;;
    mret 3
  else
    on_remote (Api.setCallbacks cli_callbacks) ;;
    on_remote Api.connect ;;
    sleep_for connecting ;;
    match bool_decide (command = "key"), rest with
    | true, name :: _ =>
        match keyCodeFromName name with
        | None => cerr ("Unknown key name: " +:+ name +:+ endl) ;; mret 4
        | Some key =>
            on_remote (Api.sendKey key Short) ;;
            sleep_for sending ;;
            mret 0
        end
    | _, _ => cerr ("Unknown command" +:+ endl) ;; mret 2
    end.

Definition cli_usage : string :=
  "Usage:" +:+ endl +:+
  "  androidtvremote-cli <host> <data-dir> pair" +:+ endl +:+
  "  androidtvremote-cli <host> <data-dir> key <KEY_NAME>" +:+ endl.

(** [argv] without the name of the program; the result has the object as it was last. *)
Definition main (waiting connecting sending : list choice) (argv : list string) :
    M (Console * World) (Z * option Object) :=
  match argv with
  | host :: dir :: command :: rest =>
      '(code, remote) ← with_local (Api.construct (cli_options host dir))
        (scope (catch (cli_body waiting connecting sending command rest)
                  (fun error => cerr ("Fatal: " +:+ what error +:+ endl) ;; mret 1))
               (on_remote Api.destruct));
      mret (code, Some remote)
  | _ =>
      modify (fun '(k, w) => (k <| errors := errors k +:+ cli_usage |>, w)) ;;
      mret (2, None)
  end.

(** ** What it does with any implementation *)
Context {wf : Object -> Prop} {safe_api : Api.SafeApi Object wf}.

Definition program_ok (s : Object * (Console * World)) : Prop := wf s.1 /\ heap_wf s.2.2.

Abbreviation safe_program m := (keeps program_ok program_ok m).

Lemma safe_on_remote {A} (m : M (Object * World) A) :
  keeps (beside wf) (beside wf) m -> safe_program (on_remote m).
Proof.
  intros Hm. apply (keeps_zoom _ _ (beside wf) (beside wf)); [done|..].
  - intros [o [k w]] [Ho Hw]. by exists (o, w).
  - by intros [o [k w]] [o' w'] _ [Ho Hw].
  - by intros [o [k w]] [o' w'] _ [Ho Hw].
Qed.

Lemma safe_on_console f : safe_program (on_console f).
Proof. apply keeps_modify. by intros [o [k w]] [Ho Hw]. Qed.

Lemma safe_cin_word : safe_program cin_word.
Proof.
  apply keeps_bind; [apply keeps_gets|intros word].
  apply keeps_bind; [apply safe_on_console|intros _; apply keeps_ret].
Qed.

Lemma safe_sleep_for turns : safe_program (sleep_for turns).
Proof.
  apply keeps_bind; [apply safe_on_remote, Api.api_elapse|intros effects]. apply safe_on_console.
Qed.

(** A safe step, then what follows. *)
Lemma safe_then {A C} (m : program A) (k : A -> program C) Q s :
  safe_program m -> program_ok s ->
  (forall a s, program_ok s -> wp (k a) Q (fun _ => program_ok) program_ok s) ->
  wp (m ≫= k) Q (fun _ => program_ok) program_ok s.
Proof. intros Hm Hs Hk. apply wp_bind. eapply wp_mono; [by apply Hm| |done|done]. auto. Qed.

Create HintDb cli.
#[local] Hint Resolve safe_on_console safe_sleep_for safe_cin_word : cli.
#[local] Hint Extern 1 (safe_program (on_remote _)) => apply safe_on_remote : cli.
#[local] Hint Resolve Api.api_generate Api.api_startPairing Api.api_finishPairing
  Api.api_setCallbacks Api.api_connect Api.api_sendKey : cli.

Ltac next := apply safe_then; [unfold cout, cerr; by auto with cli|done|intros].

Lemma body_safe waiting connecting sending command rest s :
  program_ok s ->
  wp (cli_body waiting connecting sending command rest)
    (fun code s => program_ok s /\ In code [0; 2; 3; 4]) (fun _ => program_ok) program_ok s.
Proof.
  intros Hs. unfold cli_body. next. rename a into generated. case_bool_decide.
  { next. next. next. next. next. split; [done|]. cbn. tauto. }
  destruct generated; [next; split; [done|]; cbn; tauto|]. next. next. next.
  destruct (bool_decide (command = "key")); [|next; split; [done|]; cbn; tauto].
  destruct rest as [|name rest]; [next; split; [done|]; cbn; tauto|].
  destruct (keyCodeFromName name); [|next; split; [done|]; cbn; tauto].
  next. next. split; [done|]. cbn. tauto.
Qed.

(** C22. The command-line tool cannot go wrong. Whatever it is given, and whatever OpenSSL, the
    disk, the network, the television and the thread of [io_] do, it does nothing
    undefined, lets no exception escape, leaves a well-formed object and heap to the
    destructor, and ends with one of its exit codes, 0 to 4, unless a call blocks. *)
Theorem cli_safe (waiting connecting sending : list choice) (argv : list string)
    (k : Console) (w : World) :
  heap_wf w ->
  wp (main waiting connecting sending argv)
    (fun r s => In r.1 [0; 1; 2; 3; 4] /\ (forall o, r.2 = Some o -> wf o) /\ heap_wf s.2)
    (fun _ _ => False) (fun s => heap_wf s.2) (k, w).
Proof using safe_api.
  intros Hw. unfold main.
  destruct argv as [|host [|dir [|command rest]]];
    try (unfold wp; cbn; split; [tauto|split; [by intros ? [=]|done]]).
  apply wp_bind. set (o := Api.construct _). set (body := scope _ _).
  assert (wp body (fun code s => program_ok s /\ In code [0; 1; 2; 3; 4]) (fun _ _ => False)
    program_ok (o, (k, w))) as H.
  { apply wp_scope. assert (program_ok (o, (k, w))) as Ho by (split; [apply Api.api_construct|done]).
    assert (forall s, program_ok s -> forall Q : Prop, Q ->
      wp (on_remote Api.destruct) (fun _ s => program_ok s /\ Q) (fun _ _ => False) program_ok s) as Hd.
    { intros [o1 [k1 w1]] [Ho1 Hw1] Q HQ. apply (wp_zoom _ _ _ _ _ _ _ (o1, w1)); [done|].
      pose proof (Api.api_destruct (o1, w1) (conj Ho1 Hw1)) as H. unfold wp in H.
      destruct (Api.destruct (o1, w1)) as [? [??]|? [??]|[??]|]; try done. }
    pose proof (body_safe waiting connecting sending command rest _ Ho) as H. unfold wp in H.
    unfold catch, wp at 1. destruct (cli_body _ _ _ _ _ (o, (k, w))) as [code s|e s|s|]; [| |done|done].
    - destruct H as [Hs Hc]. apply Hd; [done|]. cbn in Hc |- *. tauto.
    - apply Hd; [by destruct s as [? []], H|]. cbn. tauto. }
  unfold wp in H. unfold with_local, wp at 1. destruct (body (o, (k, w))) as [code [o1 s1]|? []|[]|]; try done.
  - destruct H as [[Ho1 Hw1] Hc]. unfold wp. cbn. split; [done|]. split; [by intros ? [= <-]|done].
  - by destruct H.
Qed.

End cli.
