(* ===== verification/CliProps.v ===== *)
(** * The command-line tool with the library

    What [main] does when the object is a [Client]: a key press, and a whole pairing, from
    the arguments and the console to the frames on the wire. *)

From S2P Require Import Prelude Types Wire WireSpec Messages MessagesSpec MessagesProps Effects OpenSSL World Certificate CertificateInv CertificateFiles ExampleSSL.
From S2P Require Import KeyCodes RemoteState Remote RemoteInv RemoteSteps RemoteSpec RemoteProps RemoteAtoms RemotePace RemoteCalls.
From S2P Require Import Pairing PairingClient PairingInv PairingRuns PairingDialogue PairingProps Interface Cli.

Local Open Scope Z_scope.
Local Open Scope cxx_scope.

Section key.
Context {ssl : OpenSSL}.
Implicit Types (c : Client) (k : Console) (w : World).

Lemma on_remote_returns {A} (m : M (Client * World) A) c k w a c' w' :
  m (c, w) = Returns a (c', w') -> on_remote m (c, (k, w)) = Returns a (c', (k, w')).
Proof. unfold on_remote, zoom. by intros ->. Qed.

Lemma on_impl_eq f c w : on_impl f (c, w) = Returns tt (c <| remote_ := f (remote_ c) |>, w).
Proof. done. Qed.

(** A forwarding call, then what follows. *)
Lemma on_remote_sets {A} f (m : unit -> M (Client * (Console * World)) A) c k w :
  (on_remote (on_impl f) ≫= m) (c, (k, w)) = m tt (mkClient (f (remote_ c)) (pairing_ c), (k, w)).
Proof. reflexivity. Qed.

(** What the console shows after some effects. *)
Definition shown (effects : list effect) (k : Console) : Console :=
  foldl (fun k e => tell e k) k effects.

Lemma shown_app l1 l2 k : shown (l1 ++ l2) k = shown l2 (shown l1 k).
Proof. apply foldl_app. Qed.

Lemma sleep_for_runs turns c k w s' :
  forallb io_turn turns = true -> run turns (remote_ c) = Some s' ->
  sleep_for turns (c, (k, w)) =
    Returns tt (c <| remote_ := s' |>, (shown (drop (length (trace_ (remote_ c))) (trace_ s')) k, w)).
Proof.
  intros Ht Hr. unfold sleep_for, on_remote, zoom, Api.elapse. cbn. unfold let_elapse, of_impl, on_impl.
  unfold mbind, M_bind, gets, modify. by rewrite Ht, Hr.
Qed.

Lemma generate_runs o c k w b w' :
  options_ (remote_ c) = o ->
  Certificate.generateCertificateIfMissing (certificateFile o) (privateKeyFile o) (clientName o) w =
    Returns b w' ->
  on_remote Api.generateCertificateIfMissing (c, (k, w)) = Returns b (c, (k, w')).
Proof.
  intros <- H. apply on_remote_returns. cbn. unfold PairingClient.generateCertificateIfMissing.
  erewrite bind_returns; [|reflexivity]. by apply outside_returns.
Qed.

(** The end of [main], when the body returns with no session. *)
Lemma main_returns waiting connecting sending host dir command rest k w code c k' w' :
  cli_body waiting connecting sending command rest
    (Api.construct (cli_options host dir), (k, w)) = Returns code (c, (k', w')) ->
  pairing_ c = None ->
  main (Object := Client) waiting connecting sending (host :: dir :: command :: rest) (k, w) =
    Returns (code, Some (c <| remote_ := Remote.destroy (remote_ c) |>)) (k', w').
Proof.
  intros H Hp. unfold main.
  rewrite (bind_returns _ _ (k, w) (code, c <| remote_ := Remote.destroy (remote_ c) |>) (k', w'));
    [reflexivity|].
  apply local_returns. unfold scope. erewrite bind_returns; [|unfold unwind, catch; rewrite H; reflexivity].
  erewrite bind_returns; [reflexivity|]. apply on_remote_returns.
  unfold Api.destruct. cbn. unfold destroy_client. erewrite bind_returns; [|apply on_impl_eq].
  unfold assign_pairing, mbind, M_bind, gets, modify. cbn. rewrite Hp.
  f_equal. f_equal. destruct c. cbn in *. by subst.
Qed.

End key.

Section theorems.
Context {ssl : OpenSSL}.

(** The object that the tool connects. *)
Definition cli_impl (host dir : string) : Impl :=
  Remote.connect (Remote.setCallbacks cli_callbacks (Impl_init (cli_options host dir))).

Ltac sets f c := refine (eq_trans (on_remote_sets f _ c _ _) _); cbv beta.

Lemma key_body host dir name key rest connecting sending waiting (k : Console) (w w1 : World) s1 s2 :
  let o := cli_options host dir in
  Certificate.generateCertificateIfMissing (certificateFile o) (privateKeyFile o) (clientName o) w =
    Returns false w1 ->
  keyCodeFromName name = Some key ->
  forallb io_turn connecting = true -> run connecting (cli_impl host dir) = Some s1 ->
  forallb io_turn sending = true -> run sending (Remote.sendKey key Short s1) = Some s2 ->
  cli_body waiting connecting sending "key" (name :: rest) (Api.construct o, (k, w)) =
    Returns 0 (mkClient s2 None, (shown (trace_ s2) k, w1)).
Proof.
  intros o Hg Hk Hc1 Hr1 Hc2 Hr2. unfold cli_body.
  rewrite (bind_returns _ _ _ _ _ (generate_runs o (mkClient (Impl_init o) None) k w false w1 eq_refl Hg)).
  rewrite bool_decide_eq_false_2 by done.
  sets (Remote.setCallbacks cli_callbacks) (mkClient (Impl_init o) (None : option PairingSession.Impl)).
  sets Remote.connect (mkClient (Remote.setCallbacks cli_callbacks (Impl_init o)) (None : option PairingSession.Impl)).
  rewrite (bind_returns _ _ _ _ _ (sleep_for_runs connecting (mkClient (cli_impl host dir) None) k w1 s1 Hc1 Hr1)).
  rewrite bool_decide_eq_true_2 by done. rewrite Hk.
  sets (Remote.sendKey key Short) (mkClient s1 (None : option PairingSession.Impl)).
  rewrite (bind_returns _ _ _ _ _ (sleep_for_runs sending (mkClient (Remote.sendKey key Short s1) None) _ w1 s2 Hc2 Hr2)).
  cbn [remote_ update]. change (trace_ (cli_impl host dir)) with (@nil effect).
  change (trace_ (Remote.sendKey key Short s1)) with (trace_ s1). rewrite drop_0, <- shown_app.
  destruct (run_trace _ _ _ Hr2) as [dn E]. change (trace_ (Remote.sendKey key Short s1)) with (trace_ s1) in E.
  rewrite E, drop_app_length. done.
Qed.

(** The thread of [io_] takes what is posted in its order, and posts nothing itself. *)
Lemma exec_posted c s s' :
  io_turn c = true -> exec c s = Some s' ->
  posted_ s' = drop (tasks_run [c]) (posted_ s) /\ (tasks_run [c] <= length (posted_ s))%nat.
Proof.
  intros Hc He. destruct c; try done; cbn [exec] in He.
  - destruct (posted_ s) as [|t l]; [done|]. apply (inj Some) in He. subst s'.
    destruct (task_promises t identity (s <| posted_ := l |>)) as [-> _]. cbn. split; [by rewrite drop_0|lia].
  - destruct (pending_ s !! i) as [[op c]|]; [|done].
    destruct (complete_promises _ _ _ _ _ _ He) as [-> _]. cbn. split; [by rewrite drop_0|lia].
Qed.

Lemma tasks_run_cons c turns : tasks_run (c :: turns) = (tasks_run [c] + tasks_run turns)%nat.
Proof. unfold tasks_run. by destruct c. Qed.

Lemma run_posted turns s s' :
  forallb io_turn turns = true -> run turns s = Some s' ->
  posted_ s' = drop (tasks_run turns) (posted_ s) /\ (tasks_run turns <= length (posted_ s))%nat.
Proof.
  revert s. induction turns as [|c turns IH]; intros s Ht Hr; cbn [run] in Hr.
  { injection Hr as <-. cbn. split; [by rewrite drop_0|lia]. }
  cbn [forallb] in Ht. apply andb_true_iff in Ht as [Hc Ht].
  destruct (exec c s) as [s1|] eqn:E; [|done].
  destruct (exec_posted _ _ _ Hc E) as [E1 L1]. destruct (IH s1 Ht Hr) as [E2 L2].
  rewrite tasks_run_cons, E2, E1, drop_drop. split; [done|].
  rewrite E1, length_drop in L2. lia.
Qed.

(** The turn that runs the [n]-th function object, from 0. *)
Lemma nth_task n turns :
  (n < tasks_run turns)%nat ->
  exists before identity after,
    turns = (before ++ RunPosted identity :: after)%list /\ tasks_run before = n.
Proof.
  revert n. induction turns as [|c turns IH]; intros n Hn; [by inversion Hn|].
  rewrite tasks_run_cons in Hn. destruct (decide (n < tasks_run [c])%nat) as [Hc|Hc].
  - destruct c; cbn in Hc; try lia. exists [], identity, turns. split; [done|]. cbn. lia.
  - destruct (IH (n - tasks_run [c])%nat) as (before & identity & after & -> & E); [lia|].
    exists (c :: before), identity, after. split; [done|]. rewrite tasks_run_cons. lia.
Qed.

(** The message is queued on a stream, and leaves no trace without one. *)
Lemma message_turn payload s identity :
  posted_ s = [TQueueMessage payload] ->
  exists s', exec (RunPosted identity) s = Some s' /\
    if stream_ s
    then queued (generation_ s) (trace_ s') = (queued (generation_ s) (trace_ s) ++ [payload])%list
    else s' = s <| posted_ := [] |>.
Proof.
  intros Hp. cbn [exec]. rewrite Hp. eexists. split; [reflexivity|]. cbn [run_task].
  assert (stream_ (s <| posted_ := [] |>) = stream_ s /\ generation_ (s <| posted_ := [] |>) = generation_ s /\
    trace_ (s <| posted_ := [] |>) = trace_ s) as (Es & Eg & Et) by done.
  set (s0 := s <| posted_ := [] |>) in *. clearbody s0. rewrite <- Es, <- Eg, <- Et.
  destruct (stream_ s0) eqn:Hs; [by apply observed_queueMessage|]. unfold queueMessage. by rewrite Hs.
Qed.

(** What becomes of a message that is posted last, in [turns] of the thread of [io_]: when
    they get so far, it is queued on the stream there is in its turn, or dropped. *)
Definition comes_of (payload : list Z) (s : Impl) (turns : list choice) (s' : Impl) : Prop :=
  if (length (posted_ s) <? tasks_run turns)%nat then
    exists before identity after sb,
      turns = (before ++ RunPosted identity :: after)%list /\ tasks_run before = length (posted_ s) /\
      run before (post (TQueueMessage payload) s) = Some sb /\ posted_ sb = [TQueueMessage payload] /\
      if stream_ sb
      then (queued (generation_ sb) (trace_ sb) ++ [payload])%list
             `prefix_of` queued (generation_ sb) (trace_ s')
      else run after (sb <| posted_ := [] |>) = Some s'
  else TQueueMessage payload ∈ posted_ s'.

Lemma message_comes payload s turns s' :
  forallb io_turn turns = true -> run turns (post (TQueueMessage payload) s) = Some s' ->
  comes_of payload s turns s'.
Proof.
  intros Ht Hr. unfold comes_of. destruct (Nat.ltb_spec (length (posted_ s)) (tasks_run turns)) as [Hn|Hn].
  - destruct (nth_task _ _ Hn) as (before & identity & after & -> & En).
    rewrite forallb_app in Ht. apply andb_true_iff in Ht as [Hb Ha].
    rewrite run_app in Hr.
    destruct (run before (post (TQueueMessage payload) s)) as [sb|] eqn:Eb; [|done].
    destruct (run_posted _ _ _ Hb Eb) as [Ep _]. rewrite En in Ep.
    change (posted_ (post _ s)) with (posted_ s ++ [TQueueMessage payload])%list in Ep.
    rewrite drop_app_length in Ep.
    exists before, identity, after, sb. split_and!; [done..|].
    destruct (message_turn payload sb identity Ep) as (s1 & He & Hs).
    cbn [mbind option_bind run] in Hr. rewrite He in Hr.
    destruct (stream_ sb); [|by rewrite <- Hs].
    destruct (run_trace _ _ _ Hr) as [dn E]. rewrite E, <- Hs. exists (queued (generation_ sb) dn).
    apply omap_app.
  - destruct (run_posted _ _ _ Ht Hr) as [Ep _].
    change (posted_ (post _ s)) with (posted_ s ++ [TQueueMessage payload])%list in Ep.
    rewrite drop_app_le in Ep by done. rewrite Ep. apply elem_of_app. right. by apply list_elem_of_singleton.
Qed.

(** C23. A key press from the command line. When the identity was there and the key has a code,
    then, whatever turns the I/O thread makes during the two sleeps, the tool ends with 0
    and the console shows exactly what the callbacks told. The key is one message with its
    code: if the turns of the second sleep get beyond what was posted before (the [connect],
    if it has not run yet), it is queued on the stream there is in its turn, open or being
    opened, and if there is none it is dropped and the turns go on without it; if they do
    not get so far, it is still posted when the tool ends. The exit code is 0 all the same. *)
Theorem cli_key (host dir name : string) (key : Z) (rest : list string)
    (waiting connecting sending : list choice) (k : Console) (w w1 : World) (s1 s2 : Impl) :
  let o := cli_options host dir in
  Certificate.generateCertificateIfMissing (certificateFile o) (privateKeyFile o) (clientName o) w =
    Returns false w1 ->
  keyCodeFromName name = Some key ->
  forallb io_turn connecting = true -> run connecting (cli_impl host dir) = Some s1 ->
  forallb io_turn sending = true -> run sending (Remote.sendKey key Short s1) = Some s2 ->
  main (Object := Client) waiting connecting sending
      (host :: dir :: "key" :: name :: rest) (k, w) =
    Returns (0, Some (mkClient (Remote.destroy s2) None)) (shown (trace_ s2) k, w1) /\
  comes_of (remoteKey key Short) s1 sending s2.
Proof.
  intros o Hg Hk Hc1 Hr1 Hc2 Hr2. split; [|by apply message_comes].
  refine (main_returns _ _ _ host dir "key" (name :: rest) k w 0 (mkClient s2 None) _ w1 _ eq_refl).
  exact (key_body host dir name key rest connecting sending waiting k w w1 s1 s2 Hg Hk Hc1 Hr1 Hc2 Hr2).
Qed.

(** ** Pairing *)
Context {bignums : BignumLaws ssl}.
Context (sha256 : list Z -> list Z) {digest : DigestLaws ssl sha256}.

(** The object when the thread of [io_] has run what [startPairing] posts. *)
Definition cli_disconnected (identity : setup) (o : Options) : Impl :=
  default (Impl_init o) (run [RunPosted identity] (Remote.disconnectAndWait (Impl_init o))).

Lemma cli_disconnects identity o :
  disconnects [RunPosted identity] (Impl_init o) (cli_disconnected identity o) /\
  options_ (cli_disconnected identity o) = o.
Proof. split; [split; [reflexivity|cbn; lia]|reflexivity]. Qed.

Lemma on_console_sets {A} f (m : unit -> M (Client * (Console * World)) A) c k w :
  (on_console f ≫= m) (c, (k, w)) = m tt (c, (f k, w)).
Proof. reflexivity. Qed.

Lemma cin_word_runs {A} (m : string -> M (Client * (Console * World)) A) c k w :
  (cin_word ≫= m) (c, (k, w)) =
  m (take_word (skip_spaces (input k))).1
    (c, (k <| input := (take_word (skip_spaces (input k))).2 |>, w)).
Proof. reflexivity. Qed.

(** What is typed and shown in a pairing. *)
Definition paired_console (k : Console) : Console :=
  {| input := (take_word (skip_spaces (input k))).2;
     output := (output k +:+ "Pairing code displayed by Android TV: ") +:+
               ("Pairing complete" +:+ endl);
     errors := errors k |}.

Lemma pair_body o rest waiting connecting sending (k : Console) (w w0 w1 w2 : World) generated c c' :
  Certificate.generateCertificateIfMissing (certificateFile o) (privateKeyFile o) (clientName o) w =
    Returns generated w0 ->
  startPairing waiting (mkClient (Impl_init o) None, w0) = Returns tt (c, w1) ->
  finishPairing (take_word (skip_spaces (input k))).1 (c, w1) = Returns tt (c', w2) ->
  cli_body waiting connecting sending "pair" rest (mkClient (Impl_init o) None, (k, w)) =
    Returns 0 (c', (paired_console k, w2)).
Proof.
  intros Hg Hs Hf. unfold cli_body.
  rewrite (bind_returns _ _ _ _ _ (generate_runs o (mkClient (Impl_init o) None) k w generated w0 eq_refl Hg)).
  rewrite bool_decide_eq_true_2 by exact eq_refl.
  refine (eq_trans (bind_returns _ _ _ _ _ (on_remote_returns _ _ _ _ _ _ _ Hs)) _).
  unfold cout. rewrite on_console_sets, cin_word_runs.
  refine (eq_trans (bind_returns _ _ _ _ _ (on_remote_returns _ _ _ _ _ _ _ Hf)) _).
  rewrite on_console_sets. reflexivity.
Qed.

(** C15. A pairing from the command line. When the identity is there or could be made, TLS
    takes it, the television greets and acknowledges, and the word that is typed is the code that
    it shows, the tool asks for the code, says that the pairing is complete and ends with
    0; it has dialled the pairing port of the host and nothing else, has written the
    request, the answers and the secret, in this order, has closed the connection, and
    leaves no session to the destructor. *)
Theorem cli_pairs (host dir : string) (rest : list string) (identity : setup)
    (connecting sending : list choice) (client server : X509) (nC eC nS eS : Z) (peer : Peer)
    (dials : list Peer) (greeting more : list (list Z)) (configured acknowledged later : list Z)
    (secret : list Z) (generated : bool) (k : Console) (w w0 : World) :
  let o := cli_options host dir in
  Certificate.generateCertificateIfMissing (certificateFile o) (privateKeyFile o) (clientName o) w =
    Returns generated w0 ->
  heap_wf w0 -> key_pair client server nC eC nS eS ->
  television o w0 client server peer dials greeting configured
    (stream_of (more ++ [acknowledged]) later) ->
  acknowledges more acknowledged ->
  secret_spec sha256 nC eC nS eS (take_word (skip_spaces (input k))).1 = Ok secret ->
  exists w1,
    main (Object := Client) [RunPosted identity] connecting sending
        (host :: dir :: "pair" :: rest) (k, w) =
      Returns (0, Some (mkClient (Remote.destroy (cli_disconnected identity o)) None))
        (paired_console k, w1) /\
    heap_wf w1 /\ files_ w1 = files_ w0 /\
    net_ w1 = (net_ w0 ++ [Dialled host 6467] ++
      map (fun m => Wrote (frame m))
        (pairingRequest "libandroidtvremote" :: omap answer greeting ++ [Messages.pairingSecret secret]) ++
      [Closed])%list.
Proof using bignums digest.
  intros o Hg Hw Hk Htv Hack Hcode. destruct (cli_disconnects identity o) as [Hd Ho].
  destruct (pairing_runs sha256 [RunPosted identity] (mkClient (Impl_init o) None)
    (cli_disconnected identity o) client server nC eC nS eS peer dials greeting more configured
    acknowledged later [] (take_word (skip_spaces (input k))).1 secret w0)
    as (c1 & w1 & w2 & w3 & E1 & [= ->] & _ & E3 & Hw3 & Hf3 & Hn3);
    [exact Hw|exact Hk|exact Hd|exact eq_refl|by rewrite Ho|exact Hack|constructor|exact Hcode|].
  rewrite Ho in Hn3. exists w3. split_and!; [|exact Hw3|exact Hf3|exact Hn3].
  refine (main_returns _ _ _ host dir "pair" rest k w 0 (mkClient (cli_disconnected identity o) None) _ w3 _ eq_refl).
  exact (pair_body o rest [RunPosted identity] connecting sending k w w0 w2 w3 generated c1 _ Hg E1 E3).
Qed.

End theorems.

(** ** The tool with the example implementation *)

(** A console on which [text] is typed. *)
Definition typed (text : string) : Console := mkConsole text "" "".

Lemma identity_there name dials :
  let w := small_world (small_files "me") dials in
  Certificate.generateCertificateIfMissing (ssl := small_ssl) "cert.pem" "key.pem" name w = Returns false w.
Proof. apply generate_nothing; [by eexists|by eexists|done..]. Qed.

Definition home_files : World := small_world (small_files "me") [].

(** The thread of [io_] connects; the television says that it is ready. *)
Definition cli_connecting : list choice :=
  [RunPosted (Ok tt); Complete 0 Succeeded (Ok tt); Complete 0 Succeeded (Ok tt); Complete 0 Succeeded (Ok tt)]
  ++ reading_start.

Definition cli_connected : Impl :=
  default (Impl_init tv_options) (run cli_connecting (cli_impl "tv" "")).

Definition cli_after_home : Impl :=
  default (Impl_init tv_options) (run [RunPosted (Ok tt)] (Remote.sendKey 3 Short cli_connected)).

(** With the [connect] still to be run when the second sleep begins, the key finds the stream
    that it makes; without a turn of the I/O thread it stays posted. *)
Definition cli_late : Impl :=
  default (Impl_init tv_options)
    (run [RunPosted (Ok tt); RunPosted (Ok tt)] (Remote.sendKey 3 Short (cli_impl "tv" ""))).

Lemma cli_key_witness :
  main (ssl := small_ssl) (Object := Client) [] cli_connecting [RunPosted (Ok tt)]
      ["tv"; ""; "key"; "home"] (typed "", home_files) =
    Returns (0, Some (mkClient (Remote.destroy cli_after_home) None))
      (mkConsole "" ("Connected" +:+ endl) "", home_files) /\
  comes_of (remoteKey 3 Short) cli_connected [RunPosted (Ok tt)] cli_after_home /\
  comes_of (remoteKey 3 Short) (cli_impl "tv" "") [RunPosted (Ok tt); RunPosted (Ok tt)] cli_late /\
  queued 1 (trace_ cli_late) = [remoteKey 3 Short].
Proof.
  destruct (cli_key (ssl := small_ssl) "tv" "" "home" 3 [] [] cli_connecting [RunPosted (Ok tt)] (typed "")
    home_files home_files cli_connected cli_after_home) as [H1 H2].
  - exact (identity_there _ []).
  - vm_compute. reflexivity.
  - reflexivity.
  - vm_compute. reflexivity.
  - reflexivity.
  - vm_compute. reflexivity.
  - assert (shown (trace_ cli_after_home) (typed "") = mkConsole "" ("Connected" +:+ endl) "") as E
      by (vm_compute; reflexivity).
    rewrite E in H1. split; [exact H1|]. split; [exact H2|]. split; [|vm_compute; reflexivity].
    destruct (cli_key (ssl := small_ssl) "tv" "" "home" 3 [] [] [] [RunPosted (Ok tt); RunPosted (Ok tt)]
      (typed "") home_files home_files (cli_impl "tv" "") cli_late) as [_ H3].
    + exact (identity_there _ []).
    + vm_compute. reflexivity.
    + reflexivity.
    + reflexivity.
    + reflexivity.
    + vm_compute. reflexivity.
    + exact H3.
Defined.

Lemma cli_television :
  television (cli_options "tv" "") (example_world (reply 41)) "me" "tv/aa:bb" (example_peer (reply 41)) []
    [reply 11; reply 20] (reply 31) (stream_of [reply 41] []).
Proof.
  split; [by apply example_identity|done|apply example_cooperative|done|apply example_greets|done].
Defined.

Lemma cli_pairs_witness :
  exists w1,
    main (ssl := small_ssl) (Object := Client) [RunPosted (Ok tt)] [] [] ["tv"; ""; "pair"]
      (typed " FE0000 ", example_world (reply 41)) =
    Returns (0, Some (mkClient (Remote.destroy (cli_disconnected (Ok tt) (cli_options "tv" ""))) None))
      (mkConsole " " ("Pairing code displayed by Android TV: Pairing complete" +:+ endl) "", w1).
Proof.
  destruct (cli_pairs (ssl := small_ssl) small_digest "tv" "" [] (Ok tt) [] [] "me" "tv/aa:bb"
    (text_number "me") 65537 (text_number "tv/aa:bb") 65537 (example_peer (reply 41)) []
    [reply 11; reply 20] [] (reply 31) (reply 41) [] example_secret false (typed " FE0000 ")
    (example_world (reply 41)) (example_world (reply 41))) as (w1 & H & _).
  - exact (identity_there _ [example_peer (reply 41)]).
  - by apply heap_unused.
  - apply example_keys.
  - apply cli_television.
  - split; [constructor|]. split; [cbn; lia|]. split; [apply example_accepted; cbn; tauto|by vm_compute].
  - by vm_compute.
  - exists w1. exact H.
Defined.

Lemma cli_safe_witness :
  wp (main (ssl := small_ssl) (Object := Client) [] [] [] ["tv"; "id"; "key"; "home"])
    (fun r s => In r.1 [0; 1; 2; 3; 4] /\ (forall o, r.2 = Some o -> client_wf o) /\ heap_wf s.2)
    (fun _ _ => False) (fun s => heap_wf s.2) (typed "", small_world ∅ []).
Proof. apply cli_safe. by apply heap_unused. Defined.
