(* ===== verification/Conformance.v ===== *)
(** * The test-suite, replayed ([tests/])

    The assertions of the repository's own tests, evaluated on the definitions: what
    they say of the code, they say of the model. *)

From S2P Require Import Prelude Wire Types Messages KeyCodes RemoteState Remote RemoteInv RemoteSteps RemoteSpec.

Local Open Scope Z_scope.
Local Open Scope cxx_scope.

(** ** [test_protocol.cpp] *)

Definition nested_message : list Z :=
  let nested := Writer.stringField Writer.init 1 "hello" in
  let outer := Writer.varintField Writer.init 1 300 in
  Writer.data_ (Writer.messageField outer 2 nested).

Example test_nested :
  findVarint nested_message 1 = Some 300 /\
  (findBytes nested_message 2 ≫= fun bytes => findBytes bytes 1) = Some (bytes_of_string "hello").
Proof. vm_compute. done. Qed.

Example test_key :
  (findBytes (remoteKey 26 Short) 10 ≫= fun nested => findVarint nested 1) = Some 26 /\
  (findBytes (remoteKey 26 Short) 10 ≫= fun nested => findVarint nested 2) = Some 3.
Proof. vm_compute. done. Qed.

Definition volume_message : list Z :=
  let volume := Writer.varintField (Writer.varintField (Writer.varintField Writer.init 6 100) 7 42) 8 1 in
  Writer.data_ (Writer.messageField Writer.init 50 volume).

Example test_volume :
  let parsed := parseRemote volume_message in
  kind parsed = KVolume /\ maximum (volume parsed) = 100 /\ level (volume parsed) = 42 /\
  muted (volume parsed) = true.
Proof. vm_compute. done. Qed.

Example test_frame : decodeVarintPrefix (frame (repeat 0x55 200)) = (true, 200, 2%nat).
Proof. vm_compute. done. Qed.

(** ** [test_certificate.cpp] *)

Example test_key_names :
  map keyCodeFromName ["POWER"; "keycode_dpad_up"; "0"; "MUTE"; "VOLUME_MUTE"; "NOT_A_KEY"] =
  [Some 26; Some 19; Some 7; Some 91; Some 164; None].
Proof. vm_compute. done. Qed.

(** ** [test_remote_integration.cpp] *)

(** The messages that the television of the test sends. *)
Definition inner (field : Z) (w : Writer.Writer) : list Z :=
  Writer.data_ (Writer.messageField Writer.init field w).

Definition tv_configure : list Z :=
  let info := Writer.stringField (Writer.stringField (Writer.stringField Writer.init 1 "Fake TV")
    2 "Test Vendor") 6 "1.2.3" in
  inner 1 (Writer.messageField (Writer.varintField Writer.init 1 (1 + 2 + 4 + 8 + 32 + 64 + 512)) 2 info).

Definition tv_set_active : list Z := inner 2 (Writer.varintField Writer.init 1 0).
Definition tv_started : list Z := inner 40 (Writer.varintField Writer.init 1 1).
Definition tv_pings (value : Z) : list Z := inner 8 (Writer.varintField Writer.init 1 value).

(** The completion of the first operation in flight that [test] picks. *)
Definition completes (test : operation -> bool) (o : outcome) (s : Impl) : option Impl :=
  match list_find test (ops s) with
  | Some (i, _) => exec (Complete i o (Ok tt)) s
  | None => None
  end.

Definition advances (o : outcome) : Impl -> option Impl :=
  completes (fun op => match op with Resolve _ _ _ | Connect _ | Handshake _ => true | _ => false end) o.

(** [sendFrame] of the test, for a short message: the length byte, then the body. *)
Definition tv_sends (message : list Z) (s : Impl) : option Impl :=
  completes (fun op => match op with ReadLength _ => true | _ => false end) (ReadByte (size message)) s ≫=
  completes (fun op => match op with ReadBody _ _ => true | _ => false end) (ReadBytes message).

(** [receiveFrame] of the test: the write that is in flight succeeds. *)
Definition tv_receives : Impl -> option Impl :=
  completes (fun op => match op with Write _ _ => true | _ => false end) Succeeded.

Definition test_options : Options :=
  {| clientName := "integration-test"; certificateFile := "cert.pem"; privateKeyFile := "key.pem";
     host := "127.0.0.1"; apiPort := 6466; pairingPort := 6467; enableIme := true;
     enableVoice := true; autoReconnect := false |}.

Definition test_callbacks : Callbacks :=
  {| onConnectionState := true; onPowerChanged := false; onCurrentAppChanged := false;
     onVolumeChanged := false; onDeviceInfoChanged := false; onAvailabilityChanged := false;
     onAuthenticationRequired := false; onVoiceStarted := false; onVoiceStopped := false;
     onError := true |}.

Definition remote_test : option Impl :=
  foldl (fun s happens => s ≫= happens) (Some (Impl_init test_options))
    [run [CallSetCallbacks test_callbacks; CallConnect; RunPosted (Ok tt)];
     advances Succeeded; advances Succeeded; advances Succeeded;
     tv_sends tv_configure; tv_receives; tv_sends tv_set_active; tv_receives; tv_sends tv_started;
     run [CallSendKey (KeyCode_value Home) Short; RunPosted (Ok tt)]; tv_receives;
     tv_sends (tv_pings 123); tv_receives].

(** The television has received these four messages, and the application was told of the
    states in this order; no error was reported. *)
Example remote_test_passes :
  option_map (fun s => (queued 1 (trace_ s), notified (trace_ s), state_ s, softwareVersion (deviceInfo_ s)))
    remote_test =
  Some ([remoteConfigureResponse 623; remoteSetActiveResponse 623; remoteKey 3 Short; remotePingResponse 123],
        [ConnectionStateIs Connecting; ConnectionStateIs Connected], Connected, "1.2.3").
Proof. vm_compute. reflexivity. Qed.

(** What the television of the test asserts of each message. *)
Example remote_test_messages :
  map (fun '(message, field) => bool_decide (findBytes message field = Some [] \/ findBytes message field = None))
    [(remoteConfigureResponse 623, 1); (remoteSetActiveResponse 623, 2); (remoteKey 3 Short, 10);
     (remotePingResponse 123, 9)] = [false; false; false; false] /\
  (findBytes (remotePingResponse 123) 9 ≫= fun ping => findVarint ping 1) = Some 123.
Proof. vm_compute. done. Qed.
